(** * BitChess: a shallow embedding of the rules core

    The embedding follows [bitboard.h], [bitboard.cpp], [board.h],
    [board.cpp] and [movegen.cpp].  A [Bitboard] ([uint64_t]) is a [Z] in
    [0, 2^64); every operation that can leave that range in C++ is wrapped
    with [u64].  Enumerations used as array indices ([PieceType], [Color])
    are inductive types; [Square], [Rank] and [File] are used
    arithmetically by the code and are integers. *)

From Stdlib Require Import ZArith List Bool Lia String Ascii.
Import ListNotations.
Local Open Scope Z_scope.

(** ** bitboard.h: basic types *)

Definition Bitboard := Z.

(** Truncation of an integer to [uint64_t]. *)
Definition u64 (z : Z) : Bitboard := Z.land z (Z.ones 64).

(** [~x] on a [uint64_t]. *)
Definition not64 (x : Bitboard) : Bitboard := u64 (Z.lnot x).

(** The value of an arithmetic result stored in an [int]: 32 bits in
    two's complement, so an increment of [INT_MAX] wraps around to
    [INT_MIN], as it does in the compiled program. *)
Definition wrap_int (z : Z) : Z := (z + 2 ^ 31) mod 2 ^ 32 - 2 ^ 31.

(** [x != 0], the truth value of a bitboard used as a condition. *)
Definition nz (x : Z) : bool := negb (x =? 0).

Inductive PieceType : Set :=
  PAWN | KNIGHT | BISHOP | ROOK | QUEEN | KING | NO_PIECE_TYPE.

Inductive Color : Set := WHITE | BLACK | NO_COLOR.

Definition PieceType_eqb (p q : PieceType) : bool :=
  match p, q with
  | PAWN, PAWN | KNIGHT, KNIGHT | BISHOP, BISHOP | ROOK, ROOK
  | QUEEN, QUEEN | KING, KING | NO_PIECE_TYPE, NO_PIECE_TYPE => true
  | _, _ => false
  end.

Definition Color_eqb (c d : Color) : bool :=
  match c, d with
  | WHITE, WHITE | BLACK, BLACK | NO_COLOR, NO_COLOR => true
  | _, _ => false
  end.

(** The integer value of a [Color], and the cast [Color(i)].  A value
    other than 0 or 1 is no index of a two-element array; the cast sends
    it to [NO_COLOR], on which every array access below is out of range. *)
Definition Color_to_int (c : Color) : Z :=
  match c with WHITE => 0 | BLACK => 1 | NO_COLOR => 2 end.

Definition Color_of_int (i : Z) : Color :=
  if i =? 0 then WHITE else if i =? 1 then BLACK else NO_COLOR.

Definition Square := Z.

Definition A1 : Square := 0.
Definition B1 : Square := 1.
Definition C1 : Square := 2.
Definition D1 : Square := 3.
Definition E1 : Square := 4.
Definition F1 : Square := 5.
Definition G1 : Square := 6.
Definition H1 : Square := 7.
Definition A2 : Square := 8.
Definition E2 : Square := 12.
Definition A5 : Square := 32.
Definition E4 : Square := 28.
Definition E5 : Square := 36.
Definition E6 : Square := 44.
Definition B7 : Square := 49.
Definition H6 : Square := 47.
Definition A6 : Square := 40.
Definition E7 : Square := 52.
Definition A8 : Square := 56.
Definition B8 : Square := 57.
Definition C8 : Square := 58.
Definition D8 : Square := 59.
Definition E8 : Square := 60.
Definition F8 : Square := 61.
Definition G8 : Square := 62.
Definition H8 : Square := 63.
Definition NO_SQUARE : Square := 64.
Definition RANK_1 : Z := 0.
Definition RANK_2 : Z := 1.
Definition RANK_7 : Z := 6.
Definition RANK_8 : Z := 7.
Definition FILE_A : Z := 0.
Definition FILE_B : Z := 1.
Definition FILE_G : Z := 6.
Definition FILE_H : Z := 7.

(** [1ULL << sq].  For [sq] outside [0, 63] the C++ shift is undefined;
    the model gives the empty set there.  An off-board square reaches a
    shift from a position, a move or a text outside the data model, for
    instance a pawn on its last rank in the pawn pushes, an en passant
    square that no double push produces, or a placement field that runs
    past the board. *)
Definition bit (sq : Square) : Bitboard := u64 (Z.shiftl 1 sq).

(** The real squares, in index order. *)
Definition all_squares : list Square := map Z.of_nat (seq 0 64).

Module BitboardConstants.

Definition FILE_MASKS (f : Z) : Bitboard :=
  nth (Z.to_nat f)
    [ 0x0101010101010101; 0x0202020202020202; 0x0404040404040404;
      0x0808080808080808; 0x1010101010101010; 0x2020202020202020;
      0x4040404040404040; 0x8080808080808080 ] 0.

Definition RANK_MASKS (r : Z) : Bitboard :=
  nth (Z.to_nat r)
    [ 0x00000000000000FF; 0x000000000000FF00; 0x0000000000FF0000;
      0x00000000FF000000; 0x000000FF00000000; 0x0000FF0000000000;
      0x00FF000000000000; 0xFF00000000000000 ] 0.

(** The diagonal masks.  (The comments beside them in the source name
    other squares than the masks hold; the values are the source's.) *)
Definition DIAGONAL_MASKS (d : Z) : Bitboard :=
  nth (Z.to_nat d)
    [ 0x0000000000000080; 0x0000000000008040; 0x0000000000804020;
      0x0000000080402010; 0x0000008040201008; 0x0000804020100804;
      0x0080402010080402; 0x8040201008040201; 0x4020100804020100;
      0x2010080402010000; 0x1008040201000000; 0x0804020100000000;
      0x0402010000000000; 0x0201000000000000; 0x0100000000000000 ] 0.

Definition ANTI_DIAGONAL_MASKS (d : Z) : Bitboard :=
  nth (Z.to_nat d)
    [ 0x0000000000000001; 0x0000000000000102; 0x0000000000010204;
      0x0000000001020408; 0x0000000102040810; 0x0000010204081020;
      0x0001020408102040; 0x0102040810204080; 0x0204081020408000;
      0x0408102040800000; 0x0810204080000000; 0x1020408000000000;
      0x2040800000000000; 0x4080000000000000; 0x8000000000000000 ] 0.

End BitboardConstants.

Module BitboardUtils.

Import BitboardConstants.

(** [sq / 8] and [sq % 8] are C++ integer division and remainder. *)
Definition squareRank (sq : Square) : Z := Z.quot sq 8.
Definition squareFile (sq : Square) : Z := Z.rem sq 8.
Definition squareFromRankFile (r f : Z) : Square := r * 8 + f.

Definition setBit (bb : Bitboard) (sq : Square) : Bitboard :=
  Z.lor bb (bit sq).
Definition clearBit (bb : Bitboard) (sq : Square) : Bitboard :=
  Z.land bb (not64 (bit sq)).
Definition testBit (bb : Bitboard) (sq : Square) : bool :=
  nz (Z.land bb (bit sq)).

(** [bb & (bb - 1)], with the subtraction on [uint64_t]. *)
Definition clearLowest (bb : Bitboard) : Bitboard :=
  Z.land bb (u64 (bb - 1)).

(** [popCount]: the loop [while (bb) { bb &= bb - 1; count++; }].  A
    64-bit word has at most 64 set bits, so 64 rounds of the loop body
    are all the loop can make ([popCount_bits] below: the result is the
    number of set bits). *)
Fixpoint popCount_loop (fuel : nat) (bb : Bitboard) (count : Z) : Z :=
  match fuel with
  | O => count
  | S k => if nz bb then popCount_loop k (clearLowest bb) (count + 1)
           else count
  end.

Definition popCount (bb : Bitboard) : Z := popCount_loop 64 bb 0.

(** [__builtin_ctzll] on a nonzero word. *)
Fixpoint ctz (p : positive) : Z :=
  match p with
  | xO q => 1 + ctz q
  | _ => 0
  end.

Definition lsb (bb : Bitboard) : Square :=
  match bb with
  | Zpos p => ctz p
  | _ => NO_SQUARE
  end.

(** [63 - __builtin_clzll(bb)]. *)
Definition msb (bb : Bitboard) : Square :=
  match bb with
  | Zpos p => Z.log2 (Zpos p)
  | _ => NO_SQUARE
  end.

(** [popLsb(Bitboard& bb)]: the pair is (returned value, new value of
    the argument). *)
Definition popLsb (bb : Bitboard) : Bitboard * Bitboard :=
  let result := bb in
  let bb' := clearLowest bb in
  (result, bb').

Definition generateKnightAttacks (sq : Square) : Bitboard :=
  let attacks := 0 in
  let bb := bit sq in
  let attacks := Z.lor attacks
    (Z.land (u64 (Z.shiftl bb 17)) (not64 (FILE_MASKS FILE_A))) in
  let attacks := Z.lor attacks
    (Z.land (u64 (Z.shiftl bb 10))
            (not64 (Z.lor (FILE_MASKS FILE_A) (FILE_MASKS FILE_B)))) in
  let attacks := Z.lor attacks
    (Z.land (Z.shiftr bb 6)
            (not64 (Z.lor (FILE_MASKS FILE_A) (FILE_MASKS FILE_B)))) in
  let attacks := Z.lor attacks
    (Z.land (Z.shiftr bb 15) (not64 (FILE_MASKS FILE_A))) in
  let attacks := Z.lor attacks
    (Z.land (Z.shiftr bb 17) (not64 (FILE_MASKS FILE_H))) in
  let attacks := Z.lor attacks
    (Z.land (Z.shiftr bb 10)
            (not64 (Z.lor (FILE_MASKS FILE_G) (FILE_MASKS FILE_H)))) in
  let attacks := Z.lor attacks
    (Z.land (u64 (Z.shiftl bb 6))
            (not64 (Z.lor (FILE_MASKS FILE_G) (FILE_MASKS FILE_H)))) in
  let attacks := Z.lor attacks
    (Z.land (u64 (Z.shiftl bb 15)) (not64 (FILE_MASKS FILE_H))) in
  attacks.

Definition generateKingAttacks (sq : Square) : Bitboard :=
  let attacks := 0 in
  let bb := bit sq in
  let attacks := Z.lor attacks (u64 (Z.shiftl bb 8)) in
  let attacks := Z.lor attacks
    (Z.land (u64 (Z.shiftl bb 9)) (not64 (FILE_MASKS FILE_A))) in
  let attacks := Z.lor attacks
    (Z.land (u64 (Z.shiftl bb 1)) (not64 (FILE_MASKS FILE_A))) in
  let attacks := Z.lor attacks
    (Z.land (Z.shiftr bb 7) (not64 (FILE_MASKS FILE_A))) in
  let attacks := Z.lor attacks (Z.shiftr bb 8) in
  let attacks := Z.lor attacks
    (Z.land (Z.shiftr bb 9) (not64 (FILE_MASKS FILE_H))) in
  let attacks := Z.lor attacks
    (Z.land (Z.shiftr bb 1) (not64 (FILE_MASKS FILE_H))) in
  let attacks := Z.lor attacks
    (Z.land (u64 (Z.shiftl bb 7)) (not64 (FILE_MASKS FILE_H))) in
  attacks.

Definition generatePawnAttacks (sq : Square) (color : Color) : Bitboard :=
  let attacks := 0 in
  let bb := bit sq in
  if Color_eqb color WHITE then
    let attacks := Z.lor attacks
      (Z.land (u64 (Z.shiftl bb 9)) (not64 (FILE_MASKS FILE_A))) in
    let attacks := Z.lor attacks
      (Z.land (u64 (Z.shiftl bb 7)) (not64 (FILE_MASKS FILE_H))) in
    attacks
  else
    let attacks := Z.lor attacks
      (Z.land (Z.shiftr bb 7) (not64 (FILE_MASKS FILE_A))) in
    let attacks := Z.lor attacks
      (Z.land (Z.shiftr bb 9) (not64 (FILE_MASKS FILE_H))) in
    attacks.

(** The [#else] branches of [lsb] and [msb], compiled when neither GCC
    nor Clang is the compiler: a De Bruijn multiplication on [uint64_t]
    and a table lookup. *)
Definition INDEX64_lsb : list Z :=
  [ 0;  1; 48;  2; 57; 49; 28;  3;
    61; 58; 50; 42; 38; 29; 17;  4;
    62; 55; 59; 36; 53; 51; 43; 22;
    45; 39; 33; 30; 24; 18; 12;  5;
    63; 47; 56; 27; 60; 41; 37; 16;
    54; 35; 52; 21; 44; 32; 23; 11;
    46; 26; 40; 15; 34; 20; 31; 10;
    25; 14; 19;  9; 13;  8;  7;  6 ].

Definition lsb_fallback (bb : Bitboard) : Square :=
  if bb =? 0 then NO_SQUARE
  else
    let isolated := Z.land bb (u64 (- bb)) in
    let index := Z.shiftr (u64 (isolated * 0x03f79d71b4cb0a89)) 58 in
    nth (Z.to_nat index) INDEX64_lsb 0.

Definition INDEX64_msb : list Z :=
  [ 0; 47;  1; 56; 48; 27;  2; 60;
    57; 49; 41; 37; 28; 16;  3; 61;
    54; 58; 35; 52; 50; 42; 21; 44;
    38; 32; 29; 23; 17; 11;  4; 62;
    46; 55; 26; 59; 40; 36; 15; 53;
    34; 51; 20; 43; 31; 22; 10; 45;
    25; 39; 14; 33; 19; 30;  9; 24;
    13; 18;  8; 12;  7;  6;  5; 63 ].

Definition msb_fallback (bb : Bitboard) : Square :=
  if bb =? 0 then NO_SQUARE
  else
    let bb := Z.lor bb (Z.shiftr bb 1) in
    let bb := Z.lor bb (Z.shiftr bb 2) in
    let bb := Z.lor bb (Z.shiftr bb 4) in
    let bb := Z.lor bb (Z.shiftr bb 8) in
    let bb := Z.lor bb (Z.shiftr bb 16) in
    let bb := Z.lor bb (Z.shiftr bb 32) in
    nth (Z.to_nat (Z.shiftr (u64 (bb * 0x03f79d71b4cb0a89)) 58)) INDEX64_msb 0.

End BitboardUtils.

(** The attack tables as [initBitboards] leaves them: entry [sq] of each
    table is the generated attack set of [sq], for [A1 <= sq < NO_SQUARE].
    A read outside a table is out of bounds in C++; the model reads 0. *)
Module AttackTables.

Import BitboardUtils.

Definition KNIGHT_ATTACKS_table : list Bitboard :=
  Eval vm_compute in map generateKnightAttacks all_squares.
Definition KING_ATTACKS_table : list Bitboard :=
  Eval vm_compute in map generateKingAttacks all_squares.
Definition PAWN_ATTACKS_WHITE_table : list Bitboard :=
  Eval vm_compute in map (fun sq => generatePawnAttacks sq WHITE) all_squares.
Definition PAWN_ATTACKS_BLACK_table : list Bitboard :=
  Eval vm_compute in map (fun sq => generatePawnAttacks sq BLACK) all_squares.

Definition lookup (t : list Bitboard) (sq : Square) : Bitboard :=
  if (0 <=? sq) && (sq <? 64) then nth (Z.to_nat sq) t 0 else 0.

Definition KNIGHT_ATTACKS (sq : Square) : Bitboard :=
  lookup KNIGHT_ATTACKS_table sq.
Definition KING_ATTACKS (sq : Square) : Bitboard :=
  lookup KING_ATTACKS_table sq.
Definition PAWN_ATTACKS (color : Color) (sq : Square) : Bitboard :=
  match color with
  | WHITE => lookup PAWN_ATTACKS_WHITE_table sq
  | BLACK => lookup PAWN_ATTACKS_BLACK_table sq
  | NO_COLOR => 0
  end.

End AttackTables.

(** ** Characters and strings

    A [char] is taken by its code in [0, 255].  (For bytes above 127 the
    sign of plain [char] is implementation-defined; no statement below
    depends on it.) *)

Definition code (c : ascii) : Z := Z.of_N (N_of_ascii c).
Definition char_of (z : Z) : ascii := ascii_of_N (Z.to_N (z mod 256)).

(** [s[i]]; [s[s.size()]] is the null character. *)
Definition char_at (s : string) (i : nat) : ascii :=
  match String.get i s with Some c => c | None => zero end.

Definition string_eqb (s t : string) : bool := String.eqb s t.

Definition isdigit (c : ascii) : bool := (48 <=? code c) && (code c <=? 57).
Definition isupper (c : ascii) : bool := (65 <=? code c) && (code c <=? 90).
Definition islower (c : ascii) : bool := (97 <=? code c) && (code c <=? 122).
Definition isspace (c : ascii) : bool :=
  (code c =? 32) || ((9 <=? code c) && (code c <=? 13)).
Definition tolower (c : ascii) : ascii :=
  if isupper c then char_of (code c + 32) else c.
Definition toupper (c : ascii) : ascii :=
  if islower c then char_of (code c - 32) else c.

(** ** board.h: moves *)

Record Move : Set := mkMove {
  from : Square;
  to : Square;
  promotion : PieceType
}.

(** [Move()], the invalid move. *)
Definition Move_invalid : Move := mkMove NO_SQUARE NO_SQUARE NO_PIECE_TYPE.

Definition isValid (m : Move) : bool :=
  negb (from m =? NO_SQUARE) && negb (to m =? NO_SQUARE).

Definition Move_eqb (m n : Move) : bool :=
  (from m =? from n) && (to m =? to n)
  && PieceType_eqb (promotion m) (promotion n).

Definition push_char (s : string) (c : ascii) : string :=
  (s ++ String c EmptyString)%string.

Definition toUci (m : Move) : string :=
  if negb (isValid m) then "0000"%string
  else
    let uci := EmptyString in
    let uci := push_char uci (char_of (code "a" + BitboardUtils.squareFile (from m))) in
    let uci := push_char uci (char_of (code "1" + BitboardUtils.squareRank (from m))) in
    let uci := push_char uci (char_of (code "a" + BitboardUtils.squareFile (to m))) in
    let uci := push_char uci (char_of (code "1" + BitboardUtils.squareRank (to m))) in
    match promotion m with
    | QUEEN => push_char uci "q"
    | ROOK => push_char uci "r"
    | BISHOP => push_char uci "b"
    | KNIGHT => push_char uci "n"
    | _ => uci
    end.

Definition fromUci (uci : string) : Move :=
  let len := Z.of_nat (String.length uci) in
  if (len <? 4) || (len >? 5) then Move_invalid
  else
    let fromFile := code (char_at uci 0) - code "a" in
    let fromRank := code (char_at uci 1) - code "1" in
    let toFile := code (char_at uci 2) - code "a" in
    let toRank := code (char_at uci 3) - code "1" in
    if (fromFile <? FILE_A) || (fromFile >? FILE_H)
       || (fromRank <? RANK_1) || (fromRank >? RANK_8)
       || (toFile <? FILE_A) || (toFile >? FILE_H)
       || (toRank <? RANK_1) || (toRank >? RANK_8)
    then Move_invalid
    else
      let from := BitboardUtils.squareFromRankFile fromRank fromFile in
      let to := BitboardUtils.squareFromRankFile toRank toFile in
      if len =? 5 then
        let c := char_at uci 4 in
        if Ascii.eqb c "q" then mkMove from to QUEEN
        else if Ascii.eqb c "r" then mkMove from to ROOK
        else if Ascii.eqb c "b" then mkMove from to BISHOP
        else if Ascii.eqb c "n" then mkMove from to KNIGHT
        else Move_invalid
      else mkMove from to NO_PIECE_TYPE.

(** ** board.h: the position *)

Definition WHITE_OO : Z := 1.
Definition WHITE_OOO : Z := 2.
Definition BLACK_OO : Z := 4.
Definition BLACK_OOO : Z := 8.
Definition NO_CASTLING : Z := 0.
Definition ANY_CASTLING : Z := 15.

(** [std::array<Bitboard, 6>], indexed by [PieceType]. *)
Record PieceArray : Set := mkPieceArray {
  at_PAWN : Bitboard;
  at_KNIGHT : Bitboard;
  at_BISHOP : Bitboard;
  at_ROOK : Bitboard;
  at_QUEEN : Bitboard;
  at_KING : Bitboard
}.

(** Index [NO_PIECE_TYPE] is past the end of the array: a read there is
    modelled as 0 and a write as no change. *)
Definition get6 (a : PieceArray) (p : PieceType) : Bitboard :=
  match p with
  | PAWN => at_PAWN a | KNIGHT => at_KNIGHT a | BISHOP => at_BISHOP a
  | ROOK => at_ROOK a | QUEEN => at_QUEEN a | KING => at_KING a
  | NO_PIECE_TYPE => 0
  end.

Definition set6 (a : PieceArray) (p : PieceType) (v : Bitboard) : PieceArray :=
  match p with
  | PAWN => mkPieceArray v (at_KNIGHT a) (at_BISHOP a) (at_ROOK a) (at_QUEEN a) (at_KING a)
  | KNIGHT => mkPieceArray (at_PAWN a) v (at_BISHOP a) (at_ROOK a) (at_QUEEN a) (at_KING a)
  | BISHOP => mkPieceArray (at_PAWN a) (at_KNIGHT a) v (at_ROOK a) (at_QUEEN a) (at_KING a)
  | ROOK => mkPieceArray (at_PAWN a) (at_KNIGHT a) (at_BISHOP a) v (at_QUEEN a) (at_KING a)
  | QUEEN => mkPieceArray (at_PAWN a) (at_KNIGHT a) (at_BISHOP a) (at_ROOK a) v (at_KING a)
  | KING => mkPieceArray (at_PAWN a) (at_KNIGHT a) (at_BISHOP a) (at_ROOK a) (at_QUEEN a) v
  | NO_PIECE_TYPE => a
  end.

Definition PieceArray_zero : PieceArray := mkPieceArray 0 0 0 0 0 0.

Record Board : Set := mkBoard {
  _piecesWhite : PieceArray;         (* _pieces[WHITE] *)
  _piecesBlack : PieceArray;         (* _pieces[BLACK] *)
  _allPiecesWhite : Bitboard;        (* _allPieces[WHITE] *)
  _allPiecesBlack : Bitboard;        (* _allPieces[BLACK] *)
  _occupiedSquares : Bitboard;
  _sideToMove : Color;
  _castlingRights : Z;
  _enPassantSquare : Square;
  _halfmoveClock : Z;
  _fullmoveNumber : Z;
  _chess960 : bool
}.

(** [_pieces[c][p]] and [_allPieces[c]]; index [NO_COLOR] is past the end
    of either array (read 0, write nothing). *)
Definition _pieces (b : Board) (c : Color) (p : PieceType) : Bitboard :=
  match c with
  | WHITE => get6 (_piecesWhite b) p
  | BLACK => get6 (_piecesBlack b) p
  | NO_COLOR => 0
  end.

Definition _allPieces (b : Board) (c : Color) : Bitboard :=
  match c with
  | WHITE => _allPiecesWhite b
  | BLACK => _allPiecesBlack b
  | NO_COLOR => 0
  end.

Definition set_pieces (b : Board) (c : Color) (p : PieceType) (v : Bitboard) : Board :=
  match c with
  | WHITE => mkBoard (set6 (_piecesWhite b) p v) (_piecesBlack b)
               (_allPiecesWhite b) (_allPiecesBlack b) (_occupiedSquares b)
               (_sideToMove b) (_castlingRights b) (_enPassantSquare b)
               (_halfmoveClock b) (_fullmoveNumber b) (_chess960 b)
  | BLACK => mkBoard (_piecesWhite b) (set6 (_piecesBlack b) p v)
               (_allPiecesWhite b) (_allPiecesBlack b) (_occupiedSquares b)
               (_sideToMove b) (_castlingRights b) (_enPassantSquare b)
               (_halfmoveClock b) (_fullmoveNumber b) (_chess960 b)
  | NO_COLOR => b
  end.

Definition set_combined (b : Board) (w k o : Bitboard) : Board :=
  mkBoard (_piecesWhite b) (_piecesBlack b) w k o
    (_sideToMove b) (_castlingRights b) (_enPassantSquare b)
    (_halfmoveClock b) (_fullmoveNumber b) (_chess960 b).

Definition set_sideToMove (b : Board) (c : Color) : Board :=
  mkBoard (_piecesWhite b) (_piecesBlack b)
    (_allPiecesWhite b) (_allPiecesBlack b) (_occupiedSquares b)
    c (_castlingRights b) (_enPassantSquare b)
    (_halfmoveClock b) (_fullmoveNumber b) (_chess960 b).

Definition set_castlingRights (b : Board) (r : Z) : Board :=
  mkBoard (_piecesWhite b) (_piecesBlack b)
    (_allPiecesWhite b) (_allPiecesBlack b) (_occupiedSquares b)
    (_sideToMove b) r (_enPassantSquare b)
    (_halfmoveClock b) (_fullmoveNumber b) (_chess960 b).

Definition set_enPassantSquare (b : Board) (sq : Square) : Board :=
  mkBoard (_piecesWhite b) (_piecesBlack b)
    (_allPiecesWhite b) (_allPiecesBlack b) (_occupiedSquares b)
    (_sideToMove b) (_castlingRights b) sq
    (_halfmoveClock b) (_fullmoveNumber b) (_chess960 b).

Definition set_halfmoveClock (b : Board) (n : Z) : Board :=
  mkBoard (_piecesWhite b) (_piecesBlack b)
    (_allPiecesWhite b) (_allPiecesBlack b) (_occupiedSquares b)
    (_sideToMove b) (_castlingRights b) (_enPassantSquare b)
    n (_fullmoveNumber b) (_chess960 b).

Definition set_fullmoveNumber (b : Board) (n : Z) : Board :=
  mkBoard (_piecesWhite b) (_piecesBlack b)
    (_allPiecesWhite b) (_allPiecesBlack b) (_occupiedSquares b)
    (_sideToMove b) (_castlingRights b) (_enPassantSquare b)
    (_halfmoveClock b) n (_chess960 b).

Definition set_chess960 (b : Board) (f : bool) : Board :=
  mkBoard (_piecesWhite b) (_piecesBlack b)
    (_allPiecesWhite b) (_allPiecesBlack b) (_occupiedSquares b)
    (_sideToMove b) (_castlingRights b) (_enPassantSquare b)
    (_halfmoveClock b) (_fullmoveNumber b) f.

(** [_pieces[c][p] &= ~(1ULL << sq)] and [_pieces[c][p] |= (1ULL << sq)]. *)
Definition remove_piece (b : Board) (c : Color) (p : PieceType) (sq : Square) : Board :=
  set_pieces b c p (Z.land (_pieces b c p) (not64 (bit sq))).

Definition put_piece (b : Board) (c : Color) (p : PieceType) (sq : Square) : Board :=
  set_pieces b c p (Z.lor (_pieces b c p) (bit sq)).

(** The loop bounds [PAWN .. KING]. *)
Definition piece_types : list PieceType :=
  [PAWN; KNIGHT; BISHOP; ROOK; QUEEN; KING].

(** The clearing loops at the head of [reset] and [setFromFen]: every
    bitboard of the board set to 0. *)
Definition clear_bitboards (b : Board) : Board :=
  mkBoard PieceArray_zero PieceArray_zero 0 0 0
    (_sideToMove b) (_castlingRights b) (_enPassantSquare b)
    (_halfmoveClock b) (_fullmoveNumber b) (_chess960 b).

Definition updateCombinedBitboards (b : Board) : Board :=
  let all c := fold_left (fun acc p => Z.lor acc (_pieces b c p)) piece_types 0 in
  let w := all WHITE in
  let k := all BLACK in
  set_combined b w k (Z.lor w k).

Definition reset (b : Board) : Board :=
  let b := clear_bitboards b in
  let b := set_pieces b WHITE PAWN 0x000000000000FF00 in
  let b := set_pieces b BLACK PAWN 0x00FF000000000000 in
  let b := set_pieces b WHITE KNIGHT 0x0000000000000042 in
  let b := set_pieces b BLACK KNIGHT 0x4200000000000000 in
  let b := set_pieces b WHITE BISHOP 0x0000000000000024 in
  let b := set_pieces b BLACK BISHOP 0x2400000000000000 in
  let b := set_pieces b WHITE ROOK 0x0000000000000081 in
  let b := set_pieces b BLACK ROOK 0x8100000000000000 in
  let b := set_pieces b WHITE QUEEN 0x0000000000000008 in
  let b := set_pieces b BLACK QUEEN 0x0800000000000000 in
  let b := set_pieces b WHITE KING 0x0000000000000010 in
  let b := set_pieces b BLACK KING 0x1000000000000000 in
  let b := updateCombinedBitboards b in
  let b := set_sideToMove b WHITE in
  let b := set_castlingRights b ANY_CASTLING in
  let b := set_enPassantSquare b NO_SQUARE in
  let b := set_halfmoveClock b 0 in
  set_fullmoveNumber b 1.

(** [Board::Board()]: the flag is off and the position is the starting
    array.  (The fields [reset] overwrites are left unwritten by the
    constructor before it calls [reset].) *)
Definition Board_new : Board :=
  reset (mkBoard PieceArray_zero PieceArray_zero 0 0 0 WHITE 0 0 0 0 false).

(** [pieceAt(sq, color)]: the pair is (returned piece type, [color]). *)
Definition pieceAt (b : Board) (sq : Square) : PieceType * Color :=
  let bb := bit sq in
  let scan c := find (fun piece => nz (Z.land (_pieces b c piece) bb)) piece_types in
  if nz (Z.land (_allPieces b WHITE) bb) then
    match scan WHITE with
    | Some piece => (piece, WHITE)
    | None => (NO_PIECE_TYPE, NO_COLOR)
    end
  else if nz (Z.land (_allPieces b BLACK) bb) then
    match scan BLACK with
    | Some piece => (piece, BLACK)
    | None => (NO_PIECE_TYPE, NO_COLOR)
    end
  else (NO_PIECE_TYPE, NO_COLOR).

(** ** movegen.cpp: attacks *)

(** One ray of a sliding piece: the loop
    [for (r, f; cond; r += dr, f += df) { attacks |= bit; if (occupied & bit) break; }],
    run for at most [fuel] rounds. *)
Fixpoint ray (fuel : nat) (cond : Z -> Z -> bool) (dr df : Z) (r f : Z)
    (occupied attacks : Bitboard) : Bitboard :=
  match fuel with
  | O => attacks
  | S k =>
      if cond r f then
        let s := BitboardUtils.squareFromRankFile r f in
        let attacks := Z.lor attacks (bit s) in
        if nz (Z.land occupied (bit s)) then attacks
        else ray k cond dr df (r + dr) (f + df) occupied attacks
      else attacks
  end.

(** The four loops of [generateRookAttacks], each run for at most [fuel]
    rounds. *)
Definition rook_rays (fuel : nat) (sq : Square) (occupied : Bitboard) : Bitboard :=
  let attacks := 0 in
  let rk := BitboardUtils.squareRank sq in
  let fl := BitboardUtils.squareFile sq in
  let attacks := ray fuel (fun r _ => r <=? RANK_8) 1 0 (rk + 1) fl occupied attacks in
  let attacks := ray fuel (fun r _ => r >=? RANK_1) (-1) 0 (rk - 1) fl occupied attacks in
  let attacks := ray fuel (fun _ f => f <=? FILE_H) 0 1 rk (fl + 1) occupied attacks in
  let attacks := ray fuel (fun _ f => f >=? FILE_A) 0 (-1) rk (fl - 1) occupied attacks in
  attacks.

(** Eight rounds are all a loop can make from a real square
    ([rook_rays_fuel] below). *)
Definition generateRookAttacks (sq : Square) (occupied : Bitboard) : Bitboard :=
  rook_rays 8 sq occupied.

Definition bishop_rays (fuel : nat) (sq : Square) (occupied : Bitboard) : Bitboard :=
  let attacks := 0 in
  let rk := BitboardUtils.squareRank sq in
  let fl := BitboardUtils.squareFile sq in
  let attacks := ray fuel (fun r f => (r <=? RANK_8) && (f <=? FILE_H)) 1 1
                   (rk + 1) (fl + 1) occupied attacks in
  let attacks := ray fuel (fun r f => (r >=? RANK_1) && (f <=? FILE_H)) (-1) 1
                   (rk - 1) (fl + 1) occupied attacks in
  let attacks := ray fuel (fun r f => (r >=? RANK_1) && (f >=? FILE_A)) (-1) (-1)
                   (rk - 1) (fl - 1) occupied attacks in
  let attacks := ray fuel (fun r f => (r <=? RANK_8) && (f >=? FILE_A)) 1 (-1)
                   (rk + 1) (fl - 1) occupied attacks in
  attacks.

Definition generateBishopAttacks (sq : Square) (occupied : Bitboard) : Bitboard :=
  bishop_rays 8 sq occupied.

Definition getPieceAttacks (pieceType : PieceType) (sq : Square) (color : Color)
    (occupied : Bitboard) : Bitboard :=
  match pieceType with
  | PAWN => AttackTables.PAWN_ATTACKS color sq
  | KNIGHT => AttackTables.KNIGHT_ATTACKS sq
  | BISHOP => generateBishopAttacks sq occupied
  | ROOK => generateRookAttacks sq occupied
  | QUEEN => Z.lor (generateBishopAttacks sq occupied) (generateRookAttacks sq occupied)
  | KING => AttackTables.KING_ATTACKS sq
  | NO_PIECE_TYPE => 0
  end.

(** ** board.cpp: attack queries *)

Definition isSquareAttacked (b : Board) (sq : Square) (attackingColor : Color) : bool :=
  let occ := _occupiedSquares b in
  nz (Z.land (getPieceAttacks PAWN sq (Color_of_int (1 - Color_to_int attackingColor)) occ)
             (_pieces b attackingColor PAWN))
  || nz (Z.land (getPieceAttacks KNIGHT sq NO_COLOR occ) (_pieces b attackingColor KNIGHT))
  || nz (Z.land (getPieceAttacks BISHOP sq NO_COLOR occ) (_pieces b attackingColor BISHOP))
  || nz (Z.land (getPieceAttacks ROOK sq NO_COLOR occ) (_pieces b attackingColor ROOK))
  || nz (Z.land (getPieceAttacks QUEEN sq NO_COLOR occ) (_pieces b attackingColor QUEEN))
  || nz (Z.land (getPieceAttacks KING sq NO_COLOR occ) (_pieces b attackingColor KING)).

Definition findKing (b : Board) (color : Color) : Square :=
  BitboardUtils.lsb (_pieces b color KING).

Definition isInCheck (b : Board) (color : Color) : bool :=
  let kingSquare := findKing b color in
  negb (kingSquare =? NO_SQUARE)
  && isSquareAttacked b kingSquare (Color_of_int (1 - Color_to_int color)).

(** ** board.cpp: makeMove *)

(** The guard of a castling branch: true when the branch executes
    [return false]. *)
Definition castling_refused (b : Board) (right : Z) (between : Bitboard)
    (us : Color) (transit : Square) (them : Color) : bool :=
  negb (nz (Z.land (_castlingRights b) right))
  || nz (Z.land (_occupiedSquares b) between)
  || isInCheck b us
  || isSquareAttacked b transit them.

(** The body of a castling branch after its guard. *)
Definition castling_apply (b : Board) (us : Color)
    (kfrom kto rfrom rto : Square) (rights : Z) : Board :=
  let b := remove_piece b us KING kfrom in
  let b := put_piece b us KING kto in
  let b := remove_piece b us ROOK rfrom in
  let b := put_piece b us ROOK rto in
  set_castlingRights b (Z.land (_castlingRights b) (Z.lnot rights)).

(** The statements "Move piece" shared by the regular king move and the
    regular piece move. *)
Definition move_piece (b : Board) (m : Move) (movingColor : Color)
    (movingPiece : PieceType) (isCapture : bool) (capturedColor : Color)
    (capturedPiece : PieceType) : Board :=
  let b := remove_piece b movingColor movingPiece (from m) in
  let b := if isCapture then remove_piece b capturedColor capturedPiece (to m) else b in
  put_piece b movingColor movingPiece (to m).

Definition clear_right_if (cond : bool) (b : Board) (right : Z) : Board :=
  if cond then set_castlingRights b (Z.land (_castlingRights b) (Z.lnot right)) else b.

(** The case analysis of [makeMove] between "Get captured piece" and
    "Update bitboards"; [None] is a [return false] from a castling guard,
    taken before anything is written. *)
Definition dispatch (b : Board) (m : Move) (movingColor : Color)
    (movingPiece : PieceType) (isCapture : bool) (capturedColor : Color)
    (capturedPiece : PieceType) : option Board :=
  let side := _sideToMove b in
  if PieceType_eqb movingPiece KING then
    if (from m =? E1) && (to m =? G1) && Color_eqb side WHITE then
      if castling_refused b WHITE_OO (Z.lor (bit F1) (bit G1)) WHITE F1 BLACK
      then None
      else Some (castling_apply b WHITE E1 G1 H1 F1 (Z.lor WHITE_OO WHITE_OOO))
    else if (from m =? E1) && (to m =? C1) && Color_eqb side WHITE then
      if castling_refused b WHITE_OOO (Z.lor (Z.lor (bit B1) (bit C1)) (bit D1)) WHITE D1 BLACK
      then None
      else Some (castling_apply b WHITE E1 C1 A1 D1 (Z.lor WHITE_OO WHITE_OOO))
    else if (from m =? E8) && (to m =? G8) && Color_eqb side BLACK then
      if castling_refused b BLACK_OO (Z.lor (bit F8) (bit G8)) BLACK F8 WHITE
      then None
      else Some (castling_apply b BLACK E8 G8 H8 F8 (Z.lor BLACK_OO BLACK_OOO))
    else if (from m =? E8) && (to m =? C8) && Color_eqb side BLACK then
      if castling_refused b BLACK_OOO (Z.lor (Z.lor (bit B8) (bit C8)) (bit D8)) BLACK D8 WHITE
      then None
      else Some (castling_apply b BLACK E8 C8 A8 D8 (Z.lor BLACK_OO BLACK_OOO))
    else
      let b :=
        if Color_eqb side WHITE
        then set_castlingRights b (Z.land (_castlingRights b) (Z.lnot (Z.lor WHITE_OO WHITE_OOO)))
        else set_castlingRights b (Z.land (_castlingRights b) (Z.lnot (Z.lor BLACK_OO BLACK_OOO))) in
      Some (move_piece b m movingColor movingPiece isCapture capturedColor capturedPiece)
  else if PieceType_eqb movingPiece PAWN && (to m =? _enPassantSquare b) then
    let capturedPawnSquare :=
      if Color_eqb side WHITE then _enPassantSquare b - 8 else _enPassantSquare b + 8 in
    let b := remove_piece b (Color_of_int (1 - Color_to_int side)) PAWN capturedPawnSquare in
    let b := remove_piece b movingColor movingPiece (from m) in
    let b := put_piece b movingColor movingPiece (to m) in
    Some (set_enPassantSquare b NO_SQUARE)
  else if PieceType_eqb movingPiece PAWN
          && negb (PieceType_eqb (promotion m) NO_PIECE_TYPE) then
    let b := remove_piece b movingColor PAWN (from m) in
    let b := if isCapture then remove_piece b capturedColor capturedPiece (to m) else b in
    Some (put_piece b movingColor (promotion m) (to m))
  else if PieceType_eqb movingPiece PAWN
          && (Z.abs (BitboardUtils.squareRank (to m) - BitboardUtils.squareRank (from m)) =? 2) then
    let b := remove_piece b movingColor movingPiece (from m) in
    let b := put_piece b movingColor movingPiece (to m) in
    Some (set_enPassantSquare b
            (if Color_eqb side WHITE then from m + 8 else from m - 8))
  else
    let b :=
      if PieceType_eqb movingPiece ROOK then
        if Color_eqb side WHITE then
          let b := clear_right_if (from m =? A1) b WHITE_OOO in
          clear_right_if (from m =? H1) b WHITE_OO
        else
          let b := clear_right_if (from m =? A8) b BLACK_OOO in
          clear_right_if (from m =? H8) b BLACK_OO
      else b in
    let b :=
      if isCapture && PieceType_eqb capturedPiece ROOK then
        if Color_eqb capturedColor WHITE then
          let b := clear_right_if (to m =? A1) b WHITE_OOO in
          clear_right_if (to m =? H1) b WHITE_OO
        else
          let b := clear_right_if (to m =? A8) b BLACK_OOO in
          clear_right_if (to m =? H8) b BLACK_OO
      else b in
    let b := move_piece b m movingColor movingPiece isCapture capturedColor capturedPiece in
    Some (set_enPassantSquare b NO_SQUARE).

(** The statements after the self-check test ("Update game state").
    [_halfmoveClock++] and [_fullmoveNumber++] are increments of an
    [int]. *)
Definition update_game_state (b : Board) (movingPiece : PieceType)
    (isCapture : bool) : Board :=
  let b := set_sideToMove b (if Color_eqb (_sideToMove b) WHITE then BLACK else WHITE) in
  let b :=
    if PieceType_eqb movingPiece PAWN || isCapture
    then set_halfmoveClock b 0
    else set_halfmoveClock b (wrap_int (_halfmoveClock b + 1)) in
  if Color_eqb (_sideToMove b) WHITE
  then set_fullmoveNumber b (wrap_int (_fullmoveNumber b + 1))
  else b.

(** [makeMove]: the pair is (returned value, the board afterwards). *)
Definition makeMove (b : Board) (m : Move) : bool * Board :=
  if negb (isValid m) then (false, b)
  else
    let '(movingPiece, movingColor) := pieceAt b (from m) in
    if negb (Color_eqb movingColor (_sideToMove b)) then (false, b)
    else
      let '(capturedPiece, capturedColor) := pieceAt b (to m) in
      let isCapture := negb (Color_eqb capturedColor NO_COLOR) in
      match dispatch b m movingColor movingPiece isCapture capturedColor capturedPiece with
      | None => (false, b)
      | Some b1 =>
          let b2 := updateCombinedBitboards b1 in
          if isInCheck b2 (_sideToMove b2) then (false, b2)
          else (true, update_game_state b2 movingPiece isCapture)
      end.

(** ** movegen.cpp: move generation *)

(** The loop [while (bb) { sq = lsb(bb); body; bb &= bb - 1; }].  A
    64-bit word has at most 64 set bits. *)
Fixpoint for_each_bit {A : Type} (fuel : nat) (bb : Bitboard)
    (body : Square -> A -> A) (acc : A) : A :=
  match fuel with
  | O => acc
  | S k =>
      if nz bb
      then for_each_bit k (BitboardUtils.clearLowest bb) body (body (BitboardUtils.lsb bb) acc)
      else acc
  end.

(** [moves.emplace_back(from, to, promotion)]. *)
Definition emplace_back (moves : list Move) (f t : Square) (p : PieceType) : list Move :=
  moves ++ [mkMove f t p].

Definition emplace_promotions (moves : list Move) (f t : Square) : list Move :=
  let moves := emplace_back moves f t QUEEN in
  let moves := emplace_back moves f t ROOK in
  let moves := emplace_back moves f t BISHOP in
  emplace_back moves f t KNIGHT.

(** The inner loop over a target set, shared by every piece kind. *)
Definition emplace_targets (moves : list Move) (f : Square) (targets : Bitboard) : list Move :=
  for_each_bit 64 targets (fun t moves => emplace_back moves f t NO_PIECE_TYPE) moves.

Definition pawn_moves (b : Board) (us : Color) (occupied : Bitboard)
    (f : Square) (moves : list Move) : list Move :=
  let pushDir := if Color_eqb us WHITE then 8 else -8 in
  let to1 := f + pushDir in
  let moves :=
    if negb (nz (Z.land occupied (bit to1))) then
      let moves :=
        if (Color_eqb us WHITE && (BitboardUtils.squareRank f =? RANK_7))
           || (Color_eqb us BLACK && (BitboardUtils.squareRank f =? RANK_2))
        then emplace_promotions moves f to1
        else emplace_back moves f to1 NO_PIECE_TYPE in
      if (Color_eqb us WHITE && (BitboardUtils.squareRank f =? RANK_2))
         || (Color_eqb us BLACK && (BitboardUtils.squareRank f =? RANK_7))
      then
        let to2 := to1 + pushDir in
        if negb (nz (Z.land occupied (bit to2)))
        then emplace_back moves f to2 NO_PIECE_TYPE
        else moves
      else moves
    else moves in
  let captures :=
    Z.land (AttackTables.PAWN_ATTACKS us f)
           (_allPieces b (Color_of_int (1 - Color_to_int us))) in
  let moves :=
    for_each_bit 64 captures
      (fun t moves =>
         if (Color_eqb us WHITE && (BitboardUtils.squareRank t =? RANK_8))
            || (Color_eqb us BLACK && (BitboardUtils.squareRank t =? RANK_1))
         then emplace_promotions moves f t
         else emplace_back moves f t NO_PIECE_TYPE)
      moves in
  if negb (_enPassantSquare b =? NO_SQUARE) then
    let epCaptures := Z.land (AttackTables.PAWN_ATTACKS us f) (bit (_enPassantSquare b)) in
    if nz epCaptures
    then emplace_back moves f (_enPassantSquare b) NO_PIECE_TYPE
    else moves
  else moves.

Definition castling_moves (b : Board) (us : Color) (occupied : Bitboard)
    (moves : list Move) : list Move :=
  let try (right : Z) (between : Bitboard) (e t : Square) (them : Color)
          (kto : Square) (moves : list Move) :=
    if nz (Z.land (_castlingRights b) right)
       && negb (nz (Z.land occupied between))
       && negb (isSquareAttacked b e them)
       && negb (isSquareAttacked b t them)
    then emplace_back moves e kto NO_PIECE_TYPE
    else moves in
  if Color_eqb us WHITE then
    let moves := try WHITE_OO (Z.lor (bit F1) (bit G1)) E1 F1 BLACK G1 moves in
    try WHITE_OOO (Z.lor (Z.lor (bit B1) (bit C1)) (bit D1)) E1 D1 BLACK C1 moves
  else
    let moves := try BLACK_OO (Z.lor (bit F8) (bit G8)) E8 F8 WHITE G8 moves in
    try BLACK_OOO (Z.lor (Z.lor (bit B8) (bit C8)) (bit D8)) E8 D8 WHITE C8 moves.

Definition generatePseudoLegalMoves (b : Board) : list Move :=
  let moves := [] in
  let us := _sideToMove b in
  let ourPieces := _allPieces b us in
  let occupied := _occupiedSquares b in
  let moves := for_each_bit 64 (_pieces b us PAWN) (pawn_moves b us occupied) moves in
  let moves :=
    for_each_bit 64 (_pieces b us KNIGHT)
      (fun f moves =>
         emplace_targets moves f (Z.land (AttackTables.KNIGHT_ATTACKS f) (not64 ourPieces)))
      moves in
  let moves :=
    for_each_bit 64 (_pieces b us BISHOP)
      (fun f moves =>
         emplace_targets moves f (Z.land (generateBishopAttacks f occupied) (not64 ourPieces)))
      moves in
  let moves :=
    for_each_bit 64 (_pieces b us ROOK)
      (fun f moves =>
         emplace_targets moves f (Z.land (generateRookAttacks f occupied) (not64 ourPieces)))
      moves in
  let moves :=
    for_each_bit 64 (_pieces b us QUEEN)
      (fun f moves =>
         emplace_targets moves f
           (Z.land (Z.lor (generateBishopAttacks f occupied) (generateRookAttacks f occupied))
                   (not64 ourPieces)))
      moves in
  let king := _pieces b us KING in
  if nz king then
    let f := BitboardUtils.lsb king in
    let moves := emplace_targets moves f (Z.land (AttackTables.KING_ATTACKS f) (not64 ourPieces)) in
    castling_moves b us occupied moves
  else moves.

Definition filterLegalMoves (b : Board) (pseudoLegalMoves : list Move) : list Move :=
  filter (fun move => fst (makeMove b move)) pseudoLegalMoves.

Definition generateLegalMoves (b : Board) : list Move :=
  filterLegalMoves b (generatePseudoLegalMoves b).

(** [getAttackedSquares] of [MoveGenerator]. *)
Definition getAttackedSquares (b : Board) (attackingColor : Color) : Bitboard :=
  let attacks := 0 in
  let occupied := _occupiedSquares b in
  let attacks :=
    for_each_bit 64 (_pieces b attackingColor PAWN)
      (fun sq attacks => Z.lor attacks (AttackTables.PAWN_ATTACKS attackingColor sq))
      attacks in
  let attacks :=
    for_each_bit 64 (_pieces b attackingColor KNIGHT)
      (fun sq attacks => Z.lor attacks (AttackTables.KNIGHT_ATTACKS sq))
      attacks in
  let attacks :=
    for_each_bit 64 (_pieces b attackingColor BISHOP)
      (fun sq attacks => Z.lor attacks (generateBishopAttacks sq occupied))
      attacks in
  let attacks :=
    for_each_bit 64 (_pieces b attackingColor ROOK)
      (fun sq attacks => Z.lor attacks (generateRookAttacks sq occupied))
      attacks in
  let attacks :=
    for_each_bit 64 (_pieces b attackingColor QUEEN)
      (fun sq attacks =>
         Z.lor attacks
           (Z.lor (generateBishopAttacks sq occupied) (generateRookAttacks sq occupied)))
      attacks in
  let king := _pieces b attackingColor KING in
  if nz king
  then Z.lor attacks (AttackTables.KING_ATTACKS (BitboardUtils.lsb king))
  else attacks.

(** [isKingInCheck] of [MoveGenerator]. *)
Definition isKingInCheck (b : Board) (kingColor : Color) : bool :=
  let kingSquare := findKing b kingColor in
  negb (kingSquare =? NO_SQUARE)
  && isSquareAttacked b kingSquare (Color_of_int (1 - Color_to_int kingColor)).

(** ** board.cpp: checkmate and stalemate *)

(** [legalMoves.empty()]. *)
Definition no_moves (moves : list Move) : bool :=
  match moves with
  | [] => true
  | _ :: _ => false
  end.

Definition isCheckmate (b : Board) : bool :=
  isInCheck b (_sideToMove b) && no_moves (generateLegalMoves b).

Definition isStalemate (b : Board) : bool :=
  negb (isInCheck b (_sideToMove b)) && no_moves (generateLegalMoves b).

(** ** Text input and output used by the FEN routines *)

(** [stream << n] for an [int]: the decimal digits, with a leading minus
    sign for a negative number. *)
Fixpoint digits_loop (fuel : nat) (n : Z) (acc : string) : string :=
  match fuel with
  | O => acc
  | S k =>
      let acc := String (char_of (code "0" + n mod 10)) acc in
      if n / 10 =? 0 then acc else digits_loop k (n / 10) acc
  end.

Definition digits (n : Z) : string :=
  digits_loop (S (Z.to_nat (Z.log2 n))) n EmptyString.

Definition int_to_string (n : Z) : string :=
  if n <? 0 then String "-" (digits (- n)) else digits n.

Definition INT_MIN : Z := - 2 ^ 31.
Definition INT_MAX : Z := 2 ^ 31 - 1.

(** The digits read by [strtol] in base 10: the longest prefix of digits,
    accumulated from the left. *)
Fixpoint read_digits (s : string) (acc : Z) : Z :=
  match s with
  | String c r => if isdigit c then read_digits r (acc * 10 + (code c - code "0")) else acc
  | EmptyString => acc
  end.

Fixpoint skip_ws (s : string) : string :=
  match s with
  | String c r => if isspace c then skip_ws r else s
  | EmptyString => EmptyString
  end.

(** [std::stoi(s)]: [None] stands for a thrown exception
    ([invalid_argument] when no digit can be read, [out_of_range] when the
    value does not fit an [int]). *)
Definition stoi (s : string) : option Z :=
  let s := skip_ws s in
  let '(negative, s) :=
    match s with
    | String c r =>
        if Ascii.eqb c "-" then (true, r)
        else if Ascii.eqb c "+" then (false, r)
        else (false, s)
    | EmptyString => (false, s)
    end in
  match s with
  | String c _ =>
      if isdigit c then
        let v := read_digits s 0 in
        let v := if negative then - v else v in
        if (INT_MIN <=? v) && (v <=? INT_MAX) then Some v else None
      else None
  | EmptyString => None
  end.

(** [ss >> token]: skip white space, then read up to the next white space
    or the end of the stream.  The pair is (token, rest of the stream); at
    the end of the stream the token stays empty. *)
Fixpoint read_word (s : string) : string * string :=
  match s with
  | String c r =>
      if isspace c then (EmptyString, s)
      else let '(w, rest) := read_word r in (String c w, rest)
  | EmptyString => (EmptyString, EmptyString)
  end.

Definition extract (ss : string) : string * string := read_word (skip_ws ss).

Definition empty (s : string) : bool :=
  match s with EmptyString => true | _ => false end.

(** ** board.cpp: setFromFen *)

(** The [switch (tolower(c))] of the placement loop. *)
Definition piece_of_char (c : ascii) : option PieceType :=
  let l := tolower c in
  if Ascii.eqb l "p" then Some PAWN
  else if Ascii.eqb l "n" then Some KNIGHT
  else if Ascii.eqb l "b" then Some BISHOP
  else if Ascii.eqb l "r" then Some ROOK
  else if Ascii.eqb l "q" then Some QUEEN
  else if Ascii.eqb l "k" then Some KING
  else None.

(** The loop over the placement field.  The boolean is [false] when the
    loop leaves the function with [return false]; the board is the state
    at that point. *)
Fixpoint parse_placement (cs : string) (rank file : Z) (b : Board) : bool * Board :=
  match cs with
  | EmptyString => (true, b)
  | String c rest =>
      if Ascii.eqb c "/" then parse_placement rest (rank - 1) 0 b
      else if isdigit c then parse_placement rest rank (file + (code c - code "0")) b
      else
        let sq := BitboardUtils.squareFromRankFile rank file in
        let color := if isupper c then WHITE else BLACK in
        match piece_of_char c with
        | None => (false, b)
        | Some pieceType =>
            parse_placement rest rank (file + 1) (put_piece b color pieceType sq)
        end
  end.

(** The loop over the castling field in standard notation. *)
Fixpoint parse_castling (cs : string) (b : Board) : bool * Board :=
  match cs with
  | EmptyString => (true, b)
  | String c rest =>
      let add r := parse_castling rest (set_castlingRights b (Z.lor (_castlingRights b) r)) in
      if Ascii.eqb c "K" then add WHITE_OO
      else if Ascii.eqb c "Q" then add WHITE_OOO
      else if Ascii.eqb c "k" then add BLACK_OO
      else if Ascii.eqb c "q" then add BLACK_OOO
      else (false, b)
  end.

(** The loop over the castling field when [_chess960] is set. *)
Fixpoint parse_castling960 (cs : string) (b : Board) : bool * Board :=
  match cs with
  | EmptyString => (true, b)
  | String c rest =>
      let add r := parse_castling960 rest (set_castlingRights b (Z.lor (_castlingRights b) r)) in
      if (code "A" <=? code c) && (code c <=? code "H") then add NO_CASTLING
      else if (code "a" <=? code c) && (code c <=? code "h") then add NO_CASTLING
      else (false, b)
  end.

(** [setFromFen]: the pair is (returned value, the board afterwards). *)
Definition setFromFen (b : Board) (fen : string) : bool * Board :=
  let b := clear_bitboards b in
  let '(board, ss) := extract fen in
  let '(activeColor, ss) := extract ss in
  let '(castling, ss) := extract ss in
  let '(enPassant, ss) := extract ss in
  let '(halfmove, ss) := extract ss in
  let '(fullmove, ss) := extract ss in
  if empty board || empty activeColor || empty castling
     || empty enPassant || empty halfmove || empty fullmove
  then (false, b)
  else
    match parse_placement board 7 0 b with
    | (false, b) => (false, b)
    | (true, b) =>
        let b := set_sideToMove b (if string_eqb activeColor "w" then WHITE else BLACK) in
        let b := set_castlingRights b 0 in
        match
          (if negb (string_eqb castling "-") then
             if _chess960 b then parse_castling960 castling b
             else parse_castling castling b
           else (true, b))
        with
        | (false, b) => (false, b)
        | (true, b) =>
            let b :=
              if string_eqb enPassant "-" then set_enPassantSquare b NO_SQUARE
              else
                let file := code (char_at enPassant 0) - code "a" in
                let rank := code (char_at enPassant 1) - code "1" in
                set_enPassantSquare b (BitboardUtils.squareFromRankFile rank file) in
            match stoi halfmove with
            | None => (false, b)
            | Some h =>
                let b := set_halfmoveClock b h in
                match stoi fullmove with
                | None => (false, b)
                | Some f =>
                    let b := set_fullmoveNumber b f in
                    (true, updateCombinedBitboards b)
                end
            end
        end
    end.

(** ** board.cpp: getFen *)

Definition piece_char (p : PieceType) : ascii :=
  match p with
  | PAWN => "p" | KNIGHT => "n" | BISHOP => "b"
  | ROOK => "r" | QUEEN => "q" | KING => "k"
  | NO_PIECE_TYPE => "?"
  end%char.

Definition flush_empty (emptyCount : Z) : string :=
  if emptyCount >? 0 then int_to_string emptyCount else EmptyString.

(** The loop over the files of one rank, with the flush of the trailing
    run of empty squares that follows it.  The result is the text sent to
    the stream. *)
Fixpoint fen_files (b : Board) (rank : Z) (files : list Z) (emptyCount : Z) : string :=
  match files with
  | [] => flush_empty emptyCount
  | file :: rest =>
      let sq := BitboardUtils.squareFromRankFile rank file in
      let '(pieceType, pieceColor) := pieceAt b sq in
      if PieceType_eqb pieceType NO_PIECE_TYPE
      then fen_files b rank rest (emptyCount + 1)
      else
        let pieceChar := piece_char pieceType in
        let pieceChar := if Color_eqb pieceColor WHITE then toupper pieceChar else pieceChar in
        (flush_empty emptyCount ++ String pieceChar (fen_files b rank rest 0))%string
  end.

Definition files_0_7 : list Z := [0; 1; 2; 3; 4; 5; 6; 7].
Definition ranks_7_0 : list Z := [7; 6; 5; 4; 3; 2; 1; 0].

Fixpoint fen_ranks (b : Board) (ranks : list Z) : string :=
  match ranks with
  | [] => EmptyString
  | rank :: rest =>
      (fen_files b rank files_0_7 0
       ++ (if rank >? 0 then "/" else "")
       ++ fen_ranks b rest)%string
  end.

Definition fen_castling (b : Board) : string :=
  if _castlingRights b =? 0 then "-"%string
  else
    ((if nz (Z.land (_castlingRights b) WHITE_OO) then "K" else "")
     ++ (if nz (Z.land (_castlingRights b) WHITE_OOO) then "Q" else "")
     ++ (if nz (Z.land (_castlingRights b) BLACK_OO) then "k" else "")
     ++ (if nz (Z.land (_castlingRights b) BLACK_OOO) then "q" else ""))%string.

Definition fen_enPassant (b : Board) : string :=
  if _enPassantSquare b =? NO_SQUARE then "-"%string
  else
    String (char_of (code "a" + BitboardUtils.squareFile (_enPassantSquare b)))
      (String (char_of (code "1" + BitboardUtils.squareRank (_enPassantSquare b)))
         EmptyString).

Definition getFen (b : Board) : string :=
  (fen_ranks b ranks_7_0
   ++ (if Color_eqb (_sideToMove b) WHITE then " w " else " b ")
   ++ fen_castling b
   ++ " "
   ++ fen_enPassant b
   ++ " " ++ int_to_string (_halfmoveClock b)
   ++ " " ++ int_to_string (_fullmoveNumber b))%string.

(** ** board.cpp: isInsufficientMaterial *)

Definition isInsufficientMaterial (b : Board) : bool :=
  let popCount := BitboardUtils.popCount in
  if popCount (_occupiedSquares b) =? 2 then true
  else
    let minor_case :=
      if popCount (_occupiedSquares b) =? 3 then
        if (popCount (_allPieces b WHITE) =? 1) || (popCount (_allPieces b BLACK) =? 1)
        then
          let minorPieces :=
            Z.lor (Z.lor (Z.lor (_pieces b WHITE KNIGHT) (_pieces b WHITE BISHOP))
                         (_pieces b BLACK KNIGHT))
                  (_pieces b BLACK BISHOP) in
          Some (popCount minorPieces =? 1)
        else None
      else None in
    match minor_case with
    | Some r => r
    | None =>
        let bishop_case :=
          if popCount (_occupiedSquares b) =? 4 then
            if (popCount (_pieces b WHITE BISHOP) =? 1)
               && (popCount (_pieces b BLACK BISHOP) =? 1)
               && (popCount (_allPieces b WHITE) =? 2)
               && (popCount (_allPieces b BLACK) =? 2)
            then
              let whiteBishopSq := BitboardUtils.lsb (_pieces b WHITE BISHOP) in
              let blackBishopSq := BitboardUtils.lsb (_pieces b BLACK BISHOP) in
              let whiteSquareIsLight :=
                Z.rem (BitboardUtils.squareRank whiteBishopSq
                       + BitboardUtils.squareFile whiteBishopSq) 2 =? 0 in
              let blackSquareIsLight :=
                Z.rem (BitboardUtils.squareRank blackBishopSq
                       + BitboardUtils.squareFile blackBishopSq) 2 =? 0 in
              Some (Bool.eqb whiteSquareIsLight blackSquareIsLight)
            else None
          else None in
        match bishop_case with
        | Some r => r
        | None => false
        end
    end.

(** ** Notions used to state the properties *)

Definition real_square (sq : Square) : Prop := 0 <= sq < 64.

(** A move is structurally valid when both squares are real. *)
Definition structurally_valid (m : Move) : Prop :=
  real_square (from m) /\ real_square (to m).

Definition in_u64 (x : Z) : Prop := 0 <= x < 2 ^ 64.

(** The number of squares in a square set. *)
Definition bits (bb : Bitboard) : nat :=
  List.length (filter (Z.testbit bb) all_squares).

(** The positions the program can reach: the constructor's position, a
    reset, a successful FEN parse, an accepted move. *)
Inductive reachable : Board -> Prop :=
| reachable_new : reachable Board_new
| reachable_reset b : reachable b -> reachable (reset b)
| reachable_fen b fen b' :
    reachable b -> setFromFen b fen = (true, b') -> reachable b'
| reachable_move b m b' :
    reachable b -> makeMove b m = (true, b') -> reachable b'.

(** Playing a list of UCI moves, as the driver does for
    [position startpos moves ...]. *)
Definition play (b : Board) (ms : list string) : Board :=
  fold_left (fun b s => snd (makeMove b (fromUci s))) ms b.

(** The castling-rights invariant of the data model: a set right has its
    rook on the corner and its king on the original square. *)
Definition right_supported (b : Board) (right : Z) (c : Color)
    (rookSq kingSq : Square) : bool :=
  negb (nz (Z.land (_castlingRights b) right))
  || (Z.testbit (_pieces b c ROOK) rookSq && Z.testbit (_pieces b c KING) kingSq).

Definition castling_invariant (b : Board) : bool :=
  right_supported b WHITE_OO WHITE H1 E1
  && right_supported b WHITE_OOO WHITE A1 E1
  && right_supported b BLACK_OO BLACK H8 E8
  && right_supported b BLACK_OOO BLACK A8 E8.

(** Whether every move of a list is accepted when played in order. *)
Fixpoint all_accepted (b : Board) (ms : list string) : bool :=
  match ms with
  | [] => true
  | s :: rest =>
      fst (makeMove b (fromUci s)) && all_accepted (snd (makeMove b (fromUci s))) rest
  end.

(** The castling-specific preconditions of [makeMove]: true when the
    move has the shape of a castling move of the side to move and the
    guard of that branch refuses it. *)
Definition castling_preconditions_fail (b : Board) (m : Move)
    (movingPiece : PieceType) : bool :=
  let side := _sideToMove b in
  PieceType_eqb movingPiece KING
  && (if (from m =? E1) && (to m =? G1) && Color_eqb side WHITE then
        castling_refused b WHITE_OO (Z.lor (bit F1) (bit G1)) WHITE F1 BLACK
      else if (from m =? E1) && (to m =? C1) && Color_eqb side WHITE then
        castling_refused b WHITE_OOO (Z.lor (Z.lor (bit B1) (bit C1)) (bit D1)) WHITE D1 BLACK
      else if (from m =? E8) && (to m =? G8) && Color_eqb side BLACK then
        castling_refused b BLACK_OO (Z.lor (bit F8) (bit G8)) BLACK F8 WHITE
      else if (from m =? E8) && (to m =? C8) && Color_eqb side BLACK then
        castling_refused b BLACK_OOO (Z.lor (Z.lor (bit B8) (bit C8)) (bit D8)) BLACK D8 WHITE
      else false).

(** The board [makeMove] tests for self-check: the case analysis applied
    with the pieces found on the two squares, then the derived bitboards
    recomputed. *)
Definition applied (b : Board) (m : Move) : option Board :=
  let '(movingPiece, movingColor) := pieceAt b (from m) in
  let '(capturedPiece, capturedColor) := pieceAt b (to m) in
  option_map updateCombinedBitboards
    (dispatch b m movingColor movingPiece
       (negb (Color_eqb capturedColor NO_COLOR)) capturedColor capturedPiece).

Definition Move_in (m : Move) (l : list Move) : bool := existsb (Move_eqb m) l.

(** The invariants of the data model on the bitboards: every piece
    bitboard is a 64-bit word, the six bitboards of a color are pairwise
    disjoint, the two colors are disjoint, and the derived bitboards equal
    their definitions. *)
Definition in_u64b (x : Z) : bool := (0 <=? x) && (x <? 2 ^ 64).

Fixpoint pairwise_disjointb (l : list Bitboard) : bool :=
  match l with
  | [] => true
  | x :: rest => forallb (fun y => Z.land x y =? 0) rest && pairwise_disjointb rest
  end.

Definition pieces_of (a : PieceArray) : list Bitboard := map (get6 a) piece_types.

Definition union (l : list Bitboard) : Bitboard := fold_left Z.lor l 0.

Definition position_invariant (b : Board) : bool :=
  forallb in_u64b (pieces_of (_piecesWhite b) ++ pieces_of (_piecesBlack b))
  && pairwise_disjointb (pieces_of (_piecesWhite b))
  && pairwise_disjointb (pieces_of (_piecesBlack b))
  && (Z.land (_allPiecesWhite b) (_allPiecesBlack b) =? 0)
  && (_allPiecesWhite b =? union (pieces_of (_piecesWhite b)))
  && (_allPiecesBlack b =? union (pieces_of (_piecesBlack b)))
  && (_occupiedSquares b =? Z.lor (_allPiecesWhite b) (_allPiecesBlack b)).

(** The number of pieces of a kind. *)
Notation material b c p := (bits (_pieces b c p)) (only parsing).

Definition one_king_each (b : Board) : bool :=
  Nat.eqb (material b WHITE KING) 1 && Nat.eqb (material b BLACK KING) 1.

(** The three cases of insufficient material, in the words of the
    specification (for a position with one king on each side). *)
Definition bare_king (b : Board) (c : Color) : Prop :=
  forall p, p <> KING -> material b c p = 0%nat.

Definition king_and_one_minor (b : Board) (c : Color) : Prop :=
  (material b c KNIGHT + material b c BISHOP = 1)%nat
  /\ material b c PAWN = 0%nat /\ material b c ROOK = 0%nat
  /\ material b c QUEEN = 0%nat.

Definition king_and_bishop (b : Board) (c : Color) : Prop :=
  material b c BISHOP = 1%nat
  /\ material b c PAWN = 0%nat /\ material b c KNIGHT = 0%nat
  /\ material b c ROOK = 0%nat /\ material b c QUEEN = 0%nat.

Definition king_and_knight (b : Board) (c : Color) : Prop :=
  material b c KNIGHT = 1%nat
  /\ material b c PAWN = 0%nat /\ material b c BISHOP = 0%nat
  /\ material b c ROOK = 0%nat /\ material b c QUEEN = 0%nat.

(** Square color: (rank + file) mod 2. *)
Definition square_color (sq : Square) : Z :=
  (BitboardUtils.squareRank sq + BitboardUtils.squareFile sq) mod 2.

Definition two_kings_only (b : Board) : Prop :=
  bare_king b WHITE /\ bare_king b BLACK.

Definition king_and_minor_versus_king (b : Board) : Prop :=
  (bare_king b WHITE /\ king_and_one_minor b BLACK)
  \/ (bare_king b BLACK /\ king_and_one_minor b WHITE).

Definition bishops_on_same_color (b : Board) : Prop :=
  king_and_bishop b WHITE /\ king_and_bishop b BLACK
  /\ exists sw sb,
       real_square sw /\ real_square sb
       /\ Z.testbit (_pieces b WHITE BISHOP) sw = true
       /\ Z.testbit (_pieces b BLACK BISHOP) sb = true
       /\ square_color sw = square_color sb.

Definition insufficient_material_spec (b : Board) : Prop :=
  two_kings_only b \/ king_and_minor_versus_king b \/ bishops_on_same_color b.

(** The [n]-th white-space separated field of a FEN string, as the six
    extractions of [setFromFen] read them (empty when missing). *)
Definition fen_field (n : nat) (fen : string) : string :=
  fst (extract (Nat.iter n (fun ss => snd (extract ss)) fen)).

Fixpoint string_exists (P : ascii -> bool) (s : string) : bool :=
  match s with
  | EmptyString => false
  | String c rest => P c || string_exists P rest
  end.

Definition is_none {A : Type} (o : option A) : bool :=
  match o with None => true | Some _ => false end.

(** A character of the placement field that is neither a slash, a digit
    nor a piece letter. *)
Definition bad_placement_char (c : ascii) : bool :=
  negb (Ascii.eqb c "/") && negb (isdigit c) && is_none (piece_of_char c).

(** A character the castling loop rejects: outside KQkq in standard
    notation, outside A-H and a-h when the Chess960 flag is set. *)
Definition bad_castling_char (chess960 : bool) (c : ascii) : bool :=
  if chess960 then
    negb ((code "A" <=? code c) && (code c <=? code "H"))
    && negb ((code "a" <=? code c) && (code c <=? code "h"))
  else
    negb (Ascii.eqb c "K") && negb (Ascii.eqb c "Q")
    && negb (Ascii.eqb c "k") && negb (Ascii.eqb c "q").

(** The malformed inputs [setFromFen] detects. *)
Definition fen_rejected (b : Board) (fen : string) : bool :=
  existsb (fun n => empty (fen_field n fen)) [0; 1; 2; 3; 4; 5]%nat
  || string_exists bad_placement_char (fen_field 0 fen)
  || (negb (string_eqb (fen_field 2 fen) "-")
      && string_exists (bad_castling_char (_chess960 b)) (fen_field 2 fen))
  || is_none (stoi (fen_field 4 fen))
  || is_none (stoi (fen_field 5 fen)).

(** The pieces that the placement loop of [setFromFen] has put on the
    cleared board when the function returns: none when a field is
    missing (the function returns before the loop), otherwise those of
    the placement field up to its first bad character. *)
Definition parsed_placement (fen : string) : Board :=
  if existsb (fun n => empty (fen_field n fen)) [0; 1; 2; 3; 4; 5]%nat
  then clear_bitboards Board_new
  else snd (parse_placement (fen_field 0 fen) 7 0 (clear_bitboards Board_new)).

(** The fields of a board that the parsing loops of [setFromFen] never
    write. *)
Definition untouched (b : Board) : Bitboard * Bitboard * Bitboard * bool :=
  (_allPiecesWhite b, _allPiecesBlack b, _occupiedSquares b, _chess960 b).

(** A token of the FEN text: not empty and free of white space. *)
Definition is_token (t : string) : bool :=
  negb (empty t) && negb (string_exists isspace t).

(** The value the standard castling loop computes, as a function of the
    text and of the rights it starts from. *)
Fixpoint castling_bits (cs : string) (r : Z) : option Z :=
  match cs with
  | EmptyString => Some r
  | String c rest =>
      if Ascii.eqb c "K" then castling_bits rest (Z.lor r WHITE_OO)
      else if Ascii.eqb c "Q" then castling_bits rest (Z.lor r WHITE_OOO)
      else if Ascii.eqb c "k" then castling_bits rest (Z.lor r BLACK_OO)
      else if Ascii.eqb c "q" then castling_bits rest (Z.lor r BLACK_OOO)
      else None
  end.

(** The state fields of a position in their ranges: a side to move, a
    4-bit castling mask, an en passant square that is real or "no
    square", clocks that fit an [int], and the Chess960 flag off. *)
Definition state_well_formed (b : Board) : bool :=
  negb (Color_eqb (_sideToMove b) NO_COLOR)
  && (0 <=? _castlingRights b) && (_castlingRights b <=? 15)
  && (0 <=? _enPassantSquare b) && (_enPassantSquare b <=? NO_SQUARE)
  && (INT_MIN <=? _halfmoveClock b) && (_halfmoveClock b <=? INT_MAX)
  && (INT_MIN <=? _fullmoveNumber b) && (_fullmoveNumber b <=? INT_MAX)
  && negb (_chess960 b).

(** What the placement loop of [setFromFen] writes for one square of a
    source position: the piece [pieceAt] finds there, white when found
    white and black otherwise. *)
Definition place_cell (src : Board) (b : Board) (sq : Square) : Board :=
  let '(pieceType, pieceColor) := pieceAt src sq in
  if PieceType_eqb pieceType NO_PIECE_TYPE then b
  else put_piece b (if Color_eqb pieceColor WHITE then WHITE else BLACK) pieceType sq.

Definition placed (src : Board) (b : Board) (sqs : list Square) : Board :=
  fold_left (place_cell src) sqs b.

(** Whether [pieceAt] finds piece [p] of color [c] on a square. *)
Definition holds (b : Board) (sq : Square) (c : Color) (p : PieceType) : bool :=
  let '(p', c') := pieceAt b sq in PieceType_eqb p' p && Color_eqb c' c.

(** The files [f, f+1, ...] in the order of the inner loop of [getFen]. *)
Fixpoint consecutive (f : Z) (n : nat) : list Z :=
  match n with
  | O => []
  | S k => f :: consecutive (f + 1) k
  end.

(** The squares in the order in which a FEN placement lists them. *)
Definition fen_squares : list Square :=
  flat_map (fun rank => map (BitboardUtils.squareFromRankFile rank) files_0_7) ranks_7_0.

(** The ranks [r, r-1, ...] in the order of the outer loop of [getFen]. *)
Fixpoint descending (r : Z) (n : nat) : list Z :=
  match n with
  | O => []
  | S k => r :: descending (r - 1) k
  end.

(** The castling and en passant fields read back, as checks on the value
    of the field alone. *)
Definition castling_reads_back (r : Z) : bool :=
  let t := fen_castling (set_castlingRights Board_new r) in
  is_token t
  && (if string_eqb t "-" then r =? 0
      else match castling_bits t 0 with
           | Some r' => r' =? r
           | None => false
           end).

Definition enPassant_reads_back (ep : Square) : bool :=
  let t := fen_enPassant (set_enPassantSquare Board_new ep) in
  is_token t
  && ((if string_eqb t "-" then NO_SQUARE
       else BitboardUtils.squareFromRankFile
              (code (char_at t 1) - code "1") (code (char_at t 0) - code "a"))
      =? ep).

(** Two square sets without a common square. *)
Definition disjoint (x y : Bitboard) : Prop := Z.land x y = 0.

(** The bitboard invariants as propositions, the form in which the proofs
    use them ([position_invariant_facts] derives them from
    [position_invariant]). *)
Record Invariant (b : Board) : Prop := {
  I_range : forall c p, in_u64 (_pieces b c p);
  I_same : forall c p q, p <> q -> disjoint (_pieces b c p) (_pieces b c q);
  I_cross : forall p q, disjoint (_pieces b WHITE p) (_pieces b BLACK q);
  I_allWhite : _allPiecesWhite b = union (pieces_of (_piecesWhite b));
  I_allBlack : _allPiecesBlack b = union (pieces_of (_piecesBlack b));
  I_colors : disjoint (_allPiecesWhite b) (_allPiecesBlack b);
  I_occupied : _occupiedSquares b = Z.lor (_allPiecesWhite b) (_allPiecesBlack b)
}.

(** ** Notions used to state further properties *)

(** The geometry of the board, used to state what the attack tables
    hold: the rank and file distances between two squares. *)
Definition rank_distance (a b : Square) : Z :=
  Z.abs (BitboardUtils.squareRank b - BitboardUtils.squareRank a).

Definition file_distance (a b : Square) : Z :=
  Z.abs (BitboardUtils.squareFile b - BitboardUtils.squareFile a).

Definition knight_jump (a b : Square) : Prop :=
  (rank_distance a b = 1 /\ file_distance a b = 2)
  \/ (rank_distance a b = 2 /\ file_distance a b = 1).

Definition king_step (a b : Square) : Prop :=
  a <> b /\ rank_distance a b <= 1 /\ file_distance a b <= 1.

(** A pawn of color [c] on [a] captures towards [b]: one rank forward
    (up for white, down for black) and one file aside. *)
Definition pawn_capture (c : Color) (a b : Square) : Prop :=
  BitboardUtils.squareRank b
  = BitboardUtils.squareRank a + (if Color_eqb c WHITE then 1 else -1)
  /\ file_distance a b = 1.

(** Sliding along a line: [b] is [n] steps from [a] in the direction
    ([dr], [df]), and the squares strictly between them are empty in
    [occupied]. *)
Definition steps_to (a b : Square) (dr df n : Z) : Prop :=
  BitboardUtils.squareRank b = BitboardUtils.squareRank a + n * dr
  /\ BitboardUtils.squareFile b = BitboardUtils.squareFile a + n * df.

Definition clear_path (occupied : Bitboard) (a : Square) (dr df n : Z) : Prop :=
  forall j, 0 < j < n ->
    Z.testbit occupied
      (BitboardUtils.squareFromRankFile
         (BitboardUtils.squareRank a + j * dr)
         (BitboardUtils.squareFile a + j * df)) = false.

Definition slides (occupied : Bitboard) (a b : Square) (dr df : Z) : Prop :=
  exists n, 0 < n /\ steps_to a b dr df n /\ clear_path occupied a dr df n.

Definition rook_attack (occupied : Bitboard) (a b : Square) : Prop :=
  slides occupied a b 1 0 \/ slides occupied a b (-1) 0
  \/ slides occupied a b 0 1 \/ slides occupied a b 0 (-1).

Definition bishop_attack (occupied : Bitboard) (a b : Square) : Prop :=
  slides occupied a b 1 1 \/ slides occupied a b (-1) 1
  \/ slides occupied a b (-1) (-1) \/ slides occupied a b 1 (-1).

(** A piece of kind [p] and color [c] stands on [t] and has [sq] in the
    attack set computed from [t]. *)
Definition attacks_from (b : Board) (c : Color) (p : PieceType) (t sq : Square) : Prop :=
  Z.testbit (_pieces b c p) t = true
  /\ Z.testbit (getPieceAttacks p t c (_occupiedSquares b)) sq = true.

(** The parts of the game state that the piece-moving code of [makeMove]
    never writes. *)
Definition clocks (b : Board) : Color * Z * Z * bool :=
  (_sideToMove b, _halfmoveClock b, _fullmoveNumber b, _chess960 b).

(** Every right of [r'] is a right of [r]. *)
Definition rights_within (r' r : Z) : Prop := Z.land r' r = r'.

(** The derived bitboards equal their definitions. *)
Definition combined_consistent (b : Board) : Prop :=
  _allPiecesWhite b = union (pieces_of (_piecesWhite b))
  /\ _allPiecesBlack b = union (pieces_of (_piecesBlack b))
  /\ _occupiedSquares b = Z.lor (_allPiecesWhite b) (_allPiecesBlack b).

Definition pieces_in_range (b : Board) : Prop :=
  forall c p, in_u64 (_pieces b c p).

(** Whether a pair (piece type, color), as [pieceAt] returns it, is the
    piece [p] of color [c]. *)
Definition cell_is (x : PieceType * Color) (c : Color) (p : PieceType) : bool :=
  PieceType_eqb (fst x) p && Color_eqb (snd x) c.

(** A pair is a cell value when it is the empty cell or a piece of a
    color. *)
Definition cell_value (x : PieceType * Color) : Prop :=
  x = (NO_PIECE_TYPE, NO_COLOR) \/ (fst x <> NO_PIECE_TYPE /\ snd x <> NO_COLOR).

(** The moves that [makeMove] treats by its plain "move piece"
    statements: every move of a knight, bishop, rook or queen; a king move
    that has not the shape of a castling move of the side to move; a pawn
    move that is no en passant capture, no promotion and no double
    push. *)
Definition castling_shaped (b : Board) (m : Move) : bool :=
  ((from m =? E1) && (to m =? G1) && Color_eqb (_sideToMove b) WHITE)
  || ((from m =? E1) && (to m =? C1) && Color_eqb (_sideToMove b) WHITE)
  || ((from m =? E8) && (to m =? G8) && Color_eqb (_sideToMove b) BLACK)
  || ((from m =? E8) && (to m =? C8) && Color_eqb (_sideToMove b) BLACK).

Definition plain_move (b : Board) (m : Move) : bool :=
  match fst (pieceAt b (from m)) with
  | KNIGHT | BISHOP | ROOK | QUEEN => true
  | KING => negb (castling_shaped b m)
  | PAWN =>
      negb (to m =? _enPassantSquare b)
      && PieceType_eqb (promotion m) NO_PIECE_TYPE
      && negb (Z.abs (BitboardUtils.squareRank (to m)
                      - BitboardUtils.squareRank (from m)) =? 2)
  | NO_PIECE_TYPE => false
  end.

Definition same_pieces (b1 b2 : Board) : Prop :=
  forall c p, _pieces b1 c p = _pieces b2 c p.

(** Two boards that agree on the bitboards and the Chess960 flag, and on
    those of the five state fields (side to move, castling rights, en
    passant square, halfmove clock, fullmove number) whose flag is set. *)
Definition agree (s r e h f : bool) (b1 b2 : Board) : Prop :=
  _piecesWhite b1 = _piecesWhite b2 /\ _piecesBlack b1 = _piecesBlack b2
  /\ _allPiecesWhite b1 = _allPiecesWhite b2 /\ _allPiecesBlack b1 = _allPiecesBlack b2
  /\ _occupiedSquares b1 = _occupiedSquares b2 /\ _chess960 b1 = _chess960 b2
  /\ (s = true -> _sideToMove b1 = _sideToMove b2)
  /\ (r = true -> _castlingRights b1 = _castlingRights b2)
  /\ (e = true -> _enPassantSquare b1 = _enPassantSquare b2)
  /\ (h = true -> _halfmoveClock b1 = _halfmoveClock b2)
  /\ (f = true -> _fullmoveNumber b1 = _fullmoveNumber b2).

(** A move of a knight, bishop, rook, queen or king of the side to move
    from its square to a square of its attack set that holds no piece of
    its own side, without promotion. *)
Definition piece_move (b : Board) (m : Move) : Prop :=
  exists p,
    (p = KNIGHT \/ p = BISHOP \/ p = ROOK \/ p = QUEEN \/ p = KING)
    /\ real_square (from m) /\ real_square (to m)
    /\ Z.testbit (_pieces b (_sideToMove b) p) (from m) = true
    /\ Z.testbit (getPieceAttacks p (from m) (_sideToMove b) (_occupiedSquares b)) (to m) = true
    /\ Z.testbit (_allPieces b (_sideToMove b)) (to m) = false
    /\ promotion m = NO_PIECE_TYPE.

(** The moves from one square to the squares of a target set, in
    increasing order of the targets. *)
Definition target_moves (f : Square) (targets : Bitboard) : list Move :=
  map (fun t => mkMove f t NO_PIECE_TYPE) (filter (Z.testbit targets) all_squares).

(** One smearing step [bb |= bb >> k]: if bit [i] of [y] says that [x]
    has a bit among the [m] positions from [i] up, then after the step
    with [k = m] it says so for [2m] positions. *)
Definition bit_among (x : Z) (m i : Z) : Prop :=
  exists j, 0 <= j < m /\ Z.testbit x (i + j) = true.

(** The four castling moves as [makeMove] recognises them: the side to
    move is [us], its king stands on the from-square, which is e1 for
    White and e8 for Black; [kt] is the king's target, [rf] the rook's
    corner and [rt] the rook's target. *)
Definition castles (b : Board) (m : Move) (us : Color) (kt rf rt : Square) : Prop :=
  _sideToMove b = us
  /\ fst (pieceAt b (from m)) = KING
  /\ to m = kt
  /\ ((us = WHITE /\ from m = E1
       /\ ((kt = G1 /\ rf = H1 /\ rt = F1) \/ (kt = C1 /\ rf = A1 /\ rt = D1)))
      \/ (us = BLACK /\ from m = E8
          /\ ((kt = G8 /\ rf = H8 /\ rt = F8) \/ (kt = C8 /\ rf = A8 /\ rt = D8)))).

(** The two castling rights of a color. *)
Definition rights_of (c : Color) : Z :=
  match c with
  | WHITE => Z.lor WHITE_OO WHITE_OOO
  | BLACK => Z.lor BLACK_OO BLACK_OOO
  | NO_COLOR => 0
  end.

(** The board [b] holds on every square [i] the cell [X i]. *)
Definition cells (b : Board) (X : Square -> PieceType * Color) : Prop :=
  forall i c p, real_square i -> c <> NO_COLOR -> p <> NO_PIECE_TYPE ->
    Z.testbit (_pieces b c p) i = cell_is (X i) c p.

(** The moves that [makeMove] treats by its promotion branch: a pawn
    move, not onto the en passant square, that carries a promotion
    piece. *)
Definition promotion_move (b : Board) (m : Move) : bool :=
  PieceType_eqb (fst (pieceAt b (from m))) PAWN
  && negb (to m =? _enPassantSquare b)
  && negb (PieceType_eqb (promotion m) NO_PIECE_TYPE).

(** The moves that [makeMove] treats by its en passant branch: a pawn
    move onto the en passant square. *)
Definition en_passant_capture (b : Board) (m : Move) : bool :=
  PieceType_eqb (fst (pieceAt b (from m))) PAWN && (to m =? _enPassantSquare b).

(** * Properties *)

(** ** Bits of 64-bit words *)

Lemma u64_bits x i : Z.testbit (u64 x) i = Z.testbit x i && (i <? 64).
Proof.
  unfold u64. destruct (Z.ltb_spec i 0) as [Hn|Hn].
  - rewrite !Z.testbit_neg_r by lia. reflexivity.
  - rewrite Z.land_spec, Z.testbit_ones by lia.
    replace (0 <=? i) with true by (symmetry; apply Z.leb_le; lia).
    reflexivity.
Qed.

Lemma u64_range x : in_u64 (u64 x).
Proof.
  unfold u64, in_u64. rewrite Z.land_ones by lia.
  apply Z.mod_pos_bound. lia.
Qed.

Lemma u64_small x : in_u64 x -> u64 x = x.
Proof.
  unfold u64, in_u64. intros H. rewrite Z.land_ones by lia.
  apply Z.mod_small. exact H.
Qed.

Lemma in_u64_high x i : in_u64 x -> 64 <= i -> Z.testbit x i = false.
Proof.
  intros H Hi. rewrite <- (u64_small x H), u64_bits.
  replace (i <? 64) with false by (symmetry; apply Z.ltb_ge; lia).
  apply andb_false_r.
Qed.

Lemma testbit_1 j : Z.testbit 1 j = (j =? 0).
Proof.
  destruct (Z.eqb_spec j 0) as [->|Hne]; [reflexivity|].
  destruct (Z.ltb_spec j 0).
  - apply Z.testbit_neg_r. lia.
  - replace j with (Z.succ (j - 1)) by lia.
    rewrite (Z.testbit_succ_r 0 true) by lia. apply Z.bits_0.
Qed.

Lemma bit_bits sq i :
  Z.testbit (bit sq) i = (i =? sq) && (0 <=? sq) && (sq <? 64).
Proof.
  unfold bit. rewrite u64_bits.
  destruct (Z.ltb_spec i 0) as [Hn|Hn].
  - rewrite Z.testbit_neg_r by lia.
    destruct (Z.eqb_spec i sq), (Z.leb_spec 0 sq); try reflexivity; lia.
  - rewrite Z.shiftl_spec, testbit_1 by lia.
    destruct (Z.eqb_spec (i - sq) 0), (Z.eqb_spec i sq), (Z.leb_spec 0 sq),
      (Z.ltb_spec sq 64), (Z.ltb_spec i 64); try reflexivity; lia.
Qed.

Lemma not64_bits x i :
  Z.testbit (not64 x) i = negb (Z.testbit x i) && (0 <=? i) && (i <? 64).
Proof.
  unfold not64. rewrite u64_bits.
  destruct (Z.leb_spec 0 i) as [Hi|Hi].
  - rewrite Z.lnot_spec by lia. now rewrite andb_true_r.
  - rewrite Z.testbit_neg_r by lia. simpl. now rewrite andb_false_r.
Qed.

Lemma nz_true x : nz x = true <-> x <> 0.
Proof.
  unfold nz. rewrite negb_true_iff. apply Z.eqb_neq.
Qed.

Lemma nz_false x : nz x = false <-> x = 0.
Proof.
  unfold nz. rewrite negb_false_iff. apply Z.eqb_eq.
Qed.

(** A word all of whose bits from 64 up are clear is a [uint64_t]. *)
Lemma in_u64_of_bits x :
  (forall i, 64 <= i -> Z.testbit x i = false) -> in_u64 x.
Proof.
  intros H. replace x with (u64 x); [apply u64_range|].
  apply Z.bits_inj'. intros i Hi. rewrite u64_bits.
  destruct (Z.ltb_spec i 64); [apply andb_true_r|].
  rewrite H by lia. reflexivity.
Qed.

Lemma land_range x y : in_u64 x -> in_u64 (Z.land x y).
Proof.
  intros H. apply in_u64_of_bits. intros i Hi.
  rewrite Z.land_spec, (in_u64_high x i H Hi). reflexivity.
Qed.

Lemma lor_range x y : in_u64 x -> in_u64 y -> in_u64 (Z.lor x y).
Proof.
  intros Hx Hy. apply in_u64_of_bits. intros i Hi.
  rewrite Z.lor_spec, (in_u64_high x i Hx Hi), (in_u64_high y i Hy Hi).
  reflexivity.
Qed.

Lemma bit_range sq : in_u64 (bit sq).
Proof. apply u64_range. Qed.

(** A nonzero conjunction has a common bit. *)
Lemma land_nonzero_bit x y :
  in_u64 x -> (Z.land x y <> 0 <-> exists i, 0 <= i < 64 /\ Z.testbit x i = true /\ Z.testbit y i = true).
Proof.
  intros Hx. split.
  - intros Hne.
    destruct (Z.eq_dec (Z.land x y) 0) as [E|_]; [contradiction|].
    assert (Hex : exists i, Z.testbit (Z.land x y) i = true).
    { destruct (Z.land x y) eqn:E; [congruence| |].
      - exists (Z.log2 (Z.pos p)). apply Z.bit_log2. lia.
      - pose proof (land_range x y Hx) as [Hr _]. rewrite E in Hr. lia. }
    destruct Hex as [i Hi]. rewrite Z.land_spec in Hi.
    apply andb_true_iff in Hi. destruct Hi as [H1 H2].
    exists i. repeat split; auto.
    + destruct (Z.ltb_spec i 0); [|lia]. rewrite Z.testbit_neg_r in H1 by lia. discriminate.
    + destruct (Z.ltb_spec i 64); [lia|]. rewrite (in_u64_high x i Hx) in H1 by lia. discriminate.
  - intros (i & _ & H1 & H2) E.
    assert (Hb : Z.testbit (Z.land x y) i = true) by (rewrite Z.land_spec, H1, H2; reflexivity).
    rewrite E, Z.bits_0 in Hb. discriminate.
Qed.

(** ** Least significant bit *)

Lemma ctz_nonneg p : 0 <= BitboardUtils.ctz p.
Proof.
  induction p; [reflexivity| |reflexivity].
  change (BitboardUtils.ctz p~0) with (1 + BitboardUtils.ctz p). lia.
Qed.

Lemma ctz_bit p : Z.testbit (Zpos p) (BitboardUtils.ctz p) = true.
Proof.
  induction p; try reflexivity.
  pose proof (ctz_nonneg p).
  change (BitboardUtils.ctz p~0) with (1 + BitboardUtils.ctz p).
  rewrite Pos2Z.inj_xO.
  replace (1 + BitboardUtils.ctz p) with (Z.succ (BitboardUtils.ctz p)) by lia.
  rewrite Z.testbit_even_succ by lia. exact IHp.
Qed.

Lemma ctz_low p j :
  0 <= j < BitboardUtils.ctz p -> Z.testbit (Zpos p) j = false.
Proof.
  revert j. induction p; intros j Hj; try (simpl in Hj; lia).
  change (BitboardUtils.ctz p~0) with (1 + BitboardUtils.ctz p) in Hj.
  rewrite Pos2Z.inj_xO.
  destruct (Z.eq_dec j 0) as [->|Hne]; [apply Z.testbit_even_0|].
  replace j with (Z.succ (j - 1)) by lia.
  rewrite Z.testbit_even_succ by lia. apply IHp. lia.
Qed.

Lemma land_pred_bits p i :
  0 <= i ->
  Z.testbit (Z.land (Zpos p) (Zpos p - 1)) i
  = Z.testbit (Zpos p) i && negb (i =? BitboardUtils.ctz p).
Proof.
  revert i. induction p; intros i Hi.
  - (* 2a+1: the predecessor is 2a *)
    replace (Zpos p~1 - 1) with (2 * Zpos p) by lia.
    rewrite Pos2Z.inj_xI, Z.land_spec. simpl BitboardUtils.ctz.
    destruct (Z.eq_dec i 0) as [->|Hne].
    + rewrite Z.testbit_odd_0, Z.testbit_even_0. reflexivity.
    + replace i with (Z.succ (i - 1)) by lia.
      rewrite Z.testbit_odd_succ, Z.testbit_even_succ by lia.
      replace (Z.succ (i - 1) =? 0) with false by (symmetry; apply Z.eqb_neq; lia).
      rewrite andb_diag, andb_true_r. reflexivity.
  - (* 2a: the predecessor is 2(a-1)+1 *)
    replace (Zpos p~0 - 1) with (2 * (Zpos p - 1) + 1) by lia.
    rewrite Pos2Z.inj_xO, Z.land_spec.
    change (BitboardUtils.ctz p~0) with (1 + BitboardUtils.ctz p).
    pose proof (ctz_nonneg p).
    destruct (Z.eq_dec i 0) as [->|Hne].
    + rewrite Z.testbit_even_0. reflexivity.
    + replace i with (Z.succ (i - 1)) by lia.
      rewrite Z.testbit_odd_succ, Z.testbit_even_succ by lia.
      rewrite <- Z.land_spec, IHp by lia.
      replace (Z.succ (i - 1) =? 1 + BitboardUtils.ctz p)
        with (i - 1 =? BitboardUtils.ctz p); [reflexivity|].
      destruct (Z.eqb_spec (i - 1) (BitboardUtils.ctz p)),
        (Z.eqb_spec (Z.succ (i - 1)) (1 + BitboardUtils.ctz p)); try reflexivity; lia.
  - simpl. rewrite Z.bits_0, testbit_1. destruct (i =? 0); reflexivity.
Qed.

Lemma lsb_real bb : in_u64 bb -> bb <> 0 -> real_square (BitboardUtils.lsb bb).
Proof.
  intros Hr Hne. destruct bb as [|p|p]; [congruence| |destruct Hr; lia].
  simpl. split; [apply ctz_nonneg|].
  destruct (Z.ltb_spec (BitboardUtils.ctz p) 64); [assumption|].
  pose proof (ctz_bit p) as Hb.
  rewrite (in_u64_high _ _ Hr) in Hb by lia. discriminate.
Qed.

Lemma lsb_set bb : 0 < bb -> Z.testbit bb (BitboardUtils.lsb bb) = true.
Proof. destruct bb; try lia. intros _. apply ctz_bit. Qed.

Lemma lsb_least bb j :
  0 < bb -> 0 <= j < BitboardUtils.lsb bb -> Z.testbit bb j = false.
Proof. destruct bb; try lia. intros _. apply ctz_low. Qed.

Lemma clearLowest_bits bb i :
  in_u64 bb -> bb <> 0 ->
  Z.testbit (BitboardUtils.clearLowest bb) i
  = Z.testbit bb i && negb (i =? BitboardUtils.lsb bb).
Proof.
  intros Hr Hne. unfold BitboardUtils.clearLowest.
  rewrite u64_small by (unfold in_u64 in *; lia).
  destruct bb as [|p|p]; [congruence| |destruct Hr; lia].
  destruct (Z.ltb_spec i 0).
  - rewrite !Z.testbit_neg_r by lia. reflexivity.
  - apply land_pred_bits. lia.
Qed.

Lemma clearLowest_range bb : in_u64 bb -> in_u64 (BitboardUtils.clearLowest bb).
Proof. intros H. apply land_range, H. Qed.

(** C5, as the code is designed: [popLsb] has the return type
    [Bitboard], so on a nonzero 64-bit bitboard it returns a 64-bit
    bitboard and no square index: a set that holds only squares of the
    input and at least the squares left after the clear (whether it is
    the set before or after the clear is not stated).  The square
    [lsb b] is real and is the lowest set bit of the input, and the
    argument is left with exactly that bit cleared and every other bit as
    it was. *)
Theorem popLsb_clears_lsb (b : Bitboard) :
  in_u64 b -> b <> 0 ->
  in_u64 (fst (BitboardUtils.popLsb b))
  /\ (forall i, Z.testbit (fst (BitboardUtils.popLsb b)) i = true -> Z.testbit b i = true)
  /\ (forall i, Z.testbit (snd (BitboardUtils.popLsb b)) i = true ->
                Z.testbit (fst (BitboardUtils.popLsb b)) i = true)
  /\ real_square (BitboardUtils.lsb b)
  /\ Z.testbit b (BitboardUtils.lsb b) = true
  /\ (forall j, 0 <= j < BitboardUtils.lsb b -> Z.testbit b j = false)
  /\ (forall i, Z.testbit (snd (BitboardUtils.popLsb b)) i
                = Z.testbit b i && negb (i =? BitboardUtils.lsb b))
  /\ in_u64 (snd (BitboardUtils.popLsb b)).
Proof.
  intros Hr Hne.
  assert (Hpos : 0 < b) by (unfold in_u64 in Hr; lia).
  split; [exact Hr|].
  split; [intros i Hi; exact Hi|].
  split.
  { intros i Hi. simpl in Hi |- *. rewrite clearLowest_bits in Hi by assumption.
    apply andb_true_iff in Hi. apply Hi. }
  split; [apply lsb_real; assumption|].
  split; [apply lsb_set; assumption|].
  split; [intros j Hj; apply lsb_least; assumption|].
  split; [intros i; simpl; apply clearLowest_bits; assumption|].
  simpl. apply clearLowest_range, Hr.
Qed.

Lemma popLsb_clears_lsb_witness :
  Z.testbit (snd (BitboardUtils.popLsb 0x100000001)) 0 = false
  /\ Z.testbit (snd (BitboardUtils.popLsb 0x100000001)) 32 = true.
Proof.
  destruct (popLsb_clears_lsb 0x100000001) as (_ & _ & _ & _ & _ & _ & H & _).
  - unfold in_u64. lia.
  - lia.
  - rewrite (H 0), (H 32). split; reflexivity.
Defined.

(** C5 as stated fails: on the board {A1, A5} the returned value is a
    bitboard, different from the index 0 of A1. *)
Lemma popLsb_not_square_index :
  fst (BitboardUtils.popLsb 0x100000001) <> BitboardUtils.lsb 0x100000001.
Proof. vm_compute. discriminate. Qed.

(** ** Squares and tables *)

Lemma real_square_in sq : real_square sq -> In sq all_squares.
Proof.
  intros [H0 H1]. unfold all_squares.
  apply in_map_iff. exists (Z.to_nat sq). split; [lia|].
  apply in_seq. lia.
Qed.

Lemma in_all_squares sq : In sq all_squares -> real_square sq.
Proof.
  unfold all_squares. intros H. apply in_map_iff in H.
  destruct H as (n & <- & Hn). apply in_seq in Hn. unfold real_square. lia.
Qed.

(** A property checked on every real square holds of every real square. *)
Lemma forall_squares (P : Square -> bool) :
  forallb P all_squares = true -> forall sq, real_square sq -> P sq = true.
Proof.
  intros H sq Hsq. rewrite forallb_forall in H. apply H, real_square_in, Hsq.
Qed.

(** The pawn table holds what [initBitboards] computes. *)
Lemma PAWN_ATTACKS_init c sq :
  real_square sq -> c <> NO_COLOR ->
  AttackTables.PAWN_ATTACKS c sq = BitboardUtils.generatePawnAttacks sq c.
Proof.
  intros Hsq Hc.
  assert (H : forallb (fun s =>
              (AttackTables.PAWN_ATTACKS WHITE s =? BitboardUtils.generatePawnAttacks s WHITE)
              && (AttackTables.PAWN_ATTACKS BLACK s =? BitboardUtils.generatePawnAttacks s BLACK))
            all_squares = true) by (vm_compute; reflexivity).
  pose proof (forall_squares _ H sq Hsq) as E.
  apply andb_true_iff in E. destruct E as [Ew Eb].
  destruct c; [apply Z.eqb_eq, Ew | apply Z.eqb_eq, Eb | congruence].
Qed.

Lemma KNIGHT_KING_ATTACKS_init sq :
  real_square sq ->
  AttackTables.KNIGHT_ATTACKS sq = BitboardUtils.generateKnightAttacks sq
  /\ AttackTables.KING_ATTACKS sq = BitboardUtils.generateKingAttacks sq.
Proof.
  intros Hsq.
  assert (H : forallb (fun s =>
              (AttackTables.KNIGHT_ATTACKS s =? BitboardUtils.generateKnightAttacks s)
              && (AttackTables.KING_ATTACKS s =? BitboardUtils.generateKingAttacks s))
            all_squares = true) by (vm_compute; reflexivity).
  pose proof (forall_squares _ H sq Hsq) as E.
  apply andb_true_iff in E. destruct E as [En Ek].
  split; apply Z.eqb_eq; assumption.
Qed.

Lemma PAWN_ATTACKS_range c sq : in_u64 (AttackTables.PAWN_ATTACKS c sq).
Proof.
  assert (H : forallb (fun x => (0 <=? x) && (x <? 2 ^ 64))
                (AttackTables.PAWN_ATTACKS_WHITE_table ++ AttackTables.PAWN_ATTACKS_BLACK_table)
              = true) by (vm_compute; reflexivity).
  rewrite forallb_forall in H.
  assert (Hz : in_u64 0) by (unfold in_u64; lia).
  assert (Hl : forall t, incl t (AttackTables.PAWN_ATTACKS_WHITE_table ++ AttackTables.PAWN_ATTACKS_BLACK_table) ->
               in_u64 (AttackTables.lookup t sq)).
  { intros t Ht. unfold AttackTables.lookup.
    destruct ((0 <=? sq) && (sq <? 64)); [|exact Hz].
    destruct (nth_in_or_default (Z.to_nat sq) t 0) as [Hin | -> ]; [|exact Hz].
    apply Ht, H in Hin. apply andb_true_iff in Hin. destruct Hin as [A B].
    unfold in_u64. apply Z.leb_le in A. apply Z.ltb_lt in B. lia. }
  destruct c; simpl; [apply Hl, incl_appl, incl_refl | apply Hl, incl_appr, incl_refl | exact Hz].
Qed.

Lemma pawn_table_reciprocal a b :
  real_square a -> real_square b ->
  Z.testbit (AttackTables.PAWN_ATTACKS WHITE a) b
  = Z.testbit (AttackTables.PAWN_ATTACKS BLACK b) a.
Proof.
  intros Ha Hb.
  assert (H : forallb (fun x => forallb (fun y =>
              Bool.eqb (Z.testbit (AttackTables.PAWN_ATTACKS WHITE x) y)
                       (Z.testbit (AttackTables.PAWN_ATTACKS BLACK y) x))
              all_squares) all_squares = true) by (vm_compute; reflexivity).
  pose proof (forall_squares _ H a Ha) as Hrow. cbv beta in Hrow.
  pose proof (forall_squares _ Hrow b Hb) as E. cbv beta in E.
  apply eqb_prop in E. exact E.
Qed.

(** The pawn tables against the geometry of the board: the entry of a
    color at a real square holds a real square exactly when that square
    is one rank forward for the color and one file aside. *)
Lemma pawn_table_capture c p sq :
  real_square p -> real_square sq -> c <> NO_COLOR ->
  Z.testbit (AttackTables.PAWN_ATTACKS c p) sq = true <-> pawn_capture c p sq.
Proof.
  intros Hp Hsq Hc.
  assert (H : forallb (fun x => forallb (fun y =>
              Bool.eqb (Z.testbit (AttackTables.PAWN_ATTACKS WHITE x) y)
                       ((BitboardUtils.squareRank y =? BitboardUtils.squareRank x + 1)
                        && (file_distance x y =? 1))
              && Bool.eqb (Z.testbit (AttackTables.PAWN_ATTACKS BLACK x) y)
                          ((BitboardUtils.squareRank y =? BitboardUtils.squareRank x + -1)
                           && (file_distance x y =? 1)))
              all_squares) all_squares = true) by (vm_compute; reflexivity).
  pose proof (forall_squares _ H p Hp) as Hrow. cbv beta in Hrow.
  pose proof (forall_squares _ Hrow sq Hsq) as E. cbv beta in E.
  apply andb_true_iff in E. destruct E as [Ew Eb].
  apply eqb_prop in Ew. apply eqb_prop in Eb.
  unfold pawn_capture.
  destruct c; [| |congruence]; cbn [Color_eqb].
  - rewrite Ew, andb_true_iff, !Z.eqb_eq. reflexivity.
  - rewrite Eb, andb_true_iff, !Z.eqb_eq. reflexivity.
Qed.

(** [isSquareAttacked] is the disjunction of its pawn term and of the
    five other terms, which are those of the same board without the
    pawns of the attacking color. *)
Lemma isSquareAttacked_pawn_term b sq c :
  c <> NO_COLOR ->
  isSquareAttacked b sq c
  = nz (Z.land (getPieceAttacks PAWN sq (Color_of_int (1 - Color_to_int c))
                  (_occupiedSquares b))
               (_pieces b c PAWN))
    || isSquareAttacked (set_pieces b c PAWN 0) sq c.
Proof.
  intros Hc. unfold isSquareAttacked. cbv zeta.
  destruct c; [| |congruence];
    cbn [set_pieces _pieces _piecesWhite _piecesBlack _occupiedSquares get6 set6
         at_PAWN at_KNIGHT at_BISHOP at_ROOK at_QUEEN at_KING];
    rewrite Z.land_0_r; change (nz 0) with false;
    rewrite orb_false_l, !orb_assoc; reflexivity.
Qed.

(** C9: the pawn tables are reciprocal (b is attacked by a color-c pawn
    on a exactly when a is attacked by an opposite-color pawn on b).
    Therefore the pawn term of [isSquareAttacked sq c], the table entry
    of the opposite color at sq intersected with c's pawns, is nonzero
    exactly when some pawn of color c attacks sq: stands on a real square
    from which sq is one rank forward for c and one file aside, which is
    what the table entry of c at the pawn's square holds.  And
    [isSquareAttacked sq c] itself is true exactly when such a pawn
    exists or one of its five other terms is true, those being the terms
    of the same board without c's pawns. *)
Theorem pawn_attack_reciprocity (a b sq : Square) (c : Color) (board : Board) :
  real_square a -> real_square b -> real_square sq -> c <> NO_COLOR ->
  (Z.testbit (AttackTables.PAWN_ATTACKS c a) b = true
   <-> Z.testbit (AttackTables.PAWN_ATTACKS (Color_of_int (1 - Color_to_int c)) b) a = true)
  /\ (nz (Z.land (getPieceAttacks PAWN sq (Color_of_int (1 - Color_to_int c))
                    (_occupiedSquares board))
                 (_pieces board c PAWN)) = true
      <-> exists p, real_square p
                    /\ Z.testbit (_pieces board c PAWN) p = true
                    /\ Z.testbit (AttackTables.PAWN_ATTACKS c p) sq = true
                    /\ pawn_capture c p sq)
  /\ (isSquareAttacked board sq c = true
      <-> (exists p, real_square p
                     /\ Z.testbit (_pieces board c PAWN) p = true
                     /\ pawn_capture c p sq)
          \/ isSquareAttacked (set_pieces board c PAWN 0) sq c = true).
Proof.
  intros Ha Hb Hsq Hc.
  assert (Hrec : forall x y, real_square x -> real_square y ->
            Z.testbit (AttackTables.PAWN_ATTACKS c x) y
            = Z.testbit (AttackTables.PAWN_ATTACKS (Color_of_int (1 - Color_to_int c)) y) x).
  { intros x y Hx Hy. destruct c; [| |congruence]; simpl Color_of_int.
    - apply pawn_table_reciprocal; assumption.
    - symmetry. apply pawn_table_reciprocal; assumption. }
  assert (Hterm : nz (Z.land (getPieceAttacks PAWN sq (Color_of_int (1 - Color_to_int c))
                                (_occupiedSquares board))
                             (_pieces board c PAWN)) = true
                  <-> exists p, real_square p
                                /\ Z.testbit (_pieces board c PAWN) p = true
                                /\ Z.testbit (AttackTables.PAWN_ATTACKS c p) sq = true
                                /\ pawn_capture c p sq).
  { cbv beta iota delta [getPieceAttacks].
    rewrite nz_true, land_nonzero_bit by apply PAWN_ATTACKS_range.
    split.
    - intros (i & Hi & Hatt & Hpawn). exists i.
      split; [exact Hi|]. split; [exact Hpawn|].
      rewrite <- (Hrec i sq Hi Hsq) in Hatt.
      split; [exact Hatt | apply pawn_table_capture; assumption].
    - intros (p & Hp & Hpawn & Hatt & _). exists p.
      split; [exact Hp|]. split; [|exact Hpawn].
      rewrite <- (Hrec p sq Hp Hsq). exact Hatt. }
  split; [rewrite (Hrec a b Ha Hb); reflexivity|].
  split; [exact Hterm|].
  rewrite (isSquareAttacked_pawn_term board sq c Hc), orb_true_iff, Hterm.
  split.
  - intros [(p & Hp & Hpawn & _ & Hcap)|H]; [left; exists p; auto | right; exact H].
  - intros [(p & Hp & Hpawn & Hcap)|H]; [left | right; exact H].
    exists p. split; [exact Hp|]. split; [exact Hpawn|].
    split; [apply pawn_table_capture; assumption | exact Hcap].
Qed.

Lemma pawn_attack_reciprocity_witness :
  isSquareAttacked Board_new 20 WHITE = true
  <-> (exists p, real_square p
                 /\ Z.testbit (_pieces Board_new WHITE PAWN) p = true
                 /\ pawn_capture WHITE p 20)
      \/ isSquareAttacked (set_pieces Board_new WHITE PAWN 0) 20 WHITE = true.
Proof.
  apply (pawn_attack_reciprocity E4 35 20 WHITE Board_new);
    unfold real_square, E4; try lia; discriminate.
Defined.

(** ** UCI text *)

Lemma code_char_of z : 0 <= z < 256 -> code (char_of z) = z.
Proof.
  intros H. unfold code, char_of. rewrite Z.mod_small by lia.
  rewrite N_ascii_embedding by lia. apply Z2N.id. lia.
Qed.

Lemma square_split sq :
  real_square sq ->
  0 <= BitboardUtils.squareFile sq <= 7
  /\ 0 <= BitboardUtils.squareRank sq <= 7
  /\ BitboardUtils.squareFromRankFile (BitboardUtils.squareRank sq)
       (BitboardUtils.squareFile sq) = sq.
Proof.
  intros [H0 H1].
  unfold BitboardUtils.squareFile, BitboardUtils.squareRank,
    BitboardUtils.squareFromRankFile.
  rewrite Z.quot_div_nonneg, Z.rem_mod_nonneg by lia.
  pose proof (Z.div_mod sq 8 ltac:(lia)).
  pose proof (Z.mod_pos_bound sq 8 ltac:(lia)).
  lia.
Qed.

Lemma isValid_real m : structurally_valid m -> isValid m = true.
Proof.
  intros [[? ?] [? ?]]. unfold isValid, NO_SQUARE.
  apply andb_true_iff. split; apply negb_true_iff, Z.eqb_neq; lia.
Qed.

(** The four coordinate characters written by [toUci] are read back by
    [fromUci] as the two squares. *)
Lemma coordinates_read_back f t (suffix : string) :
  real_square f -> real_square t ->
  let s := String (char_of (code "a" + BitboardUtils.squareFile f))
            (String (char_of (code "1" + BitboardUtils.squareRank f))
              (String (char_of (code "a" + BitboardUtils.squareFile t))
                (String (char_of (code "1" + BitboardUtils.squareRank t)) suffix))) in
  fromUci s =
    match suffix with
    | EmptyString => mkMove f t NO_PIECE_TYPE
    | String c EmptyString =>
        if Ascii.eqb c "q" then mkMove f t QUEEN
        else if Ascii.eqb c "r" then mkMove f t ROOK
        else if Ascii.eqb c "b" then mkMove f t BISHOP
        else if Ascii.eqb c "n" then mkMove f t KNIGHT
        else Move_invalid
    | _ => Move_invalid
    end.
Proof.
  intros Hf Ht s. subst s.
  destruct (square_split f Hf) as (Hff & Hfr & Ef).
  destruct (square_split t Ht) as (Htf & Htr & Et).
  unfold fromUci, char_at. cbn [String.get String.length].
  change (code "a") with 97. change (code "1") with 49.
  rewrite !code_char_of by lia.
  replace (97 + BitboardUtils.squareFile f - 97) with (BitboardUtils.squareFile f) by lia.
  replace (49 + BitboardUtils.squareRank f - 49) with (BitboardUtils.squareRank f) by lia.
  replace (97 + BitboardUtils.squareFile t - 97) with (BitboardUtils.squareFile t) by lia.
  replace (49 + BitboardUtils.squareRank t - 49) with (BitboardUtils.squareRank t) by lia.
  rewrite Ef, Et.
  unfold FILE_A, FILE_H, RANK_1, RANK_8.
  replace (BitboardUtils.squareFile f <? 0) with false by (symmetry; apply Z.ltb_ge; lia).
  replace (BitboardUtils.squareFile f >? 7) with false by (symmetry; rewrite Z.gtb_ltb; apply Z.ltb_ge; lia).
  replace (BitboardUtils.squareRank f <? 0) with false by (symmetry; apply Z.ltb_ge; lia).
  replace (BitboardUtils.squareRank f >? 7) with false by (symmetry; rewrite Z.gtb_ltb; apply Z.ltb_ge; lia).
  replace (BitboardUtils.squareFile t <? 0) with false by (symmetry; apply Z.ltb_ge; lia).
  replace (BitboardUtils.squareFile t >? 7) with false by (symmetry; rewrite Z.gtb_ltb; apply Z.ltb_ge; lia).
  replace (BitboardUtils.squareRank t <? 0) with false by (symmetry; apply Z.ltb_ge; lia).
  replace (BitboardUtils.squareRank t >? 7) with false by (symmetry; rewrite Z.gtb_ltb; apply Z.ltb_ge; lia).
  cbn [orb].
  destruct suffix as [|c [|c' rest]].
  - reflexivity.
  - reflexivity.
  - cbn [String.length].
    replace (Z.of_nat (S (S (S (S (S (S (String.length rest))))))) >? 5) with true.
    + rewrite orb_true_r. reflexivity.
    + symmetry. rewrite Z.gtb_ltb. apply Z.ltb_lt. lia.
Qed.

(** C8, as the code has it: a structurally valid move whose promotion is
    none, queen, rook, bishop or knight is read back from its UCI text
    unchanged, in all three components. *)
Theorem uci_round_trip (m : Move) :
  structurally_valid m ->
  promotion m <> PAWN -> promotion m <> KING ->
  fromUci (toUci m) = m.
Proof.
  intros Hv Hp Hk. unfold toUci. rewrite (isValid_real m Hv). cbn [negb].
  destruct Hv as [Hf Ht]. destruct m as [f t p]. cbn [from to promotion] in *.
  unfold push_char. cbn [append].
  destruct p; try congruence;
    rewrite coordinates_read_back by assumption; reflexivity.
Qed.

Lemma uci_round_trip_witness :
  fromUci (toUci (mkMove B7 A8 QUEEN)) = mkMove B7 A8 QUEEN.
Proof.
  apply uci_round_trip.
  - unfold structurally_valid, real_square, B7, A8. cbn [from to]. lia.
  - discriminate.
  - discriminate.
Defined.

(** C8 as stated fails for a promotion value that has no UCI letter: the
    move e2e4 with promotion [PAWN] is written as "e2e4" and read back
    with promotion [NO_PIECE_TYPE]. *)
Lemma uci_round_trip_fails_for_pawn_promotion :
  structurally_valid (mkMove E2 E4 PAWN)
  /\ fromUci (toUci (mkMove E2 E4 PAWN)) <> mkMove E2 E4 PAWN.
Proof.
  split.
  - unfold structurally_valid, real_square, E2, E4. cbn [from to]. lia.
  - vm_compute. discriminate.
Qed.

(** ** Sliding rays *)

(** A ray whose loop condition fails from round [n] on is not changed by
    more fuel. *)
Lemma ray_fuel n extra cond dr df :
  forall r f occupied attacks,
    (forall j, Z.of_nat n <= j -> cond (r + j * dr) (f + j * df) = false) ->
    ray (n + extra) cond dr df r f occupied attacks
    = ray n cond dr df r f occupied attacks.
Proof.
  induction n as [|k IH]; intros r f occupied attacks H.
  - assert (E : cond r f = false).
    { specialize (H 0 ltac:(lia)). now rewrite !Z.mul_0_l, !Z.add_0_r in H. }
    destruct extra; [reflexivity|]. cbn [Nat.add ray]. rewrite E. reflexivity.
  - cbn [Nat.add ray]. destruct (cond r f); [|reflexivity].
    destruct (nz (Z.land occupied (bit (BitboardUtils.squareFromRankFile r f))));
      [reflexivity|].
    apply IH. intros j Hj.
    replace (r + dr + j * dr) with (r + (j + 1) * dr) by lia.
    replace (f + df + j * df) with (f + (j + 1) * df) by lia.
    apply H. lia.
Qed.

Ltac bound_false :=
  repeat match goal with
         | |- _ && _ = false => apply andb_false_iff
         end;
  first [ apply Z.leb_gt; lia
        | rewrite Z.geb_leb; apply Z.leb_gt; lia
        | left; first [apply Z.leb_gt; lia | rewrite Z.geb_leb; apply Z.leb_gt; lia]
        | right; first [apply Z.leb_gt; lia | rewrite Z.geb_leb; apply Z.leb_gt; lia] ].

(** From a real square eight rounds are enough for every rook and
    bishop ray. *)
Lemma rook_rays_fuel extra sq occupied :
  real_square sq ->
  rook_rays (8 + extra) sq occupied = generateRookAttacks sq occupied.
Proof.
  intros Hsq. destruct (square_split sq Hsq) as (Hf & Hr & _).
  unfold generateRookAttacks, rook_rays, RANK_1, RANK_8, FILE_A, FILE_H.
  rewrite !ray_fuel; [reflexivity | ..]; intros j Hj; cbv beta; bound_false.
Qed.

Lemma bishop_rays_fuel extra sq occupied :
  real_square sq ->
  bishop_rays (8 + extra) sq occupied = generateBishopAttacks sq occupied.
Proof.
  intros Hsq. destruct (square_split sq Hsq) as (Hf & Hr & _).
  unfold generateBishopAttacks, bishop_rays, RANK_1, RANK_8, FILE_A, FILE_H.
  rewrite !ray_fuel; [reflexivity | ..]; intros j Hj; cbv beta; bound_false.
Qed.

(** ** Move generation and make-move on concrete positions *)

Lemma Move_eqb_eq m n : Move_eqb m n = true <-> m = n.
Proof.
  destruct m as [f t p], n as [f' t' p']. unfold Move_eqb. cbn [from to promotion].
  split.
  - intros H. apply andb_true_iff in H. destruct H as [H Hp].
    apply andb_true_iff in H. destruct H as [Hf Ht].
    apply Z.eqb_eq in Hf. apply Z.eqb_eq in Ht. subst.
    destruct p, p'; try discriminate; reflexivity.
  - intros E. injection E as -> -> ->. rewrite !Z.eqb_refl.
    destruct p'; reflexivity.
Qed.

Lemma Move_in_In m l : Move_in m l = false -> ~ In m l.
Proof.
  unfold Move_in. intros H Hin.
  assert (E : existsb (Move_eqb m) l = true).
  { apply existsb_exists. exists m. split; [exact Hin | apply Move_eqb_eq; reflexivity]. }
  congruence.
Qed.

Lemma reachable_play b ms :
  reachable b -> all_accepted b ms = true -> reachable (play b ms).
Proof.
  revert b. induction ms as [|s rest IH]; intros b Hb Hacc; [exact Hb|].
  cbn [all_accepted] in Hacc. apply andb_true_iff in Hacc. destruct Hacc as [H1 H2].
  cbn [play fold_left]. apply IH; [|exact H2].
  apply (reachable_move b (fromUci s)); [exact Hb|].
  destruct (makeMove b (fromUci s)) as [r b']. cbn in H1 |- *. now subst r.
Qed.

(** C7: from the starting position (whatever board [reset] is applied
    to) the legal move generator returns exactly 20 moves. *)
Theorem starting_position_has_20_legal_moves (b : Board) :
  List.length (generateLegalMoves (reset b)) = 20%nat.
Proof.
  destruct b as [pw pb aw ab occ side rights ep hm fm flag].
  destruct flag; vm_compute; reflexivity.
Qed.

(** C1, evaluated on the code: after 1.e4 e5 2.Nf3 Nc6 3.Bc4 a5 the en
    passant square is a6; White castles short, the move is accepted, and
    the en passant square is still a6 although the move was no double
    push.  Likewise in "4k3/1P6/8/7p/8/8/8/4K3 w - h6 0 1" the promotion
    b7b8=Q is accepted and leaves the en passant square h6.  The castling
    and king-move branches and the promotion branch never write
    [_enPassantSquare]. *)
Theorem castling_keeps_stale_en_passant :
  let b := play Board_new ["e2e4"; "e7e5"; "g1f3"; "b8c6"; "f1c4"; "a7a5"]%string in
  let q := snd (setFromFen Board_new "4k3/1P6/8/7p/8/8/8/4K3 w - h6 0 1") in
  (reachable b
   /\ _enPassantSquare b = A6
   /\ fst (makeMove b (mkMove E1 G1 NO_PIECE_TYPE)) = true
   /\ _enPassantSquare (snd (makeMove b (mkMove E1 G1 NO_PIECE_TYPE))) = A6)
  /\ (reachable q
      /\ _enPassantSquare q = H6
      /\ fst (makeMove q (mkMove B7 B8 QUEEN)) = true
      /\ _enPassantSquare (snd (makeMove q (mkMove B7 B8 QUEEN))) = H6).
Proof.
  cbv zeta. split; split.
  - apply reachable_play; [apply reachable_new | vm_compute; reflexivity].
  - vm_compute. repeat split; reflexivity.
  - apply (reachable_fen Board_new "4k3/1P6/8/7p/8/8/8/4K3 w - h6 0 1");
      [apply reachable_new | vm_compute; reflexivity].
  - vm_compute. repeat split; reflexivity.
Qed.

(** C2, evaluated on the code: in the position of
    "r3k3/1P6/8/8/8/8/8/4K3 w q - 0 1" the castling invariant holds; the
    promotion b7xa8=Q is accepted and takes the rook on a8, the black
    queenside right stays set, and the invariant no longer holds.  The
    same happens when the king takes the rook, Kb7xa8 in
    "r3k3/1K6/8/8/8/8/8/8 w q - 0 1".  The promotion and king-move
    branches have no rook-capture update. *)
Theorem promotion_capture_keeps_castling_right :
  let b := snd (setFromFen Board_new "r3k3/1P6/8/8/8/8/8/4K3 w q - 0 1") in
  let q := snd (setFromFen Board_new "r3k3/1K6/8/8/8/8/8/8 w q - 0 1") in
  (reachable b
   /\ castling_invariant b = true
   /\ fst (makeMove b (mkMove B7 A8 QUEEN)) = true
   /\ Z.land (_castlingRights (snd (makeMove b (mkMove B7 A8 QUEEN)))) BLACK_OOO = BLACK_OOO
   /\ Z.testbit (_pieces (snd (makeMove b (mkMove B7 A8 QUEEN))) BLACK ROOK) A8 = false
   /\ castling_invariant (snd (makeMove b (mkMove B7 A8 QUEEN))) = false)
  /\ (reachable q
      /\ castling_invariant q = true
      /\ fst (makeMove q (mkMove B7 A8 NO_PIECE_TYPE)) = true
      /\ Z.land (_castlingRights (snd (makeMove q (mkMove B7 A8 NO_PIECE_TYPE)))) BLACK_OOO
         = BLACK_OOO
      /\ castling_invariant (snd (makeMove q (mkMove B7 A8 NO_PIECE_TYPE))) = false).
Proof.
  cbv zeta. split; split.
  - apply (reachable_fen Board_new "r3k3/1P6/8/8/8/8/8/4K3 w q - 0 1"); [apply reachable_new|].
    vm_compute. reflexivity.
  - vm_compute. repeat split; reflexivity.
  - apply (reachable_fen Board_new "r3k3/1K6/8/8/8/8/8/8 w q - 0 1"); [apply reachable_new|].
    vm_compute. reflexivity.
  - vm_compute. repeat split; reflexivity.
Qed.

Lemma dispatch_none b m movingColor movingPiece isCapture capturedColor capturedPiece :
  dispatch b m movingColor movingPiece isCapture capturedColor capturedPiece = None
  <-> castling_preconditions_fail b m movingPiece = true.
Proof.
  unfold dispatch, castling_preconditions_fail.
  destruct (PieceType_eqb movingPiece KING); cbn [andb].
  - repeat match goal with
           | |- context [if ?c then _ else _] => destruct c
           end; split; intros H; try reflexivity; try discriminate.
  - repeat match goal with
           | |- context [if ?c then _ else _] => destruct c
           end; split; intros H; try reflexivity; try discriminate.
Qed.

(** C4: [makeMove] accepts a move exactly when the move is valid, the
    from-square holds a piece of the side to move, the castling
    preconditions (if the move has the shape of a castling move) do not
    fail, and the mover's king is not attacked on the resulting board;
    the movement rule of the piece is not checked.  From the starting
    position the pawn move a2a5 and the rook move a1a2 (onto the own pawn,
    which disappears) are no pseudo-legal moves and are accepted. *)
Theorem makeMove_does_not_check_movement_rule :
  (forall b m,
     fst (makeMove b m) = true
     <-> isValid m = true
         /\ snd (pieceAt b (from m)) = _sideToMove b
         /\ castling_preconditions_fail b m (fst (pieceAt b (from m))) = false
         /\ (forall b2, applied b m = Some b2 -> isInCheck b2 (_sideToMove b2) = false))
  /\ (reachable Board_new
      /\ structurally_valid (mkMove A2 A5 NO_PIECE_TYPE)
      /\ ~ In (mkMove A2 A5 NO_PIECE_TYPE) (generatePseudoLegalMoves Board_new)
      /\ fst (makeMove Board_new (mkMove A2 A5 NO_PIECE_TYPE)) = true)
  /\ (structurally_valid (mkMove A1 A2 NO_PIECE_TYPE)
      /\ ~ In (mkMove A1 A2 NO_PIECE_TYPE) (generatePseudoLegalMoves Board_new)
      /\ fst (makeMove Board_new (mkMove A1 A2 NO_PIECE_TYPE)) = true
      /\ Z.testbit (_pieces Board_new WHITE PAWN) A2 = true
      /\ Z.testbit (_pieces (snd (makeMove Board_new (mkMove A1 A2 NO_PIECE_TYPE))) WHITE PAWN) A2 = false
      /\ Z.testbit (_pieces (snd (makeMove Board_new (mkMove A1 A2 NO_PIECE_TYPE))) WHITE ROOK) A2 = true).
Proof.
  split; [|split].
  - intros b m. unfold makeMove, applied.
    destruct (isValid m); cbn [negb].
    2:{ split; [discriminate | intros (H & _); discriminate]. }
    destruct (pieceAt b (from m)) as [movingPiece movingColor].
    destruct (pieceAt b (to m)) as [capturedPiece capturedColor].
    cbn [fst snd].
    destruct (Color_eqb movingColor (_sideToMove b)) eqn:Ec; cbn [negb].
    2:{ split; [discriminate|]. intros (_ & E & _). subst movingColor.
        destruct (_sideToMove b); discriminate. }
    assert (Eside : movingColor = _sideToMove b)
      by (destruct movingColor, (_sideToMove b); try discriminate; reflexivity).
    pose proof (dispatch_none b m movingColor movingPiece
                  (negb (Color_eqb capturedColor NO_COLOR)) capturedColor capturedPiece) as Hn.
    destruct (dispatch b m movingColor movingPiece
                (negb (Color_eqb capturedColor NO_COLOR)) capturedColor capturedPiece)
      as [b1|]; cbn [option_map].
    + assert (Hc : castling_preconditions_fail b m movingPiece = false).
      { destruct (castling_preconditions_fail b m movingPiece); [|reflexivity].
        destruct Hn as [_ Hn]. discriminate (Hn eq_refl). }
      destruct (isInCheck (updateCombinedBitboards b1)
                  (_sideToMove (updateCombinedBitboards b1))) eqn:Echeck; cbn [fst].
      * split; [discriminate|]. intros (_ & _ & _ & H).
        specialize (H _ eq_refl). congruence.
      * split; [|reflexivity]. intros _. repeat split; try assumption.
        intros b2 E. injection E as <-. exact Echeck.
    + split; [discriminate|]. intros (_ & _ & H & _).
      destruct Hn as [Hn _]. rewrite (Hn eq_refl) in H. discriminate.
  - split; [apply reachable_new|]. split.
    + unfold structurally_valid, real_square, A2, A5. cbn [from to]. lia.
    + split; [apply Move_in_In; vm_compute; reflexivity | vm_compute; reflexivity].
  - split.
    + unfold structurally_valid, real_square, A1, A2. cbn [from to]. lia.
    + split; [apply Move_in_In; vm_compute; reflexivity|].
      vm_compute. repeat split; reflexivity.
Qed.

(** ** Counting bits *)

Lemma NoDup_all_squares : NoDup all_squares.
Proof.
  unfold all_squares.
  assert (H : forall l, NoDup l -> NoDup (map Z.of_nat l)).
  { induction 1 as [|x l Hx Hl IH]; cbn [map]; constructor; [|exact IH].
    intros Hin. apply in_map_iff in Hin. destruct Hin as (y & E & Hy).
    apply Nat2Z.inj in E. subst y. contradiction. }
  apply H, seq_NoDup.
Qed.

Lemma filter_drop_one (f : Z -> bool) k l :
  NoDup l -> In k l -> f k = true ->
  S (List.length (filter (fun i => f i && negb (i =? k)) l)) = List.length (filter f l).
Proof.
  induction 1 as [|x l Hx Hl IH]; intros Hin Hk; [destruct Hin|].
  cbn [filter]. destruct Hin as [->|Hin].
  - rewrite Hk, Z.eqb_refl. cbn [andb negb List.length]. f_equal.
    f_equal. apply filter_ext_in. intros a Ha.
    destruct (Z.eqb_spec a k) as [->|_]; [contradiction|].
    apply andb_true_r.
  - assert (Hne : x <> k) by (intros ->; contradiction).
    apply Z.eqb_neq in Hne. rewrite Hne. cbn [negb]. rewrite andb_true_r.
    destruct (f x); cbn [List.length]; rewrite <- (IH Hin Hk); reflexivity.
Qed.

Lemma filter_split (f g : Z -> bool) l :
  (forall i, f i && g i = false) ->
  List.length (filter (fun i => f i || g i) l)
  = (List.length (filter f l) + List.length (filter g l))%nat.
Proof.
  intros Hex. induction l as [|x l IH]; [reflexivity|].
  cbn [filter]. specialize (Hex x).
  destruct (f x), (g x); try discriminate; cbn [orb List.length]; rewrite IH; lia.
Qed.

Lemma bits_0 : bits 0 = 0%nat.
Proof. vm_compute. reflexivity. Qed.

Lemma bits_le_64 bb : (bits bb <= 64)%nat.
Proof. unfold bits. apply (filter_length_le (Z.testbit bb) all_squares). Qed.

Lemma bits_clearLowest bb :
  in_u64 bb -> bb <> 0 -> S (bits (BitboardUtils.clearLowest bb)) = bits bb.
Proof.
  intros Hr Hne. unfold bits.
  rewrite (filter_ext _ (fun i => Z.testbit bb i && negb (i =? BitboardUtils.lsb bb)))
    by (intros i; apply clearLowest_bits; assumption).
  apply filter_drop_one.
  - apply NoDup_all_squares.
  - apply real_square_in, lsb_real; assumption.
  - apply lsb_set. unfold in_u64 in Hr. lia.
Qed.

Lemma bits_lor x y :
  (forall i, Z.testbit x i && Z.testbit y i = false) ->
  bits (Z.lor x y) = (bits x + bits y)%nat.
Proof.
  intros H. unfold bits. rewrite <- filter_split by exact H.
  f_equal. apply filter_ext. intros i. apply Z.lor_spec.
Qed.

(** A set bit is counted. *)
Lemma bits_pos x i : real_square i -> Z.testbit x i = true -> (1 <= bits x)%nat.
Proof.
  intros Hi Hb. unfold bits.
  assert (Hin : In i (filter (Z.testbit x) all_squares))
    by (apply filter_In; split; [apply real_square_in, Hi | exact Hb]).
  destruct (filter (Z.testbit x) all_squares); [destruct Hin | cbn [List.length]; lia].
Qed.

(** Two distinct set bits are both counted. *)
Lemma bits_two x i j :
  real_square i -> real_square j -> i <> j ->
  Z.testbit x i = true -> Z.testbit x j = true -> (2 <= bits x)%nat.
Proof.
  intros Hi Hj Hne Bi Bj. unfold bits.
  rewrite <- (filter_drop_one (Z.testbit x) i all_squares NoDup_all_squares
                (real_square_in i Hi) Bi).
  apply le_n_S.
  assert (Hin : In j (filter (fun k => Z.testbit x k && negb (k =? i)) all_squares)).
  { apply filter_In. split; [apply real_square_in, Hj|].
    rewrite Bj. apply Z.eqb_neq in Hne. rewrite Z.eqb_sym, Hne. reflexivity. }
  destruct (filter (fun k => Z.testbit x k && negb (k =? i)) all_squares);
    [destruct Hin | cbn [List.length]; lia].
Qed.

(** The loop of [popCount] counts the set bits; 64 rounds are enough for
    every 64-bit word. *)
Lemma popCount_loop_bits fuel bb count :
  in_u64 bb -> (bits bb <= fuel)%nat ->
  BitboardUtils.popCount_loop fuel bb count = count + Z.of_nat (bits bb).
Proof.
  revert bb count. induction fuel as [|k IH]; intros bb count Hr Hle.
  - cbn [BitboardUtils.popCount_loop]. replace (bits bb) with 0%nat by lia. lia.
  - cbn [BitboardUtils.popCount_loop]. destruct (nz bb) eqn:E.
    + apply nz_true in E. pose proof (bits_clearLowest bb Hr E) as Hs.
      rewrite IH; [lia | apply clearLowest_range, Hr | lia].
    + apply nz_false in E. subst bb. rewrite bits_0. lia.
Qed.

Lemma popCount_bits bb : in_u64 bb -> BitboardUtils.popCount bb = Z.of_nat (bits bb).
Proof.
  intros Hr. unfold BitboardUtils.popCount.
  rewrite popCount_loop_bits; [lia | exact Hr | apply bits_le_64].
Qed.

(** The bit loops of the move generator likewise end within 64 rounds:
    more fuel changes nothing. *)
Lemma for_each_bit_fuel {A : Type} fuel extra bb (body : Square -> A -> A) acc :
  in_u64 bb -> (bits bb <= fuel)%nat ->
  for_each_bit (fuel + extra) bb body acc = for_each_bit fuel bb body acc.
Proof.
  revert bb acc. induction fuel as [|k IH]; intros bb acc Hr Hle.
  - destruct extra; [reflexivity|]. cbn [Nat.add for_each_bit].
    destruct (nz bb) eqn:E; [|reflexivity]. apply nz_true in E.
    pose proof (bits_clearLowest bb Hr E). lia.
  - cbn [Nat.add for_each_bit]. destruct (nz bb) eqn:E; [|reflexivity].
    apply nz_true in E. pose proof (bits_clearLowest bb Hr E).
    apply IH; [apply clearLowest_range, Hr | lia].
Qed.

(** From here on [bits] is used through the lemmas above only. *)
Opaque bits.

(** ** Consequences of the position invariant *)


Lemma disjoint_sym x y : disjoint x y -> disjoint y x.
Proof. unfold disjoint. now rewrite Z.land_comm. Qed.

Lemma disjoint_0_l y : disjoint 0 y.
Proof. apply Z.land_0_l. Qed.

Lemma disjoint_lor_l x y z : disjoint x z -> disjoint y z -> disjoint (Z.lor x y) z.
Proof.
  unfold disjoint. intros Hx Hy.
  rewrite Z.land_lor_distr_l, Hx, Hy. reflexivity.
Qed.

Lemma disjoint_lor_r x y z : disjoint z x -> disjoint z y -> disjoint z (Z.lor x y).
Proof. intros Hx Hy. apply disjoint_sym, disjoint_lor_l; apply disjoint_sym; assumption. Qed.

Lemma disjoint_bits x y i : disjoint x y -> Z.testbit x i && Z.testbit y i = false.
Proof.
  unfold disjoint. intros H. rewrite <- Z.land_spec, H. apply Z.bits_0.
Qed.

Lemma bits_lor_disjoint x y : disjoint x y -> bits (Z.lor x y) = (bits x + bits y)%nat.
Proof. intros H. apply bits_lor. intros i. apply disjoint_bits, H. Qed.

Lemma subset_disjoint x a y c :
  Z.land x a = x -> Z.land y c = y -> disjoint a c -> disjoint x y.
Proof.
  unfold disjoint. intros Hx Hy Hac. rewrite <- Hx, <- Hy.
  replace (Z.land (Z.land x a) (Z.land y c))
    with (Z.land (Z.land x y) (Z.land a c)).
  - rewrite Hac. apply Z.land_0_r.
  - apply Z.bits_inj'. intros i _. rewrite !Z.land_spec.
    destruct (Z.testbit x i), (Z.testbit a i), (Z.testbit y i), (Z.testbit c i); reflexivity.
Qed.

Lemma get6_in_union a p : Z.land (get6 a p) (union (pieces_of a)) = get6 a p.
Proof.
  apply Z.bits_inj'. intros i _. rewrite Z.land_spec.
  unfold union, pieces_of, piece_types. cbn [map fold_left]. rewrite !Z.lor_spec, Z.bits_0.
  destruct p; cbn [get6]; rewrite ?Z.bits_0;
    repeat match goal with |- context [Z.testbit ?x i] => destruct (Z.testbit x i) end;
    reflexivity.
Qed.


Lemma in_u64b_true x : in_u64b x = true -> in_u64 x.
Proof.
  unfold in_u64b, in_u64. intros H. apply andb_true_iff in H.
  destruct H as [A B]. apply Z.leb_le in A. apply Z.ltb_lt in B. lia.
Qed.

Lemma pairwise_six a p q :
  pairwise_disjointb (pieces_of a) = true -> p <> q -> disjoint (get6 a p) (get6 a q).
Proof.
  unfold pieces_of, piece_types. cbn [map pairwise_disjointb forallb]. intros H Hpq.
  repeat match type of H with
         | _ && _ = true => apply andb_true_iff in H; let H' := fresh "D" in destruct H as [H' H]
         end.
  repeat match goal with
         | D : _ && _ = true |- _ => apply andb_true_iff in D; let D' := fresh "D" in destruct D as [D' D]
         end.
  repeat match goal with
         | D : (_ =? 0) = true |- _ => apply Z.eqb_eq in D
         | D : true = true |- _ => clear D
         end.
  unfold disjoint.
  destruct p, q; cbn [get6]; try congruence;
    try apply Z.land_0_l; try apply Z.land_0_r;
    try assumption; rewrite Z.land_comm; assumption.
Qed.

Lemma position_invariant_facts b : position_invariant b = true -> Invariant b.
Proof.
  unfold position_invariant. intros H.
  repeat match type of H with
         | _ && _ = true => apply andb_true_iff in H; let H' := fresh "P" in destruct H as [H H']
         end.
  apply Z.eqb_eq in P, P0, P1, P2.
  rewrite forallb_app in H. apply andb_true_iff in H. destruct H as [Rw Rb].
  assert (Hrange : forall a p, forallb in_u64b (pieces_of a) = true -> in_u64 (get6 a p)).
  { intros a p Ha. unfold pieces_of, piece_types in Ha. cbn [map forallb] in Ha.
    repeat match type of Ha with
           | _ && _ = true => apply andb_true_iff in Ha; let H' := fresh "R" in destruct Ha as [H' Ha]
           end.
    destruct p; cbn [get6]; apply in_u64b_true; assumption. }
  constructor.
  - intros c p. destruct c; cbn [_pieces]; [apply Hrange, Rw | apply Hrange, Rb | unfold in_u64; lia].
  - intros c p q Hpq. destruct c; cbn [_pieces];
      [apply pairwise_six; assumption | apply pairwise_six; assumption | apply disjoint_0_l].
  - intros p q. cbn [_pieces].
    apply (subset_disjoint _ (union (pieces_of (_piecesWhite b))) _ (union (pieces_of (_piecesBlack b)))).
    + apply get6_in_union.
    + apply get6_in_union.
    + unfold disjoint. rewrite <- P1, <- P0. exact P2.
  - exact P1.
  - exact P0.
  - exact P2.
  - exact P.
Qed.

(** ** Insufficient material *)

Ltac split_disjoint :=
  repeat match goal with
         | |- disjoint (Z.lor _ _) _ => apply disjoint_lor_l
         end.

Lemma union_range a :
  (forall p, in_u64 (get6 a p)) -> in_u64 (union (pieces_of a)).
Proof.
  intros H. unfold union, pieces_of, piece_types. cbn [map fold_left].
  repeat match goal with |- in_u64 (Z.lor _ _) => apply lor_range end;
    try apply H. unfold in_u64. lia.
Qed.

Lemma bits_union a :
  (forall p q, p <> q -> disjoint (get6 a p) (get6 a q)) ->
  bits (union (pieces_of a))
  = (bits (get6 a PAWN) + bits (get6 a KNIGHT) + bits (get6 a BISHOP)
     + bits (get6 a ROOK) + bits (get6 a QUEEN) + bits (get6 a KING))%nat.
Proof.
  intros H. unfold union, pieces_of, piece_types. cbn [map fold_left].
  rewrite !bits_lor_disjoint, bits_0;
    [reflexivity | ..];
    split_disjoint; try apply disjoint_0_l; apply H; discriminate.
Qed.

Lemma bits_one_lsb x s :
  in_u64 x -> bits x = 1%nat -> real_square s -> Z.testbit x s = true ->
  BitboardUtils.lsb x = s.
Proof.
  intros Hr Hone Hs Hb.
  assert (Hne : x <> 0) by (intros ->; rewrite Z.bits_0 in Hb; discriminate).
  destruct (Z.eq_dec (BitboardUtils.lsb x) s) as [E|E]; [exact E|].
  pose proof (bits_two x (BitboardUtils.lsb x) s (lsb_real x Hr Hne) Hs E
                (lsb_set x ltac:(unfold in_u64 in Hr; lia)) Hb).
  lia.
Qed.

Lemma bits_one_has_lsb x :
  in_u64 x -> bits x = 1%nat ->
  real_square (BitboardUtils.lsb x) /\ Z.testbit x (BitboardUtils.lsb x) = true.
Proof.
  intros Hr Hone.
  assert (Hne : x <> 0) by (intros ->; rewrite bits_0 in Hone; discriminate).
  split; [apply lsb_real; assumption|].
  apply lsb_set. unfold in_u64 in Hr. lia.
Qed.

Lemma bare_king_iff b c :
  bare_king b c
  <-> material b c PAWN = 0%nat /\ material b c KNIGHT = 0%nat
      /\ material b c BISHOP = 0%nat /\ material b c ROOK = 0%nat
      /\ material b c QUEEN = 0%nat.
Proof.
  unfold bare_king. split.
  - intros H. repeat split; apply H; discriminate.
  - intros (Hp & Hn & Hb & Hr & Hq) p Hk.
    destruct p; try assumption; try congruence.
    destruct c; apply bits_0.
Qed.

(** The light-square test of the code agrees with the square color. *)
Lemma light_test_color s t :
  real_square s -> real_square t ->
  Bool.eqb
    (Z.rem (BitboardUtils.squareRank s + BitboardUtils.squareFile s) 2 =? 0)
    (Z.rem (BitboardUtils.squareRank t + BitboardUtils.squareFile t) 2 =? 0) = true
  <-> square_color s = square_color t.
Proof.
  intros Hs Ht. unfold square_color.
  destruct (square_split s Hs) as (A1' & A2' & _).
  destruct (square_split t Ht) as (B1' & B2' & _).
  rewrite !Z.rem_mod_nonneg by lia.
  pose proof (Z.mod_pos_bound (BitboardUtils.squareRank s + BitboardUtils.squareFile s) 2 ltac:(lia)).
  pose proof (Z.mod_pos_bound (BitboardUtils.squareRank t + BitboardUtils.squareFile t) 2 ltac:(lia)).
  destruct (Z.eqb_spec ((BitboardUtils.squareRank s + BitboardUtils.squareFile s) mod 2) 0),
    (Z.eqb_spec ((BitboardUtils.squareRank t + BitboardUtils.squareFile t) mod 2) 0);
    cbn [Bool.eqb]; split; intros; try reflexivity; try discriminate; lia.
Qed.

(** The result of [isInsufficientMaterial] in terms of piece counts. *)
Lemma isInsufficientMaterial_counts b :
  position_invariant b = true ->
  let w := (material b WHITE PAWN + material b WHITE KNIGHT + material b WHITE BISHOP
            + material b WHITE ROOK + material b WHITE QUEEN + material b WHITE KING)%nat in
  let k := (material b BLACK PAWN + material b BLACK KNIGHT + material b BLACK BISHOP
            + material b BLACK ROOK + material b BLACK QUEEN + material b BLACK KING)%nat in
  let minor := (material b WHITE KNIGHT + material b WHITE BISHOP
                + material b BLACK KNIGHT + material b BLACK BISHOP)%nat in
  let same :=
    Bool.eqb
      (Z.rem (BitboardUtils.squareRank (BitboardUtils.lsb (_pieces b WHITE BISHOP))
              + BitboardUtils.squareFile (BitboardUtils.lsb (_pieces b WHITE BISHOP))) 2 =? 0)
      (Z.rem (BitboardUtils.squareRank (BitboardUtils.lsb (_pieces b BLACK BISHOP))
              + BitboardUtils.squareFile (BitboardUtils.lsb (_pieces b BLACK BISHOP))) 2 =? 0) in
  isInsufficientMaterial b = true
  <-> (w + k = 2)%nat
      \/ ((w + k = 3)%nat /\ (w = 1 \/ k = 1)%nat /\ minor = 1%nat)
      \/ ((w + k = 4)%nat /\ material b WHITE BISHOP = 1%nat
          /\ material b BLACK BISHOP = 1%nat /\ w = 2%nat /\ k = 2%nat /\ same = true).
Proof.
  intros Hinv. pose proof (position_invariant_facts b Hinv) as I.
  intros w k minor same.
  assert (Rw : forall p, in_u64 (get6 (_piecesWhite b) p)) by (intros p; apply (I_range b I WHITE p)).
  assert (Rb : forall p, in_u64 (get6 (_piecesBlack b) p)) by (intros p; apply (I_range b I BLACK p)).
  assert (Ew : bits (_allPiecesWhite b) = w).
  { rewrite (I_allWhite b I), bits_union; [unfold w; cbn [_pieces]; reflexivity|].
    intros p q Hpq. apply (I_same b I WHITE p q Hpq). }
  assert (Ek : bits (_allPiecesBlack b) = k).
  { rewrite (I_allBlack b I), bits_union; [unfold k; cbn [_pieces]; reflexivity|].
    intros p q Hpq. apply (I_same b I BLACK p q Hpq). }
  assert (Eo : bits (_occupiedSquares b) = (w + k)%nat).
  { rewrite (I_occupied b I), bits_lor_disjoint by apply (I_colors b I). congruence. }
  assert (Em : bits (Z.lor (Z.lor (Z.lor (_pieces b WHITE KNIGHT) (_pieces b WHITE BISHOP))
                                  (_pieces b BLACK KNIGHT)) (_pieces b BLACK BISHOP)) = minor).
  { rewrite !bits_lor_disjoint; [unfold minor; reflexivity | ..].
    - apply (I_same b I WHITE); discriminate.
    - split_disjoint; apply (I_cross b I).
    - split_disjoint; try apply (I_cross b I).
      apply (I_same b I BLACK); discriminate. }
  assert (Uw : in_u64 (_allPiecesWhite b)) by (rewrite (I_allWhite b I); apply union_range, Rw).
  assert (Uk : in_u64 (_allPiecesBlack b)) by (rewrite (I_allBlack b I); apply union_range, Rb).
  assert (Uo : in_u64 (_occupiedSquares b)) by (rewrite (I_occupied b I); apply lor_range; assumption).
  assert (Um : in_u64 (Z.lor (Z.lor (Z.lor (_pieces b WHITE KNIGHT) (_pieces b WHITE BISHOP))
                                    (_pieces b BLACK KNIGHT)) (_pieces b BLACK BISHOP)))
    by (repeat match goal with |- in_u64 (Z.lor _ _) => apply lor_range end;
        apply (I_range b I)).
  unfold isInsufficientMaterial. cbn [_allPieces].
  rewrite !(popCount_bits (_occupiedSquares b) Uo), !(popCount_bits (_allPiecesWhite b) Uw),
    !(popCount_bits (_allPiecesBlack b) Uk), (popCount_bits _ Um),
    (popCount_bits _ (I_range b I WHITE BISHOP)), (popCount_bits _ (I_range b I BLACK BISHOP)).
  rewrite Eo, Ew, Ek, Em.
  subst same.
  set (same := Bool.eqb _ _).
  set (wB := bits (_pieces b WHITE BISHOP)).
  set (kB := bits (_pieces b BLACK BISHOP)).
  clear Ew Ek Eo Em Uw Uk Uo Um Rw Rb.
  clearbody w k minor same wB kB.
  clear Hinv I b.
  repeat match goal with
         | |- context [Z.of_nat ?x =? ?n] => destruct (Z.eqb_spec (Z.of_nat x) n)
         end;
    cbn [orb andb]; destruct same;
    (split; [intros Hr; first [discriminate Hr | lia | right; lia | right; right; lia]
            | intros Hs; first [reflexivity | exfalso; lia]]).
Qed.

Lemma same_color_iff b :
  Invariant b ->
  material b WHITE BISHOP = 1%nat -> material b BLACK BISHOP = 1%nat ->
  Bool.eqb
    (Z.rem (BitboardUtils.squareRank (BitboardUtils.lsb (_pieces b WHITE BISHOP))
            + BitboardUtils.squareFile (BitboardUtils.lsb (_pieces b WHITE BISHOP))) 2 =? 0)
    (Z.rem (BitboardUtils.squareRank (BitboardUtils.lsb (_pieces b BLACK BISHOP))
            + BitboardUtils.squareFile (BitboardUtils.lsb (_pieces b BLACK BISHOP))) 2 =? 0) = true
  <-> exists sw sb,
        real_square sw /\ real_square sb
        /\ Z.testbit (_pieces b WHITE BISHOP) sw = true
        /\ Z.testbit (_pieces b BLACK BISHOP) sb = true
        /\ square_color sw = square_color sb.
Proof.
  intros I Hw Hk.
  destruct (bits_one_has_lsb _ (I_range b I WHITE BISHOP) Hw) as [Rw Bw].
  destruct (bits_one_has_lsb _ (I_range b I BLACK BISHOP) Hk) as [Rk Bk].
  split.
  - intros E. apply (proj1 (light_test_color _ _ Rw Rk)) in E.
    exists (BitboardUtils.lsb (_pieces b WHITE BISHOP)),
      (BitboardUtils.lsb (_pieces b BLACK BISHOP)).
    split; [exact Rw|]. split; [exact Rk|]. split; [exact Bw|]. split; [exact Bk | exact E].
  - intros (sw & sb & Hsw & Hsb & Tw & Tk & E).
    apply (proj2 (light_test_color _ _ Rw Rk)).
    rewrite (bits_one_lsb _ sw (I_range b I WHITE BISHOP) Hw Hsw Tw).
    rewrite (bits_one_lsb _ sb (I_range b I BLACK BISHOP) Hk Hsb Tk).
    exact E.
Qed.

(** C10, as the code has it: on a position that satisfies the bitboard
    invariants and has one king on each side, [isInsufficientMaterial]
    returns true exactly in the three cases (two kings only; a bare king against king and one
    knight or bishop; king and bishop each with the bishops on squares of
    the same color), and it returns false for king and knight against
    king and knight. *)
Theorem isInsufficientMaterial_cases (b : Board) :
  position_invariant b = true -> one_king_each b = true ->
  (isInsufficientMaterial b = true <-> insufficient_material_spec b)
  /\ (king_and_knight b WHITE -> king_and_knight b BLACK ->
      isInsufficientMaterial b = false).
Proof.
  intros Hinv Hkings.
  pose proof (position_invariant_facts b Hinv) as I.
  pose proof (isInsufficientMaterial_counts b Hinv) as Hc. cbv zeta in Hc.
  pose proof (same_color_iff b I) as Hsame.
  unfold one_king_each in Hkings. apply andb_true_iff in Hkings.
  destruct Hkings as [Kw Kk]. apply Nat.eqb_eq in Kw, Kk.
  set (same := Bool.eqb _ _) in *.
  set (E := exists sw sb, _) in *.
  split.
  - unfold insufficient_material_spec, two_kings_only, king_and_minor_versus_king,
      bishops_on_same_color, king_and_one_minor, king_and_bishop.
    fold E. rewrite !bare_king_iff, Hc. clear Hc. clearbody same E.
    split.
    + intros [H2|[(H3 & Hone & Hm)|(H4 & Bw & Bk & W2 & K2 & Hs)]].
      * left. repeat split; lia.
      * right. left. destruct Hone as [W1|K1]; [left | right]; repeat split; lia.
      * right. right. split; [repeat split; lia|]. split; [repeat split; lia|].
        apply (Hsame Bw Bk), Hs.
    + intros [(Hw & Hk)|[[(Hw & Hk)|(Hk & Hw)]|(Hw & Hk & He)]].
      * left. lia.
      * right. left. repeat split; lia.
      * right. left. repeat split; lia.
      * right. right. destruct Hw as (Bw & ?), Hk as (Bk & ?).
        repeat split; try lia. apply (Hsame Bw Bk), He.
  - unfold king_and_knight. intros Hw Hk.
    destruct (isInsufficientMaterial b); [|reflexivity].
    pose proof (proj1 Hc eq_refl) as R. clear Hc Hsame. clearbody same E. exfalso.
    destruct R as [H2|[(H3 & Hone & Hm)|(H4 & Bw & Bk & W2 & K2 & Hs)]]; lia.
Qed.

Lemma isInsufficientMaterial_cases_witness :
  isInsufficientMaterial
    (snd (setFromFen Board_new "8/8/8/4k3/8/1n6/3N4/4K3 w - - 0 1")) = false.
Proof.
  apply (isInsufficientMaterial_cases
           (snd (setFromFen Board_new "8/8/8/4k3/8/1n6/3N4/4K3 w - - 0 1"))).
  - vm_compute. reflexivity.
  - vm_compute. reflexivity.
  - vm_compute. repeat split; reflexivity.
  - vm_compute. repeat split; reflexivity.
Defined.

(** C10 as stated fails: the function counts pieces and never looks at
    the kings.  The FEN "8/8/8/8/8/8/8/NN6 w - - 0 1" is accepted and
    gives a position that satisfies the bitboard invariants, with two
    white knights and no king; [isInsufficientMaterial] returns true on
    it (two pieces on the board), and it is none of the three cases. *)
Lemma isInsufficientMaterial_true_without_kings :
  let b := snd (setFromFen Board_new "8/8/8/8/8/8/8/NN6 w - - 0 1") in
  fst (setFromFen Board_new "8/8/8/8/8/8/8/NN6 w - - 0 1") = true
  /\ position_invariant b = true
  /\ isInsufficientMaterial b = true
  /\ ~ insufficient_material_spec b.
Proof.
  intros b.
  split; [vm_compute; reflexivity|].
  split; [vm_compute; reflexivity|].
  split; [vm_compute; reflexivity|].
  assert (Hn : bits (_pieces b WHITE KNIGHT) = 2%nat) by (vm_compute; reflexivity).
  unfold insufficient_material_spec, two_kings_only, king_and_minor_versus_king,
    bishops_on_same_color, bare_king, king_and_one_minor, king_and_bishop.
  intros [[Hw _]|[[[Hw _]|[_ Hw]]|[Hw _]]].
  - specialize (Hw KNIGHT ltac:(discriminate)). rewrite Hn in Hw. discriminate.
  - specialize (Hw KNIGHT ltac:(discriminate)). rewrite Hn in Hw. discriminate.
  - destruct Hw as [Hw _]. rewrite Hn in Hw.
    assert (Hb : bits (_pieces b WHITE BISHOP) = 0%nat) by (vm_compute; reflexivity).
    rewrite Hb in Hw. discriminate.
  - destruct Hw as (_ & _ & Hw & _). rewrite Hn in Hw. discriminate.
Qed.

(** ** setFromFen: failures *)

Lemma untouched_put_piece b c p sq : untouched (put_piece b c p sq) = untouched b.
Proof. destruct c; reflexivity. Qed.

Lemma parse_placement_result cs rank file b :
  fst (parse_placement cs rank file b) = negb (string_exists bad_placement_char cs)
  /\ untouched (snd (parse_placement cs rank file b)) = untouched b.
Proof.
  revert rank file b. induction cs as [|c rest IH]; intros rank file b;
    [split; reflexivity|].
  cbn [parse_placement string_exists]. unfold bad_placement_char at 1.
  destruct (Ascii.eqb c "/"); cbn [negb andb orb]; [apply IH|].
  destruct (isdigit c); cbn [negb andb orb]; [apply IH|].
  destruct (piece_of_char c) as [pieceType|]; cbn [is_none orb].
  - destruct (IH rank (file + 1)
                (put_piece b (if isupper c then WHITE else BLACK) pieceType
                   (BitboardUtils.squareFromRankFile rank file))) as [E1 E2].
    split; [exact E1|]. rewrite E2. apply untouched_put_piece.
  - split; reflexivity.
Qed.

Lemma parse_castling_result cs b :
  fst (parse_castling cs b) = negb (string_exists (bad_castling_char false) cs)
  /\ untouched (snd (parse_castling cs b)) = untouched b.
Proof.
  revert b. induction cs as [|c rest IH]; intros b; [split; reflexivity|].
  cbn [parse_castling string_exists]. unfold bad_castling_char at 1.
  destruct (Ascii.eqb c "K"); cbn [negb andb orb].
  { destruct (IH (set_castlingRights b (Z.lor (_castlingRights b) WHITE_OO))) as [E1 E2].
    split; [exact E1 | rewrite E2; reflexivity]. }
  destruct (Ascii.eqb c "Q"); cbn [negb andb orb].
  { destruct (IH (set_castlingRights b (Z.lor (_castlingRights b) WHITE_OOO))) as [E1 E2].
    split; [exact E1 | rewrite E2; reflexivity]. }
  destruct (Ascii.eqb c "k"); cbn [negb andb orb].
  { destruct (IH (set_castlingRights b (Z.lor (_castlingRights b) BLACK_OO))) as [E1 E2].
    split; [exact E1 | rewrite E2; reflexivity]. }
  destruct (Ascii.eqb c "q"); cbn [negb andb orb].
  { destruct (IH (set_castlingRights b (Z.lor (_castlingRights b) BLACK_OOO))) as [E1 E2].
    split; [exact E1 | rewrite E2; reflexivity]. }
  split; reflexivity.
Qed.

Lemma parse_castling960_result cs b :
  fst (parse_castling960 cs b) = negb (string_exists (bad_castling_char true) cs)
  /\ untouched (snd (parse_castling960 cs b)) = untouched b.
Proof.
  revert b. induction cs as [|c rest IH]; intros b; [split; reflexivity|].
  cbn [parse_castling960 string_exists]. unfold bad_castling_char at 1.
  destruct ((code "A" <=? code c) && (code c <=? code "H")); cbn [negb andb orb].
  { destruct (IH (set_castlingRights b (Z.lor (_castlingRights b) NO_CASTLING))) as [E1 E2].
    split; [exact E1 | rewrite E2; reflexivity]. }
  destruct ((code "a" <=? code c) && (code c <=? code "h")); cbn [negb andb orb].
  { destruct (IH (set_castlingRights b (Z.lor (_castlingRights b) NO_CASTLING))) as [E1 E2].
    split; [exact E1 | rewrite E2; reflexivity]. }
  split; reflexivity.
Qed.

(** [setFromFen] returns failure exactly on the inputs of
    [fen_rejected], and after a failure the derived bitboards are
    empty. *)
Lemma setFromFen_fails_iff (b : Board) (fen : string) :
  (fst (setFromFen b fen) = false <-> fen_rejected b fen = true)
  /\ (fst (setFromFen b fen) = true
      \/ (_occupiedSquares (snd (setFromFen b fen)) = 0
          /\ _allPiecesWhite (snd (setFromFen b fen)) = 0
          /\ _allPiecesBlack (snd (setFromFen b fen)) = 0)).
Proof.
  unfold fen_rejected, fen_field, setFromFen. cbn [existsb Nat.iter nat_rect].
  destruct (extract fen) as [board ss1]. cbn [fst snd].
  destruct (extract ss1) as [activeColor ss2]. cbn [fst snd].
  destruct (extract ss2) as [castling ss3]. cbn [fst snd].
  destruct (extract ss3) as [enPassant ss4]. cbn [fst snd].
  destruct (extract ss4) as [halfmove ss5]. cbn [fst snd].
  destruct (extract ss5) as [fullmove ss6]. cbn [fst snd].
  destruct (empty board); cbn [orb fst snd];
    [split; [split; reflexivity | right; repeat split]|].
  destruct (empty activeColor); cbn [orb fst snd];
    [split; [split; reflexivity | right; repeat split]|].
  destruct (empty castling); cbn [orb fst snd];
    [split; [split; reflexivity | right; repeat split]|].
  destruct (empty enPassant); cbn [orb fst snd];
    [split; [split; reflexivity | right; repeat split]|].
  destruct (empty halfmove); cbn [orb fst snd];
    [split; [split; reflexivity | right; repeat split]|].
  destruct (empty fullmove); cbn [orb fst snd];
    [split; [split; reflexivity | right; repeat split]|].
  destruct (parse_placement_result board 7 0 (clear_bitboards b)) as [P1 P2].
  destruct (parse_placement board 7 0 (clear_bitboards b)) as [ok1 b1].
  cbn [fst snd] in P1, P2.
  apply (f_equal negb) in P1. rewrite negb_involutive in P1. rewrite <- P1.
  change (untouched (clear_bitboards b)) with (0, 0, 0, _chess960 b) in P2.
  unfold untouched in P2. injection P2 as A1' A2' A3' A4'.
  destruct ok1; cbn [negb orb].
  2:{ cbn [fst snd]. split; [split; reflexivity | right; auto]. }
  set (b2 := set_castlingRights
               (set_sideToMove b1 (if string_eqb activeColor "w" then WHITE else BLACK)) 0).
  assert (U2 : untouched b2 = (0, 0, 0, _chess960 b))
    by (unfold untouched, b2; cbn; rewrite A1', A2', A3', A4'; reflexivity).
  assert (C2 : _chess960 b2 = _chess960 b) by (unfold b2; cbn; exact A4').
  assert (Hcast : exists ok3 b3,
            (if negb (string_eqb castling "-")
             then if _chess960 b2 then parse_castling960 castling b2
                  else parse_castling castling b2
             else (true, b2)) = (ok3, b3)
            /\ ok3 = negb (negb (string_eqb castling "-")
                           && string_exists (bad_castling_char (_chess960 b)) castling)
            /\ untouched b3 = (0, 0, 0, _chess960 b)).
  { destruct (string_eqb castling "-"); cbn [negb andb].
    - exists true, b2. repeat split. exact U2.
    - rewrite C2. destruct (_chess960 b).
      + destruct (parse_castling960_result castling b2) as [Q1 Q2].
        destruct (parse_castling960 castling b2) as [ok3 b3]. cbn [fst snd] in Q1, Q2.
        exists ok3, b3. repeat split; [exact Q1 | rewrite Q2; exact U2].
      + destruct (parse_castling_result castling b2) as [Q1 Q2].
        destruct (parse_castling castling b2) as [ok3 b3]. cbn [fst snd] in Q1, Q2.
        exists ok3, b3. repeat split; [exact Q1 | rewrite Q2; exact U2]. }
  destruct Hcast as (ok3 & b3 & E3 & Hok3 & U3). rewrite E3.
  apply (f_equal negb) in Hok3. rewrite negb_involutive in Hok3. rewrite <- Hok3.
  unfold untouched in U3. injection U3 as B1' B2' B3' B4'.
  destruct ok3; cbn [negb orb].
  2:{ cbn [fst snd]. split; [split; reflexivity | right; auto]. }
  set (b4 := if string_eqb enPassant "-" then set_enPassantSquare b3 NO_SQUARE
             else set_enPassantSquare b3 _).
  assert (U4 : untouched b4 = (0, 0, 0, _chess960 b))
    by (unfold b4; destruct (string_eqb enPassant "-"); unfold untouched; cbn;
        rewrite B1', B2', B3', B4'; reflexivity).
  unfold untouched in U4. injection U4 as D1' D2' D3' D4'.
  destruct (stoi halfmove) as [h|]; cbn [is_none orb].
  2:{ cbn [fst snd]. split; [split; reflexivity | right; auto]. }
  destruct (stoi fullmove) as [f|]; cbn [is_none orb fst snd].
  - split; [split; discriminate | left; reflexivity].
  - split; [split; reflexivity | right; cbn; auto].
Qed.

(** C3 as stated fails twice over: a FEN whose active-color token is
    "x" is accepted, and the rejected FEN with the bad piece letter "X"
    leaves a position different from the one before the call. *)
Lemma setFromFen_accepts_bad_color_and_mutates_on_failure :
  fst (setFromFen Board_new "rnbqkbnr/pppppppp/8/8/8/8/PPPPPPPP/RNBQKBNR x KQkq - 0 1") = true
  /\ fst (setFromFen Board_new "rnbqkbnr/pppppppp/8/8/8/8/PPPPPPPP/RNBQKBNX w KQkq - 0 1") = false
  /\ snd (setFromFen Board_new "rnbqkbnr/pppppppp/8/8/8/8/PPPPPPPP/RNBQKBNX w KQkq - 0 1")
     <> Board_new.
Proof.
  split; [vm_compute; reflexivity|]. split; [vm_compute; reflexivity|].
  vm_compute. discriminate.
Qed.

(** ** Decimal text *)

Lemma append_assoc (s t u : string) : ((s ++ t) ++ u = s ++ (t ++ u))%string.
Proof. induction s as [|c s IH]; cbn [append]; [reflexivity | now rewrite IH]. Qed.

Lemma string_exists_app P (s t : string) :
  string_exists P (s ++ t) = string_exists P s || string_exists P t.
Proof.
  induction s as [|c s IH]; cbn [append string_exists]; [reflexivity|].
  rewrite IH. apply orb_assoc.
Qed.

Lemma digit_char d :
  0 <= d < 10 ->
  isdigit (char_of (code "0" + d)) = true
  /\ code (char_of (code "0" + d)) - code "0" = d
  /\ isspace (char_of (code "0" + d)) = false
  /\ Ascii.eqb (char_of (code "0" + d)) "-" = false
  /\ Ascii.eqb (char_of (code "0" + d)) "+" = false
  /\ Ascii.eqb (char_of (code "0" + d)) "/" = false.
Proof.
  intros H.
  assert (E : d = 0 \/ d = 1 \/ d = 2 \/ d = 3 \/ d = 4 \/ d = 5 \/ d = 6
              \/ d = 7 \/ d = 8 \/ d = 9) by lia.
  repeat (destruct E as [->|E]; [vm_compute; repeat split; reflexivity|]).
  subst d. vm_compute. repeat split; reflexivity.
Qed.

Lemma read_digits_loop fuel n acc :
  0 <= n < 2 ^ Z.of_nat fuel ->
  read_digits (digits_loop fuel n acc) 0 = read_digits acc n.
Proof.
  revert n acc. induction fuel as [|f IH]; intros n acc Hn.
  - cbn [digits_loop]. replace n with 0 by (cbn in Hn; lia). reflexivity.
  - cbn [digits_loop].
    pose proof (Z.mod_pos_bound n 10 ltac:(lia)) as Hm.
    pose proof (Z.div_mod n 10 ltac:(lia)) as Hd.
    destruct (digit_char (n mod 10) Hm) as (D1 & D2 & _).
    assert (Hstep : forall a, read_digits (String (char_of (code "0" + n mod 10)) acc) a
                              = read_digits acc (a * 10 + n mod 10)).
    { intros a. cbn [read_digits]. rewrite D1, D2. reflexivity. }
    destruct (Z.eqb_spec (n / 10) 0) as [E|E].
    + rewrite Hstep. f_equal. lia.
    + rewrite IH.
      * rewrite Hstep. f_equal. lia.
      * rewrite Nat2Z.inj_succ, Z.pow_succ_r in Hn by lia.
        split; [apply Z.div_pos; lia|].
        apply Z.div_lt_upper_bound; lia.
Qed.

Lemma digits_loop_head fuel n acc :
  0 <= n -> fuel <> O ->
  exists c r, digits_loop fuel n acc = String c r /\ isdigit c = true.
Proof.
  revert n acc. induction fuel as [|f IH]; intros n acc Hn Hf; [congruence|].
  cbn [digits_loop].
  pose proof (Z.mod_pos_bound n 10 ltac:(lia)) as Hm.
  destruct (digit_char (n mod 10) Hm) as (D1 & _).
  destruct (n / 10 =? 0); [eauto|].
  destruct f as [|f']; [cbn [digits_loop]; eauto|].
  apply IH; [apply Z.div_pos; lia | discriminate].
Qed.

Lemma digits_loop_space fuel n acc :
  0 <= n ->
  string_exists isspace (digits_loop fuel n acc) = string_exists isspace acc.
Proof.
  revert n acc. induction fuel as [|f IH]; intros n acc Hn; [reflexivity|].
  cbn [digits_loop].
  pose proof (Z.mod_pos_bound n 10 ltac:(lia)) as Hm.
  destruct (digit_char (n mod 10) Hm) as (_ & _ & D3 & _).
  destruct (n / 10 =? 0).
  - cbn [string_exists]. rewrite D3. reflexivity.
  - rewrite IH by (apply Z.div_pos; lia). cbn [string_exists]. rewrite D3. reflexivity.
Qed.

Lemma digits_fuel n : 0 <= n -> n < 2 ^ Z.of_nat (S (Z.to_nat (Z.log2 n))).
Proof.
  intros Hn. rewrite Nat2Z.inj_succ, Z2Nat.id by apply Z.log2_nonneg.
  destruct (Z.eq_dec n 0) as [->|Hne]; [reflexivity|].
  apply Z.log2_spec. lia.
Qed.

Lemma stoi_digits n :
  0 <= n ->
  exists c r, digits n = String c r /\ isdigit c = true
              /\ read_digits (digits n) 0 = n
              /\ string_exists isspace (digits n) = false.
Proof.
  intros Hn. unfold digits.
  destruct (digits_loop_head (S (Z.to_nat (Z.log2 n))) n EmptyString Hn ltac:(discriminate))
    as (c & r & E & D).
  exists c, r. split; [exact E|]. split; [exact D|]. split.
  - rewrite read_digits_loop; [reflexivity|]. split; [exact Hn | apply digits_fuel, Hn].
  - rewrite digits_loop_space by exact Hn. reflexivity.
Qed.

Lemma isdigit_not_space c : isdigit c = true -> isspace c = false.
Proof.
  unfold isdigit, isspace. intros H. apply andb_true_iff in H. destruct H as [A B].
  apply Z.leb_le in A. apply Z.leb_le in B.
  destruct (Z.eqb_spec (code c) 32); [lia|].
  destruct (Z.leb_spec 9 (code c)), (Z.leb_spec (code c) 13); try reflexivity; lia.
Qed.

Lemma isdigit_not_sign c :
  isdigit c = true -> Ascii.eqb c "-" = false /\ Ascii.eqb c "+" = false.
Proof.
  unfold isdigit. intros H. apply andb_true_iff in H. destruct H as [A B].
  apply Z.leb_le in A. apply Z.leb_le in B.
  split; apply Ascii.eqb_neq; intros ->; vm_compute in A; vm_compute in B;
    congruence.
Qed.

(** The decimal text of an [int] is read back by [std::stoi]. *)
Lemma stoi_int_to_string n :
  INT_MIN <= n <= INT_MAX -> stoi (int_to_string n) = Some n.
Proof.
  intros Hr. unfold int_to_string.
  destruct (Z.ltb_spec n 0) as [Hneg|Hpos].
  - destruct (stoi_digits (- n) ltac:(lia)) as (c & r & E & D & V & _).
    unfold stoi. cbn [skip_ws]. change (isspace "-") with false.
    cbn [Ascii.eqb Bool.eqb]. cbv iota beta.
    rewrite E in V |- *. rewrite D, V.
    replace ((INT_MIN <=? - - n) && (- - n <=? INT_MAX)) with true.
    + f_equal. lia.
    + symmetry. apply andb_true_iff. split; apply Z.leb_le; lia.
  - destruct (stoi_digits n Hpos) as (c & r & E & D & V & _).
    unfold stoi. rewrite E in V |- *. cbn [skip_ws].
    rewrite (isdigit_not_space c D).
    destruct (isdigit_not_sign c D) as [S1 S2]. rewrite S1, S2, D, V.
    replace ((INT_MIN <=? n) && (n <=? INT_MAX)) with true; [reflexivity|].
    symmetry. apply andb_true_iff. split; apply Z.leb_le; lia.
Qed.

Lemma int_to_string_token n : is_token (int_to_string n) = true.
Proof.
  unfold int_to_string, is_token.
  destruct (Z.ltb_spec n 0) as [Hneg|Hpos].
  - destruct (stoi_digits (- n) ltac:(lia)) as (c & r & E & D & V & W).
    cbn [empty string_exists negb andb]. change (isspace "-") with false.
    rewrite W. reflexivity.
  - destruct (stoi_digits n Hpos) as (c & r & E & D & V & W).
    rewrite W, E. reflexivity.
Qed.

(** ** Tokens *)

Lemma skip_ws_token t rest :
  is_token t = true -> skip_ws (t ++ rest) = (t ++ rest)%string.
Proof.
  unfold is_token. destruct t as [|c t]; [discriminate|].
  cbn [empty negb andb string_exists append skip_ws].
  intros H. apply negb_true_iff, orb_false_iff in H. destruct H as [H _].
  rewrite H. reflexivity.
Qed.

Lemma read_word_token t rest :
  string_exists isspace t = false ->
  read_word (t ++ String " " rest) = (t, String " " rest).
Proof.
  induction t as [|c t IH]; intros H.
  - reflexivity.
  - cbn [string_exists] in H. apply orb_false_iff in H. destruct H as [Hc Ht].
    cbn [append read_word]. rewrite Hc, (IH Ht). reflexivity.
Qed.

Lemma read_word_last t :
  string_exists isspace t = false -> read_word t = (t, EmptyString).
Proof.
  induction t as [|c t IH]; intros H; [reflexivity|].
  cbn [string_exists] in H. apply orb_false_iff in H. destruct H as [Hc Ht].
  cbn [read_word]. rewrite Hc, (IH Ht). reflexivity.
Qed.

Lemma token_no_space t : is_token t = true -> string_exists isspace t = false.
Proof.
  unfold is_token. intros H. apply andb_true_iff in H. destruct H as [_ H].
  apply negb_true_iff in H. exact H.
Qed.

Lemma token_not_empty t : is_token t = true -> empty t = false.
Proof.
  unfold is_token. intros H. apply andb_true_iff in H. destruct H as [H _].
  apply negb_true_iff in H. exact H.
Qed.

(** [ss >> token] on a token followed by a blank. *)
Lemma extract_token t rest :
  is_token t = true ->
  extract (t ++ String " " rest) = (t, String " " rest).
Proof.
  intros H. unfold extract. rewrite skip_ws_token by exact H.
  apply read_word_token, token_no_space, H.
Qed.

Lemma extract_blank s : extract (String " " s) = extract s.
Proof. reflexivity. Qed.

Lemma extract_last t : is_token t = true -> extract t = (t, EmptyString).
Proof.
  intros H. unfold extract.
  replace (skip_ws t) with t.
  - apply read_word_last, token_no_space, H.
  - unfold is_token in H. destruct t as [|c t]; [discriminate|].
    cbn [empty negb andb string_exists skip_ws] in H |- *.
    apply negb_true_iff, orb_false_iff in H. destruct H as [H _].
    rewrite H. reflexivity.
Qed.

(** ** pieceAt on a position that satisfies the invariant *)

Lemma land_bit x sq :
  real_square sq -> Z.land x (bit sq) = if Z.testbit x sq then bit sq else 0.
Proof.
  intros Hsq. apply Z.bits_inj'. intros i Hi.
  rewrite Z.land_spec, bit_bits.
  destruct (Z.eqb_spec i sq) as [->|Hne].
  - destruct (Z.testbit x sq); [rewrite bit_bits, Z.eqb_refl | rewrite Z.bits_0]; reflexivity.
  - cbn [andb]. rewrite andb_false_r.
    destruct (Z.testbit x sq); [rewrite bit_bits|rewrite Z.bits_0]; [|reflexivity].
    apply Z.eqb_neq in Hne. rewrite Hne. reflexivity.
Qed.

Lemma nz_land_bit x sq : real_square sq -> nz (Z.land x (bit sq)) = Z.testbit x sq.
Proof.
  intros Hsq. rewrite (land_bit x sq Hsq). destruct (Z.testbit x sq); [|reflexivity].
  apply nz_true. intros E.
  assert (B : Z.testbit (bit sq) sq = true).
  { rewrite bit_bits, Z.eqb_refl. destruct Hsq.
    apply andb_true_iff. split; [apply Z.leb_le | apply Z.ltb_lt]; lia. }
  rewrite E, Z.bits_0 in B. discriminate.
Qed.

Lemma union_bits a i :
  Z.testbit (union (pieces_of a)) i
  = Z.testbit (at_PAWN a) i || Z.testbit (at_KNIGHT a) i || Z.testbit (at_BISHOP a) i
    || Z.testbit (at_ROOK a) i || Z.testbit (at_QUEEN a) i || Z.testbit (at_KING a) i.
Proof.
  unfold union, pieces_of, piece_types. cbn [map fold_left get6].
  rewrite !Z.lor_spec, Z.bits_0. reflexivity.
Qed.

(** [pieceAt] in terms of the bits of the square. *)
Lemma pieceAt_bits b sq :
  Invariant b -> real_square sq ->
  pieceAt b sq =
    let w p := Z.testbit (get6 (_piecesWhite b) p) sq in
    let k p := Z.testbit (get6 (_piecesBlack b) p) sq in
    if w PAWN || w KNIGHT || w BISHOP || w ROOK || w QUEEN || w KING then
      match find w piece_types with
      | Some piece => (piece, WHITE)
      | None => (NO_PIECE_TYPE, NO_COLOR)
      end
    else if k PAWN || k KNIGHT || k BISHOP || k ROOK || k QUEEN || k KING then
      match find k piece_types with
      | Some piece => (piece, BLACK)
      | None => (NO_PIECE_TYPE, NO_COLOR)
      end
    else (NO_PIECE_TYPE, NO_COLOR).
Proof.
  intros I Hsq. unfold pieceAt. cbv zeta.
  rewrite !nz_land_bit by exact Hsq. cbn [_allPieces].
  rewrite (I_allWhite b I), (I_allBlack b I), !union_bits. cbn [get6].
  replace (find (fun piece => nz (Z.land (_pieces b WHITE piece) (bit sq))) piece_types)
    with (find (fun p => Z.testbit (get6 (_piecesWhite b) p) sq) piece_types).
  2:{ unfold piece_types. cbn [find _pieces]. rewrite !nz_land_bit by exact Hsq. reflexivity. }
  replace (find (fun piece => nz (Z.land (_pieces b BLACK piece) (bit sq))) piece_types)
    with (find (fun p => Z.testbit (get6 (_piecesBlack b) p) sq) piece_types).
  2:{ unfold piece_types. cbn [find _pieces]. rewrite !nz_land_bit by exact Hsq. reflexivity. }
  reflexivity.
Qed.

(** On every square there is no piece, or exactly one. *)
Lemma occupant b sq :
  Invariant b ->
  (forall c p, Z.testbit (_pieces b c p) sq = false)
  \/ exists c p, c <> NO_COLOR /\ p <> NO_PIECE_TYPE
       /\ Z.testbit (_pieces b c p) sq = true
       /\ forall c' p', (c', p') <> (c, p) -> Z.testbit (_pieces b c' p') sq = false.
Proof.
  intros I.
  assert (Hex : forall c p c' p', (c', p') <> (c, p) ->
            Z.testbit (_pieces b c p) sq = true -> Z.testbit (_pieces b c' p') sq = false).
  { intros c p c' p' Hne Hb.
    assert (D : disjoint (_pieces b c p) (_pieces b c' p')).
    { destruct c, c'; try apply disjoint_0_l; try (apply disjoint_sym, disjoint_0_l).
      - apply (I_same b I). congruence.
      - apply (I_cross b I).
      - apply disjoint_sym, (I_cross b I).
      - apply (I_same b I). congruence. }
    pose proof (disjoint_bits _ _ sq D) as E. rewrite Hb in E. exact E. }
  assert (Hone : forall c p, c <> NO_COLOR -> p <> NO_PIECE_TYPE ->
            Z.testbit (_pieces b c p) sq = true ->
            exists c0 p0, c0 <> NO_COLOR /\ p0 <> NO_PIECE_TYPE
              /\ Z.testbit (_pieces b c0 p0) sq = true
              /\ forall c' p', (c', p') <> (c0, p0) -> Z.testbit (_pieces b c' p') sq = false).
  { intros c p Hc Hp Hb. exists c, p. repeat split; try assumption.
    intros c' p' Hne. apply (Hex c p c' p' Hne Hb). }
  destruct (Z.testbit (_pieces b WHITE PAWN) sq) eqn:E1;
    [right; apply (Hone WHITE PAWN); congruence|].
  destruct (Z.testbit (_pieces b WHITE KNIGHT) sq) eqn:E2;
    [right; apply (Hone WHITE KNIGHT); congruence|].
  destruct (Z.testbit (_pieces b WHITE BISHOP) sq) eqn:E3;
    [right; apply (Hone WHITE BISHOP); congruence|].
  destruct (Z.testbit (_pieces b WHITE ROOK) sq) eqn:E4;
    [right; apply (Hone WHITE ROOK); congruence|].
  destruct (Z.testbit (_pieces b WHITE QUEEN) sq) eqn:E5;
    [right; apply (Hone WHITE QUEEN); congruence|].
  destruct (Z.testbit (_pieces b WHITE KING) sq) eqn:E6;
    [right; apply (Hone WHITE KING); congruence|].
  destruct (Z.testbit (_pieces b BLACK PAWN) sq) eqn:F1';
    [right; apply (Hone BLACK PAWN); congruence|].
  destruct (Z.testbit (_pieces b BLACK KNIGHT) sq) eqn:F2;
    [right; apply (Hone BLACK KNIGHT); congruence|].
  destruct (Z.testbit (_pieces b BLACK BISHOP) sq) eqn:F3;
    [right; apply (Hone BLACK BISHOP); congruence|].
  destruct (Z.testbit (_pieces b BLACK ROOK) sq) eqn:F4;
    [right; apply (Hone BLACK ROOK); congruence|].
  destruct (Z.testbit (_pieces b BLACK QUEEN) sq) eqn:F5;
    [right; apply (Hone BLACK QUEEN); congruence|].
  destruct (Z.testbit (_pieces b BLACK KING) sq) eqn:F6;
    [right; apply (Hone BLACK KING); congruence|].
  left. intros c p. destruct c, p; try assumption; apply Z.bits_0.
Qed.

Ltac set_cell_bits H Htrue :=
  repeat match goal with
         | |- context [Z.testbit (get6 (_piecesWhite ?b) ?p) ?sq] =>
             first [ rewrite (Htrue : Z.testbit (get6 (_piecesWhite b) p) sq = true)
                   | rewrite (H WHITE p ltac:(congruence)
                              : Z.testbit (get6 (_piecesWhite b) p) sq = false) ]
         | |- context [Z.testbit (get6 (_piecesBlack ?b) ?p) ?sq] =>
             first [ rewrite (Htrue : Z.testbit (get6 (_piecesBlack b) p) sq = true)
                   | rewrite (H BLACK p ltac:(congruence)
                              : Z.testbit (get6 (_piecesBlack b) p) sq = false) ]
         end.

Lemma pieceAt_occupied b sq c p :
  Invariant b -> real_square sq ->
  c <> NO_COLOR -> p <> NO_PIECE_TYPE ->
  Z.testbit (_pieces b c p) sq = true ->
  pieceAt b sq = (p, c).
Proof.
  intros I Hsq Hc Hp Hb.
  destruct (occupant b sq I) as [Hnone|(c0 & p0 & _ & _ & Hb0 & Hothers)];
    [rewrite Hnone in Hb; discriminate|].
  assert (E : (c, p) = (c0, p0)).
  { destruct (Color_eqb c c0 && PieceType_eqb p p0) eqn:Q.
    - destruct c, c0, p, p0; try discriminate; reflexivity.
    - rewrite Hothers in Hb; [discriminate|].
      intros Heq. injection Heq as -> ->. destruct c0, p0; discriminate. }
  injection E as <- <-. clear Hb0.
  rewrite (pieceAt_bits b sq I Hsq). cbv zeta. unfold piece_types. cbn [find].
  destruct c; [| |congruence]; destruct p; try congruence; cbn [_pieces] in Hb;
    set_cell_bits Hothers Hb; reflexivity.
Qed.

Lemma pieceAt_vacant b sq :
  Invariant b -> real_square sq ->
  (forall c p, Z.testbit (_pieces b c p) sq = false) ->
  pieceAt b sq = (NO_PIECE_TYPE, NO_COLOR).
Proof.
  intros I Hsq Hnone.
  rewrite (pieceAt_bits b sq I Hsq). cbv zeta. unfold piece_types. cbn [find].
  rewrite !(Hnone WHITE : forall p, Z.testbit (get6 (_piecesWhite b) p) sq = false).
  rewrite !(Hnone BLACK : forall p, Z.testbit (get6 (_piecesBlack b) p) sq = false).
  reflexivity.
Qed.

(** The bit of a piece bitboard says what [pieceAt] finds. *)
Lemma pieces_bit_holds b sq c p :
  Invariant b -> real_square sq ->
  c <> NO_COLOR -> p <> NO_PIECE_TYPE ->
  Z.testbit (_pieces b c p) sq = holds b sq c p.
Proof.
  intros I Hsq Hc Hp. unfold holds.
  destruct (occupant b sq I) as [Hnone|(c0 & p0 & Hc0 & Hp0 & Hb0 & Hothers)].
  - rewrite (pieceAt_vacant b sq I Hsq Hnone), Hnone. destruct p; try congruence; reflexivity.
  - rewrite (pieceAt_occupied b sq c0 p0 I Hsq Hc0 Hp0 Hb0).
    destruct (PieceType_eqb p0 p && Color_eqb c0 c) eqn:Q.
    + assert (E : (c0, p0) = (c, p))
        by (destruct c, c0, p, p0; try discriminate; reflexivity).
      injection E as <- <-. exact Hb0.
    + apply Hothers. intros E. injection E as -> ->. destruct c0, p0; discriminate.
Qed.

(** What [pieceAt] returns is no piece at all or a piece with a color. *)
Lemma pieceAt_shape b sq :
  pieceAt b sq = (NO_PIECE_TYPE, NO_COLOR)
  \/ exists p c, pieceAt b sq = (p, c) /\ p <> NO_PIECE_TYPE /\ c <> NO_COLOR.
Proof.
  unfold pieceAt. cbv zeta.
  assert (Hfind : forall f : PieceType -> bool,
            match find f piece_types with
            | Some q => q <> NO_PIECE_TYPE
            | None => True
            end).
  { intros f. destruct (find f piece_types) as [q|] eqn:E; [|exact I].
    apply find_some in E. destruct E as [Hin _].
    unfold piece_types in Hin. cbn [In] in Hin.
    intuition (subst; discriminate). }
  destruct (nz (Z.land (_allPieces b WHITE) (bit sq))).
  - pose proof (Hfind (fun piece => nz (Z.land (_pieces b WHITE piece) (bit sq)))) as H.
    destruct (find _ piece_types) as [q|]; [right | left; reflexivity].
    exists q, WHITE. repeat split; [exact H | discriminate].
  - destruct (nz (Z.land (_allPieces b BLACK) (bit sq))); [|left; reflexivity].
    pose proof (Hfind (fun piece => nz (Z.land (_pieces b BLACK piece) (bit sq)))) as H.
    destruct (find _ piece_types) as [q|]; [right | left; reflexivity].
    exists q, BLACK. repeat split; [exact H | discriminate].
Qed.

(** ** The placement field read back *)

Lemma isdigit_not_slash c : isdigit c = true -> Ascii.eqb c "/" = false.
Proof.
  unfold isdigit. intros H. apply andb_true_iff in H. destruct H as [A _].
  apply Z.leb_le in A. apply Ascii.eqb_neq. intros ->. vm_compute in A. congruence.
Qed.

Lemma parse_digit_step c rest rank file b :
  isdigit c = true ->
  parse_placement (String c rest) rank file b
  = parse_placement rest rank (file + (code c - code "0")) b.
Proof.
  intros D. cbn [parse_placement]. rewrite (isdigit_not_slash c D), D. reflexivity.
Qed.

Lemma flush_empty_text e :
  1 <= e <= 9 -> flush_empty e = String (char_of (code "0" + e)) EmptyString.
Proof.
  intros H.
  assert (E : e = 1 \/ e = 2 \/ e = 3 \/ e = 4 \/ e = 5 \/ e = 6
              \/ e = 7 \/ e = 8 \/ e = 9) by lia.
  repeat (destruct E as [->|E]; [vm_compute; reflexivity|]).
  subst e. vm_compute. reflexivity.
Qed.

Lemma flush_parse e rest rank file b :
  0 <= e <= 9 ->
  parse_placement (flush_empty e ++ rest) rank file b
  = parse_placement rest rank (file + e) b.
Proof.
  intros H. destruct (Z.eq_dec e 0) as [->|Hne].
  - change (flush_empty 0) with EmptyString. cbn [append]. now rewrite Z.add_0_r.
  - rewrite flush_empty_text by lia. cbn [append].
    destruct (digit_char e ltac:(lia)) as (D1 & D2 & _).
    rewrite parse_digit_step by exact D1. rewrite D2. reflexivity.
Qed.

Lemma letter_facts p (w : bool) :
  p <> NO_PIECE_TYPE ->
  let ch := if w then toupper (piece_char p) else piece_char p in
  Ascii.eqb ch "/" = false /\ isdigit ch = false
  /\ piece_of_char ch = Some p /\ isupper ch = w
  /\ isspace ch = false.
Proof.
  intros Hp. destruct p; try congruence; destruct w; vm_compute; repeat split; reflexivity.
Qed.

Lemma parse_letter_step p (w : bool) rest rank file b :
  p <> NO_PIECE_TYPE ->
  parse_placement (String (if w then toupper (piece_char p) else piece_char p) rest) rank file b
  = parse_placement rest rank (file + 1)
      (put_piece b (if w then WHITE else BLACK) p (BitboardUtils.squareFromRankFile rank file)).
Proof.
  intros Hp. destruct (letter_facts p w Hp) as (L1 & L2 & L3 & L4 & _).
  cbn [parse_placement]. rewrite L1, L2, L3, L4. reflexivity.
Qed.

Lemma PieceType_eqb_none p : PieceType_eqb p NO_PIECE_TYPE = false -> p <> NO_PIECE_TYPE.
Proof. intros H ->. discriminate. Qed.

(** One rank: the text written by the inner loop of [getFen] is read by
    the placement loop as the pieces of that rank. *)
Lemma parse_fen_files src rank n :
  forall f e file b rest,
    0 <= e -> e + Z.of_nat n <= 9 -> file + e = f ->
    parse_placement (fen_files src rank (consecutive f n) e ++ rest) rank file b
    = parse_placement rest rank (f + Z.of_nat n)
        (placed src b (map (BitboardUtils.squareFromRankFile rank) (consecutive f n))).
Proof.
  induction n as [|k IH]; intros f e file b rest He Hn Hf.
  - cbn [consecutive fen_files map placed fold_left].
    rewrite flush_parse by lia. f_equal. cbn. lia.
  - cbn [consecutive fen_files map placed fold_left]. unfold place_cell at 2.
    destruct (pieceAt src (BitboardUtils.squareFromRankFile rank f))
      as [pieceType pieceColor].
    destruct (PieceType_eqb pieceType NO_PIECE_TYPE) eqn:Ep.
    + fold (placed src b (map (BitboardUtils.squareFromRankFile rank) (consecutive (f + 1) k))).
      rewrite (IH (f + 1) (e + 1) file b rest) by lia. f_equal. lia.
    + rewrite append_assoc. cbn [append].
      rewrite flush_parse by lia.
      rewrite parse_letter_step by (apply PieceType_eqb_none, Ep).
      replace (file + e) with f by lia.
      fold (placed src
              (put_piece b (if Color_eqb pieceColor WHITE then WHITE else BLACK) pieceType
                 (BitboardUtils.squareFromRankFile rank f))
              (map (BitboardUtils.squareFromRankFile rank) (consecutive (f + 1) k))).
      rewrite (IH (f + 1) 0 (f + 1) _ rest) by lia. f_equal. lia.
Qed.

Lemma placed_app src b l1 l2 : placed src b (l1 ++ l2) = placed src (placed src b l1) l2.
Proof. unfold placed. apply fold_left_app. Qed.

(** All ranks: the placement field written by [getFen] is accepted by the
    placement loop, which places the piece found on each square. *)
Lemma parse_fen_ranks src n :
  forall r b,
    r = Z.of_nat n - 1 ->
    parse_placement (fen_ranks src (descending r n)) r 0 b
    = (true, placed src b
               (flat_map (fun rank => map (BitboardUtils.squareFromRankFile rank) files_0_7)
                  (descending r n))).
Proof.
  induction n as [|k IH]; intros r b Hr.
  - reflexivity.
  - cbn [descending fen_ranks flat_map]. rewrite placed_app.
    change files_0_7 with (consecutive 0 8).
    rewrite (parse_fen_files src r 8 0 0 0 b) by lia.
    destruct k as [|k'].
    + replace r with 0 by lia. reflexivity.
    + replace (r >? 0) with true by (symmetry; apply Z.gtb_lt; lia).
      cbn [append parse_placement]. change (Ascii.eqb "/" "/") with true. cbv iota.
      apply IH. lia.
Qed.

(** ** The bitboards rebuilt by the placement loop *)

Lemma pieces_put_piece b c' p' sq c p :
  c' <> NO_COLOR -> p' <> NO_PIECE_TYPE ->
  _pieces (put_piece b c' p' sq) c p
  = if Color_eqb c' c && PieceType_eqb p' p
    then Z.lor (_pieces b c p) (bit sq) else _pieces b c p.
Proof.
  intros Hc Hp. destruct c'; try congruence; destruct p'; try congruence;
    destruct c, p; reflexivity.
Qed.

Lemma place_cell_bits src b sq c p i :
  c <> NO_COLOR -> p <> NO_PIECE_TYPE ->
  Z.testbit (_pieces (place_cell src b sq) c p) i
  = Z.testbit (_pieces b c p) i
    || ((i =? sq) && ((0 <=? sq) && (sq <? 64) && holds src sq c p)).
Proof.
  intros Hc Hp. unfold place_cell, holds.
  destruct (pieceAt_shape src sq) as [E|(p' & c' & E & Hp' & Hc')]; rewrite E.
  - cbn [PieceType_eqb]. destruct p; try congruence; cbn [PieceType_eqb andb];
      rewrite !andb_false_r, orb_false_r; reflexivity.
  - replace (PieceType_eqb p' NO_PIECE_TYPE) with false
      by (destruct p'; try congruence; reflexivity).
    replace (if Color_eqb c' WHITE then WHITE else BLACK) with c'
      by (destruct c'; try congruence; reflexivity).
    rewrite pieces_put_piece by assumption.
    rewrite (andb_comm (Color_eqb c' c)).
    destruct (PieceType_eqb p' p && Color_eqb c' c).
    + rewrite Z.lor_spec, bit_bits, andb_true_r, andb_assoc. reflexivity.
    + rewrite !andb_false_r, orb_false_r. reflexivity.
Qed.

Lemma placed_bits src sqs :
  forall b c p i,
    c <> NO_COLOR -> p <> NO_PIECE_TYPE ->
    Z.testbit (_pieces (placed src b sqs) c p) i
    = Z.testbit (_pieces b c p) i
      || existsb (fun sq => (i =? sq) && ((0 <=? sq) && (sq <? 64) && holds src sq c p)) sqs.
Proof.
  induction sqs as [|sq rest IH]; intros b c p i Hc Hp.
  - cbn [placed fold_left existsb]. now rewrite orb_false_r.
  - cbn [placed fold_left existsb]. fold (placed src (place_cell src b sq) rest).
    rewrite IH, place_cell_bits by assumption. now rewrite orb_assoc.
Qed.

Lemma existsb_at (i : Z) (g : Z -> bool) l :
  existsb (fun sq => (i =? sq) && g sq) l = existsb (Z.eqb i) l && g i.
Proof.
  induction l as [|x l IH]; [reflexivity|]. cbn [existsb]. rewrite IH.
  destruct (Z.eqb_spec i x) as [->|_]; cbn [andb orb]; [|reflexivity].
  destruct (g x); [reflexivity|]. now rewrite andb_false_r.
Qed.

Lemma fen_squares_complete i :
  existsb (Z.eqb i) fen_squares = (0 <=? i) && (i <? 64).
Proof.
  destruct ((0 <=? i) && (i <? 64)) eqn:R.
  - apply andb_true_iff in R. destruct R as [A B].
    apply Z.leb_le in A. apply Z.ltb_lt in B.
    assert (H : forallb (fun x => existsb (Z.eqb x) fen_squares) all_squares = true)
      by (vm_compute; reflexivity).
    apply (forall_squares _ H i). split; assumption.
  - destruct (existsb (Z.eqb i) fen_squares) eqn:E; [|reflexivity].
    apply existsb_exists in E. destruct E as (x & Hin & Hx). apply Z.eqb_eq in Hx. subst x.
    assert (H : forallb (fun x => (0 <=? x) && (x <? 64)) fen_squares = true)
      by (vm_compute; reflexivity).
    rewrite forallb_forall in H. rewrite (H i Hin) in R. discriminate.
Qed.

(** Placing the pieces of a position on an empty board, square by
    square in FEN order, rebuilds its piece bitboards. *)
Lemma placed_rebuilds src b c p :
  Invariant src -> c <> NO_COLOR -> p <> NO_PIECE_TYPE ->
  _pieces b c p = 0 ->
  _pieces (placed src b fen_squares) c p = _pieces src c p.
Proof.
  intros I Hc Hp Hz. apply Z.bits_inj'. intros i Hi.
  rewrite placed_bits, Hz, Z.bits_0 by assumption. cbn [orb].
  rewrite (existsb_at i (fun sq => (0 <=? sq) && (sq <? 64) && holds src sq c p)).
  rewrite fen_squares_complete, andb_assoc, andb_diag.
  destruct ((0 <=? i) && (i <? 64)) eqn:R; cbn [andb].
  - apply andb_true_iff in R. destruct R as [A B].
    apply Z.leb_le in A. apply Z.ltb_lt in B.
    symmetry. apply pieces_bit_holds; try assumption. split; assumption.
  - symmetry. apply (in_u64_high _ i (I_range src I c p)).
    destruct (Z.leb_spec 0 i), (Z.ltb_spec i 64); try discriminate; lia.
Qed.

(** ** The fields of the emitted FEN *)

Lemma isspace_bad c : isspace c = true -> bad_placement_char c = true.
Proof.
  destruct c as [[] [] [] [] [] [] [] []]; vm_compute; intros H;
    first [reflexivity | discriminate H].
Qed.

Lemma bad_free_no_space cs :
  string_exists bad_placement_char cs = false -> string_exists isspace cs = false.
Proof.
  induction cs as [|c rest IH]; [reflexivity|].
  cbn [string_exists]. intros H. apply orb_false_iff in H. destruct H as [Hc Hr].
  rewrite (IH Hr), orb_false_r.
  destruct (isspace c) eqn:E; [|reflexivity].
  rewrite (isspace_bad c E) in Hc. discriminate.
Qed.

Lemma empty_app_cons s c t : empty (s ++ String c t) = false.
Proof. destruct s; reflexivity. Qed.

Lemma empty_app_l s t : empty s = false -> empty (s ++ t) = false.
Proof. destruct s; [discriminate | reflexivity]. Qed.

Lemma fen_files_nonempty src rank n :
  forall f e,
    0 <= e -> e + Z.of_nat n <= 9 -> (0 < e \/ n <> O) ->
    empty (fen_files src rank (consecutive f n) e) = false.
Proof.
  induction n as [|k IH]; intros f e He Hn Hpos.
  - cbn [consecutive fen_files]. rewrite flush_empty_text by lia. reflexivity.
  - cbn [consecutive fen_files].
    destruct (pieceAt src (BitboardUtils.squareFromRankFile rank f)) as [pieceType pieceColor].
    destruct (PieceType_eqb pieceType NO_PIECE_TYPE).
    + apply IH; lia.
    + apply empty_app_cons.
Qed.

Lemma fen_ranks_token src : is_token (fen_ranks src ranks_7_0) = true.
Proof.
  unfold is_token. apply andb_true_iff. split; apply negb_true_iff.
  - unfold ranks_7_0. cbn [fen_ranks]. apply empty_app_l.
    change files_0_7 with (consecutive 0 8). apply fen_files_nonempty; lia.
  - apply bad_free_no_space.
    pose proof (parse_placement_result (fen_ranks src ranks_7_0) 7 0 src) as [P _].
    change ranks_7_0 with (descending 7 8) in P at 1.
    rewrite (parse_fen_ranks src 8 7 src ltac:(lia)) in P. cbn [fst] in P.
    apply (f_equal negb) in P. rewrite negb_involutive in P. symmetry. exact P.
Qed.

Lemma range_cases (P : Z -> bool) lo n :
  forallb P (consecutive lo n) = true ->
  forall z, lo <= z < lo + Z.of_nat n -> P z = true.
Proof.
  revert lo. induction n as [|k IH]; intros lo H z Hz; [lia|].
  cbn [consecutive forallb] in H. apply andb_true_iff in H. destruct H as [H0 Hr].
  destruct (Z.eq_dec z lo) as [->|Hne]; [exact H0|].
  apply (IH (lo + 1) Hr). lia.
Qed.

Lemma castling_field b :
  0 <= _castlingRights b <= 15 -> castling_reads_back (_castlingRights b) = true.
Proof.
  intros H. apply (range_cases castling_reads_back 0 16); [vm_compute; reflexivity | lia].
Qed.

Lemma enPassant_field b :
  0 <= _enPassantSquare b <= NO_SQUARE -> enPassant_reads_back (_enPassantSquare b) = true.
Proof.
  unfold NO_SQUARE. intros H.
  apply (range_cases enPassant_reads_back 0 65); [vm_compute; reflexivity | lia].
Qed.

Lemma parse_castling_bits cs :
  forall b r0 r,
    castling_bits cs r0 = Some r ->
    parse_castling cs (set_castlingRights b r0) = (true, set_castlingRights b r).
Proof.
  induction cs as [|c rest IH]; intros b r0 r H.
  - cbn [castling_bits] in H. injection H as <-. reflexivity.
  - cbn [castling_bits parse_castling] in H |- *.
    destruct (Ascii.eqb c "K"); [apply (IH b _ r H)|].
    destruct (Ascii.eqb c "Q"); [apply (IH b _ r H)|].
    destruct (Ascii.eqb c "k"); [apply (IH b _ r H)|].
    destruct (Ascii.eqb c "q"); [apply (IH b _ r H)|].
    discriminate.
Qed.

Lemma Board_ext b1 b2 :
  _piecesWhite b1 = _piecesWhite b2 -> _piecesBlack b1 = _piecesBlack b2 ->
  _allPiecesWhite b1 = _allPiecesWhite b2 -> _allPiecesBlack b1 = _allPiecesBlack b2 ->
  _occupiedSquares b1 = _occupiedSquares b2 -> _sideToMove b1 = _sideToMove b2 ->
  _castlingRights b1 = _castlingRights b2 -> _enPassantSquare b1 = _enPassantSquare b2 ->
  _halfmoveClock b1 = _halfmoveClock b2 -> _fullmoveNumber b1 = _fullmoveNumber b2 ->
  _chess960 b1 = _chess960 b2 -> b1 = b2.
Proof.
  destruct b1, b2. cbn. intros. subst. reflexivity.
Qed.

Lemma PieceArray_ext a1 a2 :
  (forall p, p <> NO_PIECE_TYPE -> get6 a1 p = get6 a2 p) -> a1 = a2.
Proof.
  intros H. destruct a1, a2.
  pose proof (H PAWN ltac:(discriminate)). pose proof (H KNIGHT ltac:(discriminate)).
  pose proof (H BISHOP ltac:(discriminate)). pose proof (H ROOK ltac:(discriminate)).
  pose proof (H QUEEN ltac:(discriminate)). pose proof (H KING ltac:(discriminate)).
  cbn [get6 at_PAWN at_KNIGHT at_BISHOP at_ROOK at_QUEEN at_KING] in *. subst. reflexivity.
Qed.

(** The fields other than the piece bitboards are left alone by the
    placement. *)
Lemma placed_state src sqs :
  forall b,
    _allPiecesWhite (placed src b sqs) = _allPiecesWhite b
    /\ _allPiecesBlack (placed src b sqs) = _allPiecesBlack b
    /\ _occupiedSquares (placed src b sqs) = _occupiedSquares b
    /\ _sideToMove (placed src b sqs) = _sideToMove b
    /\ _castlingRights (placed src b sqs) = _castlingRights b
    /\ _enPassantSquare (placed src b sqs) = _enPassantSquare b
    /\ _halfmoveClock (placed src b sqs) = _halfmoveClock b
    /\ _fullmoveNumber (placed src b sqs) = _fullmoveNumber b
    /\ _chess960 (placed src b sqs) = _chess960 b.
Proof.
  induction sqs as [|sq rest IH]; intros b; [repeat split|].
  cbn [placed fold_left]. fold (placed src (place_cell src b sq) rest).
  destruct (IH (place_cell src b sq)) as (E1 & E2 & E3 & E4 & E5 & E6 & E7 & E8 & E9).
  rewrite E1, E2, E3, E4, E5, E6, E7, E8, E9. unfold place_cell.
  destruct (pieceAt src sq) as [pieceType pieceColor].
  destruct (PieceType_eqb pieceType NO_PIECE_TYPE); [repeat split|].
  destruct (if Color_eqb pieceColor WHITE then WHITE else BLACK); repeat split.
Qed.

(** ** FEN round trip *)

(** C6, as the code has it: for every position that satisfies the
    bitboard invariants of the data model and whose state fields are in
    range (a side to move, a 4-bit castling mask, an en passant square
    that is real or none, clocks that fit an int, Chess960 off), parsing
    the emitted FEN into any board with the Chess960 flag off succeeds
    and yields the position, equal in every field. *)
Theorem fen_round_trip (b0 p : Board) :
  _chess960 b0 = false ->
  position_invariant p = true -> state_well_formed p = true ->
  setFromFen b0 (getFen p) = (true, p).
Proof.
  intros Hflag Hinv Hst.
  pose proof (position_invariant_facts p Hinv) as I.
  unfold state_well_formed in Hst.
  repeat match type of Hst with
         | _ && _ = true => apply andb_true_iff in Hst; let H := fresh "S" in destruct Hst as [Hst H]
         end.
  apply Z.leb_le in S0, S1, S2, S3, S4, S5, S6, S7.
  apply negb_true_iff in S.
  pose proof (fen_ranks_token p) as T0.
  pose proof (castling_field p ltac:(lia)) as Hc. unfold castling_reads_back in Hc.
  change (fen_castling (set_castlingRights Board_new (_castlingRights p)))
    with (fen_castling p) in Hc.
  pose proof (enPassant_field p ltac:(lia)) as He. unfold enPassant_reads_back in He.
  change (fen_enPassant (set_enPassantSquare Board_new (_enPassantSquare p)))
    with (fen_enPassant p) in He.
  pose proof (int_to_string_token (_halfmoveClock p)) as T4.
  pose proof (int_to_string_token (_fullmoveNumber p)) as T5.
  pose proof (stoi_int_to_string (_halfmoveClock p) ltac:(lia)) as V4.
  pose proof (stoi_int_to_string (_fullmoveNumber p) ltac:(lia)) as V5.
  unfold getFen.
  set (t0 := fen_ranks p ranks_7_0) in *.
  set (t2 := fen_castling p) in *.
  set (t3 := fen_enPassant p) in *.
  set (t4 := int_to_string (_halfmoveClock p)) in *.
  set (t5 := int_to_string (_fullmoveNumber p)) in *.
  cbv zeta in Hc, He.
  apply andb_true_iff in Hc. destruct Hc as [T2 V2].
  apply andb_true_iff in He. destruct He as [T3 V3]. apply Z.eqb_eq in V3.
  assert (P0 : forall b, parse_placement t0 7 0 b = (true, placed p b fen_squares))
    by (intros b; apply (parse_fen_ranks p 8 7 b); lia).
  assert (T1 : is_token (if Color_eqb (_sideToMove p) WHITE then "w" else "b") = true)
    by (destruct (Color_eqb (_sideToMove p) WHITE); reflexivity).
  assert (V1 : (if string_eqb (if Color_eqb (_sideToMove p) WHITE then "w" else "b") "w"
                then WHITE else BLACK) = _sideToMove p).
  { destruct (_sideToMove p); try reflexivity. discriminate Hst. }
  replace (if Color_eqb (_sideToMove p) WHITE then " w "%string else " b "%string)
    with (String " " ((if Color_eqb (_sideToMove p) WHITE then "w" else "b") ++ " "))%string
    by (destruct (Color_eqb (_sideToMove p) WHITE); reflexivity).
  set (t1 := if Color_eqb (_sideToMove p) WHITE then "w"%string else "b"%string) in *.
  clearbody t0 t1 t2 t3 t4 t5.
  replace (t0 ++ String " " (t1 ++ " ") ++ t2 ++ " " ++ t3 ++ " " ++ t4 ++ " " ++ t5)%string
    with (t0 ++ String " " (t1 ++ String " " (t2 ++ String " "
            (t3 ++ String " " (t4 ++ String " " t5)))))%string
    by (cbn [append]; rewrite append_assoc; reflexivity).
  unfold setFromFen.
  rewrite (extract_token t0 _ T0). cbv beta iota.
  rewrite extract_blank, (extract_token t1 _ T1). cbv beta iota.
  rewrite extract_blank, (extract_token t2 _ T2). cbv beta iota.
  rewrite extract_blank, (extract_token t3 _ T3). cbv beta iota.
  rewrite extract_blank, (extract_token t4 _ T4). cbv beta iota.
  rewrite extract_blank, (extract_last t5 T5). cbv beta iota.
  rewrite (token_not_empty _ T0), (token_not_empty _ T1), (token_not_empty _ T2),
    (token_not_empty _ T3), (token_not_empty _ T4), (token_not_empty _ T5).
  cbn [orb]. rewrite P0, V1, V4, V5.
  set (PL := placed p (clear_bitboards b0) fen_squares).
  destruct (placed_state p fen_squares (clear_bitboards b0))
    as (_ & _ & _ & _ & _ & _ & _ & _ & F9).
  fold PL in F9. cbn [clear_bitboards _chess960] in F9.
  set (X := set_sideToMove PL (_sideToMove p)).
  assert (EC : (if negb (string_eqb t2 "-")
                then if _chess960 (set_castlingRights X 0)
                     then parse_castling960 t2 (set_castlingRights X 0)
                     else parse_castling t2 (set_castlingRights X 0)
                else (true, set_castlingRights X 0))
               = (true, set_castlingRights X (_castlingRights p))).
  { replace (_chess960 (set_castlingRights X 0)) with false
      by (unfold X; cbn [set_castlingRights set_sideToMove _chess960];
          rewrite F9, Hflag; reflexivity).
    destruct (string_eqb t2 "-"); cbn [negb].
    - apply Z.eqb_eq in V2. rewrite V2. reflexivity.
    - destruct (castling_bits t2 0) as [r'|] eqn:Eb; [|discriminate].
      apply Z.eqb_eq in V2. subst r'. apply parse_castling_bits, Eb. }
  rewrite EC. cbv beta iota.
  replace (if string_eqb t3 "-"
           then set_enPassantSquare (set_castlingRights X (_castlingRights p)) NO_SQUARE
           else set_enPassantSquare (set_castlingRights X (_castlingRights p))
                  (BitboardUtils.squareFromRankFile (code (char_at t3 1) - code "1")
                     (code (char_at t3 0) - code "a")))
    with (set_enPassantSquare (set_castlingRights X (_castlingRights p)) (_enPassantSquare p))
    by (rewrite <- V3; destruct (string_eqb t3 "-"); reflexivity).
  f_equal.
  assert (Ew : _piecesWhite PL = _piecesWhite p).
  { apply PieceArray_ext. intros q Hq.
    apply (placed_rebuilds p (clear_bitboards b0) WHITE q I ltac:(discriminate) Hq).
    destruct q; reflexivity. }
  assert (Ek : _piecesBlack PL = _piecesBlack p).
  { apply PieceArray_ext. intros q Hq.
    apply (placed_rebuilds p (clear_bitboards b0) BLACK q I ltac:(discriminate) Hq).
    destruct q; reflexivity. }
  apply Board_ext; unfold X, updateCombinedBitboards;
    cbn [set_combined set_fullmoveNumber set_halfmoveClock set_enPassantSquare
         set_castlingRights set_sideToMove
         _piecesWhite _piecesBlack _allPiecesWhite _allPiecesBlack _occupiedSquares
         _sideToMove _castlingRights _enPassantSquare _halfmoveClock _fullmoveNumber
         _chess960 _pieces piece_types fold_left];
    rewrite ?Ew, ?Ek; try reflexivity.
  - rewrite (I_allWhite p I). reflexivity.
  - rewrite (I_allBlack p I). reflexivity.
  - rewrite (I_occupied p I), (I_allWhite p I), (I_allBlack p I). reflexivity.
  - rewrite F9, Hflag, S. reflexivity.
Qed.

Lemma fen_round_trip_witness :
  setFromFen Board_new (getFen (play Board_new ["e2e4"; "c7c5"; "g1f3"]%string))
  = (true, play Board_new ["e2e4"; "c7c5"; "g1f3"]%string).
Proof.
  apply fen_round_trip; vm_compute; reflexivity.
Defined.

(** C6 as stated fails: after 1.e4 e6 the move e4e6 (a pawn stepping two
    ranks onto the black pawn) is accepted by [makeMove] through the
    double-push branch, which removes nothing; the reached position has
    a white and a black pawn on e6, and its FEN is read back without the
    black pawn. *)
Lemma fen_round_trip_fails_on_reachable_position :
  let p := play Board_new ["e2e4"; "e7e6"; "e4e6"]%string in
  reachable p
  /\ fst (setFromFen p (getFen p)) = true
  /\ snd (setFromFen p (getFen p)) <> p.
Proof.
  cbv zeta. split; [|split].
  - apply reachable_play; [apply reachable_new | vm_compute; reflexivity].
  - vm_compute. reflexivity.
  - vm_compute. discriminate.
Qed.

(** * Further properties of the code *)

(** ** bitboard.h and bitboard.cpp: further properties *)

(** A check made on every pair of real squares holds of every pair. *)
Lemma forall_square_pairs (P : Square -> Square -> bool) :
  forallb (fun a => forallb (P a) all_squares) all_squares = true ->
  forall a b, real_square a -> real_square b -> P a b = true.
Proof.
  intros H a b Ha Hb.
  pose proof (forall_squares _ H a Ha) as Hrow. cbv beta in Hrow.
  exact (forall_squares _ Hrow b Hb).
Qed.

(** Square coordinates: a real square has a rank and a file in 0..7 from
    which [squareFromRankFile] rebuilds it, and a rank and a file in 0..7
    make a real square with that rank and that file. *)
Theorem square_coordinates_round_trip (sq r f : Z) :
  real_square sq -> 0 <= r <= 7 -> 0 <= f <= 7 ->
  (0 <= BitboardUtils.squareRank sq <= 7
   /\ 0 <= BitboardUtils.squareFile sq <= 7
   /\ BitboardUtils.squareFromRankFile (BitboardUtils.squareRank sq)
        (BitboardUtils.squareFile sq) = sq)
  /\ (real_square (BitboardUtils.squareFromRankFile r f)
      /\ BitboardUtils.squareRank (BitboardUtils.squareFromRankFile r f) = r
      /\ BitboardUtils.squareFile (BitboardUtils.squareFromRankFile r f) = f).
Proof.
  intros Hsq Hr Hf. split.
  - destruct (square_split sq Hsq) as (A & B & C). repeat split; first [lia | exact C].
  - unfold BitboardUtils.squareFile, BitboardUtils.squareRank,
      BitboardUtils.squareFromRankFile, real_square.
    rewrite Z.quot_div_nonneg, Z.rem_mod_nonneg by lia.
    pose proof (Z.div_mod (r * 8 + f) 8 ltac:(lia)).
    pose proof (Z.mod_pos_bound (r * 8 + f) 8 ltac:(lia)).
    lia.
Qed.

Lemma square_coordinates_round_trip_witness :
  BitboardUtils.squareFromRankFile (BitboardUtils.squareRank E4)
    (BitboardUtils.squareFile E4) = E4
  /\ BitboardUtils.squareRank (BitboardUtils.squareFromRankFile 3 4) = 3.
Proof.
  destruct (square_coordinates_round_trip E4 3 4) as [(_ & _ & A) (_ & B & _)];
    unfold real_square, E4; try lia.
  split; [exact A | exact B].
Defined.

(** [setBit], [clearBit] and [testBit] on a real square: the bit written
    is the bit read, every other square is left as it was, and a 64-bit
    word stays a 64-bit word. *)
Theorem setBit_clearBit_testBit (bb : Bitboard) (sq other : Square) :
  in_u64 bb -> real_square sq -> real_square other -> other <> sq ->
  BitboardUtils.testBit (BitboardUtils.setBit bb sq) sq = true
  /\ BitboardUtils.testBit (BitboardUtils.clearBit bb sq) sq = false
  /\ BitboardUtils.testBit (BitboardUtils.setBit bb sq) other
     = BitboardUtils.testBit bb other
  /\ BitboardUtils.testBit (BitboardUtils.clearBit bb sq) other
     = BitboardUtils.testBit bb other
  /\ BitboardUtils.clearBit (BitboardUtils.setBit bb sq) sq
     = BitboardUtils.clearBit bb sq
  /\ BitboardUtils.setBit (BitboardUtils.clearBit bb sq) sq
     = BitboardUtils.setBit bb sq
  /\ in_u64 (BitboardUtils.setBit bb sq)
  /\ in_u64 (BitboardUtils.clearBit bb sq).
Proof.
  intros Hbb Hsq Hother Hne.
  unfold BitboardUtils.testBit, BitboardUtils.setBit, BitboardUtils.clearBit.
  rewrite !nz_land_bit by assumption.
  rewrite !Z.lor_spec, !Z.land_spec, !not64_bits, !bit_bits.
  destruct Hsq as [S0 S1]. destruct Hother as [O0 O1].
  rewrite Z.eqb_refl.
  replace (other =? sq) with false by (symmetry; apply Z.eqb_neq; exact Hne).
  replace (0 <=? sq) with true by (symmetry; apply Z.leb_le; lia).
  replace (sq <? 64) with true by (symmetry; apply Z.ltb_lt; lia).
  replace (0 <=? other) with true by (symmetry; apply Z.leb_le; lia).
  replace (other <? 64) with true by (symmetry; apply Z.ltb_lt; lia).
  cbn [andb orb negb].
  split; [apply orb_true_r|].
  split; [apply andb_false_r|].
  split; [apply orb_false_r|].
  split; [apply andb_true_r|].
  split.
  { apply Z.bits_inj'. intros i Hi.
    rewrite !Z.land_spec, Z.lor_spec, not64_bits, bit_bits.
    destruct (Z.testbit bb i), (i =? sq), (0 <=? sq), (sq <? 64), (0 <=? i), (i <? 64);
      reflexivity. }
  split.
  { apply Z.bits_inj'. intros i Hi.
    rewrite !Z.lor_spec, Z.land_spec, not64_bits, bit_bits.
    destruct (Z.eqb_spec i sq) as [->|Hi'].
    - replace (0 <=? sq) with true by (symmetry; apply Z.leb_le; lia).
      replace (sq <? 64) with true by (symmetry; apply Z.ltb_lt; lia).
      cbn [andb negb]. rewrite andb_false_r. cbn [orb]. now rewrite orb_true_r.
    - cbn [andb negb].
      destruct (Z.testbit bb i) eqn:E; [|reflexivity].
      cbn [andb orb].
      replace (0 <=? i) with true by (symmetry; apply Z.leb_le; lia).
      destruct (Z.ltb_spec i 64); [reflexivity|].
      rewrite (in_u64_high bb i Hbb) in E by lia. discriminate. }
  split.
  - apply lor_range; [exact Hbb | apply bit_range].
  - apply land_range. exact Hbb.
Qed.

Lemma setBit_clearBit_testBit_witness :
  BitboardUtils.testBit (BitboardUtils.setBit 0xFF00 E4) E4 = true
  /\ BitboardUtils.testBit (BitboardUtils.clearBit 0xFF00 A2) A2 = false.
Proof.
  split.
  - apply (setBit_clearBit_testBit 0xFF00 E4 A2);
      unfold in_u64, real_square, E4, A2; lia.
  - apply (setBit_clearBit_testBit 0xFF00 A2 E4);
      unfold in_u64, real_square, E4, A2; lia.
Defined.

(** [popCount] returns the number of squares of the set: the loop runs
    once for each set bit of a 64-bit word, so the result is the number of
    set bits, between 0 and 64, and 0 only for the empty board. *)
Theorem popCount_counts_set_bits (bb : Bitboard) :
  in_u64 bb ->
  BitboardUtils.popCount bb = Z.of_nat (bits bb)
  /\ 0 <= BitboardUtils.popCount bb <= 64
  /\ (BitboardUtils.popCount bb = 0 <-> bb = 0).
Proof.
  intros Hbb. rewrite (popCount_bits bb Hbb).
  pose proof (bits_le_64 bb) as Hle.
  split; [reflexivity|]. split; [lia|].
  split.
  - intros E. destruct (Z.eq_dec bb 0) as [Hz|Hnz]; [exact Hz|].
    assert (Hpos : 0 < bb) by (unfold in_u64 in Hbb; lia).
    pose proof (bits_pos bb (BitboardUtils.lsb bb) (lsb_real bb Hbb Hnz) (lsb_set bb Hpos)).
    lia.
  - intros ->. rewrite bits_0. reflexivity.
Qed.

Lemma popCount_counts_set_bits_witness :
  BitboardUtils.popCount 0xFF00 = Z.of_nat (bits 0xFF00).
Proof.
  apply (popCount_counts_set_bits 0xFF00). unfold in_u64. lia.
Defined.

Lemma log2_u64 bb : in_u64 bb -> bb <> 0 -> 0 <= Z.log2 bb < 64.
Proof.
  intros [H0 H1] Hne. split; [apply Z.log2_nonneg|].
  apply Z.log2_lt_pow2; lia.
Qed.

(** [msb]: [NO_SQUARE] on the empty board; on a nonempty 64-bit board a
    real square that is in the set and above every other square of it. *)
Lemma msb_greatest (bb : Bitboard) :
  in_u64 bb ->
  (bb = 0 -> BitboardUtils.msb bb = NO_SQUARE)
  /\ (bb <> 0 ->
      real_square (BitboardUtils.msb bb)
      /\ Z.testbit bb (BitboardUtils.msb bb) = true
      /\ (forall j, Z.testbit bb j = true -> j <= BitboardUtils.msb bb)
      /\ BitboardUtils.lsb bb <= BitboardUtils.msb bb).
Proof.
  intros Hbb. split; [intros ->; reflexivity|].
  intros Hnz. assert (Hpos : 0 < bb) by (unfold in_u64 in Hbb; lia).
  assert (E : BitboardUtils.msb bb = Z.log2 bb) by (destruct bb; try lia; reflexivity).
  rewrite E.
  assert (Hbit : Z.testbit bb (Z.log2 bb) = true) by (apply Z.bit_log2; exact Hpos).
  split; [apply log2_u64; assumption|].
  split; [exact Hbit|].
  split.
  - intros j Hj.
    destruct (Z.le_gt_cases j (Z.log2 bb)) as [H|H]; [exact H|].
    rewrite Z.bits_above_log2 in Hj by lia. discriminate.
  - destruct (Z.le_gt_cases (BitboardUtils.lsb bb) (Z.log2 bb)) as [H|H]; [exact H|].
    rewrite (lsb_least bb (Z.log2 bb) Hpos) in Hbit; [discriminate|].
    split; [apply Z.log2_nonneg | exact H].
Qed.

(** The isolated lowest bit [bb & -bb] of a nonempty board is the
    one-square set of [lsb bb]. *)
Lemma isolate_lsb bb :
  in_u64 bb -> bb <> 0 -> Z.land bb (u64 (- bb)) = bit (BitboardUtils.lsb bb).
Proof.
  intros Hbb Hnz. assert (Hpos : 0 < bb) by (unfold in_u64 in Hbb; lia).
  pose proof (lsb_real bb Hbb Hnz) as [L0 L1].
  apply Z.bits_inj'. intros i Hi.
  rewrite Z.land_spec, u64_bits, bit_bits.
  replace (- bb) with (Z.lnot (bb - 1)) by (unfold Z.lnot; lia).
  rewrite Z.lnot_spec by lia.
  replace (0 <=? BitboardUtils.lsb bb) with true by (symmetry; apply Z.leb_le; lia).
  replace (BitboardUtils.lsb bb <? 64) with true by (symmetry; apply Z.ltb_lt; lia).
  rewrite !andb_true_r.
  pose proof (clearLowest_bits bb i Hbb Hnz) as Hc.
  unfold BitboardUtils.clearLowest in Hc.
  rewrite u64_small in Hc by (unfold in_u64 in *; lia).
  rewrite Z.land_spec in Hc.
  destruct (Z.eqb_spec i (BitboardUtils.lsb bb)) as [->|Hne].
  - rewrite (lsb_set bb Hpos) in *. cbn [andb negb] in *. rewrite Hc.
    cbn [negb andb]. apply Z.ltb_lt. lia.
  - cbn [negb] in Hc. rewrite andb_true_r in Hc.
    destruct (Z.testbit bb i) eqn:E; [|reflexivity].
    cbn [andb] in Hc |- *. rewrite Hc. reflexivity.
Qed.

Lemma lsb_fallback_lsb (bb : Bitboard) :
  in_u64 bb -> BitboardUtils.lsb_fallback bb = BitboardUtils.lsb bb.
Proof.
  intros Hbb. unfold BitboardUtils.lsb_fallback.
  destruct (Z.eqb_spec bb 0) as [->|Hnz]; [reflexivity|].
  rewrite (isolate_lsb bb Hbb Hnz).
  assert (H : forallb (fun s =>
              nth (Z.to_nat (Z.shiftr (u64 (bit s * 0x03f79d71b4cb0a89)) 58))
                  BitboardUtils.INDEX64_lsb 0 =? s) all_squares = true)
    by (vm_compute; reflexivity).
  apply Z.eqb_eq.
  exact (forall_squares _ H (BitboardUtils.lsb bb) (lsb_real bb Hbb Hnz)).
Qed.

Lemma smear_step x y m :
  0 < m ->
  (forall i, 0 <= i -> Z.testbit y i = true <-> bit_among x m i) ->
  forall i, 0 <= i ->
    Z.testbit (Z.lor y (Z.shiftr y m)) i = true <-> bit_among x (2 * m) i.
Proof.
  intros Hm Hy i Hi.
  rewrite Z.lor_spec, Z.shiftr_spec, orb_true_iff by lia.
  rewrite (Hy i Hi), (Hy (i + m) ltac:(lia)).
  split.
  - intros [(j & Hj & E) | (j & Hj & E)].
    + exists j. split; [lia | exact E].
    + exists (m + j). split; [lia|].
      replace (i + (m + j)) with (i + m + j) by lia. exact E.
  - intros (j & Hj & E).
    destruct (Z.lt_ge_cases j m) as [H|H].
    + left. exists j. split; [lia | exact E].
    + right. exists (j - m). split; [lia|].
      replace (i + m + (j - m)) with (i + j) by lia. exact E.
Qed.

(** The six smearing steps of the portable [msb] fill every bit below
    the highest set bit. *)
Lemma smear_ones bb :
  in_u64 bb -> bb <> 0 ->
  let b1 := Z.lor bb (Z.shiftr bb 1) in
  let b2 := Z.lor b1 (Z.shiftr b1 2) in
  let b3 := Z.lor b2 (Z.shiftr b2 4) in
  let b4 := Z.lor b3 (Z.shiftr b3 8) in
  let b5 := Z.lor b4 (Z.shiftr b4 16) in
  let b6 := Z.lor b5 (Z.shiftr b5 32) in
  b6 = Z.ones (Z.log2 bb + 1).
Proof.
  intros Hbb Hnz b1 b2 b3 b4 b5 b6.
  assert (Hpos : 0 < bb) by (unfold in_u64 in Hbb; lia).
  pose proof (log2_u64 bb Hbb Hnz) as [L0 L1].
  assert (H0 : forall i, 0 <= i -> Z.testbit bb i = true <-> bit_among bb 1 i).
  { intros i Hi. split.
    - intros E. exists 0. split; [lia|]. now rewrite Z.add_0_r.
    - intros (j & Hj & E). replace j with 0 in E by lia. now rewrite Z.add_0_r in E. }
  pose proof (smear_step bb bb 1 ltac:(lia) H0) as H1. change (2 * 1) with 2 in H1.
  pose proof (smear_step bb b1 2 ltac:(lia) H1) as H2. change (2 * 2) with 4 in H2.
  pose proof (smear_step bb b2 4 ltac:(lia) H2) as H3. change (2 * 4) with 8 in H3.
  pose proof (smear_step bb b3 8 ltac:(lia) H3) as H4. change (2 * 8) with 16 in H4.
  pose proof (smear_step bb b4 16 ltac:(lia) H4) as H5. change (2 * 16) with 32 in H5.
  pose proof (smear_step bb b5 32 ltac:(lia) H5) as H6. change (2 * 32) with 64 in H6.
  fold b1 b2 b3 b4 b5 b6 in H6.
  apply Z.bits_inj'. intros i Hi.
  rewrite Z.testbit_ones by lia.
  replace (0 <=? i) with true by (symmetry; apply Z.leb_le; lia).
  cbn [andb].
  destruct (Z.ltb_spec i (Z.log2 bb + 1)) as [Hlt|Hge].
  - apply H6; [exact Hi|]. exists (Z.log2 bb - i). split; [lia|].
    replace (i + (Z.log2 bb - i)) with (Z.log2 bb) by lia.
    apply Z.bit_log2. exact Hpos.
  - destruct (Z.testbit b6 i) eqn:E; [|reflexivity].
    apply H6 in E; [|exact Hi]. destruct E as (j & Hj & E).
    rewrite Z.bits_above_log2 in E by lia. discriminate.
Qed.

Lemma msb_fallback_msb (bb : Bitboard) :
  in_u64 bb -> BitboardUtils.msb_fallback bb = BitboardUtils.msb bb.
Proof.
  intros Hbb. unfold BitboardUtils.msb_fallback.
  destruct (Z.eqb_spec bb 0) as [->|Hnz]; [reflexivity|].
  assert (Hpos : 0 < bb) by (unfold in_u64 in Hbb; lia).
  cbv zeta. rewrite (smear_ones bb Hbb Hnz).
  assert (E : BitboardUtils.msb bb = Z.log2 bb) by (destruct bb; try lia; reflexivity).
  rewrite E.
  assert (H : forallb (fun s =>
              nth (Z.to_nat (Z.shiftr (u64 (Z.ones (s + 1) * 0x03f79d71b4cb0a89)) 58))
                  BitboardUtils.INDEX64_msb 0 =? s) all_squares = true)
    by (vm_compute; reflexivity).
  apply Z.eqb_eq.
  exact (forall_squares _ H (Z.log2 bb) (log2_u64 bb Hbb Hnz)).
Qed.

Lemma lsb_lowest (bb : Bitboard) (j : Z) :
  in_u64 bb -> bb <> 0 -> Z.testbit bb j = true -> BitboardUtils.lsb bb <= j.
Proof.
  intros Hbb Hnz Hj. assert (Hpos : 0 < bb) by (unfold in_u64 in Hbb; lia).
  destruct (Z.le_gt_cases (BitboardUtils.lsb bb) j) as [H|H]; [exact H|].
  destruct (Z.ltb_spec j 0) as [Hn|Hn].
  - rewrite Z.testbit_neg_r in Hj by lia. discriminate.
  - rewrite (lsb_least bb j Hpos) in Hj by lia. discriminate.
Qed.

(** The portable versions of [lsb] (isolated lowest bit, De Bruijn
    multiplication and table) and of [msb] (smearing, De Bruijn
    multiplication and table), compiled when the intrinsics are missing,
    return the same squares as the intrinsic versions on every 64-bit
    board: [NO_SQUARE] on the empty board, and on a nonempty board the
    lowest and the highest square of the set. *)
Theorem bit_scan_fallbacks_agree (bb : Bitboard) :
  in_u64 bb ->
  BitboardUtils.lsb_fallback bb = BitboardUtils.lsb bb
  /\ BitboardUtils.msb_fallback bb = BitboardUtils.msb bb
  /\ (bb = 0 -> BitboardUtils.lsb_fallback bb = NO_SQUARE /\ BitboardUtils.msb_fallback bb = NO_SQUARE)
  /\ (bb <> 0 ->
      real_square (BitboardUtils.lsb_fallback bb) /\ real_square (BitboardUtils.msb_fallback bb)
      /\ Z.testbit bb (BitboardUtils.lsb_fallback bb) = true
      /\ Z.testbit bb (BitboardUtils.msb_fallback bb) = true
      /\ forall j, Z.testbit bb j = true ->
           BitboardUtils.lsb_fallback bb <= j <= BitboardUtils.msb_fallback bb).
Proof.
  intros Hbb.
  rewrite (lsb_fallback_lsb bb Hbb), (msb_fallback_msb bb Hbb).
  split; [reflexivity|]. split; [reflexivity|]. split.
  - intros ->. split; reflexivity.
  - intros Hnz.
    destruct (msb_greatest bb Hbb) as [_ H]. destruct (H Hnz) as (M1 & M2 & M3 & _).
    split; [apply lsb_real; assumption|].
    split; [exact M1|].
    split; [apply lsb_set; unfold in_u64 in Hbb; lia|].
    split; [exact M2|].
    intros j Hj. split; [apply lsb_lowest; assumption | apply M3, Hj].
Qed.

Lemma bit_scan_fallbacks_agree_witness :
  BitboardUtils.lsb_fallback 0x8100000000000000 = BitboardUtils.lsb 0x8100000000000000
  /\ BitboardUtils.msb_fallback 0x8100000000000000 = BitboardUtils.msb 0x8100000000000000.
Proof.
  destruct (bit_scan_fallbacks_agree 0x8100000000000000) as (A & B & _).
  - unfold in_u64. lia.
  - split; [exact A | exact B].
Defined.

Lemma rank_file_masks_spec (sq r f : Z) :
  real_square sq -> 0 <= r <= 7 -> 0 <= f <= 7 ->
  Z.testbit (BitboardConstants.RANK_MASKS r) sq = (BitboardUtils.squareRank sq =? r)
  /\ Z.testbit (BitboardConstants.FILE_MASKS f) sq = (BitboardUtils.squareFile sq =? f)
  /\ in_u64 (BitboardConstants.RANK_MASKS r)
  /\ in_u64 (BitboardConstants.FILE_MASKS f).
Proof.
  intros Hsq Hr Hf.
  assert (H : forallb (fun k => forallb (fun s =>
              Bool.eqb (Z.testbit (BitboardConstants.RANK_MASKS k) s)
                       (BitboardUtils.squareRank s =? k)
              && Bool.eqb (Z.testbit (BitboardConstants.FILE_MASKS k) s)
                          (BitboardUtils.squareFile s =? k)
              && in_u64b (BitboardConstants.RANK_MASKS k)
              && in_u64b (BitboardConstants.FILE_MASKS k)) all_squares)
            (consecutive 0 8) = true) by (vm_compute; reflexivity).
  pose proof (range_cases _ 0 8 H) as Hk. cbv beta in Hk.
  pose proof (forall_squares _ (Hk r ltac:(lia)) sq Hsq) as Er.
  pose proof (forall_squares _ (Hk f ltac:(lia)) sq Hsq) as Ef.
  cbv beta in Er, Ef.
  apply andb_true_iff in Er. destruct Er as [Er Er4].
  apply andb_true_iff in Er. destruct Er as [Er Er3].
  apply andb_true_iff in Er. destruct Er as [Er1 Er2].
  apply andb_true_iff in Ef. destruct Ef as [Ef Ef4].
  apply andb_true_iff in Ef. destruct Ef as [Ef Ef3].
  apply andb_true_iff in Ef. destruct Ef as [Ef1 Ef2].
  split; [apply eqb_prop, Er1|].
  split; [apply eqb_prop, Ef2|].
  split; [apply in_u64b_true, Er3 | apply in_u64b_true, Ef4].
Qed.

Lemma diagonal_masks_spec (sq d : Z) :
  real_square sq -> 0 <= d <= 14 ->
  Z.testbit (BitboardConstants.DIAGONAL_MASKS d) sq
  = (7 + BitboardUtils.squareRank sq - BitboardUtils.squareFile sq =? d)
  /\ Z.testbit (BitboardConstants.ANTI_DIAGONAL_MASKS d) sq
     = (BitboardUtils.squareRank sq + BitboardUtils.squareFile sq =? d)
  /\ in_u64 (BitboardConstants.DIAGONAL_MASKS d)
  /\ in_u64 (BitboardConstants.ANTI_DIAGONAL_MASKS d).
Proof.
  intros Hsq Hd.
  assert (H : forallb (fun k => forallb (fun s =>
              Bool.eqb (Z.testbit (BitboardConstants.DIAGONAL_MASKS k) s)
                       (7 + BitboardUtils.squareRank s - BitboardUtils.squareFile s =? k)
              && Bool.eqb (Z.testbit (BitboardConstants.ANTI_DIAGONAL_MASKS k) s)
                          (BitboardUtils.squareRank s + BitboardUtils.squareFile s =? k)
              && in_u64b (BitboardConstants.DIAGONAL_MASKS k)
              && in_u64b (BitboardConstants.ANTI_DIAGONAL_MASKS k)) all_squares)
            (consecutive 0 15) = true) by (vm_compute; reflexivity).
  pose proof (range_cases _ 0 15 H) as Hk. cbv beta in Hk.
  pose proof (forall_squares _ (Hk d ltac:(lia)) sq Hsq) as E. cbv beta in E.
  apply andb_true_iff in E. destruct E as [E E4].
  apply andb_true_iff in E. destruct E as [E E3].
  apply andb_true_iff in E. destruct E as [E1 E2].
  split; [apply eqb_prop, E1|].
  split; [apply eqb_prop, E2|].
  split; [apply in_u64b_true, E3 | apply in_u64b_true, E4].
Qed.

(** The four mask tables as they are written: a real square of rank [r]
    and file [f] is in [RANK_MASKS k] exactly when [r = k], in
    [FILE_MASKS k] exactly when [f = k], in [DIAGONAL_MASKS d] exactly
    when [7 + r - f = d] (so entry 0 is the single square h1 and entry 14
    the single square a8) and in [ANTI_DIAGONAL_MASKS d] exactly when
    [r + f = d]; every entry is a 64-bit value. *)
Theorem line_masks_geometry (sq k d : Z) :
  real_square sq -> 0 <= k <= 7 -> 0 <= d <= 14 ->
  Z.testbit (BitboardConstants.RANK_MASKS k) sq = (BitboardUtils.squareRank sq =? k)
  /\ Z.testbit (BitboardConstants.FILE_MASKS k) sq = (BitboardUtils.squareFile sq =? k)
  /\ Z.testbit (BitboardConstants.DIAGONAL_MASKS d) sq
     = (7 + BitboardUtils.squareRank sq - BitboardUtils.squareFile sq =? d)
  /\ Z.testbit (BitboardConstants.ANTI_DIAGONAL_MASKS d) sq
     = (BitboardUtils.squareRank sq + BitboardUtils.squareFile sq =? d)
  /\ in_u64 (BitboardConstants.RANK_MASKS k)
  /\ in_u64 (BitboardConstants.FILE_MASKS k)
  /\ in_u64 (BitboardConstants.DIAGONAL_MASKS d)
  /\ in_u64 (BitboardConstants.ANTI_DIAGONAL_MASKS d).
Proof.
  intros Hsq Hk Hd.
  destruct (rank_file_masks_spec sq k k Hsq Hk Hk) as (R1 & R2 & R3 & R4).
  destruct (diagonal_masks_spec sq d Hsq Hd) as (D1 & D2 & D3 & D4).
  exact (conj R1 (conj R2 (conj D1 (conj D2 (conj R3 (conj R4 (conj D3 D4))))))).
Qed.

Lemma line_masks_geometry_witness :
  Z.testbit (BitboardConstants.RANK_MASKS 3) E4 = true
  /\ Z.testbit (BitboardConstants.DIAGONAL_MASKS 0) H1 = true.
Proof.
  split.
  - apply (line_masks_geometry E4 3 0); unfold real_square, E4; lia.
  - apply (line_masks_geometry H1 0 0); unfold real_square, H1; lia.
Defined.

(** ** The attack tables and the geometry of the board *)

Lemma knight_jump_dec a b :
  (((rank_distance a b =? 1) && (file_distance a b =? 2))
   || ((rank_distance a b =? 2) && (file_distance a b =? 1))) = true
  <-> knight_jump a b.
Proof.
  unfold knight_jump.
  rewrite orb_true_iff, !andb_true_iff, !Z.eqb_eq. reflexivity.
Qed.

Lemma king_step_dec a b :
  (negb (a =? b) && (rank_distance a b <=? 1) && (file_distance a b <=? 1)) = true
  <-> king_step a b.
Proof.
  unfold king_step.
  rewrite !andb_true_iff, negb_true_iff, Z.eqb_neq, !Z.leb_le. tauto.
Qed.

Lemma pawn_capture_dec c a b :
  ((BitboardUtils.squareRank b
    =? BitboardUtils.squareRank a + (if Color_eqb c WHITE then 1 else -1))
   && (file_distance a b =? 1)) = true
  <-> pawn_capture c a b.
Proof.
  unfold pawn_capture. rewrite andb_true_iff, !Z.eqb_eq. reflexivity.
Qed.

Lemma eqb_true_iff_of (x y : bool) : Bool.eqb x y = true -> (x = true <-> y = true).
Proof. intros H. apply eqb_prop in H. now rewrite H. Qed.

(** The knight table: from a real square the generated set, which is the
    entry [initBitboards] stores, holds exactly the real squares a knight
    jump away (one rank and two files, or two ranks and one file), and
    nothing outside the board. *)
Theorem knight_attacks_geometry (sq t : Square) :
  real_square sq -> real_square t ->
  (Z.testbit (BitboardUtils.generateKnightAttacks sq) t = true <-> knight_jump sq t)
  /\ AttackTables.KNIGHT_ATTACKS sq = BitboardUtils.generateKnightAttacks sq
  /\ in_u64 (BitboardUtils.generateKnightAttacks sq).
Proof.
  intros Hsq Ht.
  destruct (KNIGHT_KING_ATTACKS_init sq Hsq) as [En _]. rewrite <- En.
  assert (H : forallb (fun a => forallb (fun b =>
              Bool.eqb (Z.testbit (AttackTables.KNIGHT_ATTACKS a) b)
                (((rank_distance a b =? 1) && (file_distance a b =? 2))
                 || ((rank_distance a b =? 2) && (file_distance a b =? 1))))
              all_squares) all_squares = true) by (vm_compute; reflexivity).
  assert (Hr : forallb (fun a => in_u64b (AttackTables.KNIGHT_ATTACKS a)) all_squares = true)
    by (vm_compute; reflexivity).
  split; [|split; [reflexivity | apply in_u64b_true, (forall_squares _ Hr sq Hsq)]].
  rewrite <- knight_jump_dec.
  apply eqb_true_iff_of, (forall_square_pairs _ H sq t Hsq Ht).
Qed.

Lemma knight_attacks_geometry_witness :
  Z.testbit (BitboardUtils.generateKnightAttacks G1) 21 = true <-> knight_jump G1 21.
Proof.
  apply (knight_attacks_geometry G1 21); unfold real_square, G1; lia.
Defined.

(** The king table: from a real square the generated set, which is the
    entry [initBitboards] stores, holds exactly the other real squares at
    most one rank and one file away, and nothing outside the board. *)
Theorem king_attacks_geometry (sq t : Square) :
  real_square sq -> real_square t ->
  (Z.testbit (BitboardUtils.generateKingAttacks sq) t = true <-> king_step sq t)
  /\ AttackTables.KING_ATTACKS sq = BitboardUtils.generateKingAttacks sq
  /\ in_u64 (BitboardUtils.generateKingAttacks sq).
Proof.
  intros Hsq Ht.
  destruct (KNIGHT_KING_ATTACKS_init sq Hsq) as [_ Ek]. rewrite <- Ek.
  assert (H : forallb (fun a => forallb (fun b =>
              Bool.eqb (Z.testbit (AttackTables.KING_ATTACKS a) b)
                (negb (a =? b) && (rank_distance a b <=? 1) && (file_distance a b <=? 1)))
              all_squares) all_squares = true) by (vm_compute; reflexivity).
  assert (Hr : forallb (fun a => in_u64b (AttackTables.KING_ATTACKS a)) all_squares = true)
    by (vm_compute; reflexivity).
  split; [|split; [reflexivity | apply in_u64b_true, (forall_squares _ Hr sq Hsq)]].
  rewrite <- king_step_dec.
  apply eqb_true_iff_of, (forall_square_pairs _ H sq t Hsq Ht).
Qed.

Lemma king_attacks_geometry_witness :
  Z.testbit (BitboardUtils.generateKingAttacks H1) G1 = true <-> king_step H1 G1.
Proof.
  apply (king_attacks_geometry H1 G1); unfold real_square, H1, G1; lia.
Defined.

(** The pawn tables: from a real square the generated set of a color,
    which is the entry [initBitboards] stores, holds exactly the real
    squares one rank forward for that color and one file aside; a pawn on
    its last rank, or on the edge file, attacks nothing off the board. *)
Theorem pawn_attacks_geometry (sq t : Square) (c : Color) :
  real_square sq -> real_square t -> c <> NO_COLOR ->
  (Z.testbit (BitboardUtils.generatePawnAttacks sq c) t = true <-> pawn_capture c sq t)
  /\ AttackTables.PAWN_ATTACKS c sq = BitboardUtils.generatePawnAttacks sq c
  /\ in_u64 (BitboardUtils.generatePawnAttacks sq c).
Proof.
  intros Hsq Ht Hc.
  rewrite <- (PAWN_ATTACKS_init c sq Hsq Hc).
  assert (H : forall k, k <> NO_COLOR ->
            forallb (fun a => forallb (fun b =>
              Bool.eqb (Z.testbit (AttackTables.PAWN_ATTACKS k a) b)
                ((BitboardUtils.squareRank b
                  =? BitboardUtils.squareRank a + (if Color_eqb k WHITE then 1 else -1))
                 && (file_distance a b =? 1)))
              all_squares) all_squares = true)
    by (intros [ | | ] Hk; [vm_compute; reflexivity | vm_compute; reflexivity | congruence]).
  split; [|split; [reflexivity | apply PAWN_ATTACKS_range]].
  rewrite <- pawn_capture_dec.
  apply eqb_true_iff_of, (forall_square_pairs _ (H c Hc) sq t Hsq Ht).
Qed.

Lemma pawn_attacks_geometry_witness :
  Z.testbit (BitboardUtils.generatePawnAttacks E4 WHITE) 35 = true
  <-> pawn_capture WHITE E4 35.
Proof.
  apply (pawn_attacks_geometry E4 35 WHITE);
    unfold real_square, E4; try lia; discriminate.
Defined.

(** ** movegen.cpp: sliding attacks *)

Lemma bit_bits_real s i : real_square s -> Z.testbit (bit s) i = (i =? s).
Proof.
  intros [H0 H1]. rewrite bit_bits.
  replace (0 <=? s) with true by (symmetry; apply Z.leb_le; lia).
  replace (s <? 64) with true by (symmetry; apply Z.ltb_lt; lia).
  now rewrite !andb_true_r.
Qed.

(** The squares one ray collects: those reached while the loop condition
    holds and no earlier square of the ray was occupied. *)
Lemma ray_bits fuel cond dr df :
  forall r f occ attacks i,
    (forall j, 0 <= j -> cond (r + j * dr) (f + j * df) = true ->
               0 <= r + j * dr <= 7 /\ 0 <= f + j * df <= 7) ->
    (Z.testbit (ray fuel cond dr df r f occ attacks) i = true
     <-> Z.testbit attacks i = true
         \/ exists k, 0 <= k < Z.of_nat fuel
              /\ i = BitboardUtils.squareFromRankFile (r + k * dr) (f + k * df)
              /\ (forall j, 0 <= j <= k -> cond (r + j * dr) (f + j * df) = true)
              /\ (forall j, 0 <= j < k ->
                    Z.testbit occ (BitboardUtils.squareFromRankFile
                                     (r + j * dr) (f + j * df)) = false)).
Proof.
  induction fuel as [|n IH]; intros r f occ attacks i Hbox.
  - cbn [ray]. split; [auto|]. intros [H|(k & Hk & _)]; [exact H | lia].
  - cbn [ray].
    assert (Er : r + 0 * dr = r) by lia. assert (Ef : f + 0 * df = f) by lia.
    destruct (cond r f) eqn:C.
    + pose proof (Hbox 0 ltac:(lia)) as B. rewrite Er, Ef in B. specialize (B C).
      assert (Hs : real_square (BitboardUtils.squareFromRankFile r f))
        by (unfold BitboardUtils.squareFromRankFile, real_square; lia).
      rewrite (nz_land_bit occ _ Hs).
      destruct (Z.testbit occ (BitboardUtils.squareFromRankFile r f)) eqn:O.
      * rewrite Z.lor_spec, (bit_bits_real _ i Hs), orb_true_iff, Z.eqb_eq.
        split.
        -- intros [H|H]; [left; exact H|]. right. exists 0.
           split; [lia|]. split; [now rewrite Er, Ef|].
           split; [|intros j Hj; lia].
           intros j Hj. replace j with 0 by lia. now rewrite Er, Ef.
        -- intros [H|(k & Hk & Ei & Hc & Ho)]; [left; exact H|]. right.
           destruct (Z.eq_dec k 0) as [->|Hne]; [now rewrite Er, Ef in Ei|].
           specialize (Ho 0 ltac:(lia)). rewrite Er, Ef in Ho. congruence.
      * rewrite IH.
        2:{ intros j Hj.
            replace (r + dr + j * dr) with (r + (j + 1) * dr) by lia.
            replace (f + df + j * df) with (f + (j + 1) * df) by lia.
            apply Hbox. lia. }
        rewrite Z.lor_spec, (bit_bits_real _ i Hs), orb_true_iff, Z.eqb_eq.
        split.
        -- intros [[H|H]|(k & Hk & Ei & Hc & Ho)].
           ++ left. exact H.
           ++ right. exists 0. split; [lia|]. split; [now rewrite Er, Ef|].
              split; [|intros j Hj; lia].
              intros j Hj. replace j with 0 by lia. now rewrite Er, Ef.
           ++ right. exists (k + 1). split; [lia|].
              split.
              { rewrite Ei. f_equal; lia. }
              split.
              { intros j Hj. destruct (Z.eq_dec j 0) as [->|Hne]; [now rewrite Er, Ef|].
                specialize (Hc (j - 1) ltac:(lia)).
                replace (r + dr + (j - 1) * dr) with (r + j * dr) in Hc by lia.
                replace (f + df + (j - 1) * df) with (f + j * df) in Hc by lia.
                exact Hc. }
              { intros j Hj. destruct (Z.eq_dec j 0) as [->|Hne]; [now rewrite Er, Ef|].
                specialize (Ho (j - 1) ltac:(lia)).
                replace (r + dr + (j - 1) * dr) with (r + j * dr) in Ho by lia.
                replace (f + df + (j - 1) * df) with (f + j * df) in Ho by lia.
                exact Ho. }
        -- intros [H|(k & Hk & Ei & Hc & Ho)]; [left; left; exact H|].
           destruct (Z.eq_dec k 0) as [->|Hne].
           ++ left. right. now rewrite Er, Ef in Ei.
           ++ right. exists (k - 1). split; [lia|].
              split.
              { rewrite Ei. f_equal; lia. }
              split.
              { intros j Hj.
                replace (r + dr + j * dr) with (r + (j + 1) * dr) by lia.
                replace (f + df + j * df) with (f + (j + 1) * df) by lia.
                apply Hc. lia. }
              { intros j Hj.
                replace (r + dr + j * dr) with (r + (j + 1) * dr) by lia.
                replace (f + df + j * df) with (f + (j + 1) * df) by lia.
                apply Ho. lia. }
    + split; [auto|]. intros [H|(k & Hk & Ei & Hc & Ho)]; [exact H|].
      specialize (Hc 0 ltac:(lia)). rewrite Er, Ef in Hc. congruence.
Qed.

Lemma coordinates_of_square r f :
  0 <= r <= 7 -> 0 <= f <= 7 ->
  real_square (BitboardUtils.squareFromRankFile r f)
  /\ BitboardUtils.squareRank (BitboardUtils.squareFromRankFile r f) = r
  /\ BitboardUtils.squareFile (BitboardUtils.squareFromRankFile r f) = f.
Proof.
  intros Hr Hf.
  unfold BitboardUtils.squareFile, BitboardUtils.squareRank,
    BitboardUtils.squareFromRankFile, real_square.
  rewrite Z.quot_div_nonneg, Z.rem_mod_nonneg by lia.
  pose proof (Z.div_mod (r * 8 + f) 8 ltac:(lia)).
  pose proof (Z.mod_pos_bound (r * 8 + f) 8 ltac:(lia)).
  lia.
Qed.

(** One ray of eight rounds from a real square [a], started one step
    away in a direction whose loop condition holds exactly on the board:
    it adds the squares [a] slides to in that direction. *)
Lemma ray_attack cond dr df a r0 f0 occ attacks b :
  real_square a -> real_square b ->
  -1 <= dr <= 1 -> -1 <= df <= 1 -> (dr <> 0 \/ df <> 0) ->
  r0 = BitboardUtils.squareRank a + dr -> f0 = BitboardUtils.squareFile a + df ->
  (forall j, 0 <= j ->
     cond (r0 + j * dr) (f0 + j * df) = true
     <-> 0 <= r0 + j * dr <= 7 /\ 0 <= f0 + j * df <= 7) ->
  (Z.testbit (ray 8 cond dr df r0 f0 occ attacks) b = true
   <-> Z.testbit attacks b = true \/ slides occ a b dr df).
Proof.
  intros Ha Hb Hdr Hdf Hd Er0 Ef0 Hcond.
  destruct (square_split a Ha) as (Haf & Har & _).
  destruct (square_split b Hb) as (Hbf & Hbr & Eb).
  rewrite ray_bits by (intros j Hj C; apply Hcond; assumption).
  apply or_iff_compat_l.
  unfold slides, steps_to, clear_path.
  set (rk := BitboardUtils.squareRank a) in *.
  set (fl := BitboardUtils.squareFile a) in *.
  assert (Cdr : dr = -1 \/ dr = 0 \/ dr = 1) by lia.
  assert (Cdf : df = -1 \/ df = 0 \/ df = 1) by lia.
  split.
  - intros (k & Hk & Ei & Hc & Ho).
    pose proof (proj1 (Hcond k ltac:(lia)) (Hc k ltac:(lia))) as [Br Bf].
    destruct (coordinates_of_square _ _ Br Bf) as (_ & Rk & Fl).
    exists (k + 1). split; [lia|].
    split; [split|].
    + rewrite Ei, Rk. lia.
    + rewrite Ei, Fl. lia.
    + intros j Hj. specialize (Ho (j - 1) ltac:(lia)).
      replace (r0 + (j - 1) * dr) with (rk + j * dr) in Ho by lia.
      replace (f0 + (j - 1) * df) with (fl + j * df) in Ho by lia.
      exact Ho.
  - intros (n & Hn & [Sr Sf] & Hp).
    assert (Hn7 : n <= 7).
    { destruct Cdr as [ -> | [ -> | -> ] ], Cdf as [ -> | [ -> | -> ] ]; lia. }
    exists (n - 1). split; [lia|].
    split.
    { rewrite <- Eb, Sr, Sf. f_equal; lia. }
    split.
    + intros j Hj. apply Hcond; [lia|].
      destruct Cdr as [ -> | [ -> | -> ] ], Cdf as [ -> | [ -> | -> ] ]; lia.
    + intros j Hj. specialize (Hp (j + 1) ltac:(lia)).
      replace (rk + (j + 1) * dr) with (r0 + j * dr) in Hp by lia.
      replace (fl + (j + 1) * df) with (f0 + j * df) in Hp by lia.
      exact Hp.
Qed.

Ltac on_board_cond :=
  intros ? ?; cbv beta;
  unfold RANK_1, RANK_8, FILE_A, FILE_H;
  rewrite ?andb_true_iff, ?Z.geb_leb, ?Z.leb_le; lia.

Lemma rook_attack_iff sq t occupied :
  real_square sq -> real_square t ->
  Z.testbit (generateRookAttacks sq occupied) t = true <-> rook_attack occupied sq t.
Proof.
  intros Hsq Ht. destruct (square_split sq Hsq) as (Hf & Hr & _).
  unfold generateRookAttacks, rook_rays, rook_attack.
  rewrite (ray_attack _ 0 (-1) sq) by (first [assumption | lia | on_board_cond]).
  rewrite (ray_attack _ 0 1 sq) by (first [assumption | lia | on_board_cond]).
  rewrite (ray_attack _ (-1) 0 sq) by (first [assumption | lia | on_board_cond]).
  rewrite (ray_attack _ 1 0 sq) by (first [assumption | lia | on_board_cond]).
  rewrite Z.bits_0. intuition discriminate.
Qed.

Lemma bishop_attack_iff sq t occupied :
  real_square sq -> real_square t ->
  Z.testbit (generateBishopAttacks sq occupied) t = true <-> bishop_attack occupied sq t.
Proof.
  intros Hsq Ht. destruct (square_split sq Hsq) as (Hf & Hr & _).
  unfold generateBishopAttacks, bishop_rays, bishop_attack.
  rewrite (ray_attack _ 1 (-1) sq) by (first [assumption | lia | on_board_cond]).
  rewrite (ray_attack _ (-1) (-1) sq) by (first [assumption | lia | on_board_cond]).
  rewrite (ray_attack _ (-1) 1 sq) by (first [assumption | lia | on_board_cond]).
  rewrite (ray_attack _ 1 1 sq) by (first [assumption | lia | on_board_cond]).
  rewrite Z.bits_0. intuition discriminate.
Qed.

Lemma slides_not_self occ a dr df :
  (dr <> 0 \/ df <> 0) -> ~ slides occ a a dr df.
Proof.
  intros Hd (n & Hn & [Sr Sf] & _).
  assert (n * dr = 0) by lia. assert (n * df = 0) by lia.
  destruct Hd as [Hd|Hd]; nia.
Qed.

Lemma in_u64_0 : in_u64 0.
Proof. unfold in_u64. lia. Qed.

Lemma ray_range fuel cond dr df :
  forall r f occ attacks, in_u64 attacks -> in_u64 (ray fuel cond dr df r f occ attacks).
Proof.
  induction fuel as [|n IH]; intros r f occ attacks H; cbn [ray]; [exact H|].
  destruct (cond r f); [|exact H].
  destruct (nz _); [|apply IH]; apply lor_range; first [exact H | apply bit_range].
Qed.

Lemma generateRookAttacks_range sq occ : in_u64 (generateRookAttacks sq occ).
Proof.
  unfold generateRookAttacks, rook_rays. repeat apply ray_range. apply in_u64_0.
Qed.

Lemma generateBishopAttacks_range sq occ : in_u64 (generateBishopAttacks sq occ).
Proof.
  unfold generateBishopAttacks, bishop_rays. repeat apply ray_range. apply in_u64_0.
Qed.

(** [generateRookAttacks]: from a real square the set holds exactly the
    real squares reached by sliding along the rank or the file over
    squares empty in [occupied]; the first occupied square of a ray is in
    the set and ends the ray.  The square itself is never in the set, and
    the set is a 64-bit word. *)
Theorem rook_attacks_are_clear_lines (sq t : Square) (occupied : Bitboard) :
  real_square sq -> real_square t ->
  (Z.testbit (generateRookAttacks sq occupied) t = true <-> rook_attack occupied sq t)
  /\ Z.testbit (generateRookAttacks sq occupied) sq = false
  /\ in_u64 (generateRookAttacks sq occupied).
Proof.
  intros Hsq Ht. split; [apply rook_attack_iff; assumption|].
  split; [|apply generateRookAttacks_range].
  destruct (Z.testbit (generateRookAttacks sq occupied) sq) eqn:E; [|reflexivity].
  apply (rook_attack_iff sq sq occupied Hsq Hsq) in E.
  destruct E as [H|[H|[H|H]]]; apply slides_not_self in H; (contradiction || lia).
Qed.

Lemma rook_attacks_are_clear_lines_witness :
  Z.testbit (generateRookAttacks A1 0xFF00) A2 = true <-> rook_attack 0xFF00 A1 A2.
Proof.
  apply (rook_attacks_are_clear_lines A1 A2 0xFF00); unfold real_square, A1, A2; lia.
Defined.

(** [generateBishopAttacks]: from a real square the set holds exactly the
    real squares reached by sliding along a diagonal over squares empty in
    [occupied]; the first occupied square of a ray is in the set and ends
    the ray.  The square itself is never in the set, and the set is a
    64-bit word. *)
Theorem bishop_attacks_are_clear_diagonals (sq t : Square) (occupied : Bitboard) :
  real_square sq -> real_square t ->
  (Z.testbit (generateBishopAttacks sq occupied) t = true <-> bishop_attack occupied sq t)
  /\ Z.testbit (generateBishopAttacks sq occupied) sq = false
  /\ in_u64 (generateBishopAttacks sq occupied).
Proof.
  intros Hsq Ht. split; [apply bishop_attack_iff; assumption|].
  split; [|apply generateBishopAttacks_range].
  destruct (Z.testbit (generateBishopAttacks sq occupied) sq) eqn:E; [|reflexivity].
  apply (bishop_attack_iff sq sq occupied Hsq Hsq) in E.
  destruct E as [H|[H|[H|H]]]; apply slides_not_self in H; (contradiction || lia).
Qed.

Lemma bishop_attacks_are_clear_diagonals_witness :
  Z.testbit (generateBishopAttacks C1 0xFF00) 9 = true <-> bishop_attack 0xFF00 C1 9.
Proof.
  apply (bishop_attacks_are_clear_diagonals C1 9 0xFF00); unfold real_square, C1; lia.
Defined.

(** ** The bit-scan loop *)

(** In an increasing run of squares the first one kept by a filter is the
    least square that passes it. *)
Lemma filter_seq_least (f : Z -> bool) (s : nat) :
  forall n a,
    (a <= s < a + n)%nat ->
    f (Z.of_nat s) = true ->
    (forall j, (a <= j < s)%nat -> f (Z.of_nat j) = false) ->
    filter f (map Z.of_nat (seq a n))
    = Z.of_nat s
      :: filter (fun i => f i && negb (i =? Z.of_nat s)) (map Z.of_nat (seq a n)).
Proof.
  induction n as [|n IH]; intros a Ha Hs Hlow; [lia|].
  cbn [seq map filter].
  destruct (Nat.eq_dec a s) as [->|Hne].
  - rewrite Hs, Z.eqb_refl. cbn [andb negb]. f_equal.
    apply filter_ext_in. intros i Hi.
    apply in_map_iff in Hi. destruct Hi as (k & <- & Hk). apply in_seq in Hk.
    replace (Z.of_nat k =? Z.of_nat s) with false by (symmetry; apply Z.eqb_neq; lia).
    now rewrite andb_true_r.
  - rewrite (Hlow a) by lia. cbn [andb].
    apply IH; [lia | exact Hs | intros j Hj; apply Hlow; lia].
Qed.

Lemma squares_of_nonempty bb :
  in_u64 bb -> bb <> 0 ->
  filter (Z.testbit bb) all_squares
  = BitboardUtils.lsb bb
    :: filter (Z.testbit (BitboardUtils.clearLowest bb)) all_squares.
Proof.
  intros Hbb Hnz. assert (Hpos : 0 < bb) by (unfold in_u64 in Hbb; lia).
  destruct (lsb_real bb Hbb Hnz) as [L0 L1].
  unfold all_squares.
  rewrite (filter_seq_least (Z.testbit bb) (Z.to_nat (BitboardUtils.lsb bb)) 64 0).
  - rewrite Z2Nat.id by lia. f_equal.
    apply filter_ext. intros i. symmetry. apply clearLowest_bits; assumption.
  - lia.
  - rewrite Z2Nat.id by lia. apply lsb_set. exact Hpos.
  - intros j Hj. apply lsb_least; [exact Hpos | lia].
Qed.

Lemma squares_of_empty : filter (Z.testbit 0) all_squares = [].
Proof. vm_compute. reflexivity. Qed.

Lemma fold_left_step {A B : Type} (f : A -> B -> A) x l acc :
  fold_left f (x :: l) acc = fold_left f l (f acc x).
Proof. reflexivity. Qed.

Lemma for_each_bit_step {A : Type} (body : Square -> A -> A) fuel bb acc :
  for_each_bit (S fuel) bb body acc
  = if nz bb
    then for_each_bit fuel (BitboardUtils.clearLowest bb) body
           (body (BitboardUtils.lsb bb) acc)
    else acc.
Proof. reflexivity. Qed.

Lemma for_each_bit_squares {A : Type} (body : Square -> A -> A) :
  forall fuel bb acc,
    in_u64 bb -> (bits bb <= fuel)%nat ->
    for_each_bit fuel bb body acc
    = fold_left (fun acc sq => body sq acc) (filter (Z.testbit bb) all_squares) acc.
Proof.
  induction fuel as [|n IH]; intros bb acc Hbb Hn.
  - assert (bb = 0).
    { destruct (Z.eq_dec bb 0) as [E|Hnz]; [exact E|].
      assert (Hpos : 0 < bb) by (unfold in_u64 in Hbb; lia).
      pose proof (bits_pos bb _ (lsb_real bb Hbb Hnz) (lsb_set bb Hpos)). lia. }
    subst bb. rewrite squares_of_empty. reflexivity.
  - rewrite for_each_bit_step. destruct (nz bb) eqn:E.
    + apply nz_true in E.
      rewrite (squares_of_nonempty bb Hbb E), fold_left_step.
      apply IH; [apply clearLowest_range; exact Hbb|].
      pose proof (bits_clearLowest bb Hbb E). lia.
    + apply nz_false in E. subst bb. rewrite squares_of_empty. reflexivity.
Qed.

(** The loop [while (bb) { sq = lsb(bb); ...; bb &= bb - 1; }] of the
    move generator runs its body once for each square of the set, in
    increasing order of the squares, and for no other square. *)
Theorem bit_scan_visits_set_squares {A : Type} (bb : Bitboard)
    (body : Square -> A -> A) (acc : A) :
  in_u64 bb ->
  for_each_bit 64 bb body acc
  = fold_left (fun acc sq => body sq acc) (filter (Z.testbit bb) all_squares) acc.
Proof.
  intros Hbb. apply for_each_bit_squares; [exact Hbb | apply bits_le_64].
Qed.

Lemma bit_scan_visits_set_squares_witness :
  for_each_bit 64 0x42 (fun sq acc => acc ++ [sq]) [] = [B1; G1].
Proof.
  rewrite (bit_scan_visits_set_squares 0x42) by (unfold in_u64; lia).
  vm_compute. reflexivity.
Defined.

(** A loop that unions one set per visited square collects the sets of
    the squares of the board it scans. *)
Lemma fold_lor_bits (g : Square -> Bitboard) i :
  forall l acc,
    Z.testbit (fold_left (fun acc sq => Z.lor acc (g sq)) l acc) i
    = Z.testbit acc i || existsb (fun s => Z.testbit (g s) i) l.
Proof.
  induction l as [|x l IH]; intros acc; cbn [fold_left existsb].
  - now rewrite orb_false_r.
  - rewrite IH, Z.lor_spec, orb_assoc. reflexivity.
Qed.

Lemma for_each_bit_lor bb (g : Square -> Bitboard) acc i :
  in_u64 bb ->
  (Z.testbit (for_each_bit 64 bb (fun sq acc => Z.lor acc (g sq)) acc) i = true
   <-> Z.testbit acc i = true
       \/ exists s, real_square s /\ Z.testbit bb s = true /\ Z.testbit (g s) i = true).
Proof.
  intros Hbb.
  rewrite (for_each_bit_squares _ 64 bb acc Hbb (bits_le_64 bb)).
  rewrite fold_lor_bits, orb_true_iff, existsb_exists.
  apply or_iff_compat_l. split.
  - intros (s & Hin & Hg). apply filter_In in Hin. destruct Hin as [Hin Hb].
    exists s. split; [apply in_all_squares, Hin|]. split; assumption.
  - intros (s & Hs & Hb & Hg). exists s. split; [|exact Hg].
    apply filter_In. split; [apply real_square_in, Hs | exact Hb].
Qed.

(** ** Attack sets are sets of real squares *)

Lemma lookup_range t sq :
  forallb in_u64b t = true -> in_u64 (AttackTables.lookup t sq).
Proof.
  intros H. rewrite forallb_forall in H. unfold AttackTables.lookup.
  destruct ((0 <=? sq) && (sq <? 64)); [|apply in_u64_0].
  destruct (nth_in_or_default (Z.to_nat sq) t 0) as [Hin | E].
  - apply in_u64b_true, H, Hin.
  - pose proof in_u64_0 as Hz. rewrite <- E in Hz. exact Hz.
Qed.

Lemma KNIGHT_ATTACKS_range sq : in_u64 (AttackTables.KNIGHT_ATTACKS sq).
Proof. apply lookup_range. vm_compute. reflexivity. Qed.

Lemma KING_ATTACKS_range sq : in_u64 (AttackTables.KING_ATTACKS sq).
Proof. apply lookup_range. vm_compute. reflexivity. Qed.

Lemma getPieceAttacks_range p sq c occ : in_u64 (getPieceAttacks p sq c occ).
Proof.
  destruct p; cbn [getPieceAttacks].
  - apply PAWN_ATTACKS_range.
  - apply KNIGHT_ATTACKS_range.
  - apply generateBishopAttacks_range.
  - apply generateRookAttacks_range.
  - apply lor_range; [apply generateBishopAttacks_range | apply generateRookAttacks_range].
  - apply KING_ATTACKS_range.
  - apply in_u64_0.
Qed.

(** ** Attacks are symmetric *)

Lemma slides_reverse occ a b dr df :
  real_square a -> real_square b ->
  slides occ a b dr df -> slides occ b a (- dr) (- df).
Proof.
  intros Ha Hb (n & Hn & [Sr Sf] & Hp).
  exists n. split; [exact Hn|]. split; [split; lia|].
  intros j Hj. specialize (Hp (n - j) ltac:(lia)).
  replace (BitboardUtils.squareRank b + j * - dr)
    with (BitboardUtils.squareRank a + (n - j) * dr) by (rewrite Sr; lia).
  replace (BitboardUtils.squareFile b + j * - df)
    with (BitboardUtils.squareFile a + (n - j) * df) by (rewrite Sf; lia).
  exact Hp.
Qed.

Lemma rook_attack_sym occ a b :
  real_square a -> real_square b -> rook_attack occ a b -> rook_attack occ b a.
Proof.
  intros Ha Hb [H|[H|[H|H]]]; apply (slides_reverse occ a b _ _ Ha Hb) in H;
    unfold rook_attack; cbn [Z.opp] in H; auto.
Qed.

Lemma bishop_attack_sym occ a b :
  real_square a -> real_square b -> bishop_attack occ a b -> bishop_attack occ b a.
Proof.
  intros Ha Hb [H|[H|[H|H]]]; apply (slides_reverse occ a b _ _ Ha Hb) in H;
    unfold bishop_attack; cbn [Z.opp] in H; auto.
Qed.

Lemma sliding_attacks_symmetric occ a b :
  real_square a -> real_square b ->
  Z.testbit (generateRookAttacks a occ) b = Z.testbit (generateRookAttacks b occ) a
  /\ Z.testbit (generateBishopAttacks a occ) b = Z.testbit (generateBishopAttacks b occ) a.
Proof.
  intros Ha Hb. split; apply eq_iff_eq_true.
  - rewrite !rook_attack_iff by assumption.
    split; apply rook_attack_sym; assumption.
  - rewrite !bishop_attack_iff by assumption.
    split; apply bishop_attack_sym; assumption.
Qed.

Lemma knight_king_symmetric a b :
  real_square a -> real_square b ->
  Z.testbit (AttackTables.KNIGHT_ATTACKS a) b = Z.testbit (AttackTables.KNIGHT_ATTACKS b) a
  /\ Z.testbit (AttackTables.KING_ATTACKS a) b = Z.testbit (AttackTables.KING_ATTACKS b) a.
Proof.
  intros Ha Hb.
  assert (H : forallb (fun x => forallb (fun y =>
              Bool.eqb (Z.testbit (AttackTables.KNIGHT_ATTACKS x) y)
                       (Z.testbit (AttackTables.KNIGHT_ATTACKS y) x)
              && Bool.eqb (Z.testbit (AttackTables.KING_ATTACKS x) y)
                          (Z.testbit (AttackTables.KING_ATTACKS y) x))
              all_squares) all_squares = true) by (vm_compute; reflexivity).
  pose proof (forall_square_pairs _ H a b Ha Hb) as E. cbv beta in E.
  apply andb_true_iff in E. destruct E as [E1 E2].
  split; apply eqb_prop; assumption.
Qed.

(** The attack set of a piece kind taken from the attacked square meets
    the pieces of that kind exactly when one of them, from its own
    square, attacks the square. *)
Lemma attack_term b sq c p (c1 : Color) :
  real_square sq ->
  (forall t, real_square t ->
     Z.testbit (getPieceAttacks p sq c1 (_occupiedSquares b)) t
     = Z.testbit (getPieceAttacks p t c (_occupiedSquares b)) sq) ->
  (nz (Z.land (getPieceAttacks p sq c1 (_occupiedSquares b)) (_pieces b c p)) = true
   <-> exists t, real_square t /\ attacks_from b c p t sq).
Proof.
  intros Hsq Hsym. unfold attacks_from.
  rewrite nz_true, land_nonzero_bit by apply getPieceAttacks_range.
  split.
  - intros (t & Ht & Ha & Hp). exists t. split; [exact Ht|]. split; [exact Hp|].
    rewrite <- (Hsym t Ht). exact Ha.
  - intros (t & Ht & Hp & Ha). exists t. split; [exact Ht|]. split; [|exact Hp].
    rewrite (Hsym t Ht). exact Ha.
Qed.

Lemma attacks_symmetric b sq c p :
  real_square sq -> c <> NO_COLOR -> p <> NO_PIECE_TYPE ->
  forall t, real_square t ->
    Z.testbit (getPieceAttacks p sq
                 (match p with
                  | PAWN => Color_of_int (1 - Color_to_int c)
                  | _ => NO_COLOR
                  end) (_occupiedSquares b)) t
    = Z.testbit (getPieceAttacks p t c (_occupiedSquares b)) sq.
Proof.
  intros Hsq Hc Hp t Ht.
  destruct p; cbn [getPieceAttacks]; try congruence.
  - destruct c; [| |congruence]; cbn [Color_to_int Color_of_int Z.sub Z.eqb Z.opp Z.add Z.pos_sub];
      [symmetry|]; apply pawn_table_reciprocal; assumption.
  - apply knight_king_symmetric; assumption.
  - apply sliding_attacks_symmetric; assumption.
  - apply sliding_attacks_symmetric; assumption.
  - rewrite !Z.lor_spec.
    destruct (sliding_attacks_symmetric (_occupiedSquares b) sq t Hsq Ht) as [-> ->].
    reflexivity.
  - apply knight_king_symmetric; assumption.
Qed.

Lemma isSquareAttacked_iff b sq c :
  real_square sq -> c <> NO_COLOR ->
  isSquareAttacked b sq c = true
  <-> exists p t, real_square t /\ attacks_from b c p t sq.
Proof.
  intros Hsq Hc. unfold isSquareAttacked. cbv zeta.
  rewrite !orb_true_iff.
  rewrite (attack_term b sq c PAWN _ Hsq (attacks_symmetric b sq c PAWN Hsq Hc ltac:(discriminate))).
  rewrite (attack_term b sq c KNIGHT _ Hsq (attacks_symmetric b sq c KNIGHT Hsq Hc ltac:(discriminate))).
  rewrite (attack_term b sq c BISHOP _ Hsq (attacks_symmetric b sq c BISHOP Hsq Hc ltac:(discriminate))).
  rewrite (attack_term b sq c ROOK _ Hsq (attacks_symmetric b sq c ROOK Hsq Hc ltac:(discriminate))).
  rewrite (attack_term b sq c QUEEN _ Hsq (attacks_symmetric b sq c QUEEN Hsq Hc ltac:(discriminate))).
  rewrite (attack_term b sq c KING _ Hsq (attacks_symmetric b sq c KING Hsq Hc ltac:(discriminate))).
  split.
  - intros [[[[[H|H]|H]|H]|H]|H]; destruct H as (t & Ht); eauto.
  - intros (p & t & Ht & Ha). destruct p.
    + left; left; left; left; left. eauto.
    + left; left; left; left; right. eauto.
    + left; left; left; right. eauto.
    + left; left; right. eauto.
    + left; right. eauto.
    + right. eauto.
    + destruct Ha as [Hp _]. destruct c; cbn in Hp; rewrite ?Z.bits_0 in Hp; discriminate.
Qed.

(** [isSquareAttacked]: a real square is attacked by a color exactly when
    some piece of that color, standing on a real square, has the square in
    the attack set computed from where the piece stands (for a pawn the
    table of its own color, for a slider the rays under the current
    occupancy). *)
Theorem isSquareAttacked_by_some_piece (b : Board) (sq : Square) (c : Color) :
  real_square sq -> c <> NO_COLOR ->
  isSquareAttacked b sq c = true
  <-> exists p t, real_square t /\ attacks_from b c p t sq.
Proof. apply isSquareAttacked_iff. Qed.

Lemma isSquareAttacked_by_some_piece_witness :
  isSquareAttacked Board_new 16 WHITE = true
  <-> exists p t, real_square t /\ attacks_from Board_new WHITE p t 16.
Proof.
  apply (isSquareAttacked_by_some_piece Board_new 16 WHITE);
    [unfold real_square; lia | discriminate].
Defined.

(** With at most one king, the king that [lsb] finds is the only one. *)
Lemma single_king_attack king sq :
  in_u64 king -> (bits king <= 1)%nat ->
  (king <> 0 /\ Z.testbit (AttackTables.KING_ATTACKS (BitboardUtils.lsb king)) sq = true)
  <-> exists t, real_square t /\ Z.testbit king t = true
                /\ Z.testbit (AttackTables.KING_ATTACKS t) sq = true.
Proof.
  intros Hk Hone. split.
  - intros [Hnz Ha]. assert (Hpos : 0 < king) by (unfold in_u64 in Hk; lia).
    exists (BitboardUtils.lsb king).
    split; [apply lsb_real; assumption|]. split; [apply lsb_set; assumption | exact Ha].
  - intros (t & Ht & Hb & Ha).
    pose proof (bits_pos king t Ht Hb) as H1.
    assert (E : BitboardUtils.lsb king = t) by (apply bits_one_lsb; try assumption; lia).
    rewrite E. split; [|exact Ha].
    intros ->. rewrite Z.bits_0 in Hb. discriminate.
Qed.

Lemma getAttackedSquares_bits b c sq :
  real_square sq -> c <> NO_COLOR ->
  (forall p, in_u64 (_pieces b c p)) ->
  (bits (_pieces b c KING) <= 1)%nat ->
  Z.testbit (getAttackedSquares b c) sq = isSquareAttacked b sq c.
Proof.
  intros Hsq Hc Hr Hone. apply eq_iff_eq_true.
  rewrite (isSquareAttacked_iff b sq c Hsq Hc).
  unfold getAttackedSquares. cbv zeta.
  set (others :=
    for_each_bit 64 (_pieces b c QUEEN) _
      (for_each_bit 64 (_pieces b c ROOK) _
         (for_each_bit 64 (_pieces b c BISHOP) _
            (for_each_bit 64 (_pieces b c KNIGHT) _
               (for_each_bit 64 (_pieces b c PAWN) _ 0))))).
  assert (Ho : Z.testbit others sq = true
               <-> exists p t, p <> KING /\ real_square t /\ attacks_from b c p t sq).
  { unfold others.
    rewrite !for_each_bit_lor by apply Hr. rewrite Z.bits_0.
    unfold attacks_from. split.
    - intros [[[[[H|H]|H]|H]|H]|H]; [discriminate| | | | |];
        destruct H as (t & Ht & Hb & Ha).
      + exists PAWN, t. split; [discriminate|]. auto.
      + exists KNIGHT, t. split; [discriminate|]. auto.
      + exists BISHOP, t. split; [discriminate|]. auto.
      + exists ROOK, t. split; [discriminate|]. auto.
      + exists QUEEN, t. split; [discriminate|]. auto.
    - intros (p & t & Hp & Ht & Hb & Ha). destruct p; cbn [getPieceAttacks] in Ha.
      + left; left; left; left; right. eauto.
      + left; left; left; right. eauto.
      + left; left; right. eauto.
      + left; right. eauto.
      + right. eauto.
      + congruence.
      + destruct c; cbn in Hb; rewrite ?Z.bits_0 in Hb; discriminate. }
  pose proof (single_king_attack (_pieces b c KING) sq (Hr KING) Hone) as Hk.
  assert (Hcase :
    Z.testbit (if nz (_pieces b c KING)
               then Z.lor others
                      (AttackTables.KING_ATTACKS (BitboardUtils.lsb (_pieces b c KING)))
               else others) sq = true
    <-> Z.testbit others sq = true
        \/ (_pieces b c KING <> 0
            /\ Z.testbit (AttackTables.KING_ATTACKS (BitboardUtils.lsb (_pieces b c KING))) sq
               = true)).
  { destruct (nz (_pieces b c KING)) eqn:E.
    - apply nz_true in E. rewrite Z.lor_spec, orb_true_iff. tauto.
    - apply nz_false in E. tauto. }
  rewrite Hcase, Ho, Hk. split.
  - intros [(p & t & _ & H)|(t & Ht & Hb & Ha)]; [eauto|].
    exists KING, t. split; [exact Ht|]. split; [exact Hb | exact Ha].
  - intros (p & t & Ht & Ha).
    destruct (PieceType_eqb p KING) eqn:E.
    + right. destruct p; try discriminate. destruct Ha as [Hb Ha].
      exists t. auto.
    + left. exists p, t. split; [intros ->; discriminate | auto].
Qed.

(** [getAttackedSquares] and [isSquareAttacked] agree: on a board whose
    bitboards of the attacking color are 64-bit words with at most one
    king, a real square is in the set of attacked squares exactly when
    [isSquareAttacked] says it is attacked. *)
Theorem getAttackedSquares_agrees_with_isSquareAttacked
    (b : Board) (c : Color) (sq : Square) :
  real_square sq -> c <> NO_COLOR ->
  (forall p, in_u64 (_pieces b c p)) ->
  (bits (_pieces b c KING) <= 1)%nat ->
  Z.testbit (getAttackedSquares b c) sq = isSquareAttacked b sq c.
Proof. apply getAttackedSquares_bits. Qed.

Lemma getAttackedSquares_agrees_with_isSquareAttacked_witness :
  Z.testbit (getAttackedSquares Board_new WHITE) 16 = isSquareAttacked Board_new 16 WHITE.
Proof.
  apply (getAttackedSquares_agrees_with_isSquareAttacked Board_new WHITE 16).
  - unfold real_square. lia.
  - discriminate.
  - intros p. destruct p; vm_compute; split; congruence.
  - vm_compute. lia.
Defined.

(** Being in check, three ways, for a color whose king bitboard is a
    64-bit word and whose opponent has 64-bit piece bitboards with at most
    one king: [isKingInCheck] of the move generator is [isInCheck] of the
    board; a side without a king is never in check ([findKing] returns
    [NO_SQUARE]); and a side with a king is in check exactly when the
    king's square is in the opponent's set of attacked squares.  (With
    two kings of the opponent [getAttackedSquares] only counts the
    attacks of the one on the lower square.) *)
Theorem isInCheck_three_ways (b : Board) (c : Color) :
  c <> NO_COLOR ->
  in_u64 (_pieces b c KING) ->
  (forall p, in_u64 (_pieces b (Color_of_int (1 - Color_to_int c)) p)) ->
  (bits (_pieces b (Color_of_int (1 - Color_to_int c)) KING) <= 1)%nat ->
  isKingInCheck b c = isInCheck b c
  /\ (_pieces b c KING = 0 -> findKing b c = NO_SQUARE /\ isInCheck b c = false)
  /\ (_pieces b c KING <> 0 ->
      real_square (findKing b c)
      /\ isInCheck b c
         = Z.testbit (getAttackedSquares b (Color_of_int (1 - Color_to_int c)))
             (findKing b c)).
Proof.
  intros Hc Hk Hr Hone. split; [reflexivity|].
  unfold isInCheck, findKing. cbv zeta. split.
  - intros ->. split; reflexivity.
  - intros Hnz. pose proof (lsb_real _ Hk Hnz) as Hreal. split; [exact Hreal|].
    replace (BitboardUtils.lsb (_pieces b c KING) =? NO_SQUARE) with false
      by (symmetry; apply Z.eqb_neq; unfold real_square, NO_SQUARE in *; lia).
    cbn [negb andb]. symmetry. apply getAttackedSquares_bits; try assumption.
    destruct c; [discriminate | discriminate | congruence].
Qed.

Lemma isInCheck_three_ways_witness :
  isKingInCheck Board_new WHITE = isInCheck Board_new WHITE.
Proof.
  destruct (isInCheck_three_ways Board_new WHITE) as [H _].
  - discriminate.
  - vm_compute. split; congruence.
  - intros p. destruct p; vm_compute; split; congruence.
  - vm_compute. lia.
  - exact H.
Defined.

(** ** board.cpp: what makeMove writes *)

Lemma pieces_set_pieces b c' p' v c p :
  _pieces (set_pieces b c' p' v) c p
  = if Color_eqb c' c && PieceType_eqb p' p
       && negb (Color_eqb c NO_COLOR) && negb (PieceType_eqb p NO_PIECE_TYPE)
    then v else _pieces b c p.
Proof. destruct c', p', c, p; reflexivity. Qed.

Lemma clocks_set_pieces b c p v : clocks (set_pieces b c p v) = clocks b.
Proof. destruct c; reflexivity. Qed.

Lemma rights_set_pieces b c p v :
  _castlingRights (set_pieces b c p v) = _castlingRights b.
Proof. destruct c; reflexivity. Qed.

Lemma clocks_remove_piece b c p sq : clocks (remove_piece b c p sq) = clocks b.
Proof. apply clocks_set_pieces. Qed.

Lemma clocks_put_piece b c p sq : clocks (put_piece b c p sq) = clocks b.
Proof. apply clocks_set_pieces. Qed.

Lemma rights_remove_piece b c p sq :
  _castlingRights (remove_piece b c p sq) = _castlingRights b.
Proof. apply rights_set_pieces. Qed.

Lemma rights_put_piece b c p sq :
  _castlingRights (put_piece b c p sq) = _castlingRights b.
Proof. apply rights_set_pieces. Qed.

Lemma clocks_set_castlingRights b r : clocks (set_castlingRights b r) = clocks b.
Proof. reflexivity. Qed.

Lemma clocks_set_enPassantSquare b sq : clocks (set_enPassantSquare b sq) = clocks b.
Proof. reflexivity. Qed.

Lemma rights_set_enPassantSquare b sq :
  _castlingRights (set_enPassantSquare b sq) = _castlingRights b.
Proof. reflexivity. Qed.

Lemma clocks_clear_right_if cond b r : clocks (clear_right_if cond b r) = clocks b.
Proof. destruct cond; reflexivity. Qed.

Lemma clocks_move_piece b m mc mp ic cc cp :
  clocks (move_piece b m mc mp ic cc cp) = clocks b.
Proof.
  unfold move_piece. rewrite clocks_put_piece.
  destruct ic; rewrite ?clocks_remove_piece; reflexivity.
Qed.

Lemma rights_move_piece b m mc mp ic cc cp :
  _castlingRights (move_piece b m mc mp ic cc cp) = _castlingRights b.
Proof.
  unfold move_piece. rewrite rights_put_piece.
  destruct ic; rewrite ?rights_remove_piece; reflexivity.
Qed.

Lemma clocks_castling_apply b us kf kt rf rt rights :
  clocks (castling_apply b us kf kt rf rt rights) = clocks b.
Proof.
  unfold castling_apply. cbv zeta.
  rewrite clocks_set_castlingRights, clocks_put_piece, clocks_remove_piece,
    clocks_put_piece, clocks_remove_piece. reflexivity.
Qed.

Lemma rights_within_refl r : rights_within r r.
Proof. apply Z.land_diag. Qed.

Lemma rights_within_land r' r x : rights_within r' r -> rights_within (Z.land r' x) r.
Proof.
  unfold rights_within. intros H.
  rewrite <- Z.land_assoc, (Z.land_comm x r), Z.land_assoc, H. reflexivity.
Qed.

Lemma rights_castling_apply b us kf kt rf rt rights :
  rights_within (_castlingRights (castling_apply b us kf kt rf rt rights)) (_castlingRights b).
Proof.
  unfold castling_apply. cbv zeta. cbn [_castlingRights set_castlingRights].
  rewrite rights_put_piece, rights_remove_piece, rights_put_piece, rights_remove_piece.
  apply rights_within_land, rights_within_refl.
Qed.

Lemma rights_clear_right_if cond b r r0 :
  rights_within (_castlingRights b) r0 ->
  rights_within (_castlingRights (clear_right_if cond b r)) r0.
Proof.
  intros H. destruct cond; cbn [clear_right_if _castlingRights set_castlingRights];
    [apply rights_within_land|]; exact H.
Qed.

(** The case analysis of [makeMove] leaves the side to move, the clocks
    and the Chess960 flag alone, and only takes castling rights away. *)
Lemma dispatch_frame b m mc mp ic cc cp b1 :
  dispatch b m mc mp ic cc cp = Some b1 ->
  clocks b1 = clocks b /\ rights_within (_castlingRights b1) (_castlingRights b).
Proof.
  unfold dispatch. cbv zeta.
  repeat match goal with
         | |- context [if ?c then _ else _] => destruct c
         end;
    intros H; try discriminate; injection H as <-;
    rewrite ?clocks_set_enPassantSquare, ?rights_set_enPassantSquare,
      ?clocks_put_piece, ?rights_put_piece, ?clocks_remove_piece, ?rights_remove_piece,
      ?clocks_move_piece, ?rights_move_piece, ?clocks_castling_apply,
      ?clocks_clear_right_if, ?clocks_set_castlingRights;
    (split; [reflexivity|]);
    first [ apply rights_castling_apply
          | apply rights_within_refl
          | cbn [_castlingRights set_castlingRights];
            apply rights_within_land, rights_within_refl
          | repeat apply rights_clear_right_if; apply rights_within_refl ].
Qed.

Lemma updateCombinedBitboards_consistent b :
  combined_consistent (updateCombinedBitboards b).
Proof. unfold combined_consistent. repeat split. Qed.

Lemma updateCombinedBitboards_pieces b c p :
  _pieces (updateCombinedBitboards b) c p = _pieces b c p.
Proof. destruct c; reflexivity. Qed.

Lemma update_game_state_pieces b mp ic c p :
  _pieces (update_game_state b mp ic) c p = _pieces b c p.
Proof.
  unfold update_game_state. cbv zeta.
  repeat match goal with
         | |- context [if ?c then _ else _] => destruct c
         end; destruct c; reflexivity.
Qed.

Lemma update_game_state_consistent b mp ic :
  combined_consistent b -> combined_consistent (update_game_state b mp ic).
Proof.
  unfold update_game_state, combined_consistent. cbv zeta.
  repeat match goal with
         | |- context [if ?c then _ else _] => destruct c
         end; intros H; exact H.
Qed.

(** The shape of every run of [makeMove]: an early refusal that leaves
    the board as it was, a refusal for self-check that leaves the board of
    the attempted move, or an acceptance. *)
Lemma makeMove_cases b m :
  makeMove b m = (false, b)
  \/ exists b1,
       dispatch b m (snd (pieceAt b (from m))) (fst (pieceAt b (from m)))
         (negb (Color_eqb (snd (pieceAt b (to m))) NO_COLOR))
         (snd (pieceAt b (to m))) (fst (pieceAt b (to m))) = Some b1
       /\ applied b m = Some (updateCombinedBitboards b1)
       /\ ((isInCheck (updateCombinedBitboards b1) (_sideToMove (updateCombinedBitboards b1)) = true
            /\ makeMove b m = (false, updateCombinedBitboards b1))
           \/ (isInCheck (updateCombinedBitboards b1) (_sideToMove (updateCombinedBitboards b1)) = false
               /\ makeMove b m
                  = (true, update_game_state (updateCombinedBitboards b1)
                             (fst (pieceAt b (from m)))
                             (negb (Color_eqb (snd (pieceAt b (to m))) NO_COLOR))))).
Proof.
  unfold makeMove, applied.
  destruct (isValid m); cbn [negb]; [|left; reflexivity].
  destruct (pieceAt b (from m)) as [mp mc].
  destruct (pieceAt b (to m)) as [cp cc]. cbn [fst snd].
  destruct (Color_eqb mc (_sideToMove b)); cbn [negb]; [|left; reflexivity].
  destruct (dispatch b m mc mp (negb (Color_eqb cc NO_COLOR)) cc cp) as [b1|];
    [|left; reflexivity].
  right. exists b1. split; [reflexivity|]. split; [reflexivity|].
  destruct (isInCheck (updateCombinedBitboards b1)
              (_sideToMove (updateCombinedBitboards b1))); [left | right]; split; reflexivity.
Qed.


Lemma rights_updateCombinedBitboards b :
  _castlingRights (updateCombinedBitboards b) = _castlingRights b.
Proof. reflexivity. Qed.

Lemma rights_update_game_state b mp ic :
  _castlingRights (update_game_state b mp ic) = _castlingRights b.
Proof.
  unfold update_game_state. cbv zeta.
  repeat match goal with
         | |- context [if ?c then _ else _] => destruct c
         end; reflexivity.
Qed.

Lemma makeMove_early b m :
  isValid m = false \/ snd (pieceAt b (from m)) <> _sideToMove b
  \/ castling_preconditions_fail b m (fst (pieceAt b (from m))) = true ->
  makeMove b m = (false, b).
Proof.
  intros H. unfold makeMove.
  destruct (isValid m); cbn [negb]; [|reflexivity].
  destruct (pieceAt b (from m)) as [mp mc].
  destruct (pieceAt b (to m)) as [cp cc]. cbn [fst snd] in H.
  destruct (Color_eqb mc (_sideToMove b)) eqn:Ec; cbn [negb]; [|reflexivity].
  destruct H as [H|[H|H]]; [discriminate | |].
  - exfalso. apply H. destruct mc, (_sideToMove b); try discriminate; reflexivity.
  - apply (dispatch_none b m mc mp (negb (Color_eqb cc NO_COLOR)) cc cp) in H.
    rewrite H. reflexivity.
Qed.



Lemma update_game_state_fields b mp ic :
  _sideToMove (update_game_state b mp ic)
  = (if Color_eqb (_sideToMove b) WHITE then BLACK else WHITE)
  /\ _halfmoveClock (update_game_state b mp ic)
     = (if PieceType_eqb mp PAWN || ic then 0 else wrap_int (_halfmoveClock b + 1))
  /\ _fullmoveNumber (update_game_state b mp ic)
     = (if Color_eqb (_sideToMove b) WHITE then _fullmoveNumber b
        else wrap_int (_fullmoveNumber b + 1))
  /\ _chess960 (update_game_state b mp ic) = _chess960 b.
Proof.
  unfold update_game_state. cbv zeta.
  destruct (_sideToMove b) eqn:Es, (PieceType_eqb mp PAWN || ic);
    cbn [set_sideToMove set_halfmoveClock set_fullmoveNumber _sideToMove
         _halfmoveClock _fullmoveNumber _chess960 Color_eqb];
    repeat split.
Qed.

Lemma wrap_int_small n : INT_MIN <= n <= INT_MAX -> wrap_int n = n.
Proof.
  unfold INT_MIN, INT_MAX, wrap_int. intros H. rewrite Z.mod_small by lia. lia.
Qed.

Lemma wrap_int_range n : INT_MIN <= wrap_int n <= INT_MAX.
Proof.
  unfold INT_MIN, INT_MAX, wrap_int.
  pose proof (Z.mod_pos_bound (n + 2 ^ 31) (2 ^ 32) ltac:(lia)). lia.
Qed.

(** An accepted move: the side to move changes hands, the halfmove clock
    restarts at 0 after a pawn move or a capture and is otherwise
    incremented, the fullmove number is incremented after Black's move,
    and the Chess960 flag is as before.  The clocks are [int]s: an
    increment adds one below [INT_MAX] and wraps from [INT_MAX] to
    [INT_MIN], and the result always fits an [int]. *)
Theorem makeMove_accepted_state (b b' : Board) (m : Move) :
  makeMove b m = (true, b') ->
  _sideToMove b' = (if Color_eqb (_sideToMove b) WHITE then BLACK else WHITE)
  /\ _halfmoveClock b'
     = (if PieceType_eqb (fst (pieceAt b (from m))) PAWN
           || negb (Color_eqb (snd (pieceAt b (to m))) NO_COLOR)
        then 0 else wrap_int (_halfmoveClock b + 1))
  /\ _fullmoveNumber b'
     = (if Color_eqb (_sideToMove b) WHITE then _fullmoveNumber b
        else wrap_int (_fullmoveNumber b + 1))
  /\ _chess960 b' = _chess960 b
  /\ snd (pieceAt b (from m)) = _sideToMove b
  /\ (forall n, INT_MIN <= n < INT_MAX -> wrap_int (n + 1) = n + 1)
  /\ wrap_int (INT_MAX + 1) = INT_MIN
  /\ (forall n, INT_MIN <= wrap_int n <= INT_MAX).
Proof.
  intros H.
  assert (Hside : snd (pieceAt b (from m)) = _sideToMove b).
  { destruct (Color_eqb (snd (pieceAt b (from m))) (_sideToMove b)) eqn:Ec.
    - destruct (snd (pieceAt b (from m))), (_sideToMove b); try discriminate; reflexivity.
    - rewrite (makeMove_early b m) in H; [discriminate|].
      right; left. intros E. rewrite E in Ec. destruct (_sideToMove b); discriminate. }
  destruct (makeMove_cases b m) as [E|(b1 & Hd & Ha & [[Hc E]|[Hc E]])];
    rewrite E in H; try discriminate; injection H as <-.
  destruct (dispatch_frame _ _ _ _ _ _ _ _ Hd) as [Hcl _].
  unfold clocks in Hcl. injection Hcl as Es Eh Ef E9.
  destruct (update_game_state_fields (updateCombinedBitboards b1)
              (fst (pieceAt b (from m)))
              (negb (Color_eqb (snd (pieceAt b (to m))) NO_COLOR))) as (A & B & C & D).
  change (_sideToMove (updateCombinedBitboards b1)) with (_sideToMove b1) in A, C.
  change (_halfmoveClock (updateCombinedBitboards b1)) with (_halfmoveClock b1) in B.
  change (_fullmoveNumber (updateCombinedBitboards b1)) with (_fullmoveNumber b1) in C.
  change (_chess960 (updateCombinedBitboards b1)) with (_chess960 b1) in D.
  rewrite Es in A, C. rewrite Eh in B. rewrite Ef in C. rewrite E9 in D.
  split; [exact A|]. split; [exact B|]. split; [exact C|]. split; [exact D|].
  split; [exact Hside|].
  split; [intros n Hn; apply wrap_int_small; lia|].
  split; [reflexivity | apply wrap_int_range].
Qed.

Lemma makeMove_accepted_state_witness :
  _sideToMove (snd (makeMove Board_new (mkMove E2 E4 NO_PIECE_TYPE))) = BLACK.
Proof.
  apply (makeMove_accepted_state Board_new _ (mkMove E2 E4 NO_PIECE_TYPE)).
  vm_compute. reflexivity.
Defined.

(** The wrap-around on a position that [setFromFen] accepts: with the
    halfmove clock at [INT_MAX] the knight move g1f3 is accepted and
    leaves the clock at [INT_MIN]. *)
Lemma halfmove_clock_wraps :
  let b := snd (setFromFen Board_new
                  "rnbqkbnr/pppppppp/8/8/8/8/PPPPPPPP/RNBQKBNR w KQkq - 2147483647 1") in
  fst (setFromFen Board_new
         "rnbqkbnr/pppppppp/8/8/8/8/PPPPPPPP/RNBQKBNR w KQkq - 2147483647 1") = true
  /\ _halfmoveClock b = INT_MAX
  /\ fst (makeMove b (mkMove G1 21 NO_PIECE_TYPE)) = true
  /\ _halfmoveClock (snd (makeMove b (mkMove G1 21 NO_PIECE_TYPE))) = INT_MIN.
Proof. vm_compute. repeat split; reflexivity. Qed.

(** [makeMove] never grants a castling right: whatever the move and
    whatever the result, every right set afterwards was set before. *)
Theorem makeMove_never_grants_castling_rights (b : Board) (m : Move) :
  rights_within (_castlingRights (snd (makeMove b m))) (_castlingRights b).
Proof.
  destruct (makeMove_cases b m) as [E|(b1 & Hd & Ha & [[Hc E]|[Hc E]])];
    rewrite E; cbn [snd].
  - apply rights_within_refl.
  - rewrite rights_updateCombinedBitboards. apply (dispatch_frame _ _ _ _ _ _ _ _ Hd).
  - rewrite rights_update_game_state, rights_updateCombinedBitboards.
    apply (dispatch_frame _ _ _ _ _ _ _ _ Hd).
Qed.

Lemma range_set_pieces b c p v :
  in_u64 v -> pieces_in_range b -> pieces_in_range (set_pieces b c p v).
Proof.
  intros Hv Hb c' p'. rewrite pieces_set_pieces.
  destruct (_ && _); [exact Hv | apply Hb].
Qed.

Lemma range_remove_piece b c p sq :
  pieces_in_range b -> pieces_in_range (remove_piece b c p sq).
Proof. intros H. apply range_set_pieces; [apply land_range, H | exact H]. Qed.

Lemma range_put_piece b c p sq :
  pieces_in_range b -> pieces_in_range (put_piece b c p sq).
Proof.
  intros H. apply range_set_pieces; [apply lor_range; [apply H | apply bit_range] | exact H].
Qed.

Lemma range_set_castlingRights b r :
  pieces_in_range b -> pieces_in_range (set_castlingRights b r).
Proof. intros H c p. destruct c; [apply (H WHITE p) | apply (H BLACK p) | apply (H NO_COLOR p)]. Qed.

Lemma range_set_enPassantSquare b sq :
  pieces_in_range b -> pieces_in_range (set_enPassantSquare b sq).
Proof. intros H c p. destruct c; [apply (H WHITE p) | apply (H BLACK p) | apply (H NO_COLOR p)]. Qed.

Lemma range_clear_right_if cond b r :
  pieces_in_range b -> pieces_in_range (clear_right_if cond b r).
Proof. intros H. destruct cond; [apply range_set_castlingRights|]; exact H. Qed.

Lemma range_move_piece b m mc mp ic cc cp :
  pieces_in_range b -> pieces_in_range (move_piece b m mc mp ic cc cp).
Proof.
  intros H. unfold move_piece. apply range_put_piece.
  destruct ic; repeat apply range_remove_piece; exact H.
Qed.

Lemma range_castling_apply b us kf kt rf rt rights :
  pieces_in_range b -> pieces_in_range (castling_apply b us kf kt rf rt rights).
Proof.
  intros H. unfold castling_apply. cbv zeta.
  apply range_set_castlingRights, range_put_piece, range_remove_piece,
    range_put_piece, range_remove_piece, H.
Qed.

Ltac range_step :=
  first [ assumption
        | apply range_move_piece
        | apply range_castling_apply
        | apply range_clear_right_if
        | apply range_set_enPassantSquare
        | apply range_set_castlingRights
        | apply range_put_piece
        | apply range_remove_piece ].

Lemma dispatch_range b m mc mp ic cc cp b1 :
  pieces_in_range b ->
  dispatch b m mc mp ic cc cp = Some b1 -> pieces_in_range b1.
Proof.
  intros Hb. unfold dispatch. cbv zeta.
  repeat match goal with
         | |- context [if ?c then _ else _] => destruct c
         end;
    intros H; try discriminate; injection H as <-; repeat range_step.
Qed.

Lemma range_updateCombinedBitboards b :
  pieces_in_range b -> pieces_in_range (updateCombinedBitboards b).
Proof. intros H c p. rewrite updateCombinedBitboards_pieces. apply H. Qed.

Lemma range_update_game_state b mp ic :
  pieces_in_range b -> pieces_in_range (update_game_state b mp ic).
Proof. intros H c p. rewrite update_game_state_pieces. apply H. Qed.

(** [makeMove] keeps the data model of the bitboards: the piece
    bitboards stay 64-bit words, and the derived bitboards equal their
    definitions after every accepted move, as they do after a refused one
    whenever they did before. *)
Theorem makeMove_keeps_bitboards_consistent (b : Board) (m : Move) :
  pieces_in_range b ->
  pieces_in_range (snd (makeMove b m))
  /\ (fst (makeMove b m) = true -> combined_consistent (snd (makeMove b m)))
  /\ (combined_consistent b -> combined_consistent (snd (makeMove b m))).
Proof.
  intros Hr.
  destruct (makeMove_cases b m) as [E|(b1 & Hd & Ha & [[Hc E]|[Hc E]])];
    rewrite E; cbn [fst snd].
  - split; [exact Hr|]. split; [discriminate | auto].
  - pose proof (dispatch_range _ _ _ _ _ _ _ _ Hr Hd) as H1.
    split; [apply range_updateCombinedBitboards, H1|].
    split; intros _; apply updateCombinedBitboards_consistent.
  - pose proof (dispatch_range _ _ _ _ _ _ _ _ Hr Hd) as H1.
    split; [apply range_update_game_state, range_updateCombinedBitboards, H1|].
    split; intros _; apply update_game_state_consistent, updateCombinedBitboards_consistent.
Qed.

Lemma makeMove_keeps_bitboards_consistent_witness :
  pieces_in_range (snd (makeMove Board_new (mkMove E2 E4 NO_PIECE_TYPE))).
Proof.
  apply (makeMove_keeps_bitboards_consistent Board_new (mkMove E2 E4 NO_PIECE_TYPE)).
  intros c p. destruct c, p; vm_compute; split; congruence.
Defined.

(** ** board.cpp: the effect of a plain move *)

Lemma Color_eqb_eq c d : Color_eqb c d = true <-> c = d.
Proof. destruct c, d; split; intros H; try reflexivity; discriminate. Qed.

Lemma PieceType_eqb_eq p q : PieceType_eqb p q = true <-> p = q.
Proof. destruct p, q; split; intros H; try reflexivity; discriminate. Qed.

Lemma cell_is_eq x c p : cell_is x c p = true <-> x = (p, c).
Proof.
  destruct x as [p' c']. unfold cell_is. cbn [fst snd].
  rewrite andb_true_iff, PieceType_eqb_eq, Color_eqb_eq.
  split; [intros [-> ->]; reflexivity | intros E; injection E as -> ->; auto].
Qed.

Lemma holds_cell b sq c p : holds b sq c p = cell_is (pieceAt b sq) c p.
Proof. unfold holds, cell_is. destruct (pieceAt b sq). reflexivity. Qed.

Lemma pieceAt_cell_value b sq : cell_value (pieceAt b sq).
Proof.
  destruct (pieceAt_shape b sq) as [E|(p & c & E & Hp & Hc)]; rewrite E;
    [left; reflexivity | right; split; assumption].
Qed.

(** A position whose squares each hold what a cell function says
    satisfies the bitboard invariants, and [pieceAt] returns the cell. *)
Lemma union_disjoint a a' :
  (forall p q, disjoint (get6 a p) (get6 a' q)) ->
  disjoint (union (pieces_of a)) (union (pieces_of a')).
Proof.
  intros H. unfold union, pieces_of, piece_types. cbn [map fold_left].
  repeat first [ apply disjoint_0_l
               | apply disjoint_lor_l
               | apply disjoint_lor_r
               | apply disjoint_sym, disjoint_0_l
               | apply H ].
Qed.

Lemma disjoint_of_bits x y :
  in_u64 x ->
  (forall i, real_square i -> Z.testbit x i = true -> Z.testbit y i = false) ->
  disjoint x y.
Proof.
  intros Hx H. unfold disjoint. apply Z.bits_inj'. intros i Hi.
  rewrite Z.land_spec, Z.bits_0.
  destruct (Z.ltb_spec i 64) as [Hlt|Hge].
  - destruct (Z.testbit x i) eqn:E; [|reflexivity].
    rewrite (H i) by (unfold real_square; lia || exact E). reflexivity.
  - rewrite (in_u64_high x i Hx) by lia. reflexivity.
Qed.

Lemma Invariant_of_cells b (X : Square -> PieceType * Color) :
  pieces_in_range b -> combined_consistent b ->
  (forall i c p, real_square i -> c <> NO_COLOR -> p <> NO_PIECE_TYPE ->
     Z.testbit (_pieces b c p) i = cell_is (X i) c p) ->
  Invariant b.
Proof.
  intros Hr (Hw & Hk & Ho) Hcell.
  assert (Hd : forall c p c' p', (c, p) <> (c', p') ->
            disjoint (_pieces b c p) (_pieces b c' p')).
  { intros c p c' p' Hne.
    destruct (Color_eqb c NO_COLOR) eqn:E1;
      [apply Color_eqb_eq in E1; subst c; apply disjoint_0_l|].
    destruct (Color_eqb c' NO_COLOR) eqn:E2;
      [apply Color_eqb_eq in E2; subst c'; apply disjoint_sym, disjoint_0_l|].
    destruct (PieceType_eqb p NO_PIECE_TYPE) eqn:E3;
      [apply PieceType_eqb_eq in E3; subst p; destruct c; apply disjoint_0_l|].
    destruct (PieceType_eqb p' NO_PIECE_TYPE) eqn:E4;
      [apply PieceType_eqb_eq in E4; subst p'; destruct c'; apply disjoint_sym, disjoint_0_l|].
    assert (Hc : c <> NO_COLOR) by (intros ->; discriminate).
    assert (Hc' : c' <> NO_COLOR) by (intros ->; discriminate).
    assert (Hp : p <> NO_PIECE_TYPE) by (intros ->; discriminate).
    assert (Hp' : p' <> NO_PIECE_TYPE) by (intros ->; discriminate).
    apply disjoint_of_bits; [apply Hr|].
    intros i Hi Hb. rewrite (Hcell i c p Hi Hc Hp) in Hb. apply cell_is_eq in Hb.
    rewrite (Hcell i c' p' Hi Hc' Hp').
    destruct (cell_is (X i) c' p') eqn:E; [|reflexivity].
    apply cell_is_eq in E. rewrite Hb in E. injection E as -> ->. congruence. }
  constructor.
  - exact Hr.
  - intros c p q Hpq. apply Hd. congruence.
  - intros p q. apply Hd. congruence.
  - exact Hw.
  - exact Hk.
  - rewrite Hw, Hk. apply union_disjoint. intros p q.
    apply (Hd WHITE p BLACK q). congruence.
  - exact Ho.
Qed.

Lemma pieceAt_of_cells b sq x :
  Invariant b -> real_square sq -> cell_value x ->
  (forall c p, c <> NO_COLOR -> p <> NO_PIECE_TYPE ->
     Z.testbit (_pieces b c p) sq = cell_is x c p) ->
  pieceAt b sq = x.
Proof.
  intros I Hsq [->|[Hp Hc]] Hcell.
  - apply pieceAt_vacant; [exact I | exact Hsq|].
    intros c p. destruct c, p; try apply Z.bits_0;
      rewrite Hcell by discriminate; reflexivity.
  - destruct x as [p c]. cbn [fst snd] in *.
    apply pieceAt_occupied; try assumption.
    rewrite Hcell by assumption. apply cell_is_eq. reflexivity.
Qed.

Lemma Invariant_position_invariant b : Invariant b -> position_invariant b = true.
Proof.
  intros I. unfold position_invariant.
  assert (Rg : forall a, (forall p, in_u64 (get6 a p)) ->
            forallb in_u64b (pieces_of a) = true).
  { intros a H. unfold pieces_of, piece_types. cbn [map forallb].
    assert (T : forall x, in_u64 x -> in_u64b x = true).
    { intros x [H0 H1]. unfold in_u64b. apply andb_true_iff.
      split; [apply Z.leb_le | apply Z.ltb_lt]; assumption. }
    rewrite !T by apply H. reflexivity. }
  assert (Pw : forall a, (forall p q, p <> q -> disjoint (get6 a p) (get6 a q)) ->
            pairwise_disjointb (pieces_of a) = true).
  { intros a H. unfold pieces_of, piece_types. cbn [map pairwise_disjointb forallb].
    repeat match goal with
           | |- context [Z.land (get6 a ?p) (get6 a ?q) =? 0] =>
               replace (Z.land (get6 a p) (get6 a q) =? 0) with true
                 by (symmetry; apply Z.eqb_eq, H; discriminate)
           end.
    reflexivity. }
  rewrite !andb_true_iff. repeat split.
  - rewrite forallb_app. apply andb_true_iff. split; apply Rg; intros p.
    + apply (I_range b I WHITE p).
    + apply (I_range b I BLACK p).
  - apply Pw. intros p q. apply (I_same b I WHITE p q).
  - apply Pw. intros p q. apply (I_same b I BLACK p q).
  - apply Z.eqb_eq, (I_colors b I).
  - apply Z.eqb_eq, (I_allWhite b I).
  - apply Z.eqb_eq, (I_allBlack b I).
  - apply Z.eqb_eq, (I_occupied b I).
Qed.

Lemma pieces_remove_piece b c' p' sq c p :
  c' <> NO_COLOR -> p' <> NO_PIECE_TYPE ->
  _pieces (remove_piece b c' p' sq) c p
  = if Color_eqb c' c && PieceType_eqb p' p
    then Z.land (_pieces b c p) (not64 (bit sq)) else _pieces b c p.
Proof.
  intros Hc Hp. destruct c', p', c, p; try congruence; reflexivity.
Qed.

Lemma same_pieces_refl b : same_pieces b b.
Proof. intros c p. reflexivity. Qed.

Lemma same_pieces_trans b1 b2 b3 :
  same_pieces b1 b2 -> same_pieces b2 b3 -> same_pieces b1 b3.
Proof. intros H1 H2 c p. rewrite H1. apply H2. Qed.

Lemma same_pieces_set_castlingRights b r : same_pieces (set_castlingRights b r) b.
Proof. intros c p. destruct c; reflexivity. Qed.

Lemma same_pieces_set_enPassantSquare b sq : same_pieces (set_enPassantSquare b sq) b.
Proof. intros c p. destruct c; reflexivity. Qed.

Lemma same_pieces_clear_right_if cond b r : same_pieces (clear_right_if cond b r) b.
Proof.
  destruct cond; [apply same_pieces_set_castlingRights | apply same_pieces_refl].
Qed.

Lemma same_pieces_set_pieces b1 b2 c p v1 v2 :
  same_pieces b1 b2 -> v1 = v2 ->
  same_pieces (set_pieces b1 c p v1) (set_pieces b2 c p v2).
Proof.
  intros H -> c' p'. rewrite !pieces_set_pieces, H. reflexivity.
Qed.

Lemma same_pieces_remove_piece b1 b2 c p sq :
  same_pieces b1 b2 -> same_pieces (remove_piece b1 c p sq) (remove_piece b2 c p sq).
Proof.
  intros H. unfold remove_piece. apply same_pieces_set_pieces; [exact H|].
  rewrite H. reflexivity.
Qed.

Lemma same_pieces_put_piece b1 b2 c p sq :
  same_pieces b1 b2 -> same_pieces (put_piece b1 c p sq) (put_piece b2 c p sq).
Proof.
  intros H. unfold put_piece. apply same_pieces_set_pieces; [exact H|].
  rewrite H. reflexivity.
Qed.

Lemma same_pieces_move_piece b1 b2 m mc mp ic cc cp :
  same_pieces b1 b2 ->
  same_pieces (move_piece b1 m mc mp ic cc cp) (move_piece b2 m mc mp ic cc cp).
Proof.
  intros H. unfold move_piece. apply same_pieces_put_piece.
  destruct ic; repeat apply same_pieces_remove_piece; exact H.
Qed.

Ltac plain_tail :=
  let H := fresh "H" in
  intros H; injection H as <-;
  (eapply same_pieces_trans; [apply same_pieces_set_enPassantSquare|]);
  apply same_pieces_move_piece;
  repeat match goal with
         | |- context [if ?c then _ else _] => destruct c
         end;
  repeat (eapply same_pieces_trans; [apply same_pieces_clear_right_if|]);
  apply same_pieces_refl.

(** A plain move is carried out by the "move piece" statements alone. *)
Lemma dispatch_plain b m mc mp ic cc cp b1 :
  plain_move b m = true ->
  pieceAt b (from m) = (mp, mc) ->
  dispatch b m mc mp ic cc cp = Some b1 ->
  same_pieces b1 (move_piece b m mc mp ic cc cp).
Proof.
  unfold plain_move, castling_shaped. intros Hplain Hfrom. rewrite Hfrom in Hplain.
  cbn [fst] in Hplain. unfold dispatch. cbv zeta.
  destruct mp; cbn [PieceType_eqb andb] in *; try discriminate.
  - (* pawn *)
    apply andb_true_iff in Hplain. destruct Hplain as [Hplain P3].
    apply andb_true_iff in Hplain. destruct Hplain as [P1 P2].
    apply negb_true_iff in P1. apply negb_true_iff in P3.
    rewrite P1, P2, P3. cbn [negb]. plain_tail.
  - plain_tail.
  - plain_tail.
  - plain_tail.
  - plain_tail.
  - (* king *)
    apply negb_true_iff in Hplain.
    apply orb_false_iff in Hplain. destruct Hplain as [Hplain K4].
    apply orb_false_iff in Hplain. destruct Hplain as [Hplain K3].
    apply orb_false_iff in Hplain. destruct Hplain as [K1 K2].
    rewrite K1, K2, K3, K4.
    intros H. injection H as <-.
    apply same_pieces_move_piece.
    destruct (Color_eqb (_sideToMove b) WHITE); apply same_pieces_set_castlingRights.
Qed.

Lemma cell_bits b i c p :
  Invariant b -> real_square i -> c <> NO_COLOR -> p <> NO_PIECE_TYPE ->
  Z.testbit (_pieces b c p) i = cell_is (pieceAt b i) c p.
Proof.
  intros I Hi Hc Hp. rewrite <- holds_cell. apply pieces_bit_holds; assumption.
Qed.

Lemma cell_is_empty c p : p <> NO_PIECE_TYPE -> cell_is (NO_PIECE_TYPE, NO_COLOR) c p = false.
Proof. intros Hp. unfold cell_is. cbn [fst snd]. destruct p; try reflexivity. congruence. Qed.

Lemma cell_is_pair p c c' p' :
  cell_is (p, c) c' p' = Color_eqb c c' && PieceType_eqb p p'.
Proof. unfold cell_is. cbn [fst snd]. apply andb_comm. Qed.

(** The squares after the "move piece" statements: the target holds the
    mover, the source is empty, every other square is as before. *)
Lemma move_piece_cells b m p c cp cc c' p' i :
  Invariant b ->
  real_square (from m) -> real_square (to m) -> from m <> to m -> real_square i ->
  pieceAt b (from m) = (p, c) -> c <> NO_COLOR -> p <> NO_PIECE_TYPE ->
  pieceAt b (to m) = (cp, cc) ->
  c' <> NO_COLOR -> p' <> NO_PIECE_TYPE ->
  Z.testbit (_pieces (move_piece b m c p (negb (Color_eqb cc NO_COLOR)) cc cp) c' p') i
  = cell_is (if i =? to m then (p, c)
             else if i =? from m then (NO_PIECE_TYPE, NO_COLOR)
             else pieceAt b i) c' p'.
Proof.
  intros I Hf Ht Hne Hi Efrom Hc Hp Eto Hc' Hp'.
  pose proof (cell_bits b (from m) c' p' I Hf Hc' Hp') as Bf. rewrite Efrom, cell_is_pair in Bf.
  pose proof (cell_bits b (to m) c' p' I Ht Hc' Hp') as Bt. rewrite Eto, cell_is_pair in Bt.
  pose proof (cell_bits b i c' p' I Hi Hc' Hp') as Bi.
  pose proof (cell_is_empty c' p' Hp') as Be.
  assert (Hcap : Color_eqb cc NO_COLOR = false -> cc <> NO_COLOR /\ cp <> NO_PIECE_TYPE).
  { intros E. destruct (pieceAt_cell_value b (to m)) as [V|[V1 V2]]; rewrite Eto in *.
    - injection V as -> ->. discriminate.
    - cbn [fst snd] in *. auto. }
  assert (Hnocap : Color_eqb cc NO_COLOR = true -> Color_eqb cc c' = false).
  { intros E. apply Color_eqb_eq in E. subst cc. destruct c'; try reflexivity. congruence. }
  unfold move_piece. rewrite pieces_put_piece by assumption.
  rewrite cell_is_pair in *.
  destruct (Color_eqb cc NO_COLOR) eqn:Ecc; cbn [negb].
  - rewrite (Hnocap eq_refl) in Bt. cbn [andb] in Bt.
    rewrite pieces_remove_piece by assumption.
    destruct (Color_eqb c c' && PieceType_eqb p p') eqn:Hs;
      rewrite ?Z.lor_spec, ?Z.land_spec, ?not64_bits, ?(bit_bits_real _ i Hf),
        ?(bit_bits_real _ i Ht);
      destruct (Z.eqb_spec i (to m)) as [->|N1];
      try (destruct (Z.eqb_spec (to m) (from m)) as [E|_]; [congruence|]);
      try (destruct (Z.eqb_spec i (from m)) as [->|N2]);
      rewrite ?cell_is_pair, ?Hs, ?Bt, ?Bf, ?Be, ?Bi;
      destruct Hi as [I0 I1];
      try replace (0 <=? i) with true by (symmetry; apply Z.leb_le; lia);
      try replace (i <? 64) with true by (symmetry; apply Z.ltb_lt; lia);
      destruct Hf as [F0 F1];
      try replace (0 <=? from m) with true by (symmetry; apply Z.leb_le; lia);
      try replace (from m <? 64) with true by (symmetry; apply Z.ltb_lt; lia);
      cbn [andb orb negb]; rewrite ?orb_true_r, ?orb_false_r, ?andb_true_r, ?andb_false_r;
      reflexivity.
  - destruct (Hcap eq_refl) as [Vc Vp].
    rewrite !pieces_remove_piece by assumption.
    destruct (Color_eqb c c' && PieceType_eqb p p') eqn:Hs;
      destruct (Color_eqb cc c' && PieceType_eqb cp p') eqn:Hcp;
      rewrite ?Z.lor_spec, ?Z.land_spec, ?not64_bits, ?(bit_bits_real _ i Hf),
        ?(bit_bits_real _ i Ht);
      destruct (Z.eqb_spec i (to m)) as [->|N1];
      try (destruct (Z.eqb_spec (to m) (from m)) as [E|_]; [congruence|]);
      try (destruct (Z.eqb_spec i (from m)) as [->|N2]);
      rewrite ?cell_is_pair, ?Hs, ?Hcp, ?Bt, ?Bf, ?Be, ?Bi;
      destruct Hi as [I0 I1];
      try replace (0 <=? i) with true by (symmetry; apply Z.leb_le; lia);
      try replace (i <? 64) with true by (symmetry; apply Z.ltb_lt; lia);
      destruct Hf as [F0 F1]; destruct Ht as [T0 T1];
      try replace (0 <=? from m) with true by (symmetry; apply Z.leb_le; lia);
      try replace (from m <? 64) with true by (symmetry; apply Z.ltb_lt; lia);
      try replace (0 <=? to m) with true by (symmetry; apply Z.leb_le; lia);
      try replace (to m <? 64) with true by (symmetry; apply Z.ltb_lt; lia);
      cbn [andb orb negb]; rewrite ?orb_true_r, ?orb_false_r, ?andb_true_r, ?andb_false_r;
      reflexivity.
Qed.

(** A plain move accepted on a position that satisfies the bitboard
    invariants relocates exactly one piece: afterwards the target square
    holds the piece that stood on the source square (whatever stood on
    the target is gone), the source square is empty, every other square
    is as before, and the invariants hold again. *)
Theorem makeMove_plain_move_effect (b b' : Board) (m : Move) :
  position_invariant b = true ->
  structurally_valid m -> from m <> to m ->
  plain_move b m = true ->
  makeMove b m = (true, b') ->
  position_invariant b' = true
  /\ forall sq, real_square sq ->
       pieceAt b' sq
       = if sq =? to m then pieceAt b (from m)
         else if sq =? from m then (NO_PIECE_TYPE, NO_COLOR)
         else pieceAt b sq.
Proof.
  intros Hinv [Hf Ht] Hne Hplain Hmove.
  pose proof (position_invariant_facts b Hinv) as I.
  destruct (makeMove_cases b m) as [E|(b1 & Hd & _ & [[_ E]|[_ E]])];
    rewrite E in Hmove; try discriminate; injection Hmove as <-.
  destruct (pieceAt b (from m)) as [p c] eqn:Efrom.
  destruct (pieceAt b (to m)) as [cp cc] eqn:Eto.
  cbn [fst snd] in *.
  assert (Hp : p <> NO_PIECE_TYPE).
  { intros ->. unfold plain_move in Hplain. rewrite Efrom in Hplain. discriminate. }
  assert (Hc : c <> NO_COLOR).
  { destruct (pieceAt_cell_value b (from m)) as [V|[_ V]]; rewrite Efrom in V.
    - injection V as -> ->. congruence.
    - exact V. }
  pose proof (dispatch_plain _ _ _ _ _ _ _ _ Hplain Efrom Hd) as Hsame.
  set (b' := update_game_state (updateCombinedBitboards b1) p
               (negb (Color_eqb cc NO_COLOR))).
  set (X := fun i : Square =>
              if i =? to m then (p, c)
              else if i =? from m then (NO_PIECE_TYPE, NO_COLOR)
              else pieceAt b i).
  assert (Hcell : forall i c' p', real_square i -> c' <> NO_COLOR -> p' <> NO_PIECE_TYPE ->
            Z.testbit (_pieces b' c' p') i = cell_is (X i) c' p').
  { intros i c' p' Hi Hc' Hp'. unfold b'.
    rewrite update_game_state_pieces, updateCombinedBitboards_pieces, Hsame.
    apply move_piece_cells; assumption. }
  assert (Hrange : pieces_in_range b').
  { apply range_update_game_state, range_updateCombinedBitboards.
    apply (dispatch_range _ _ _ _ _ _ _ _ (I_range b I) Hd). }
  assert (Hcons : combined_consistent b')
    by apply update_game_state_consistent, updateCombinedBitboards_consistent.
  pose proof (Invariant_of_cells b' X Hrange Hcons
                (fun i c' p' Hi Hc' Hp' => Hcell i c' p' Hi Hc' Hp')) as I'.
  split; [apply Invariant_position_invariant, I'|].
  intros sq Hsq.
  change (pieceAt b' sq = X sq).
  apply pieceAt_of_cells; [exact I' | exact Hsq | | intros c' p' Hc' Hp'; apply Hcell; assumption].
  unfold X.
  destruct (sq =? to m); [right; cbn [fst snd]; split; assumption|].
  destruct (sq =? from m); [left; reflexivity | apply pieceAt_cell_value].
Qed.

Lemma makeMove_plain_move_effect_witness :
  position_invariant (snd (makeMove Board_new (mkMove G1 21 NO_PIECE_TYPE))) = true.
Proof.
  apply (makeMove_plain_move_effect Board_new _ (mkMove G1 21 NO_PIECE_TYPE)).
  - vm_compute. reflexivity.
  - unfold structurally_valid, real_square, G1. cbn [from to]. lia.
  - unfold G1. cbn [from to]. lia.
  - vm_compute. reflexivity.
  - vm_compute. reflexivity.
Defined.

(** ** board.cpp: UCI text, from the text to the move and back *)

Lemma char_of_code c : char_of (code c) = c.
Proof.
  unfold char_of, code.
  assert (H : (N_of_ascii c < 256)%N) by apply N_ascii_bounded.
  rewrite Z.mod_small by lia.
  rewrite N2Z.id. apply ascii_N_embedding.
Qed.

Lemma code_range c : 0 <= code c < 256.
Proof.
  unfold code. pose proof (N_ascii_bounded c). lia.
Qed.

(** The shape of every result of [fromUci]. *)
Lemma fromUci_shape s :
  fromUci s = Move_invalid
  \/ exists c0 c1 c2 c3 suffix p,
       s = String c0 (String c1 (String c2 (String c3 suffix)))
       /\ 0 <= code c0 - code "a" <= 7 /\ 0 <= code c1 - code "1" <= 7
       /\ 0 <= code c2 - code "a" <= 7 /\ 0 <= code c3 - code "1" <= 7
       /\ ((suffix = EmptyString /\ p = NO_PIECE_TYPE)
           \/ (suffix = "q"%string /\ p = QUEEN) \/ (suffix = "r"%string /\ p = ROOK)
           \/ (suffix = "b"%string /\ p = BISHOP) \/ (suffix = "n"%string /\ p = KNIGHT))
       /\ fromUci s
          = mkMove (BitboardUtils.squareFromRankFile (code c1 - code "1") (code c0 - code "a"))
                   (BitboardUtils.squareFromRankFile (code c3 - code "1") (code c2 - code "a"))
                   p.
Proof.
  destruct s as [|c0 [|c1 [|c2 [|c3 suffix]]]]; try (left; reflexivity).
  destruct suffix as [|c4 [|c5 rest]]; unfold fromUci, char_at;
    cbn [String.get String.length].
  - change (Z.of_nat 4) with 4.
    change ((4 <? 4) || (4 >? 5)) with false. change (4 =? 5) with false. cbv iota.
    unfold FILE_A, FILE_H, RANK_1, RANK_8.
    destruct (Z.ltb_spec (code c0 - code "a") 0); [left; reflexivity|].
    destruct (Z.gtb_spec (code c0 - code "a") 7); [left; reflexivity|].
    destruct (Z.ltb_spec (code c1 - code "1") 0); [left; reflexivity|].
    destruct (Z.gtb_spec (code c1 - code "1") 7); [left; reflexivity|].
    destruct (Z.ltb_spec (code c2 - code "a") 0); [left; reflexivity|].
    destruct (Z.gtb_spec (code c2 - code "a") 7); [left; reflexivity|].
    destruct (Z.ltb_spec (code c3 - code "1") 0); [left; reflexivity|].
    destruct (Z.gtb_spec (code c3 - code "1") 7); [left; reflexivity|].
    right. exists c0, c1, c2, c3, EmptyString, NO_PIECE_TYPE.
    repeat split; try lia. left. split; reflexivity.
  - change (Z.of_nat 5) with 5.
    change ((5 <? 4) || (5 >? 5)) with false. change (5 =? 5) with true. cbv iota.
    unfold FILE_A, FILE_H, RANK_1, RANK_8.
    destruct (Z.ltb_spec (code c0 - code "a") 0); [left; reflexivity|].
    destruct (Z.gtb_spec (code c0 - code "a") 7); [left; reflexivity|].
    destruct (Z.ltb_spec (code c1 - code "1") 0); [left; reflexivity|].
    destruct (Z.gtb_spec (code c1 - code "1") 7); [left; reflexivity|].
    destruct (Z.ltb_spec (code c2 - code "a") 0); [left; reflexivity|].
    destruct (Z.gtb_spec (code c2 - code "a") 7); [left; reflexivity|].
    destruct (Z.ltb_spec (code c3 - code "1") 0); [left; reflexivity|].
    destruct (Z.gtb_spec (code c3 - code "1") 7); [left; reflexivity|].
    cbn [orb].
    destruct (Ascii.eqb_spec c4 "q") as [->|_].
    { right. exists c0, c1, c2, c3, "q"%string, QUEEN. repeat split; try lia.
      right; left; split; reflexivity. }
    destruct (Ascii.eqb_spec c4 "r") as [->|_].
    { right. exists c0, c1, c2, c3, "r"%string, ROOK. repeat split; try lia.
      right; right; left; split; reflexivity. }
    destruct (Ascii.eqb_spec c4 "b") as [->|_].
    { right. exists c0, c1, c2, c3, "b"%string, BISHOP. repeat split; try lia.
      right; right; right; left; split; reflexivity. }
    destruct (Ascii.eqb_spec c4 "n") as [->|_].
    { right. exists c0, c1, c2, c3, "n"%string, KNIGHT. repeat split; try lia.
      right; right; right; right; split; reflexivity. }
    left. reflexivity.
  - left.
    replace (Z.of_nat (S (S (S (S (S (S (String.length rest))))))) >? 5) with true
      by (symmetry; rewrite Z.gtb_ltb; apply Z.ltb_lt; lia).
    rewrite orb_true_r. reflexivity.
Qed.

(** [fromUci] followed by [toUci] gives back the text: a text that
    [fromUci] reads as a valid move is the text [toUci] writes for that
    move. A result of [fromUci] is the invalid move or a move with two real
    squares and a promotion that is none, queen, rook, bishop or knight;
    the invalid move is written "0000", which is read back as the invalid
    move. *)
Theorem fromUci_then_toUci (s : string) :
  isValid (fromUci s) = true ->
  toUci (fromUci s) = s
  /\ structurally_valid (fromUci s)
  /\ promotion (fromUci s) <> PAWN /\ promotion (fromUci s) <> KING
  /\ toUci Move_invalid = "0000"%string
  /\ fromUci "0000" = Move_invalid.
Proof.
  intros Hv.
  destruct (fromUci_shape s) as [E|(c0 & c1 & c2 & c3 & suffix & p & -> & H0 & H1 & H2 & H3 & Hp & E)].
  { rewrite E in Hv. discriminate. }
  rewrite E.
  destruct (coordinates_of_square _ _ H1 H0) as (Rf & Ef1 & Ef2).
  destruct (coordinates_of_square _ _ H3 H2) as (Rt & Et1 & Et2).
  assert (Hsv : structurally_valid
                  (mkMove (BitboardUtils.squareFromRankFile (code c1 - code "1") (code c0 - code "a"))
                          (BitboardUtils.squareFromRankFile (code c3 - code "1") (code c2 - code "a"))
                          p)) by (split; assumption).
  split; [|split; [exact Hsv|]].
  - unfold toUci. rewrite (isValid_real _ Hsv). cbn [negb from to promotion].
    rewrite Ef1, Ef2, Et1, Et2.
    replace (code "a" + (code c0 - code "a")) with (code c0) by lia.
    replace (code "1" + (code c1 - code "1")) with (code c1) by lia.
    replace (code "a" + (code c2 - code "a")) with (code c2) by lia.
    replace (code "1" + (code c3 - code "1")) with (code c3) by lia.
    rewrite !char_of_code. unfold push_char. cbn [append].
    destruct Hp as [[-> ->]|[[-> ->]|[[-> ->]|[[-> ->]|[-> ->]]]]]; reflexivity.
  - cbn [promotion].
    split; [|split; [|split; reflexivity]];
      destruct Hp as [[_ ->]|[[_ ->]|[[_ ->]|[[_ ->]|[_ ->]]]]]; discriminate.
Qed.

Lemma fromUci_then_toUci_witness :
  toUci (fromUci "e7e8q") = "e7e8q"%string.
Proof.
  apply (fromUci_then_toUci "e7e8q"). vm_compute. reflexivity.
Defined.

(** ** setFromFen: no trace of the position before *)

Ltac agree_solve :=
  unfold agree; cbn;
  intros (A1 & A2 & A3 & A4 & A5 & A6 & A7 & A8 & A9 & A10 & A11);
  repeat split; intros; subst; try congruence; auto.

Lemma agree_clear_bitboards b1 b2 :
  _chess960 b1 = _chess960 b2 ->
  agree false false false false false (clear_bitboards b1) (clear_bitboards b2).
Proof.
  intros H. unfold agree. cbn. repeat split; try discriminate. exact H.
Qed.

Lemma agree_put_piece s r e h f b1 b2 c p sq :
  agree s r e h f b1 b2 -> agree s r e h f (put_piece b1 c p sq) (put_piece b2 c p sq).
Proof.
  destruct b1, b2. unfold put_piece. destruct c; agree_solve.
Qed.

Lemma agree_set_sideToMove s r e h f b1 b2 c :
  agree s r e h f b1 b2 -> agree true r e h f (set_sideToMove b1 c) (set_sideToMove b2 c).
Proof. destruct b1, b2. agree_solve. Qed.

Lemma agree_set_castlingRights s r e h f b1 b2 v1 v2 :
  v1 = v2 ->
  agree s r e h f b1 b2 ->
  agree s true e h f (set_castlingRights b1 v1) (set_castlingRights b2 v2).
Proof. intros ->. destruct b1, b2. agree_solve. Qed.

Lemma agree_set_enPassantSquare s r e h f b1 b2 sq :
  agree s r e h f b1 b2 ->
  agree s r true h f (set_enPassantSquare b1 sq) (set_enPassantSquare b2 sq).
Proof. destruct b1, b2. agree_solve. Qed.

Lemma agree_set_halfmoveClock s r e h f b1 b2 n :
  agree s r e h f b1 b2 ->
  agree s r e true f (set_halfmoveClock b1 n) (set_halfmoveClock b2 n).
Proof. destruct b1, b2. agree_solve. Qed.

Lemma agree_set_fullmoveNumber s r e h f b1 b2 n :
  agree s r e h f b1 b2 ->
  agree s r e h true (set_fullmoveNumber b1 n) (set_fullmoveNumber b2 n).
Proof. destruct b1, b2. agree_solve. Qed.

Lemma agree_updateCombinedBitboards s r e h f b1 b2 :
  agree s r e h f b1 b2 ->
  agree s r e h f (updateCombinedBitboards b1) (updateCombinedBitboards b2).
Proof. destruct b1, b2. agree_solve. Qed.

Lemma agree_all b1 b2 : agree true true true true true b1 b2 -> b1 = b2.
Proof.
  intros (A1 & A2 & A3 & A4 & A5 & A6 & A7 & A8 & A9 & A10 & A11).
  apply Board_ext; auto.
Qed.

Lemma agree_rights s e h f b1 b2 :
  agree s true e h f b1 b2 -> _castlingRights b1 = _castlingRights b2.
Proof. intros (_ & _ & _ & _ & _ & _ & _ & A & _). auto. Qed.

Lemma agree_chess960 s r e h f b1 b2 :
  agree s r e h f b1 b2 -> _chess960 b1 = _chess960 b2.
Proof. intros (_ & _ & _ & _ & _ & A & _). exact A. Qed.

Lemma parse_placement_agree s r e h f cs :
  forall rank file b1 b2,
    agree s r e h f b1 b2 ->
    fst (parse_placement cs rank file b1) = fst (parse_placement cs rank file b2)
    /\ agree s r e h f (snd (parse_placement cs rank file b1))
                       (snd (parse_placement cs rank file b2)).
Proof.
  induction cs as [|c rest IH]; intros rank file b1 b2 H; [split; [reflexivity | exact H]|].
  cbn [parse_placement].
  destruct (Ascii.eqb c "/"); [apply IH, H|].
  destruct (isdigit c); [apply IH, H|].
  destruct (piece_of_char c) as [pieceType|]; [|split; [reflexivity | exact H]].
  apply IH, agree_put_piece, H.
Qed.

Lemma parse_castling_agree s e h f cs :
  forall b1 b2,
    agree s true e h f b1 b2 ->
    fst (parse_castling cs b1) = fst (parse_castling cs b2)
    /\ agree s true e h f (snd (parse_castling cs b1)) (snd (parse_castling cs b2)).
Proof.
  induction cs as [|c rest IH]; intros b1 b2 H; [split; [reflexivity | exact H]|].
  cbn [parse_castling]. pose proof (agree_rights _ _ _ _ _ _ H) as Er.
  destruct (Ascii.eqb c "K");
    [apply IH, (agree_set_castlingRights s true e h f); [rewrite Er; reflexivity | exact H]|].
  destruct (Ascii.eqb c "Q");
    [apply IH, (agree_set_castlingRights s true e h f); [rewrite Er; reflexivity | exact H]|].
  destruct (Ascii.eqb c "k");
    [apply IH, (agree_set_castlingRights s true e h f); [rewrite Er; reflexivity | exact H]|].
  destruct (Ascii.eqb c "q");
    [apply IH, (agree_set_castlingRights s true e h f); [rewrite Er; reflexivity | exact H]|].
  split; [reflexivity | exact H].
Qed.

Lemma parse_castling960_agree s e h f cs :
  forall b1 b2,
    agree s true e h f b1 b2 ->
    fst (parse_castling960 cs b1) = fst (parse_castling960 cs b2)
    /\ agree s true e h f (snd (parse_castling960 cs b1)) (snd (parse_castling960 cs b2)).
Proof.
  induction cs as [|c rest IH]; intros b1 b2 H; [split; [reflexivity | exact H]|].
  cbn [parse_castling960]. pose proof (agree_rights _ _ _ _ _ _ H) as Er.
  destruct ((code "A" <=? code c) && (code c <=? code "H"));
    [apply IH, (agree_set_castlingRights s true e h f); [rewrite Er; reflexivity | exact H]|].
  destruct ((code "a" <=? code c) && (code c <=? code "h"));
    [apply IH, (agree_set_castlingRights s true e h f); [rewrite Er; reflexivity | exact H]|].
  split; [reflexivity | exact H].
Qed.

Lemma setFromFen_agree b1 b2 fen :
  _chess960 b1 = _chess960 b2 ->
  fst (setFromFen b1 fen) = fst (setFromFen b2 fen)
  /\ (fst (setFromFen b1 fen) = true -> snd (setFromFen b1 fen) = snd (setFromFen b2 fen)).
Proof.
  intros Hflag. unfold setFromFen.
  destruct (extract fen) as [board ss1].
  destruct (extract ss1) as [activeColor ss2].
  destruct (extract ss2) as [castling ss3].
  destruct (extract ss3) as [enPassant ss4].
  destruct (extract ss4) as [halfmove ss5].
  destruct (extract ss5) as [fullmove ss6].
  destruct (empty board || empty activeColor || empty castling
            || empty enPassant || empty halfmove || empty fullmove);
    [split; [reflexivity | discriminate]|].
  destruct (parse_placement_agree false false false false false board 7 0 _ _
              (agree_clear_bitboards b1 b2 Hflag)) as [P1 P2].
  destruct (parse_placement board 7 0 (clear_bitboards b1)) as [ok1 x1].
  destruct (parse_placement board 7 0 (clear_bitboards b2)) as [ok2 x2].
  cbn [fst snd] in P1, P2. subst ok2.
  destruct ok1; [|split; [reflexivity | discriminate]].
  set (c := if string_eqb activeColor "w" then WHITE else BLACK).
  pose proof (agree_set_castlingRights _ _ _ _ _ _ _ 0 0 eq_refl
                (agree_set_sideToMove _ _ _ _ _ _ _ c P2)) as Q.
  set (y1 := set_castlingRights (set_sideToMove x1 c) 0) in *.
  set (y2 := set_castlingRights (set_sideToMove x2 c) 0) in *.
  assert (Hc : fst (if negb (string_eqb castling "-")
                    then if _chess960 y1 then parse_castling960 castling y1
                         else parse_castling castling y1
                    else (true, y1))
               = fst (if negb (string_eqb castling "-")
                      then if _chess960 y2 then parse_castling960 castling y2
                           else parse_castling castling y2
                      else (true, y2))
               /\ agree true true false false false
                    (snd (if negb (string_eqb castling "-")
                          then if _chess960 y1 then parse_castling960 castling y1
                               else parse_castling castling y1
                          else (true, y1)))
                    (snd (if negb (string_eqb castling "-")
                          then if _chess960 y2 then parse_castling960 castling y2
                               else parse_castling castling y2
                          else (true, y2)))).
  { rewrite <- (agree_chess960 _ _ _ _ _ _ _ Q).
    destruct (negb (string_eqb castling "-")); [|split; [reflexivity | exact Q]].
    destruct (_chess960 y1); [apply parse_castling960_agree | apply parse_castling_agree];
      exact Q. }
  destruct Hc as [C1 C2].
  destruct (if negb (string_eqb castling "-")
            then if _chess960 y1 then parse_castling960 castling y1
                 else parse_castling castling y1
            else (true, y1)) as [ok3 z1].
  destruct (if negb (string_eqb castling "-")
            then if _chess960 y2 then parse_castling960 castling y2
                 else parse_castling castling y2
            else (true, y2)) as [ok4 z2].
  cbn [fst snd] in C1, C2. subst ok4.
  destruct ok3; [|split; [reflexivity | discriminate]].
  destruct (stoi halfmove) as [hm|]; [|split; [reflexivity | discriminate]].
  destruct (stoi fullmove) as [fm|]; [|split; [reflexivity | discriminate]].
  cbn [fst snd]. split; [reflexivity|]. intros _.
  apply agree_all, agree_updateCombinedBitboards.
  apply (agree_set_fullmoveNumber true true true true false).
  apply (agree_set_halfmoveClock true true true false false).
  destruct (string_eqb enPassant "-");
    apply (agree_set_enPassantSquare true true false false false), C2.
Qed.

(** A successful [setFromFen] leaves no trace of the position before:
    two boards with the same Chess960 flag accept the same texts, and
    after a text they accept they are equal in every field, whatever they
    held before. *)
Theorem setFromFen_forgets_previous_position (b1 b2 : Board) (fen : string) :
  _chess960 b1 = _chess960 b2 ->
  fst (setFromFen b1 fen) = fst (setFromFen b2 fen)
  /\ (fst (setFromFen b1 fen) = true -> snd (setFromFen b1 fen) = snd (setFromFen b2 fen)).
Proof. apply setFromFen_agree. Qed.

Lemma setFromFen_forgets_previous_position_witness :
  snd (setFromFen (snd (makeMove Board_new (mkMove E2 E4 NO_PIECE_TYPE)))
         "4k3/8/8/8/8/8/8/4K3 w - - 0 1")
  = snd (setFromFen Board_new "4k3/8/8/8/8/8/8/4K3 w - - 0 1").
Proof.
  apply (setFromFen_forgets_previous_position
           (snd (makeMove Board_new (mkMove E2 E4 NO_PIECE_TYPE))) Board_new
           "4k3/8/8/8/8/8/8/4K3 w - - 0 1").
  - vm_compute. reflexivity.
  - vm_compute. reflexivity.
Defined.

(** ** setFromFen: what a call leaves on the board *)

Lemma same_pieces_parse_placement cs :
  forall rank file b1 b2,
    same_pieces b1 b2 ->
    same_pieces (snd (parse_placement cs rank file b1))
                (snd (parse_placement cs rank file b2)).
Proof.
  induction cs as [|c rest IH]; intros rank file b1 b2 H; [exact H|].
  cbn [parse_placement].
  destruct (Ascii.eqb c "/"); [apply IH, H|].
  destruct (isdigit c); [apply IH, H|].
  destruct (piece_of_char c) as [pieceType|]; [|exact H].
  apply IH, same_pieces_put_piece, H.
Qed.

(** The castling loops write the castling rights and nothing else. *)
Lemma parse_castling_writes_rights cs :
  forall b, exists r, snd (parse_castling cs b) = set_castlingRights b r.
Proof.
  induction cs as [|c rest IH]; intros b;
    [exists (_castlingRights b); destruct b; reflexivity|].
  cbn [parse_castling].
  destruct (Ascii.eqb c "K");
    [destruct (IH (set_castlingRights b (Z.lor (_castlingRights b) WHITE_OO))) as [r E];
     exists r; rewrite E; reflexivity|].
  destruct (Ascii.eqb c "Q");
    [destruct (IH (set_castlingRights b (Z.lor (_castlingRights b) WHITE_OOO))) as [r E];
     exists r; rewrite E; reflexivity|].
  destruct (Ascii.eqb c "k");
    [destruct (IH (set_castlingRights b (Z.lor (_castlingRights b) BLACK_OO))) as [r E];
     exists r; rewrite E; reflexivity|].
  destruct (Ascii.eqb c "q");
    [destruct (IH (set_castlingRights b (Z.lor (_castlingRights b) BLACK_OOO))) as [r E];
     exists r; rewrite E; reflexivity|].
  exists (_castlingRights b). destruct b. reflexivity.
Qed.

Lemma parse_castling960_writes_rights cs :
  forall b, exists r, snd (parse_castling960 cs b) = set_castlingRights b r.
Proof.
  induction cs as [|c rest IH]; intros b;
    [exists (_castlingRights b); destruct b; reflexivity|].
  cbn [parse_castling960].
  destruct ((code "A" <=? code c) && (code c <=? code "H"));
    [destruct (IH (set_castlingRights b (Z.lor (_castlingRights b) NO_CASTLING))) as [r E];
     exists r; rewrite E; reflexivity|].
  destruct ((code "a" <=? code c) && (code c <=? code "h"));
    [destruct (IH (set_castlingRights b (Z.lor (_castlingRights b) NO_CASTLING))) as [r E];
     exists r; rewrite E; reflexivity|].
  exists (_castlingRights b). destruct b. reflexivity.
Qed.

Lemma castling_field_writes_rights castling b :
  exists ok r,
    (if negb (string_eqb castling "-")
     then if _chess960 b then parse_castling960 castling b
          else parse_castling castling b
     else (true, b)) = (ok, set_castlingRights b r).
Proof.
  destruct (negb (string_eqb castling "-")).
  - destruct (_chess960 b).
    + destruct (parse_castling960_writes_rights castling b) as [r E].
      exists (fst (parse_castling960 castling b)), r. rewrite <- E.
      destruct (parse_castling960 castling b). reflexivity.
    + destruct (parse_castling_writes_rights castling b) as [r E].
      exists (fst (parse_castling castling b)), r. rewrite <- E.
      destruct (parse_castling castling b). reflexivity.
  - exists true, (_castlingRights b). destruct b. reflexivity.
Qed.

(** The piece bitboards after a call, and the side to move and the en
    passant square after a successful one. *)
Lemma setFromFen_effect (b : Board) (fen : string) :
  same_pieces (snd (setFromFen b fen)) (parsed_placement fen)
  /\ (fst (setFromFen b fen) = true ->
      _sideToMove (snd (setFromFen b fen))
      = (if string_eqb (fen_field 1 fen) "w" then WHITE else BLACK)
      /\ _enPassantSquare (snd (setFromFen b fen))
         = (if string_eqb (fen_field 3 fen) "-" then NO_SQUARE
            else BitboardUtils.squareFromRankFile
                   (code (char_at (fen_field 3 fen) 1) - code "1")
                   (code (char_at (fen_field 3 fen) 0) - code "a"))).
Proof.
  unfold parsed_placement, fen_field, setFromFen. cbn [existsb Nat.iter nat_rect].
  destruct (extract fen) as [board ss1]. cbn [fst snd].
  destruct (extract ss1) as [activeColor ss2]. cbn [fst snd].
  destruct (extract ss2) as [castling ss3]. cbn [fst snd].
  destruct (extract ss3) as [enPassant ss4]. cbn [fst snd].
  destruct (extract ss4) as [halfmove ss5]. cbn [fst snd].
  destruct (extract ss5) as [fullmove ss6]. cbn [fst snd].
  assert (Hclear : same_pieces (clear_bitboards b) (clear_bitboards Board_new))
    by (intros c p; destruct c; reflexivity).
  destruct (empty board); cbn [orb fst snd]; [split; [exact Hclear | discriminate]|].
  destruct (empty activeColor); cbn [orb fst snd]; [split; [exact Hclear | discriminate]|].
  destruct (empty castling); cbn [orb fst snd]; [split; [exact Hclear | discriminate]|].
  destruct (empty enPassant); cbn [orb fst snd]; [split; [exact Hclear | discriminate]|].
  destruct (empty halfmove); cbn [orb fst snd]; [split; [exact Hclear | discriminate]|].
  destruct (empty fullmove); cbn [orb fst snd]; [split; [exact Hclear | discriminate]|].
  pose proof (same_pieces_parse_placement board 7 0 _ _ Hclear) as SP.
  destruct (parse_placement board 7 0 (clear_bitboards b)) as [ok1 b1].
  cbn [snd] in SP.
  destruct ok1; [|cbn [fst snd]; split; [exact SP | discriminate]].
  destruct (castling_field_writes_rights castling
              (set_castlingRights
                 (set_sideToMove b1 (if string_eqb activeColor "w" then WHITE else BLACK)) 0))
    as (ok3 & r & E3).
  rewrite E3.
  destruct ok3;
    [|cbn [fst snd]; split; [intros c p; rewrite <- SP; destruct c; reflexivity
                            | discriminate]].
  destruct (stoi halfmove) as [h|];
    [|cbn [fst snd]; split;
      [intros c p; rewrite <- SP; destruct (string_eqb enPassant "-"), c; reflexivity
      | discriminate]].
  destruct (stoi fullmove) as [f|];
    [|cbn [fst snd]; split;
      [intros c p; rewrite <- SP; destruct (string_eqb enPassant "-"), c; reflexivity
      | discriminate]].
  cbn [fst snd]. split.
  - intros c p. rewrite <- SP. destruct (string_eqb enPassant "-"), c; reflexivity.
  - intros _. destruct (string_eqb enPassant "-"); split; reflexivity.
Qed.

(** C3, as the code has it: [setFromFen] returns failure exactly on the
    inputs of [fen_rejected] (a missing field, a placement character that
    is no slash, digit or piece letter, a castling field other than "-"
    with a character outside the accepted letters, a clock field that
    [std::stoi] rejects).  The active-color and en passant fields never
    cause a failure: on success every active-color token other than "w"
    gives Black to move, and the en passant square is computed from the
    first two characters of its field, whatever they are.  The bitboards
    are cleared before anything is parsed and the derived bitboards are
    recomputed only on success: after every call the piece bitboards
    hold exactly what the placement loop placed before the function
    returned, nothing of the position before, and after a failure
    [all_pieces] and [occupied] are empty, so a position with an occupied
    square is never left as it was. *)
Theorem setFromFen_failure (b : Board) (fen : string) :
  (fst (setFromFen b fen) = false <-> fen_rejected b fen = true)
  /\ (fst (setFromFen b fen) = true ->
      _sideToMove (snd (setFromFen b fen))
      = (if string_eqb (fen_field 1 fen) "w" then WHITE else BLACK)
      /\ _enPassantSquare (snd (setFromFen b fen))
         = (if string_eqb (fen_field 3 fen) "-" then NO_SQUARE
            else BitboardUtils.squareFromRankFile
                   (code (char_at (fen_field 3 fen) 1) - code "1")
                   (code (char_at (fen_field 3 fen) 0) - code "a")))
  /\ (forall c p,
        _pieces (snd (setFromFen b fen)) c p = _pieces (parsed_placement fen) c p)
  /\ (fst (setFromFen b fen) = false ->
      _occupiedSquares (snd (setFromFen b fen)) = 0
      /\ _allPiecesWhite (snd (setFromFen b fen)) = 0
      /\ _allPiecesBlack (snd (setFromFen b fen)) = 0
      /\ (_occupiedSquares b <> 0 -> snd (setFromFen b fen) <> b)).
Proof.
  destruct (setFromFen_fails_iff b fen) as [Hiff Hzero].
  destruct (setFromFen_effect b fen) as [Hpieces Hstate].
  split; [exact Hiff|]. split; [exact Hstate|]. split; [exact Hpieces|].
  intros Hfail.
  destruct Hzero as [Hok|(Z1 & Z2 & Z3)]; [rewrite Hok in Hfail; discriminate|].
  split; [exact Z1|]. split; [exact Z2|]. split; [exact Z3|].
  intros Hocc E. rewrite E in Z1. contradiction.
Qed.

(** ** board.cpp: reset *)

(** [reset] puts the standard starting position on any board: the
    result satisfies the bitboard invariants and the castling-rights
    invariant, has one king on each side, reads "rnbqkbnr/pppppppp/8/8/8/8/
    PPPPPPPP/RNBQKBNR w KQkq - 0 1" as FEN, keeps the Chess960 flag and
    nothing else of the board before, and is not changed by a second
    [reset]. *)
Theorem reset_gives_the_starting_position (b b2 : Board) :
  position_invariant (reset b) = true
  /\ castling_invariant (reset b) = true
  /\ one_king_each (reset b) = true
  /\ getFen (reset b) = "rnbqkbnr/pppppppp/8/8/8/8/PPPPPPPP/RNBQKBNR w KQkq - 0 1"%string
  /\ _chess960 (reset b) = _chess960 b
  /\ reset (reset b) = reset b
  /\ (_chess960 b2 = _chess960 b -> reset b2 = reset b).
Proof.
  destruct b as [pw pb aw ab occ side rights ep hm fm flag].
  split; [destruct flag; vm_compute; reflexivity|].
  split; [destruct flag; vm_compute; reflexivity|].
  split; [destruct flag; vm_compute; reflexivity|].
  split; [destruct flag; vm_compute; reflexivity|].
  split; [reflexivity|].
  split; [reflexivity|].
  destruct b2. simpl. intros ->. reflexivity.
Qed.

(** ** movegen.cpp: the pseudo-legal moves *)

Lemma fold_append {A B : Type} (g : B -> list A) l :
  forall acc, fold_left (fun acc x => acc ++ g x) l acc = acc ++ flat_map g l.
Proof.
  induction l as [|x l IH]; intros acc; cbn [fold_left flat_map].
  - now rewrite app_nil_r.
  - rewrite IH, app_assoc. reflexivity.
Qed.

Lemma fold_left_ext_body {A B : Type} (f g : A -> B -> A) l :
  (forall a x, f a x = g a x) -> forall acc, fold_left f l acc = fold_left g l acc.
Proof.
  intros H. induction l as [|x l IH]; intros acc; cbn [fold_left]; [reflexivity|].
  rewrite H. apply IH.
Qed.

(** A loop over a board whose body only appends moves appends the moves
    of each square of the board. *)
Lemma for_each_bit_append (body : Square -> list Move -> list Move)
    (g : Square -> list Move) bb moves :
  (forall f moves, body f moves = moves ++ g f) ->
  in_u64 bb ->
  for_each_bit 64 bb body moves
  = moves ++ flat_map g (filter (Z.testbit bb) all_squares).
Proof.
  intros H Hbb.
  rewrite (for_each_bit_squares body 64 bb moves Hbb (bits_le_64 bb)).
  rewrite (fold_left_ext_body _ (fun acc x => acc ++ g x)) by (intros; apply H).
  apply fold_append.
Qed.

Lemma for_each_bit_In (body : Square -> list Move -> list Move)
    (g : Square -> list Move) bb moves m :
  (forall f moves, body f moves = moves ++ g f) ->
  in_u64 bb ->
  (In m (for_each_bit 64 bb body moves)
   <-> In m moves
       \/ exists f, real_square f /\ Z.testbit bb f = true /\ In m (g f)).
Proof.
  intros H Hbb. rewrite (for_each_bit_append body g bb moves H Hbb).
  rewrite in_app_iff, in_flat_map. apply or_iff_compat_l. split.
  - intros (f & Hin & Hm). apply filter_In in Hin. destruct Hin as [Hin Hb].
    exists f. split; [apply in_all_squares, Hin | auto].
  - intros (f & Hf & Hb & Hm). exists f. split; [|exact Hm].
    apply filter_In. split; [apply real_square_in, Hf | exact Hb].
Qed.

Lemma flat_map_singleton {A B : Type} (h : A -> B) l :
  flat_map (fun x => [h x]) l = map h l.
Proof. induction l as [|x l IH]; cbn [flat_map map app]; [reflexivity | now rewrite IH]. Qed.

Lemma emplace_targets_eq moves f targets :
  in_u64 targets -> emplace_targets moves f targets = moves ++ target_moves f targets.
Proof.
  intros Ht. unfold emplace_targets, target_moves.
  rewrite (for_each_bit_append _ (fun t => [mkMove f t NO_PIECE_TYPE]) targets moves)
    by (intros; reflexivity || exact Ht).
  rewrite flat_map_singleton. reflexivity.
Qed.

Lemma In_target_moves m f att ours :
  in_u64 att ->
  In m (target_moves f (Z.land att (not64 ours)))
  <-> from m = f /\ real_square (to m) /\ Z.testbit att (to m) = true
      /\ Z.testbit ours (to m) = false /\ promotion m = NO_PIECE_TYPE.
Proof.
  intros Ha. unfold target_moves. rewrite in_map_iff. split.
  - intros (t & <- & Hin). apply filter_In in Hin. destruct Hin as [Hin Hb].
    apply in_all_squares in Hin. cbn [from to promotion].
    rewrite Z.land_spec, not64_bits in Hb.
    destruct Hin as [T0 T1].
    replace (0 <=? t) with true in Hb by (symmetry; apply Z.leb_le; lia).
    replace (t <? 64) with true in Hb by (symmetry; apply Z.ltb_lt; lia).
    rewrite !andb_true_r in Hb. apply andb_true_iff in Hb. destruct Hb as [H1 H2].
    apply negb_true_iff in H2. repeat split; try assumption; lia.
  - intros (Ef & Ht & Hb & Ho & Ep). exists (to m).
    split; [destruct m as [mf mt mp]; cbn [from to promotion] in *; congruence|].
    apply filter_In. split; [apply real_square_in, Ht|].
    rewrite Z.land_spec, not64_bits, Hb, Ho. destruct Ht as [T0 T1].
    replace (0 <=? to m) with true by (symmetry; apply Z.leb_le; lia).
    replace (to m <? 64) with true by (symmetry; apply Z.ltb_lt; lia).
    reflexivity.
Qed.

Lemma emplace_promotions_eq moves f t :
  emplace_promotions moves f t
  = moves ++ [mkMove f t QUEEN; mkMove f t ROOK; mkMove f t BISHOP; mkMove f t KNIGHT].
Proof.
  unfold emplace_promotions, emplace_back. rewrite <- !app_assoc. reflexivity.
Qed.

(** [pawn_moves] and [castling_moves] only append to the list they are
    given. *)
Lemma pawn_moves_append b us occ f moves :
  pawn_moves b us occ f moves = moves ++ pawn_moves b us occ f [].
Proof.
  unfold pawn_moves. cbv zeta.
  set (captures := Z.land (AttackTables.PAWN_ATTACKS us f)
                     (_allPieces b (Color_of_int (1 - Color_to_int us)))).
  assert (Hc : in_u64 captures) by apply land_range, PAWN_ATTACKS_range.
  set (body := fun (t : Square) (moves : list Move) =>
         if (Color_eqb us WHITE && (BitboardUtils.squareRank t =? RANK_8))
            || (Color_eqb us BLACK && (BitboardUtils.squareRank t =? RANK_1))
         then emplace_promotions moves f t
         else emplace_back moves f t NO_PIECE_TYPE).
  set (g := fun (t : Square) =>
         if (Color_eqb us WHITE && (BitboardUtils.squareRank t =? RANK_8))
            || (Color_eqb us BLACK && (BitboardUtils.squareRank t =? RANK_1))
         then [mkMove f t QUEEN; mkMove f t ROOK; mkMove f t BISHOP; mkMove f t KNIGHT]
         else [mkMove f t NO_PIECE_TYPE]).
  assert (Hbody : forall t moves, body t moves = moves ++ g t).
  { intros t mv. unfold body, g.
    destruct (_ || _); [apply emplace_promotions_eq | reflexivity]. }
  rewrite !(fun mv => for_each_bit_append body g captures mv Hbody Hc).
  rewrite !emplace_promotions_eq. unfold emplace_back.
  repeat match goal with
         | |- context [if ?c then _ else _] => destruct c
         end;
    rewrite ?app_nil_l, <- ?app_assoc; reflexivity.
Qed.

Lemma castling_moves_append b us occ moves :
  castling_moves b us occ moves = moves ++ castling_moves b us occ [].
Proof.
  unfold castling_moves, emplace_back. cbv zeta beta.
  repeat match goal with
         | |- context [if ?c then _ else _] => destruct c
         end;
    rewrite ?app_nil_l, ?app_nil_r, <- ?app_assoc; reflexivity.
Qed.

Lemma In_piece_targets b m p f :
  p <> PAWN -> p <> NO_PIECE_TYPE ->
  In m (target_moves f
          (Z.land (getPieceAttacks p f (_sideToMove b) (_occupiedSquares b))
                  (not64 (_allPieces b (_sideToMove b)))))
  <-> from m = f /\ real_square (to m)
      /\ Z.testbit (getPieceAttacks p f (_sideToMove b) (_occupiedSquares b)) (to m) = true
      /\ Z.testbit (_allPieces b (_sideToMove b)) (to m) = false
      /\ promotion m = NO_PIECE_TYPE.
Proof. intros _ _. apply In_target_moves, getPieceAttacks_range. Qed.

Lemma piece_loop_In b m p moves :
  pieces_in_range b -> p <> PAWN -> p <> NO_PIECE_TYPE ->
  In m (for_each_bit 64 (_pieces b (_sideToMove b) p)
          (fun f moves =>
             emplace_targets moves f
               (Z.land (getPieceAttacks p f (_sideToMove b) (_occupiedSquares b))
                       (not64 (_allPieces b (_sideToMove b)))))
          moves)
  <-> In m moves
      \/ (real_square (from m) /\ real_square (to m)
          /\ Z.testbit (_pieces b (_sideToMove b) p) (from m) = true
          /\ Z.testbit (getPieceAttacks p (from m) (_sideToMove b) (_occupiedSquares b)) (to m)
             = true
          /\ Z.testbit (_allPieces b (_sideToMove b)) (to m) = false
          /\ promotion m = NO_PIECE_TYPE).
Proof.
  intros Hr Hp Hn.
  rewrite (for_each_bit_In _
             (fun f => target_moves f
                         (Z.land (getPieceAttacks p f (_sideToMove b) (_occupiedSquares b))
                                 (not64 (_allPieces b (_sideToMove b))))));
    [| intros f mv; apply emplace_targets_eq, land_range, getPieceAttacks_range | apply Hr].
  apply or_iff_compat_l. split.
  - intros (f & Hf & Hb & Hin). apply In_piece_targets in Hin; try assumption.
    destruct Hin as (<- & Ht & Ha & Ho & Epr). tauto.
  - intros (Hf & Ht & Hb & Ha & Ho & Epr). exists (from m).
    split; [exact Hf|]. split; [exact Hb|].
    apply In_piece_targets; try assumption. tauto.
Qed.

(** The pseudo-legal moves: a move is generated exactly when it is a move
    the pawn code generates from the square of a pawn of the side to move,
    or a move of a knight, bishop, rook, queen or king of that side to a
    square of its attack set not held by a piece of that side, or a
    castling move the castling code generates while that side has a king.
    (Piece bitboards are 64-bit words; at most one king of the side to
    move.) *)
Theorem pseudo_legal_moves_characterised (b : Board) (m : Move) :
  pieces_in_range b ->
  (bits (_pieces b (_sideToMove b) KING) <= 1)%nat ->
  In m (generatePseudoLegalMoves b)
  <-> (exists f, real_square f
                 /\ Z.testbit (_pieces b (_sideToMove b) PAWN) f = true
                 /\ In m (pawn_moves b (_sideToMove b) (_occupiedSquares b) f []))
      \/ piece_move b m
      \/ (_pieces b (_sideToMove b) KING <> 0
          /\ In m (castling_moves b (_sideToMove b) (_occupiedSquares b) [])).
Proof.
  intros Hr Hone. unfold generatePseudoLegalMoves. cbv zeta.
  set (us := _sideToMove b) in *. set (occ := _occupiedSquares b).
  set (ours := _allPieces b us).
  set (pawns := for_each_bit 64 (_pieces b us PAWN) (pawn_moves b us occ) []).
  assert (Hpawns : forall x, In x pawns
            <-> exists f, real_square f /\ Z.testbit (_pieces b us PAWN) f = true
                          /\ In x (pawn_moves b us occ f [])).
  { intros x. unfold pawns.
    rewrite (for_each_bit_In _ (fun f => pawn_moves b us occ f []));
      [| intros f mv; apply pawn_moves_append | apply Hr].
    cbn [In]. tauto. }
  change (fun f moves => emplace_targets moves f (Z.land (AttackTables.KNIGHT_ATTACKS f) (not64 ours)))
    with (fun f moves => emplace_targets moves f
            (Z.land (getPieceAttacks KNIGHT f us occ) (not64 ours))).
  change (fun f moves => emplace_targets moves f (Z.land (generateBishopAttacks f occ) (not64 ours)))
    with (fun f moves => emplace_targets moves f
            (Z.land (getPieceAttacks BISHOP f us occ) (not64 ours))).
  change (fun f moves => emplace_targets moves f (Z.land (generateRookAttacks f occ) (not64 ours)))
    with (fun f moves => emplace_targets moves f
            (Z.land (getPieceAttacks ROOK f us occ) (not64 ours))).
  change (fun f moves => emplace_targets moves f
            (Z.land (Z.lor (generateBishopAttacks f occ) (generateRookAttacks f occ)) (not64 ours)))
    with (fun f moves => emplace_targets moves f
            (Z.land (getPieceAttacks QUEEN f us occ) (not64 ours))).
  set (lower :=
    for_each_bit 64 (_pieces b us QUEEN) _
      (for_each_bit 64 (_pieces b us ROOK) _
         (for_each_bit 64 (_pieces b us BISHOP) _
            (for_each_bit 64 (_pieces b us KNIGHT) _ pawns)))).
  assert (Hlower : In m lower
            <-> In m pawns
                \/ exists p, (p = KNIGHT \/ p = BISHOP \/ p = ROOK \/ p = QUEEN)
                     /\ real_square (from m) /\ real_square (to m)
                     /\ Z.testbit (_pieces b us p) (from m) = true
                     /\ Z.testbit (getPieceAttacks p (from m) us occ) (to m) = true
                     /\ Z.testbit ours (to m) = false
                     /\ promotion m = NO_PIECE_TYPE).
  { unfold lower, ours, occ, us.
    rewrite !piece_loop_In by (assumption || discriminate).
    split.
    - intros [[[[H|H]|H]|H]|H]; [left; exact H | | | |]; right;
        [exists KNIGHT | exists BISHOP | exists ROOK | exists QUEEN]; tauto.
    - intros [H|(p & [->|[->|[->| ->]]] & H)]; tauto. }
  destruct (nz (_pieces b us KING)) eqn:Ek.
  - apply nz_true in Ek.
    rewrite castling_moves_append, in_app_iff.
    rewrite emplace_targets_eq by apply land_range, KING_ATTACKS_range.
    rewrite in_app_iff, Hlower, Hpawns.
    change (AttackTables.KING_ATTACKS (BitboardUtils.lsb (_pieces b us KING)))
      with (getPieceAttacks KING (BitboardUtils.lsb (_pieces b us KING)) us occ).
    unfold ours, us, occ. rewrite In_piece_targets by discriminate.
    fold us occ ours. unfold piece_move. fold us occ ours.
    split.
    + intros [[[H|(p & Hp & H)]|(Ef & Ht & Ha & Ho & Epr)]|H].
      * left. exact H.
      * right; left. exists p. split; [tauto | exact H].
      * right; left. exists KING. split; [tauto|].
        assert (Hpos : 0 < _pieces b us KING) by (pose proof (Hr us KING) as [? ?]; lia).
        pose proof (lsb_real _ (Hr us KING) Ek) as Hf.
        pose proof (lsb_set _ Hpos) as Hb.
        rewrite <- Ef in Hf, Hb, Ha. tauto.
      * right; right. tauto.
    + intros [H|[(p & Hp & Hf & Ht & Hb & Ha & Ho & Epr)|[_ H]]].
      * left; left; left. exact H.
      * destruct Hp as [->|[->|[->|[->| ->]]]];
          try (left; left; right;
               first [exists KNIGHT; tauto | exists BISHOP; tauto
                     | exists ROOK; tauto | exists QUEEN; tauto]).
        left; right.
        assert (E : BitboardUtils.lsb (_pieces b us KING) = from m).
        { apply bits_one_lsb; try assumption; [apply Hr|].
          pose proof (bits_pos _ _ Hf Hb). lia. }
        rewrite E. tauto.
      * right. exact H.
  - apply nz_false in Ek. rewrite Hlower, Hpawns. unfold piece_move. fold us occ ours.
    split.
    + intros [H|(p & Hp & H)]; [left; exact H|].
      right; left. exists p. split; [tauto | exact H].
    + intros [H|[(p & Hp & Hf & Ht & Hb & Ha & Ho & Epr)|[H _]]].
      * left. exact H.
      * destruct Hp as [->|[->|[->|[->| ->]]]];
          try (right;
               first [exists KNIGHT; tauto | exists BISHOP; tauto
                     | exists ROOK; tauto | exists QUEEN; tauto]).
        rewrite Ek, Z.bits_0 in Hb. discriminate.
      * congruence.
Qed.

Lemma pseudo_legal_moves_characterised_witness :
  In (mkMove G1 21 NO_PIECE_TYPE) (generatePseudoLegalMoves Board_new)
  <-> (exists f, real_square f
                 /\ Z.testbit (_pieces Board_new (_sideToMove Board_new) PAWN) f = true
                 /\ In (mkMove G1 21 NO_PIECE_TYPE)
                      (pawn_moves Board_new (_sideToMove Board_new)
                         (_occupiedSquares Board_new) f []))
      \/ piece_move Board_new (mkMove G1 21 NO_PIECE_TYPE)
      \/ (_pieces Board_new (_sideToMove Board_new) KING <> 0
          /\ In (mkMove G1 21 NO_PIECE_TYPE)
               (castling_moves Board_new (_sideToMove Board_new)
                  (_occupiedSquares Board_new) [])).
Proof.
  apply (pseudo_legal_moves_characterised Board_new (mkMove G1 21 NO_PIECE_TYPE)).
  - intros c p. destruct c, p; vm_compute; split; congruence.
  - vm_compute. lia.
Defined.

(** ** board.cpp: the effect of castling *)

Lemma makeMove_mover b b' m :
  makeMove b m = (true, b') -> snd (pieceAt b (from m)) = _sideToMove b.
Proof.
  intros H.
  destruct (Color_eqb (snd (pieceAt b (from m))) (_sideToMove b)) eqn:Ec.
  - apply Color_eqb_eq, Ec.
  - rewrite (makeMove_early b m) in H; [discriminate|].
    right; left. intros E. rewrite E in Ec.
    destruct (_sideToMove b); discriminate.
Qed.

Lemma pieceAt_unoccupied b sq :
  Invariant b -> real_square sq ->
  Z.testbit (_occupiedSquares b) sq = false ->
  pieceAt b sq = (NO_PIECE_TYPE, NO_COLOR).
Proof.
  intros I Hsq Ho. rewrite (I_occupied b I), Z.lor_spec in Ho.
  apply orb_false_iff in Ho. destruct Ho as [Hw Hk].
  unfold pieceAt. cbv zeta. cbn [_allPieces].
  rewrite !nz_land_bit by exact Hsq. rewrite Hw, Hk. reflexivity.
Qed.

Lemma same_pieces_castling_apply b us kf kt rf rt rights :
  same_pieces (castling_apply b us kf kt rf rt rights)
    (put_piece (remove_piece (put_piece (remove_piece b us KING kf) us KING kt) us ROOK rf)
       us ROOK rt).
Proof. unfold castling_apply. cbv zeta. apply same_pieces_set_castlingRights. Qed.

Lemma real_leb s : real_square s -> (0 <=? s) = true.
Proof. intros [H0 H1]. apply Z.leb_le. lia. Qed.

Lemma real_ltb s : real_square s -> (s <? 64) = true.
Proof. intros [H0 H1]. apply Z.ltb_lt. lia. Qed.

(** The squares after the statements of a castling branch. *)
Lemma castling_apply_cells b us kf kt rf rt rights c' p' i :
  Invariant b -> us <> NO_COLOR ->
  real_square kf -> real_square kt -> real_square rf -> real_square rt ->
  kf <> kt -> kf <> rf -> kf <> rt -> kt <> rf -> kt <> rt -> rf <> rt ->
  real_square i ->
  pieceAt b kf = (KING, us) -> pieceAt b rf = (ROOK, us) ->
  pieceAt b kt = (NO_PIECE_TYPE, NO_COLOR) -> pieceAt b rt = (NO_PIECE_TYPE, NO_COLOR) ->
  c' <> NO_COLOR -> p' <> NO_PIECE_TYPE ->
  Z.testbit (_pieces (castling_apply b us kf kt rf rt rights) c' p') i
  = cell_is (if i =? kt then (KING, us)
             else if i =? rt then (ROOK, us)
             else if (i =? kf) || (i =? rf) then (NO_PIECE_TYPE, NO_COLOR)
             else pieceAt b i) c' p'.
Proof.
  intros I Hus Rkf Rkt Rrf Rrt N1 N2 N3 N4 N5 N6 Hi Ekf Erf Ekt Ert Hc' Hp'.
  pose proof (cell_bits b kf c' p' I Rkf Hc' Hp') as Bkf. rewrite Ekf in Bkf.
  pose proof (cell_bits b rf c' p' I Rrf Hc' Hp') as Brf. rewrite Erf in Brf.
  pose proof (cell_bits b kt c' p' I Rkt Hc' Hp') as Bkt. rewrite Ekt in Bkt.
  pose proof (cell_bits b rt c' p' I Rrt Hc' Hp') as Brt. rewrite Ert in Brt.
  pose proof (cell_bits b i c' p' I Hi Hc' Hp') as Bi.
  rewrite same_pieces_castling_apply.
  rewrite pieces_put_piece, pieces_remove_piece, pieces_put_piece, pieces_remove_piece
    by (assumption || discriminate).
  destruct (Z.eqb_spec i kt) as [->|Mkt].
  { replace (kt =? kf) with false in * by (symmetry; apply Z.eqb_neq; congruence).
    replace (kt =? rf) with false in * by (symmetry; apply Z.eqb_neq; congruence).
    replace (kt =? rt) with false in * by (symmetry; apply Z.eqb_neq; congruence).
    destruct us, c', p'; try congruence;
      cbn [Color_eqb PieceType_eqb andb cell_is fst snd] in *;
      rewrite ?Z.lor_spec, ?Z.land_spec, ?not64_bits, ?(bit_bits_real kf _ Rkf), ?(bit_bits_real kt _ Rkt),
        ?(bit_bits_real rf _ Rrf), ?(bit_bits_real rt _ Rrt), ?Bkt, ?Z.eqb_refl;
      rewrite ?(real_leb kt Rkt), ?(real_ltb kt Rkt), ?(real_leb kf Rkf), ?(real_ltb kf Rkf),
        ?(real_leb rf Rrf), ?(real_ltb rf Rrf), ?(real_leb rt Rrt), ?(real_ltb rt Rrt);
      replace (kt =? kf) with false by (symmetry; apply Z.eqb_neq; congruence);
      replace (kt =? rf) with false by (symmetry; apply Z.eqb_neq; congruence);
      replace (kt =? rt) with false by (symmetry; apply Z.eqb_neq; congruence);
      cbn [andb orb negb]; reflexivity. }
  destruct (Z.eqb_spec i rt) as [->|Mrt].
  { destruct us, c', p'; try congruence;
      cbn [Color_eqb PieceType_eqb andb cell_is fst snd] in *;
      rewrite ?Z.lor_spec, ?Z.land_spec, ?not64_bits, ?(bit_bits_real kf _ Rkf), ?(bit_bits_real kt _ Rkt),
        ?(bit_bits_real rf _ Rrf), ?(bit_bits_real rt _ Rrt), ?Brt, ?Z.eqb_refl;
      rewrite ?(real_leb kt Rkt), ?(real_ltb kt Rkt), ?(real_leb kf Rkf), ?(real_ltb kf Rkf),
        ?(real_leb rf Rrf), ?(real_ltb rf Rrf), ?(real_leb rt Rrt), ?(real_ltb rt Rrt);
      replace (rt =? kf) with false by (symmetry; apply Z.eqb_neq; congruence);
      replace (rt =? rf) with false by (symmetry; apply Z.eqb_neq; congruence);
      replace (rt =? kt) with false by (symmetry; apply Z.eqb_neq; congruence);
      cbn [andb orb negb]; reflexivity. }
  destruct (Z.eqb_spec i kf) as [->|Mkf].
  { cbn [orb].
    destruct us, c', p'; try congruence;
      cbn [Color_eqb PieceType_eqb andb cell_is fst snd] in *;
      rewrite ?Z.lor_spec, ?Z.land_spec, ?not64_bits, ?(bit_bits_real kf _ Rkf), ?(bit_bits_real kt _ Rkt),
        ?(bit_bits_real rf _ Rrf), ?(bit_bits_real rt _ Rrt), ?Bkf, ?Z.eqb_refl;
      rewrite ?(real_leb kt Rkt), ?(real_ltb kt Rkt), ?(real_leb kf Rkf), ?(real_ltb kf Rkf),
        ?(real_leb rf Rrf), ?(real_ltb rf Rrf), ?(real_leb rt Rrt), ?(real_ltb rt Rrt);
      replace (kf =? kt) with false by (symmetry; apply Z.eqb_neq; congruence);
      replace (kf =? rf) with false by (symmetry; apply Z.eqb_neq; congruence);
      replace (kf =? rt) with false by (symmetry; apply Z.eqb_neq; congruence);
      cbn [andb orb negb]; reflexivity. }
  destruct (Z.eqb_spec i rf) as [->|Mrf].
  { cbn [orb].
    destruct us, c', p'; try congruence;
      cbn [Color_eqb PieceType_eqb andb cell_is fst snd] in *;
      rewrite ?Z.lor_spec, ?Z.land_spec, ?not64_bits, ?(bit_bits_real kf _ Rkf), ?(bit_bits_real kt _ Rkt),
        ?(bit_bits_real rf _ Rrf), ?(bit_bits_real rt _ Rrt), ?Brf, ?Z.eqb_refl;
      rewrite ?(real_leb kt Rkt), ?(real_ltb kt Rkt), ?(real_leb kf Rkf), ?(real_ltb kf Rkf),
        ?(real_leb rf Rrf), ?(real_ltb rf Rrf), ?(real_leb rt Rrt), ?(real_ltb rt Rrt);
      replace (rf =? kt) with false by (symmetry; apply Z.eqb_neq; congruence);
      replace (rf =? kf) with false by (symmetry; apply Z.eqb_neq; congruence);
      replace (rf =? rt) with false by (symmetry; apply Z.eqb_neq; congruence);
      cbn [andb orb negb]; reflexivity. }
  cbn [orb].
  destruct (Color_eqb us c' && PieceType_eqb KING p'),
    (Color_eqb us c' && PieceType_eqb ROOK p');
    cbv iota;
    repeat (rewrite Z.lor_spec || rewrite Z.land_spec || rewrite not64_bits);
    rewrite ?(bit_bits_real kf _ Rkf), ?(bit_bits_real kt _ Rkt),
        ?(bit_bits_real rf _ Rrf), ?(bit_bits_real rt _ Rrt), ?Bi;
    rewrite ?(real_leb i Hi), ?(real_ltb i Hi);
    replace (i =? kt) with false by (symmetry; apply Z.eqb_neq; congruence);
    replace (i =? kf) with false by (symmetry; apply Z.eqb_neq; congruence);
    replace (i =? rf) with false by (symmetry; apply Z.eqb_neq; congruence);
    replace (i =? rt) with false by (symmetry; apply Z.eqb_neq; congruence);
    cbn [andb orb negb]; rewrite ?orb_false_r, ?andb_true_r; reflexivity.
Qed.

Lemma enPassant_set_pieces b c p v :
  _enPassantSquare (set_pieces b c p v) = _enPassantSquare b.
Proof. destruct c; reflexivity. Qed.

Lemma castling_apply_fields b us kf kt rf rt rights :
  _castlingRights (castling_apply b us kf kt rf rt rights)
  = Z.land (_castlingRights b) (Z.lnot rights)
  /\ _enPassantSquare (castling_apply b us kf kt rf rt rights) = _enPassantSquare b.
Proof.
  unfold castling_apply. cbv zeta. cbn [_castlingRights _enPassantSquare set_castlingRights].
  unfold put_piece, remove_piece.
  rewrite !rights_set_pieces, !enPassant_set_pieces. split; reflexivity.
Qed.

Lemma enPassant_update_game_state b mp ic :
  _enPassantSquare (update_game_state b mp ic) = _enPassantSquare b.
Proof.
  unfold update_game_state. cbv zeta.
  repeat match goal with
         | |- context [if ?c then _ else _] => destruct c
         end; reflexivity.
Qed.

Lemma land_lnot_self r x : Z.land (Z.land r (Z.lnot x)) x = 0.
Proof.
  rewrite <- Z.land_assoc, (Z.land_comm (Z.lnot x) x), Z.land_lnot_diag, Z.land_0_r.
  reflexivity.
Qed.

Lemma castling_guard_squares b right between us transit them s :
  castling_refused b right between us transit them = false ->
  Z.testbit between s = true ->
  Z.testbit (_occupiedSquares b) s = false.
Proof.
  unfold castling_refused. intros H Hs.
  apply orb_false_iff in H. destruct H as [H _].
  apply orb_false_iff in H. destruct H as [H _].
  apply orb_false_iff in H. destruct H as [_ H].
  apply nz_false in H.
  assert (E : Z.testbit (Z.land (_occupiedSquares b) between) s = false)
    by (rewrite H; apply Z.testbit_0_l).
  rewrite Z.land_spec, Hs, andb_true_r in E. exact E.
Qed.

(** The castling branch that [makeMove] takes for a castling move. *)
Lemma dispatch_castles b m us kt rf rt ic cc cp b1 :
  castles b m us kt rf rt ->
  dispatch b m us KING ic cc cp = Some b1 ->
  b1 = castling_apply b us (from m) kt rf rt (rights_of us)
  /\ Z.testbit (_occupiedSquares b) kt = false
  /\ Z.testbit (_occupiedSquares b) rt = false
  /\ us <> NO_COLOR
  /\ real_square (from m) /\ real_square kt /\ real_square rf /\ real_square rt
  /\ from m <> kt /\ from m <> rf /\ from m <> rt /\ kt <> rf /\ kt <> rt /\ rf <> rt.
Proof.
  intros (Hside & _ & Hto & Hc) Hd.
  unfold dispatch in Hd. cbv zeta in Hd. cbn [PieceType_eqb] in Hd.
  rewrite Hside, Hto in Hd.
  destruct Hc as [(-> & Ef & [(-> & -> & ->)|(-> & -> & ->)])
                 |(-> & Ef & [(-> & -> & ->)|(-> & -> & ->)])];
    rewrite Ef in *; cbn [Z.eqb Pos.eqb E1 G1 C1 E8 G8 C8 andb Color_eqb] in Hd;
    match type of Hd with
    | (if ?g then None else Some _) = Some _ =>
        destruct g eqn:Eg; [discriminate|]; injection Hd as <-
    end;
    (split; [reflexivity|]);
    (split; [apply (castling_guard_squares _ _ _ _ _ _ _ Eg); vm_compute; reflexivity|]);
    (split; [apply (castling_guard_squares _ _ _ _ _ _ _ Eg); vm_compute; reflexivity|]);
    (split; [discriminate|]);
    unfold real_square; vm_compute; repeat split; discriminate.
Qed.

(** An accepted castling move on a position that satisfies the bitboard
    invariants, with the rook of the side to move in its corner, puts the
    king on its target square and the rook next to it, empties the two
    squares they came from and leaves every other square as it was; the
    invariants hold again, the side that castled has no castling right
    left, and the en passant square is the one from before the move. *)
Theorem makeMove_castling_effect (b b' : Board) (m : Move) (us : Color)
    (kt rf rt : Square) :
  position_invariant b = true ->
  castles b m us kt rf rt ->
  pieceAt b rf = (ROOK, us) ->
  makeMove b m = (true, b') ->
  position_invariant b' = true
  /\ (forall sq, real_square sq ->
        pieceAt b' sq
        = if sq =? kt then (KING, us)
          else if sq =? rt then (ROOK, us)
          else if (sq =? from m) || (sq =? rf) then (NO_PIECE_TYPE, NO_COLOR)
          else pieceAt b sq)
  /\ Z.land (_castlingRights b') (rights_of us) = 0
  /\ _enPassantSquare b' = _enPassantSquare b.
Proof.
  intros Hinv Hc Hrook Hmove.
  pose proof (position_invariant_facts b Hinv) as I.
  pose proof (makeMove_mover b b' m Hmove) as Hmover.
  destruct (makeMove_cases b m) as [E|(b1 & Hd & _ & [[_ E]|[_ E]])];
    rewrite E in Hmove; try discriminate; injection Hmove as <-.
  pose proof Hc as (Hside & Hking & Hto & _).
  destruct (pieceAt b (from m)) as [p c] eqn:Efrom.
  cbn [fst snd] in *. subst p. rewrite Hside in Hmover. subst c.
  destruct (dispatch_castles _ _ _ _ _ _ _ _ _ _ Hc Hd)
    as (-> & Okt & Ort & Hus & Rkf & Rkt & Rrf & Rrt & N1 & N2 & N3 & N4 & N5 & N6).
  pose proof (pieceAt_unoccupied b kt I Rkt Okt) as Ekt.
  pose proof (pieceAt_unoccupied b rt I Rrt Ort) as Ert.
  set (b1 := castling_apply b us (from m) kt rf rt (rights_of us)) in *.
  set (b' := update_game_state (updateCombinedBitboards b1) KING
               (negb (Color_eqb (snd (pieceAt b (to m))) NO_COLOR))).
  set (X := fun i : Square =>
              if i =? kt then (KING, us)
              else if i =? rt then (ROOK, us)
              else if (i =? from m) || (i =? rf) then (NO_PIECE_TYPE, NO_COLOR)
              else pieceAt b i).
  assert (Hcell : forall i c' p', real_square i -> c' <> NO_COLOR -> p' <> NO_PIECE_TYPE ->
            Z.testbit (_pieces b' c' p') i = cell_is (X i) c' p').
  { intros i c' p' Hi Hc' Hp'. unfold b', b1.
    rewrite update_game_state_pieces, updateCombinedBitboards_pieces.
    apply castling_apply_cells; assumption. }
  assert (Hrange : pieces_in_range b').
  { apply range_update_game_state, range_updateCombinedBitboards.
    apply (dispatch_range _ _ _ _ _ _ _ _ (I_range b I) Hd). }
  assert (Hcons : combined_consistent b')
    by apply update_game_state_consistent, updateCombinedBitboards_consistent.
  pose proof (Invariant_of_cells b' X Hrange Hcons
                (fun i c' p' Hi Hc' Hp' => Hcell i c' p' Hi Hc' Hp')) as I'.
  split; [apply Invariant_position_invariant, I'|].
  split.
  { intros sq Hsq.
    change (pieceAt b' sq = X sq).
    apply pieceAt_of_cells; [exact I' | exact Hsq | | intros c' p' Hc' Hp'; apply Hcell; assumption].
    unfold X.
    destruct (sq =? kt); [right; cbn [fst snd]; split; [discriminate | exact Hus]|].
    destruct (sq =? rt); [right; cbn [fst snd]; split; [discriminate | exact Hus]|].
    destruct ((sq =? from m) || (sq =? rf)); [left; reflexivity | apply pieceAt_cell_value]. }
  destruct (castling_apply_fields b us (from m) kt rf rt (rights_of us)) as [Er Ee].
  split.
  - unfold b'. rewrite rights_update_game_state, rights_updateCombinedBitboards.
    fold b1 in Er. rewrite Er. apply land_lnot_self.
  - unfold b'. rewrite enPassant_update_game_state.
    change (_enPassantSquare (updateCombinedBitboards b1)) with (_enPassantSquare b1).
    exact Ee.
Qed.

Lemma makeMove_castling_effect_witness :
  let b := snd (setFromFen Board_new "r3k2r/8/8/8/8/8/8/R3K2R w KQkq - 0 1") in
  pieceAt (snd (makeMove b (mkMove E1 G1 NO_PIECE_TYPE))) F1 = (ROOK, WHITE).
Proof.
  intros b.
  destruct (makeMove_castling_effect b (snd (makeMove b (mkMove E1 G1 NO_PIECE_TYPE)))
              (mkMove E1 G1 NO_PIECE_TYPE) WHITE G1 H1 F1) as (_ & H & _).
  - vm_compute. reflexivity.
  - unfold castles. cbn [from to].
    repeat split; try (vm_compute; reflexivity).
    left. repeat split. left. repeat split.
  - vm_compute. reflexivity.
  - vm_compute. reflexivity.
  - rewrite (H F1) by (unfold real_square, F1; lia). reflexivity.
Defined.

(** ** board.cpp: the effect of promotions and en passant captures *)

Lemma cells_pieceAt b : Invariant b -> cells b (pieceAt b).
Proof. intros I i c p Hi Hc Hp. apply cell_bits; assumption. Qed.

Lemma cells_same_pieces b1 b2 X : same_pieces b1 b2 -> cells b2 X -> cells b1 X.
Proof. intros S C i c p Hi Hc Hp. rewrite S. apply C; assumption. Qed.

Lemma bit_bits_at s i : real_square i -> Z.testbit (bit s) i = (i =? s).
Proof.
  intros [H0 H1]. rewrite bit_bits.
  destruct (Z.eqb_spec i s) as [<-|N]; [|reflexivity].
  replace (0 <=? i) with true by (symmetry; apply Z.leb_le; lia).
  replace (i <? 64) with true by (symmetry; apply Z.ltb_lt; lia).
  reflexivity.
Qed.

Lemma cell_is_inj x c p c' p' :
  cell_is x c p = true -> cell_is x c' p' = Color_eqb c c' && PieceType_eqb p p'.
Proof.
  unfold cell_is. intros H. apply andb_true_iff in H. destruct H as [Hp Hc].
  apply PieceType_eqb_eq in Hp. apply Color_eqb_eq in Hc. rewrite Hp, Hc.
  apply andb_comm.
Qed.

(** Clearing a bit of one piece bitboard empties the square when it held
    that piece and changes nothing otherwise. *)
Lemma cells_remove_piece b X c p sq :
  c <> NO_COLOR -> p <> NO_PIECE_TYPE ->
  cells b X ->
  cells (remove_piece b c p sq)
    (fun i => if (i =? sq) && cell_is (X i) c p then (NO_PIECE_TYPE, NO_COLOR) else X i).
Proof.
  intros Hc Hp C i c' p' Hi Hc' Hp'.
  rewrite pieces_remove_piece by assumption.
  pose proof (C i c' p' Hi Hc' Hp') as Bi.
  pose proof (C i c p Hi Hc Hp) as Bo.
  destruct (Color_eqb c c' && PieceType_eqb p p') eqn:E.
  - apply andb_true_iff in E. destruct E as [Ec Ep].
    apply Color_eqb_eq in Ec. apply PieceType_eqb_eq in Ep. subst c' p'.
    rewrite Z.land_spec, not64_bits, (bit_bits_at sq i Hi), Bi.
    rewrite (real_leb i Hi), (real_ltb i Hi), !andb_true_r.
    destruct (i =? sq); destruct (cell_is (X i) c p) eqn:E3; cbn [negb andb];
      rewrite ?(cell_is_empty c p Hp), ?E3; reflexivity.
  - rewrite Bi.
    destruct ((i =? sq) && cell_is (X i) c p) eqn:E2; [|reflexivity].
    apply andb_true_iff in E2. destruct E2 as [_ E2].
    rewrite (cell_is_inj _ _ _ c' p' E2), E. symmetry. apply cell_is_empty, Hp'.
Qed.

(** Setting a bit of one piece bitboard on an empty square puts that
    piece there. *)
Lemma cells_put_piece b X c p sq :
  c <> NO_COLOR -> p <> NO_PIECE_TYPE ->
  X sq = (NO_PIECE_TYPE, NO_COLOR) ->
  cells b X ->
  cells (put_piece b c p sq) (fun i => if i =? sq then (p, c) else X i).
Proof.
  intros Hc Hp Hempty C i c' p' Hi Hc' Hp'.
  rewrite pieces_put_piece by assumption.
  pose proof (C i c' p' Hi Hc' Hp') as Bi.
  destruct (Z.eqb_spec i sq) as [->|N].
  - rewrite Hempty in Bi. rewrite (cell_is_empty c' p' Hp') in Bi.
    rewrite cell_is_pair.
    destruct (Color_eqb c c' && PieceType_eqb p p'); [|exact Bi].
    rewrite Z.lor_spec, (bit_bits_at sq sq Hi), Z.eqb_refl. apply orb_true_r.
  - destruct (Color_eqb c c' && PieceType_eqb p p'); [|exact Bi].
    rewrite Z.lor_spec, (bit_bits_at sq i Hi), Bi.
    replace (i =? sq) with false by (symmetry; apply Z.eqb_neq; exact N).
    apply orb_false_r.
Qed.

(** From the cells of the board after the piece-moving statements to the
    position after an accepted move. *)
Lemma accepted_cells b m b1 mp ic X :
  pieces_in_range b ->
  dispatch b m (snd (pieceAt b (from m))) (fst (pieceAt b (from m)))
    (negb (Color_eqb (snd (pieceAt b (to m))) NO_COLOR))
    (snd (pieceAt b (to m))) (fst (pieceAt b (to m))) = Some b1 ->
  cells b1 X -> (forall i, cell_value (X i)) ->
  let b' := update_game_state (updateCombinedBitboards b1) mp ic in
  position_invariant b' = true
  /\ forall sq, real_square sq -> pieceAt b' sq = X sq.
Proof.
  intros Hr Hd C V b'.
  assert (Hcell : cells b' X).
  { intros i c' p' Hi Hc' Hp'. unfold b'.
    rewrite update_game_state_pieces, updateCombinedBitboards_pieces.
    apply C; assumption. }
  assert (Hrange : pieces_in_range b').
  { apply range_update_game_state, range_updateCombinedBitboards.
    apply (dispatch_range _ _ _ _ _ _ _ _ Hr Hd). }
  assert (Hcons : combined_consistent b')
    by apply update_game_state_consistent, updateCombinedBitboards_consistent.
  pose proof (Invariant_of_cells b' X Hrange Hcons Hcell) as I'.
  split; [apply Invariant_position_invariant, I'|].
  intros sq Hsq.
  apply pieceAt_of_cells; [exact I' | exact Hsq | apply V |].
  intros c' p' Hc' Hp'. apply Hcell; assumption.
Qed.

Lemma mover_is_a_piece b m p c :
  pieceAt b (from m) = (p, c) -> p <> NO_PIECE_TYPE -> c <> NO_COLOR.
Proof.
  intros E Hp. destruct (pieceAt_cell_value b (from m)) as [V|[_ V]]; rewrite E in V.
  - injection V as -> ->. congruence.
  - exact V.
Qed.

Lemma cell_is_self p c : p <> NO_PIECE_TYPE -> c <> NO_COLOR -> cell_is (p, c) c p = true.
Proof. intros Hp Hc. destruct p, c; try congruence; reflexivity. Qed.

(** The target square after the capture statement of a branch. *)
Lemma capture_cleared b m cp cc X :
  pieceAt b (to m) = (cp, cc) ->
  X (to m) = (cp, cc) ->
  (if negb (Color_eqb cc NO_COLOR)
   then (if (to m =? to m) && cell_is (X (to m)) cc cp
         then (NO_PIECE_TYPE, NO_COLOR) else X (to m))
   else X (to m)) = (NO_PIECE_TYPE, NO_COLOR).
Proof.
  intros Eto EX. rewrite EX.
  destruct (pieceAt_cell_value b (to m)) as [V|[V1 V2]]; rewrite Eto in *.
  - injection V as -> ->. reflexivity.
  - cbn [fst snd] in *. rewrite Z.eqb_refl, cell_is_self by assumption.
    destruct cc; try congruence; reflexivity.
Qed.

(** An accepted pawn move that carries a promotion piece, on a position
    that satisfies the bitboard invariants: afterwards the target square
    holds the promotion piece in the mover's color (whatever stood there
    is gone), the source square is empty, every other square is as
    before, and the invariants hold again.  The rank of the target and
    the kind of the promotion piece are not looked at, and the castling
    rights are the ones from before the move. *)
Theorem makeMove_promotion_effect (b b' : Board) (m : Move) :
  position_invariant b = true ->
  structurally_valid m -> from m <> to m ->
  promotion_move b m = true ->
  makeMove b m = (true, b') ->
  position_invariant b' = true
  /\ (forall sq, real_square sq ->
        pieceAt b' sq
        = if sq =? to m then (promotion m, _sideToMove b)
          else if sq =? from m then (NO_PIECE_TYPE, NO_COLOR)
          else pieceAt b sq)
  /\ _castlingRights b' = _castlingRights b.
Proof.
  intros Hinv [Hf Ht] Hne Hpromo Hmove.
  pose proof (position_invariant_facts b Hinv) as I.
  pose proof (makeMove_mover b b' m Hmove) as Hmover.
  destruct (makeMove_cases b m) as [E|(b1 & Hd & _ & [[_ E]|[_ E]])];
    rewrite E in Hmove; try discriminate; injection Hmove as <-.
  unfold promotion_move in Hpromo.
  destruct (pieceAt b (from m)) as [p c] eqn:Efrom.
  destruct (pieceAt b (to m)) as [cp cc] eqn:Eto.
  cbn [fst snd] in *.
  apply andb_true_iff in Hpromo. destruct Hpromo as [Hpromo P3].
  apply andb_true_iff in Hpromo. destruct Hpromo as [P1 P2].
  apply PieceType_eqb_eq in P1. subst p.
  apply negb_true_iff in P2.
  assert (Hq : promotion m <> NO_PIECE_TYPE).
  { intros Eq. rewrite Eq in P3. discriminate. }
  assert (Hc : c <> NO_COLOR) by (apply (mover_is_a_piece b m PAWN c Efrom); discriminate).
  unfold dispatch in Hd. cbv zeta in Hd. cbn [PieceType_eqb andb] in Hd.
  rewrite P2, P3 in Hd. injection Hd as Hb1.
  set (X1 := fun i => if (i =? from m) && cell_is (pieceAt b i) c PAWN
                      then (NO_PIECE_TYPE, NO_COLOR) else pieceAt b i).
  set (X2 := fun i => if negb (Color_eqb cc NO_COLOR)
                      then (if (i =? to m) && cell_is (X1 i) cc cp
                            then (NO_PIECE_TYPE, NO_COLOR) else X1 i)
                      else X1 i).
  set (X3 := fun i => if i =? to m then (promotion m, c) else X2 i).
  assert (C1 : cells (remove_piece b c PAWN (from m)) X1)
    by (apply cells_remove_piece; [exact Hc | discriminate | apply cells_pieceAt, I]).
  assert (E1to : X1 (to m) = (cp, cc)).
  { unfold X1. replace (to m =? from m) with false by (symmetry; apply Z.eqb_neq; congruence).
    exact Eto. }
  assert (C3 : cells b1 X3).
  { rewrite <- Hb1. apply cells_put_piece; [exact Hc | exact Hq | |].
    - unfold X2. apply (capture_cleared b m cp cc X1 Eto E1to).
    - unfold X2. destruct (negb (Color_eqb cc NO_COLOR)) eqn:Ecap; [|exact C1].
      destruct (pieceAt_cell_value b (to m)) as [V|[V1 V2]]; rewrite Eto in *.
      + injection V as -> ->. discriminate.
      + cbn [fst snd] in *. apply cells_remove_piece; assumption. }
  assert (V3 : forall i, cell_value (X3 i)).
  { intros i. unfold X3, X2, X1.
    destruct (i =? to m); [right; cbn [fst snd]; split; assumption|].
    destruct (negb (Color_eqb cc NO_COLOR));
      repeat match goal with
             | |- context [if ?g then _ else _] => destruct g
             end; first [left; reflexivity | apply pieceAt_cell_value]. }
  assert (Hd' : dispatch b m (snd (pieceAt b (from m))) (fst (pieceAt b (from m)))
                  (negb (Color_eqb (snd (pieceAt b (to m))) NO_COLOR))
                  (snd (pieceAt b (to m))) (fst (pieceAt b (to m))) = Some b1).
  { rewrite Efrom, Eto. cbn [fst snd]. unfold dispatch. cbv zeta. cbn [PieceType_eqb andb].
    rewrite P2, P3. cbn [negb]. rewrite Hb1. reflexivity. }
  destruct (accepted_cells b m b1 PAWN (negb (Color_eqb cc NO_COLOR)) X3
              (I_range b I) Hd' C3 V3) as [Hinv' Hat].
  split; [exact Hinv'|]. split.
  - intros sq Hsq. rewrite (Hat sq Hsq). unfold X3, X2, X1. rewrite <- Hmover.
    destruct (Z.eqb_spec sq (to m)) as [->|N1]; [reflexivity|].
    rewrite andb_false_l.
    destruct (Z.eqb_spec sq (from m)) as [->|N2].
    + rewrite Efrom, cell_is_self by (discriminate || exact Hc). cbn [andb].
      destruct (negb (Color_eqb cc NO_COLOR)); reflexivity.
    + cbn [andb]. destruct (negb (Color_eqb cc NO_COLOR)); reflexivity.
  - rewrite rights_update_game_state, rights_updateCombinedBitboards, <- Hb1.
    rewrite rights_put_piece.
    destruct (negb (Color_eqb cc NO_COLOR)); rewrite ?rights_remove_piece; reflexivity.
Qed.

Lemma makeMove_promotion_effect_witness :
  let b := snd (setFromFen Board_new "r3k3/1P6/8/8/8/8/8/4K3 w q - 0 1") in
  pieceAt (snd (makeMove b (mkMove B7 A8 QUEEN))) A8 = (QUEEN, WHITE).
Proof.
  intros b.
  destruct (makeMove_promotion_effect b (snd (makeMove b (mkMove B7 A8 QUEEN)))
              (mkMove B7 A8 QUEEN)) as (_ & H & _).
  - vm_compute. reflexivity.
  - unfold structurally_valid, real_square. vm_compute. repeat split; discriminate.
  - vm_compute. discriminate.
  - vm_compute. reflexivity.
  - vm_compute. reflexivity.
  - rewrite (H A8) by (unfold real_square, A8; lia). reflexivity.
Defined.

Lemma enPassant_update_combined b :
  _enPassantSquare (updateCombinedBitboards b) = _enPassantSquare b.
Proof. reflexivity. Qed.

(** An accepted pawn move onto the en passant square, the square being
    empty and the square behind it (one rank towards the mover's side)
    being on the board, on a position that satisfies the bitboard
    invariants: afterwards the pawn stands on the en passant square, its
    source square is empty, a pawn of the other side on the square behind
    the en passant square is gone, every other square is as before, the
    invariants hold again, there is no en passant square and the castling
    rights are the ones from before.  The file of the source square is
    not looked at. *)
Theorem makeMove_en_passant_effect (b b' : Board) (m : Move) :
  position_invariant b = true ->
  structurally_valid m -> from m <> to m ->
  en_passant_capture b m = true ->
  pieceAt b (to m) = (NO_PIECE_TYPE, NO_COLOR) ->
  real_square (if Color_eqb (_sideToMove b) WHITE then to m - 8 else to m + 8) ->
  makeMove b m = (true, b') ->
  let us := _sideToMove b in
  let them := Color_of_int (1 - Color_to_int us) in
  let victim := if Color_eqb us WHITE then to m - 8 else to m + 8 in
  position_invariant b' = true
  /\ (forall sq, real_square sq ->
        pieceAt b' sq
        = if sq =? to m then (PAWN, us)
          else if sq =? from m then (NO_PIECE_TYPE, NO_COLOR)
          else if (sq =? victim) && cell_is (pieceAt b sq) them PAWN
               then (NO_PIECE_TYPE, NO_COLOR)
          else pieceAt b sq)
  /\ _enPassantSquare b' = NO_SQUARE
  /\ _castlingRights b' = _castlingRights b.
Proof.
  intros Hinv [Hf Ht] Hne Hep Eto Hvictim Hmove us them victim.
  pose proof (position_invariant_facts b Hinv) as I.
  pose proof (makeMove_mover b b' m Hmove) as Hmover.
  destruct (makeMove_cases b m) as [E|(b1 & Hd & _ & [[_ E]|[_ E]])];
    rewrite E in Hmove; try discriminate; injection Hmove as <-.
  unfold en_passant_capture in Hep.
  destruct (pieceAt b (from m)) as [p c] eqn:Efrom.
  cbn [fst snd] in *.
  apply andb_true_iff in Hep. destruct Hep as [P1 P2].
  apply PieceType_eqb_eq in P1. subst p.
  assert (Hc : c <> NO_COLOR) by (apply (mover_is_a_piece b m PAWN c Efrom); discriminate).
  fold us in Hmover. subst c.
  assert (Hthem : them <> NO_COLOR) by (unfold them; destruct us; try congruence; discriminate).
  assert (Hut : Color_eqb us them = false) by (unfold them; destruct us; try congruence; reflexivity).
  pose proof Hd as Hd'.
  assert (Hexp : forall ic cc cp,
            dispatch b m us PAWN ic cc cp
            = Some (set_enPassantSquare
                      (put_piece
                         (remove_piece (remove_piece b them PAWN victim) us PAWN (from m))
                         us PAWN (to m)) NO_SQUARE)).
  { intros ic cc cp. unfold dispatch. cbv zeta.
    change (PieceType_eqb PAWN KING) with false.
    change (PieceType_eqb PAWN PAWN) with true.
    cbv iota. rewrite P2, andb_true_l.
    apply Z.eqb_eq in P2. rewrite <- P2. reflexivity. }
  rewrite Hexp in Hd. injection Hd as Hb1.
  apply Z.eqb_eq in P2.
  set (X1 := fun i => if (i =? victim) && cell_is (pieceAt b i) them PAWN
                      then (NO_PIECE_TYPE, NO_COLOR) else pieceAt b i).
  set (X2 := fun i => if (i =? from m) && cell_is (X1 i) us PAWN
                      then (NO_PIECE_TYPE, NO_COLOR) else X1 i).
  set (X3 := fun i => if i =? to m then (PAWN, us) else X2 i).
  assert (C3 : cells b1 X3).
  { rewrite <- Hb1.
    apply (cells_same_pieces _ _ _ (same_pieces_set_enPassantSquare _ _)).
    apply cells_put_piece; [exact Hc | discriminate | |].
    - unfold X2, X1. rewrite Eto.
      repeat match goal with
             | |- context [if ?g then _ else _] => destruct g
             end; reflexivity.
    - apply cells_remove_piece; [exact Hc | discriminate |].
      apply cells_remove_piece; [exact Hthem | discriminate |].
      apply cells_pieceAt, I. }
  assert (V3 : forall i, cell_value (X3 i)).
  { intros i. unfold X3, X2, X1.
    destruct (i =? to m); [right; cbn [fst snd]; split; [discriminate | exact Hc]|].
    repeat match goal with
           | |- context [if ?g then _ else _] => destruct g
           end; first [left; reflexivity | apply pieceAt_cell_value]. }
  assert (Hd2 : dispatch b m (snd (pieceAt b (from m))) (fst (pieceAt b (from m)))
                  (negb (Color_eqb (snd (pieceAt b (to m))) NO_COLOR))
                  (snd (pieceAt b (to m))) (fst (pieceAt b (to m))) = Some b1)
    by (rewrite Efrom; exact Hd').
  destruct (accepted_cells b m b1 PAWN (negb (Color_eqb (snd (pieceAt b (to m))) NO_COLOR)) X3
              (I_range b I) Hd2 C3 V3) as [Hinv' Hat].
  split; [exact Hinv'|]. split; [|split].
  - intros sq Hsq. rewrite (Hat sq Hsq). unfold X3, X2, X1.
    destruct (Z.eqb_spec sq (to m)) as [->|N1]; [reflexivity|].
    destruct (Z.eqb_spec sq (from m)) as [->|N2].
    + rewrite Efrom, (cell_is_pair PAWN us them PAWN), Hut, andb_false_r.
      cbn [andb]. rewrite cell_is_self by (discriminate || exact Hc). reflexivity.
    + cbn [andb]. reflexivity.
  - rewrite enPassant_update_game_state, enPassant_update_combined, <- Hb1. reflexivity.
  - rewrite rights_update_game_state, rights_updateCombinedBitboards, <- Hb1.
    cbn [set_enPassantSquare _castlingRights].
    rewrite rights_put_piece, !rights_remove_piece. reflexivity.
Qed.

Lemma makeMove_en_passant_effect_witness :
  let b := snd (setFromFen Board_new "4k3/8/8/3pP3/8/8/8/4K3 w - d6 0 1") in
  pieceAt (snd (makeMove b (mkMove 36 43 NO_PIECE_TYPE))) 35 = (NO_PIECE_TYPE, NO_COLOR).
Proof.
  intros b.
  destruct (makeMove_en_passant_effect b (snd (makeMove b (mkMove 36 43 NO_PIECE_TYPE)))
              (mkMove 36 43 NO_PIECE_TYPE)) as (_ & H & _).
  - vm_compute. reflexivity.
  - unfold structurally_valid, real_square. cbn [from to]. lia.
  - cbn [from to]. lia.
  - vm_compute. reflexivity.
  - vm_compute. reflexivity.
  - unfold real_square. vm_compute. split; [discriminate | reflexivity].
  - vm_compute. reflexivity.
  - rewrite (H 35) by (unfold real_square; lia). vm_compute. reflexivity.
Defined.

(** ** board.cpp and movegen.cpp: legal moves, checkmate and stalemate *)

Lemma isInCheck_update_game_state b mp ic c :
  isInCheck (update_game_state b mp ic) c = isInCheck b c.
Proof.
  unfold update_game_state. cbv zeta.
  repeat match goal with
         | |- context [if ?g then _ else _] => destruct g
         end; reflexivity.
Qed.

Lemma makeMove_accepted_safe b m :
  fst (makeMove b m) = true ->
  isInCheck (snd (makeMove b m)) (_sideToMove b) = false.
Proof.
  intros H.
  destruct (makeMove_cases b m) as [E|(b1 & Hd & _ & [[_ E]|[Hc E]])];
    rewrite E in H |- *; try discriminate.
  cbn [snd]. rewrite isInCheck_update_game_state.
  destruct (dispatch_frame _ _ _ _ _ _ _ _ Hd) as [Hclocks _].
  assert (Es : _sideToMove (updateCombinedBitboards b1) = _sideToMove b).
  { change (_sideToMove (updateCombinedBitboards b1)) with (_sideToMove b1).
    unfold clocks in Hclocks. congruence. }
  rewrite <- Es. exact Hc.
Qed.

Lemma no_moves_filter {A : Type} (f : A -> bool) (l : list A) :
  match filter f l with [] => true | _ :: _ => false end = true
  <-> forall x, In x l -> f x = false.
Proof.
  induction l as [|a l IH]; cbn [filter].
  - split; [intros _ x []|reflexivity].
  - destruct (f a) eqn:Ea.
    + split; [discriminate|]. intros H. rewrite (H a) in Ea by (left; reflexivity).
      discriminate.
    + rewrite IH. split.
      * intros H x [<-|Hx]; [exact Ea | apply H, Hx].
      * intros H x Hx. apply H. right. exact Hx.
Qed.

(** The legal moves are exactly the pseudo-legal moves that [makeMove]
    accepts on a copy of the board, and a move that [makeMove] accepts
    never leaves the king of the side that moved attacked. *)
Theorem legal_moves_are_accepted_and_safe (b : Board) (m : Move) :
  (In m (generateLegalMoves b)
   <-> In m (generatePseudoLegalMoves b) /\ fst (makeMove b m) = true)
  /\ (fst (makeMove b m) = true ->
      isInCheck (snd (makeMove b m)) (_sideToMove b) = false).
Proof.
  split.
  - unfold generateLegalMoves, filterLegalMoves. apply filter_In.
  - apply makeMove_accepted_safe.
Qed.

(** Checkmate and stalemate as the code decides them: the side to move
    is (checkmate) or is not (stalemate) in check, and [makeMove] refuses
    every pseudo-legal move; moves outside the generator's list are not
    tried.  The two never hold together, and a position without legal
    moves is one or the other. *)
Theorem checkmate_and_stalemate (b : Board) :
  (isCheckmate b = true
   <-> isInCheck b (_sideToMove b) = true
       /\ forall m, In m (generatePseudoLegalMoves b) -> fst (makeMove b m) = false)
  /\ (isStalemate b = true
      <-> isInCheck b (_sideToMove b) = false
          /\ forall m, In m (generatePseudoLegalMoves b) -> fst (makeMove b m) = false)
  /\ isCheckmate b && isStalemate b = false
  /\ (isCheckmate b || isStalemate b = true <-> generateLegalMoves b = []).
Proof.
  unfold isCheckmate, isStalemate, no_moves, generateLegalMoves, filterLegalMoves.
  pose proof (no_moves_filter (fun move => fst (makeMove b move))
                (generatePseudoLegalMoves b)) as Hn.
  cbv beta in Hn.
  destruct (isInCheck b (_sideToMove b));
    destruct (filter (fun move => fst (makeMove b move)) (generatePseudoLegalMoves b))
      as [|x l];
    cbn [andb orb negb]; repeat split; try tauto; try discriminate;
    try (intros [Hx _]; discriminate).
Qed.

(** ** board.cpp: the en passant square after a move *)

Lemma enPassant_remove_piece b c p sq :
  _enPassantSquare (remove_piece b c p sq) = _enPassantSquare b.
Proof. apply enPassant_set_pieces. Qed.

Lemma enPassant_put_piece b c p sq :
  _enPassantSquare (put_piece b c p sq) = _enPassantSquare b.
Proof. apply enPassant_set_pieces. Qed.

Lemma enPassant_move_piece b m mc mp ic cc cp :
  _enPassantSquare (move_piece b m mc mp ic cc cp) = _enPassantSquare b.
Proof.
  unfold move_piece. cbv zeta. rewrite enPassant_put_piece.
  destruct ic; rewrite ?enPassant_remove_piece; reflexivity.
Qed.

(** The en passant square that each branch of [makeMove] leaves. *)
Lemma dispatch_enPassant b m mc mp ic cc cp b1 :
  dispatch b m mc mp ic cc cp = Some b1 ->
  _enPassantSquare b1
  = match mp with
    | KING => _enPassantSquare b
    | PAWN =>
        if to m =? _enPassantSquare b then NO_SQUARE
        else if negb (PieceType_eqb (promotion m) NO_PIECE_TYPE) then _enPassantSquare b
        else if Z.abs (BitboardUtils.squareRank (to m) - BitboardUtils.squareRank (from m)) =? 2
             then (if Color_eqb (_sideToMove b) WHITE then from m + 8 else from m - 8)
        else NO_SQUARE
    | _ => NO_SQUARE
    end.
Proof.
  unfold dispatch. cbv zeta.
  destruct mp; cbn [PieceType_eqb andb];
    repeat match goal with
           | |- context [if ?g then _ else _] => destruct g
           end;
    intros H; try discriminate; injection H as <-;
    cbn [_enPassantSquare set_enPassantSquare];
    rewrite ?enPassant_put_piece, ?enPassant_move_piece, ?enPassant_remove_piece;
    try reflexivity;
    try (apply castling_apply_fields).
Qed.

(** The en passant square after an accepted move, by the branch that
    [makeMove] takes: a pawn move onto the en passant square clears it;
    another pawn move that carries a promotion piece leaves it as it was;
    another pawn move across two ranks sets it to the square one rank
    ahead of the source square; a king move (castling included) leaves it
    as it was; every other move clears it. *)
Theorem makeMove_en_passant_square (b b' : Board) (m : Move) :
  makeMove b m = (true, b') ->
  _enPassantSquare b'
  = match fst (pieceAt b (from m)) with
    | KING => _enPassantSquare b
    | PAWN =>
        if to m =? _enPassantSquare b then NO_SQUARE
        else if negb (PieceType_eqb (promotion m) NO_PIECE_TYPE) then _enPassantSquare b
        else if Z.abs (BitboardUtils.squareRank (to m) - BitboardUtils.squareRank (from m)) =? 2
             then (if Color_eqb (_sideToMove b) WHITE then from m + 8 else from m - 8)
        else NO_SQUARE
    | _ => NO_SQUARE
    end.
Proof.
  intros Hmove.
  destruct (makeMove_cases b m) as [E|(b1 & Hd & _ & [[_ E]|[_ E]])];
    rewrite E in Hmove; try discriminate; injection Hmove as <-.
  rewrite enPassant_update_game_state, enPassant_update_combined.
  apply (dispatch_enPassant _ _ _ _ _ _ _ _ Hd).
Qed.

Lemma makeMove_en_passant_square_witness :
  _enPassantSquare (snd (makeMove Board_new (mkMove 12 28 NO_PIECE_TYPE))) = 20.
Proof.
  rewrite (makeMove_en_passant_square Board_new
             (snd (makeMove Board_new (mkMove 12 28 NO_PIECE_TYPE)))
             (mkMove 12 28 NO_PIECE_TYPE)).
  - vm_compute. reflexivity.
  - vm_compute. reflexivity.
Defined.
